(* ===== verification/_CoqProject ===== *)
-Q . S2P
Prelude.v
Errors.v
KVec.v
KvecTest.v
Stream.v
Net.v
AsyncNet.v
HttpTypes.v
HttpReader.v
HttpParse.v
HttpWire.v
HttpServer.v
HttpUring.v
LeBytes.v
Mapper.v
Folio.v
Vfs.v
Emits.v
Keeps.v
Boxes.v
UserIo.v
Callbacks.v
Ext2.v
Ext2Blocks.v
Ext2Dir.v
Ext2Mount.v
Ext2Image.v
Iomap.v
Tarfs.v
TarfsProofs.v
TarfsImage.v
Rofs.v
Printk.v
Logging.v
Slices.v
Pointers.v
Registry.v
Pool.v
InodeCache.v
HttpDevice.v
UringSession.v
Arc.v
Blocking.v
Locks.v
Guards.v
Kernel.v
Workqueue.v
Mount.v
Macros.v
Echo.v
Starts.v
Revocable.v
NoWaitLock.v
SocketWake.v
Oneshot.v
UnsafeList.v
Executor.v
