(* ===== verification/Prelude.v ===== *)
(** * Verification of rko

    rko is a framework for Linux kernel modules in Rust: an allocator-aware vector,
    kernel sockets and futures that await them, a workqueue executor with its
    synchronisation, a VFS layer, and on top of these an HTTP server with an
    io_uring command interface and read-only filesystems.  This library models
    that code and proves it correct, in the shape the code has: one file per
    component, one definition per Rust function, interfaces where the components
    meet and where they call kernel code that is not part of the repository.

    ** How the program is modelled

    A fallible function returns [res E A] (below): a value, an error, a panic, [Ub]
    (a safety comment was violated) or [Pending] (not resolved, or out of fuel).
    State is threaded by the monad [M S E A] with the notation [x <-! m ;; k].
    Integers are [Z] at the width of the source: the modules are release builds,
    so arithmetic wraps ([wrap], [sext]); slices, indices, division by zero and
    [assert!] panic.  Bytes are [byte], vectors of bytes are lists behind
    [KVec.VecAlloc], which may refuse any allocation.  Code outside the repository
    is a type class: the operations in one class, what their documentation says in
    a second one ([...Ok]), with a concrete instance for the witnesses.  Concurrent
    code is a step function on the shared state and the program counters of its
    threads, one event per atomic access, and its theorems quantify over all
    interleavings ([Pool.exec]).

    ** Files

    Foundations.  [Prelude] (this file): outcomes, the monad, machine integers, byte
    encodings, tactics ([blia], [zify_bools]) and hints.  [Errors]
    (rko-core/src/error.rs): errno values and the ERR_PTR encoding.  [KVec]
    (alloc/kvec.rs, layout.rs, allocator.rs): [Vec] over a block of slots that may
    be unwritten, its iterators and its drop, and the interface [VecAlloc] the
    other files use it through; [KvecTest] is samples/kvec_test on it.  [Boxes] (alloc/kbox.rs, types/cstring.rs): boxes and C
    strings over a heap of cells; [Slices]: the typed slices of kbox.rs.  [UserIo]
    (user.rs, iov.rs): user memory and I/O vectors.  [Printk] (printk.rs): formatting
    into the kernel's buffers; [Logging]: the log macros around it.  [Pointers] (sync/arc.rs, workqueue.rs,
    lib.rs): raw pointers of boxes, Arcs and work items and back.  [Guards]
    (types/aref.rs, types/locked.rs, alloc/mod.rs): counted references and scopes.
    [Kernel] (time.rs, task.rs, sync/rcu.rs, io_uring.rs, net/namespace.rs): times, tasks, read
    sections and the completion of io_uring commands.  [Macros] (rko-macros, kunit.rs,
    samples/kunit_tests): the procedural macros as functions on items, and test suites.

    Network.  [Stream]: the byte-stream interface [ByteStream].  [Net]
    (net/addr.rs, net/tcp.rs): addresses and blocking sockets over [KernelNet].
    [AsyncNet] (kasync/net/mod.rs): [SocketFuture] and the awaited calls; it
    discharges [ByteStream].

    HTTP.  [HttpTypes] (http/header.rs, headers.rs, version.rs, method.rs,
    status.rs, error.rs, request.rs, response.rs), [HttpReader] (buf_reader.rs),
    [HttpParse] (parse.rs, over the third-party httparse as an interface),
    [HttpWire] (wire.rs), [HttpServer] (server.rs, client.rs) and [HttpUring]
    (uring.rs).  They are proved against [ByteStream] and [VecAlloc] only.
    [HttpDevice] is samples/http_uring: a handler per open file of the device, reached
    through the callbacks of [Registry]; [UringSession] puts a program in userspace on the
    other side of that device (rko-test-uring is one) and composes the whole path from a
    connection to the program and back.  [Echo] is samples/tcp_echo and async_echo;
    [Starts] is the start and the end of all these servers.

    Filesystems.  [LeBytes] (types/le.rs), [Mapper] (fs/mapper.rs, over the page
    cache as [BlockCache]), [Folio] (fs/folio.rs), [Vfs] (fs/inode.rs, sb.rs,
    dentry.rs, dir.rs, vtable.rs, over the VFS as [VfsKernel]), [Callbacks] (the
    trampolines of vtable.rs), [InodeCache] (the slab callbacks of inode.rs and
    vtable.rs); [Emits] and [Keeps] are the directory-listing and resource disciplines
    the filesystems are proved to follow.  [Ext2] models
    samples/ext2, with the proofs in [Ext2Blocks], [Ext2Dir], [Ext2Mount];
    [Tarfs] models samples/tarfs, with the proofs in [TarfsProofs]; [Rofs] models
    samples/rofs_test.  [Iomap] (fs/iomap.rs) reads ext2's pages through the iomap
    callbacks.  [Ext2Image] and [TarfsImage] run them on concrete images.
    [Registry] (module.rs, fs/registration.rs, alloc/memcache.rs, miscdevice.rs): loading
    and unloading of modules, filesystems and devices; [Mount] (vtable.rs, registration.rs):
    contexts, mounting and unmounting.

    Concurrency.  [Pool]: executions as interleavings, and sums over the threads.
    [Revocable] (revocable.rs), [NoWaitLock] (sync/nowaitlock.rs), [SocketWake]
    (kasync/net/mod.rs: poll against the wake callback, using [NoWaitLock]),
    [Oneshot] (kasync/oneshot.rs), [UnsafeList] (unsafe_list.rs), [Executor]
    (kasync/executor/workqueue.rs, workqueue.rs, with a [Revocable] per task),
    [Workqueue] (the work items of workqueue.rs, samples/workqueue_test).  [Arc]
    (sync/arc.rs, refcount.rs), [Locks] (sync/lock/, condvar.rs and the spin mutex of
    uring.rs, with the [Backend] trait as a class), [Blocking] (sync/oneshot.rs,
    completion.rs and [block_on]).

    ** What is proved

    Vectors: any sequence of calls refines the list ([vec_refines_list]), elements
    are dropped exactly once ([into_iter_exactly_once]).  Sockets: the async stream
    keeps the byte-stream contract ([tcp_stream_contract]) and no socket is leaked.
    HTTP: a request is reassembled from any segmentation (of which something is still to
    be read), parsing always ends,
    messages round-trip between writer and parser, a connection answers its
    requests in order and ends unless a handler never answers, the io_uring tables stay consistent under any interleaving,
    routing is longest-prefix, a response is delivered once, and a client's request is
    answered with what a program in userspace makes of it, through the device and both
    encodings ([userspace_server_answers]); a server that fails to start leaves no socket
    open ([servers_start_and_stop]).  Filesystems: mounting
    validates what the rest relies on for every device, inodes are loaded from
    their slot, directory lookup and listing follow the on-disk entries over all
    blocks (of 4 KiB; smaller ones are read past their end), the block map equals a reference that follows the on-disk pointers, file
    pages are exactly the file's bytes or the read is reported as failed, no operation
    leaks a folio, the inode slab drops each initialised inode's data once, a mount and its unmount balance ([mount_balanced]), loading and
    unloading a module leaves the kernel's registries as they were.  Devices: every open file of /dev/rko_http has a consistent handler of
    its own, there as long as something refers to it and freed with the last reference; a command is completed once
    ([command_completed_once]).  Logging: every macro passes [_printk] the arguments its format
    consumes ([pr_macros_call]), and a displayed C string is printable.  Tests: a suite
    reports failure exactly when a test fails ([test_module_verdict]).  Concurrency: a reference-counted object is
    live while a handle exists and freed once, a unique one is exclusive, locks keep
    their data to one holder, the blocking channel delivers, [block_on] returns the
    future's output; a
    revocable value is dropped exactly once and never used afterwards, a future is
    polled by one worker at a time and never after the first [stop] has returned, a failed
    spawn drops its future, the one-shot channel frees its cell once and delivers, no
    socket event that matches the mask is lost, a work item is run once for each time it is accepted
    ([work_items_accounted]), the intrusive list refines a sequence.  Where the code does
    not do what it means to, a theorem shows the concrete run (for example
    [tar_lookup_confuses_prefix], [oneshot_wakeup_lost_under_tso],
    [read_dir_repeats_entry], [moved_list_dangles], [condvar_never_notified],
    [fs_module_failed_load], [closed_server_never_freed], [buffered_request_not_parsed],
    [oversized_request_hangs], [last_group_check_off_by_one], [unmatched_event_parks],
    [overlapping_stop_returns_early], [fresh_inode_destroyed_undefined],
    [done_then_return_completes_twice], [workqueue_test_exit_leaves_work]).

    ** Bounds and fuel

    Recursion that is not structural carries fuel, and the entry points compute it
    from their input; running out is [Pending], which the theorems exclude.
    [page_fuel] and [lf_fuel]: a range of [len] bytes touches at most
    [len / 4096 + 2] pages.  Directory walks: a record takes at least eight bytes,
    a block at least one step, so a page's size in records and the directory's size
    in blocks are enough.  Group descriptors: each turn of [read_groups] reads at
    least one.  [parse_request]: each fill adds a byte to a bounded buffer, then
    the body's length bounds the reads.  [handle_connection]: each request takes at
    least a byte of what the peer sends.  [async_read] and the like are given a
    number of polls; what they do when these are used up is part of [tcp_stream_contract],
    and [SocketReady] says that the kernel's calls stop answering EAGAIN within it.
    Liveness of the concurrent components is stated with an explicit bound on the steps.
    Memory is sequentially consistent, except in [Oneshot], where store buffers
    (TSO) are modelled too; at most 2^31 - 1 guards of a revocable value exist at
    a time, which is what its debug assertion checks.  Filesystem theorems about data assume
    that a folio of the block device's cache is one page ([SinglePageFolios]);
    [large_folio_wrong_page] shows what the code does otherwise.

    ** Not modelled

    Delayed work, the per-command data and the cancellation of io_uring commands, which
    nothing in the repository uses, and [current] and [init_ns], which are kernel globals.
    The callbacks that forward to the kernel's generic functions (readahead, bmap,
    invalidation of folios, [simple_statfs], generic reads and seeks), and the accessors of
    inodes, superblocks, files and messages that return a field.  Trait declarations,
    marker implementations and conversions that only change a type.  The unit tests
    themselves, the generated bindings of rko-sys and the build scripts.

    ** Plan

    What is left of the code has no behaviour of its own.  The components proved under
    sequential consistency could be carried over to store buffers the way [Oneshot] is. *)
From Stdlib Require Import ZArith Lia Bool.
From Stdlib.Strings Require Import Byte String.
From stdpp Require Import base list option numbers gmap.

#[global] Open Scope Z_scope.

(** ** Outcomes

    The kernel modules are release builds: integer arithmetic wraps, slice
    indexing, division by zero and [assert!] panic.  [Ub] marks an operation
    whose safety comment would be violated (a read of an uninitialised slot,
    a dereference of a dangling pointer); [Pending] marks a future that has not
    resolved, or a loop that has used up the fuel it was given. *)
Inductive res (E A : Type) : Type :=
| Ok (a : A)
| Err (e : E)
| Panic
| Ub
| Pending.
Arguments Ok {E A} a.
Arguments Err {E A} e.
Arguments Panic {E A}.
Arguments Ub {E A}.
Arguments Pending {E A}.

#[global] Instance res_eq_dec {E A} `{EqDecision E, EqDecision A} : EqDecision (res E A).
Proof. solve_decision. Defined.

Definition res_bind {E A B} (m : res E A) (k : A -> res E B) : res E B :=
  match m with
  | Ok a => k a
  | Err e => Err e
  | Panic => Panic
  | Ub => Ub
  | Pending => Pending
  end.

(** [Result::map_err]. *)
Definition map_err {E F A} (f : E -> F) (m : res E A) : res F A :=
  match m with
  | Ok a => Ok a
  | Err e => Err (f e)
  | Panic => Panic
  | Ub => Ub
  | Pending => Pending
  end.

(** [Option::ok_or]. *)
Definition ok_or {E A} (o : option A) (e : E) : res E A :=
  match o with Some a => Ok a | None => Err e end.

(** ** Effectful code: state passing with outcomes *)
Definition M (W E A : Type) : Type := W -> res E A * W.

Definition m_ret {W E A} (a : A) : M W E A := fun w => (Ok a, w).
Definition m_err {W E A} (e : E) : M W E A := fun w => (Err e, w).
Definition m_lift {W E A} (r : res E A) : M W E A := fun w => (r, w).

Definition m_bind {W E A B} (m : M W E A) (k : A -> M W E B) : M W E B :=
  fun w =>
    match m w with
    | (Ok a, w') => k a w'
    | (Err e, w') => (Err e, w')
    | (Panic, w') => (Panic, w')
    | (Ub, w') => (Ub, w')
    | (Pending, w') => (Pending, w')
    end.

Definition m_map_err {W E F A} (f : E -> F) (m : M W E A) : M W F A :=
  fun w => let '(r, w') := m w in (map_err f r, w').

(** Working on one half of the state. *)
Definition on_fst {A B E R} (m : M A E R) : M (A * B) E R :=
  fun '(a, b) => let '(r, a') := m a in (r, (a', b)).
Definition on_snd {A B E R} (m : M B E R) : M (A * B) E R :=
  fun '(a, b) => let '(r, b') := m b in (r, (a, b')).

Declare Scope rko_scope.
Delimit Scope rko_scope with rko.
Notation "x <-? m ;; k" := (res_bind m (fun x => k))
  (at level 100, m at next level, k at level 200, right associativity) : rko_scope.
Notation "x <-! m ;; k" := (m_bind m (fun x => k))
  (at level 100, m at next level, k at level 200, right associativity) : rko_scope.
#[global] Open Scope rko_scope.

(** ** Machine integers

    A [w]-bit unsigned integer is a [Z] in [0, 2^w); a cast [as uN] is [wrap N]
    and a cast [as iN] is [sext N]. *)
Definition wrap (w z : Z) : Z := z mod 2 ^ w.
Definition sext (w z : Z) : Z :=
  let u := wrap w z in if u <? 2 ^ (w - 1) then u else u - 2 ^ w.

Definition usize_max : Z := 2 ^ 64 - 1.
Definition isize_max : Z := 2 ^ 63 - 1.

Definition u_checked_add (w a b : Z) : option Z :=
  if a + b <? 2 ^ w then Some (a + b) else None.
Definition u_checked_mul (w a b : Z) : option Z :=
  if a * b <? 2 ^ w then Some (a * b) else None.

(** Unsigned division and remainder: a zero divisor panics. *)
Definition u_div {E} (a b : Z) : res E Z := if b =? 0 then Panic else Ok (a / b).
Definition u_rem {E} (a b : Z) : res E Z := if b =? 0 then Panic else Ok (a mod b).

(** ** Bytes *)
Definition b2z (b : byte) : Z := Z.of_N (Byte.to_N b).
Definition z2b (z : Z) : byte :=
  match Byte.of_N (Z.to_N (wrap 8 z)) with Some b => b | None => x00 end.

#[global] Instance byte_eq_dec : EqDecision byte := Byte.byte_eq_dec.

(** A byte-string literal [b"..."]. *)
Definition bs (s : string) : list byte := list_byte_of_string s.

(** [lenZ l] is [l.len()] as a [usize]. *)
Definition lenZ {A} (l : list A) : Z := Z.of_nat (length l).

Fixpoint le_decode (l : list byte) : Z :=
  match l with
  | [] => 0
  | b :: t => b2z b + 256 * le_decode t
  end.

Fixpoint le_encode (n : nat) (z : Z) : list byte :=
  match n with
  | O => []
  | S m => z2b z :: le_encode m (z / 256)
  end.

Definition be_encode (n : nat) (z : Z) : list byte := rev (le_encode n z).
Definition be_decode (l : list byte) : Z := le_decode (rev l).

(** [&l[a..b]]: the range is checked, a bad one panics. *)
Definition slice {E A} (l : list A) (a b : Z) : res E (list A) :=
  if (0 <=? a) && (a <=? b) && (b <=? lenZ l)
  then Ok (take (Z.to_nat (b - a)) (drop (Z.to_nat a) l))
  else Panic.

(** [l[i]]. *)
Definition index {E A} (l : list A) (i : Z) : res E A :=
  if (0 <=? i) then match l !! Z.to_nat i with Some x => Ok x | None => Panic end
  else Panic.

(** [l.iter().position(p)]. *)
Fixpoint position {A} (p : A -> bool) (l : list A) : option nat :=
  match l with
  | [] => None
  | x :: t => if p x then Some O else S <$> position p t
  end.

(** [l.remove(i)] for an index in range. *)
Definition remove_at {A} (i : nat) (l : list A) : list A := take i l ++ drop (S i) l.

Definition starts_with (l p : list byte) : bool :=
  bool_decide (take (length p) l = p).

(** ** Shared tactics *)

(** Case analysis on the first [match] or [if] scrutinee of the goal. *)
Ltac case_match_goal :=
  match goal with
  | |- context [match ?x with _ => _ end] => destruct x eqn:?
  end.

(** Turn boolean comparisons in the context into linear facts, then [lia]. *)
Ltac zify_bools :=
  repeat match goal with
  | H : (_ && _)%bool = true |- _ => apply andb_true_iff in H; destruct H
  | H : (_ || _)%bool = false |- _ => apply orb_false_iff in H; destruct H
  | H : (_ =? _) = true |- _ => apply Z.eqb_eq in H
  | H : (_ =? _) = false |- _ => apply Z.eqb_neq in H
  | H : (_ <=? _) = true |- _ => apply Z.leb_le in H
  | H : (_ <=? _) = false |- _ => apply Z.leb_gt in H
  | H : (_ <? _) = true |- _ => apply Z.ltb_lt in H
  | H : (_ <? _) = false |- _ => apply Z.ltb_ge in H
  end.

Ltac blia := zify_bools; lia.

(** Run a monadic definition on an outcome that is known. *)
Ltac m_unfold := unfold m_bind, m_ret, m_err, m_lift, m_map_err, res_bind, map_err, ok_or in *.

Create HintDb rko.
Create Rewrite HintDb rko.

(** ** Integers *)

Lemma wrap_range w z : 0 <= w -> 0 <= wrap w z < 2 ^ w.
Proof. intros. unfold wrap. apply Z.mod_pos_bound. lia. Qed.

Lemma wrap_small w z : 0 <= z < 2 ^ w -> wrap w z = z.
Proof. intros. unfold wrap. by apply Z.mod_small. Qed.

Lemma sext_range w z : 0 < w -> - 2 ^ (w - 1) <= sext w z < 2 ^ (w - 1).
Proof.
  intros Hw. unfold sext.
  pose proof (wrap_range w z ltac:(lia)) as Hr.
  assert (2 ^ w = 2 * 2 ^ (w - 1)) as Hp
    by (rewrite <- Z.pow_succ_r by lia; f_equal; lia).
  destruct (wrap w z <? 2 ^ (w - 1)) eqn:E; blia.
Qed.

Lemma sext_small w z : 0 < w -> 0 <= z < 2 ^ (w - 1) -> sext w z = z.
Proof.
  intros Hw Hz. unfold sext.
  assert (2 ^ w = 2 * 2 ^ (w - 1)) as Hp
    by (rewrite <- Z.pow_succ_r by lia; f_equal; lia).
  rewrite wrap_small by lia. destruct (z <? 2 ^ (w - 1)) eqn:E; blia.
Qed.

Lemma sext_neg w z : 0 < w -> - 2 ^ (w - 1) <= z < 0 -> sext w z = z.
Proof.
  intros Hw Hz. unfold sext, wrap.
  assert (2 ^ w = 2 * 2 ^ (w - 1)) as Hp
    by (rewrite <- Z.pow_succ_r by lia; f_equal; lia).
  assert (z mod 2 ^ w = z + 2 ^ w) as ->.
  { symmetry. apply Z.mod_unique with (q := -1); lia. }
  destruct (z + 2 ^ w <? 2 ^ (w - 1)) eqn:E; blia.
Qed.

Lemma sext_id w z : 0 < w -> - 2 ^ (w - 1) <= z < 2 ^ (w - 1) -> sext w z = z.
Proof. intros. destruct (Z.ltb_spec z 0); [apply sext_neg|apply sext_small]; lia. Qed.

(** ** Bytes and little-endian words *)

Lemma b2z_range b : 0 <= b2z b < 256.
Proof.
  unfold b2z. pose proof (Byte.to_N_bounded b) as H. lia.
Qed.

Lemma b2z_z2b z : b2z (z2b z) = wrap 8 z.
Proof.
  unfold b2z, z2b. pose proof (wrap_range 8 z ltac:(lia)) as Hr.
  destruct (Byte.of_N (Z.to_N (wrap 8 z))) as [b|] eqn:E.
  - apply Byte.to_of_N in E. rewrite E. lia.
  - apply Byte.of_N_None_iff in E. change (2 ^ 8) with 256 in Hr. lia.
Qed.

Lemma z2b_b2z b : z2b (b2z b) = b.
Proof.
  unfold z2b. rewrite wrap_small by apply b2z_range.
  unfold b2z. rewrite N2Z.id, Byte.of_to_N. done.
Qed.

Lemma b2z_inj a b : b2z a = b2z b -> a = b.
Proof. intros H. rewrite <- (z2b_b2z a), <- (z2b_b2z b). by f_equal. Qed.

Lemma le_encode_length n z : length (le_encode n z) = n.
Proof. revert z. induction n as [|n IH]; intros z; simpl; [done|]. by rewrite IH. Qed.

Lemma le_decode_range l : 0 <= le_decode l < 256 ^ lenZ l.
Proof.
  induction l as [|b t IH]; [done|]. cbn [le_decode].
  pose proof (b2z_range b). unfold lenZ in *. cbn [length].
  rewrite Nat2Z.inj_succ, Z.pow_succ_r by lia. lia.
Qed.

Lemma le_decode_encode n z : le_decode (le_encode n z) = z mod 256 ^ Z.of_nat n.
Proof.
  revert z. induction n as [|n IH]; intros z.
  - simpl. by rewrite Z.mod_1_r.
  - cbn [le_encode le_decode]. rewrite IH, b2z_z2b. unfold wrap. change (2 ^ 8) with 256.
    rewrite Nat2Z.inj_succ, Z.pow_succ_r by lia.
    rewrite Z.rem_mul_r by lia. lia.
Qed.

Lemma le_decode_encode_id n z : 0 <= z < 256 ^ Z.of_nat n -> le_decode (le_encode n z) = z.
Proof. intros H. rewrite le_decode_encode. by apply Z.mod_small. Qed.

Lemma le_encode_decode l : le_encode (length l) (le_decode l) = l.
Proof.
  induction l as [|b t IH]; [done|]. cbn [length le_encode le_decode].
  pose proof (b2z_range b) as Hb. f_equal.
  - transitivity (z2b (b2z b)); [|apply z2b_b2z].
    unfold z2b. f_equal. unfold wrap. change (2 ^ 8) with 256.
    rewrite Z.mul_comm, Z.mod_add by lia. done.
  - transitivity (le_encode (length t) (le_decode t)); [f_equal|done].
    rewrite Z.mul_comm, Z.div_add by lia. rewrite Z.div_small by lia. lia.
Qed.

(** ** Lists *)

Lemma lenZ_nonneg {A} (l : list A) : 0 <= lenZ l.
Proof. unfold lenZ. lia. Qed.

Lemma lenZ_app {A} (l k : list A) : lenZ (l ++ k) = lenZ l + lenZ k.
Proof. unfold lenZ. rewrite length_app. lia. Qed.

Lemma lenZ_cons {A} (x : A) l : lenZ (x :: l) = 1 + lenZ l.
Proof. unfold lenZ. simpl. lia. Qed.

Lemma lenZ_nil {A} : lenZ (@nil A) = 0.
Proof. done. Qed.

Lemma lenZ_0 {A} (l : list A) : lenZ l = 0 -> l = [].
Proof. destruct l; [done|]. rewrite lenZ_cons. pose proof (lenZ_nonneg l). lia. Qed.

Lemma slice_ok {E A} (l : list A) a b :
  0 <= a <= b -> b <= lenZ l ->
  @slice E A l a b = Ok (take (Z.to_nat (b - a)) (drop (Z.to_nat a) l)).
Proof.
  intros H1 H2. unfold slice.
  destruct (0 <=? a) eqn:?, (a <=? b) eqn:?, (b <=? lenZ l) eqn:?; simpl; try done; blia.
Qed.

Lemma slice_prefix {E A} (l k : list A) :
  @slice E A (l ++ k) 0 (lenZ l) = Ok l.
Proof.
  rewrite slice_ok; [|pose proof (lenZ_nonneg l); lia|rewrite lenZ_app; pose proof (lenZ_nonneg k); lia].
  unfold lenZ. replace (Z.to_nat (Z.of_nat (length l) - 0)) with (length l) by lia.
  simpl. by rewrite drop_0, take_app_length.
Qed.

Lemma position_Some {A} (p : A -> bool) l i :
  position p l = Some i ->
  exists x, l !! i = Some x /\ p x = true /\ forall j y, (j < i)%nat -> l !! j = Some y -> p y = false.
Proof.
  revert i. induction l as [|a t IH]; intros i H; simpl in H; [done|].
  destruct (p a) eqn:E.
  - simplify_eq. exists a. split; [done|]. split; [done|]. intros; lia.
  - destruct (position p t) as [k|] eqn:Ek; simplify_eq/=.
    destruct (IH _ eq_refl) as (x & Hx & Hp & Hlt). exists x. split; [done|]. split; [done|].
    intros [|j] y Hj Hy; simplify_eq/=; [done|]. eapply Hlt; [|done]. lia.
Qed.

Lemma position_None {A} (p : A -> bool) l :
  position p l = None <-> Forall (fun x => p x = false) l.
Proof.
  induction l as [|a t IH]; simpl; [by rewrite Forall_nil|].
  rewrite Forall_cons, <- IH. destruct (p a) eqn:E; [by split; [|intros [??]]|].
  destruct (position p t); simpl; intuition congruence.
Qed.

Lemma starts_with_spec l p : starts_with l p = true <-> exists r, l = p ++ r.
Proof.
  unfold starts_with. rewrite bool_decide_eq_true. split.
  - intros H. exists (drop (length p) l). rewrite <- H at 1. by rewrite take_drop.
  - intros [r ->]. by rewrite take_app_length.
Qed.

Lemma remove_at_length {A} i (l : list A) :
  (i < length l)%nat -> length (remove_at i l) = pred (length l).
Proof. intros H. unfold remove_at. rewrite length_app, length_take, length_drop. lia. Qed.

Lemma remove_at_sublist {A} i (l : list A) : sublist (remove_at i l) l.
Proof.
  unfold remove_at. rewrite <- (take_drop i l) at 3. apply sublist_app; [done|].
  rewrite <- Nat.add_1_r, <- drop_drop. apply sublist_drop.
Qed.

#[global] Hint Resolve lenZ_nonneg b2z_range : rko.
#[global] Hint Rewrite @lenZ_app @lenZ_cons @lenZ_nil : rko.
