(* ===== verification/Errors.v ===== *)
(** * Kernel error codes (rko-core/src/error.rs)

    [Error] wraps a C [int] that holds a {e negative} errno.  The errno
    constants come from the generated bindings and the [ERR_PTR] encoding from
    the kernel headers, so both are interfaces here: [KernelErrno] and
    [KernelErrPtr] give the operations, [KernelErrnoOk] and [KernelErrPtrOk]
    what [errno-base.h] and [err.h] document about them.  [linux_errno] and
    [linux_err_ptr] are the x86_64 Linux instances. *)
From Stdlib Require Import ZArith Lia Bool.
From stdpp Require Import base list option numbers sets.
From S2P Require Import Prelude.

(** The errno constants of [rko_sys]. *)
Class KernelErrno := {
  sys_EINVAL : Z; sys_ENOMEM : Z; sys_ENOENT : Z; sys_EBUSY : Z; sys_EEXIST : Z;
  sys_EIO : Z; sys_EPERM : Z; sys_ECONNRESET : Z; sys_ECONNABORTED : Z;
  sys_ENXIO : Z; sys_ENOSYS : Z; sys_EOPNOTSUPP : Z; sys_ESTALE : Z;
  sys_ENODATA : Z; sys_ENOTDIR : Z; sys_ERANGE : Z; sys_E2BIG : Z;
  sys_ENAMETOOLONG : Z; sys_EDOM : Z; sys_EAGAIN : Z; sys_EISDIR : Z;
  sys_EFAULT : Z; sys_EINPROGRESS : Z; sys_EALREADY : Z
}.

Definition errno_table `{KernelErrno} : list Z :=
  [sys_EINVAL; sys_ENOMEM; sys_ENOENT; sys_EBUSY; sys_EEXIST; sys_EIO; sys_EPERM;
   sys_ECONNRESET; sys_ECONNABORTED; sys_ENXIO; sys_ENOSYS; sys_EOPNOTSUPP;
   sys_ESTALE; sys_ENODATA; sys_ENOTDIR; sys_ERANGE; sys_E2BIG; sys_ENAMETOOLONG;
   sys_EDOM; sys_EAGAIN; sys_EISDIR; sys_EFAULT; sys_EINPROGRESS; sys_EALREADY].

(** Documented: errno values are positive, at most [MAX_ERRNO], and distinct. *)
Definition MAX_ERRNO : Z := 4095.
Class KernelErrnoOk (KE : KernelErrno) : Prop := {
  errno_bounds : Forall (fun e => 0 < e <= MAX_ERRNO) errno_table;
  errno_distinct : NoDup errno_table
}.

Definition linux_errno : KernelErrno := {|
  sys_EINVAL := 22; sys_ENOMEM := 12; sys_ENOENT := 2; sys_EBUSY := 16;
  sys_EEXIST := 17; sys_EIO := 5; sys_EPERM := 1; sys_ECONNRESET := 104;
  sys_ECONNABORTED := 103; sys_ENXIO := 6; sys_ENOSYS := 38; sys_EOPNOTSUPP := 95;
  sys_ESTALE := 116; sys_ENODATA := 61; sys_ENOTDIR := 20; sys_ERANGE := 34;
  sys_E2BIG := 7; sys_ENAMETOOLONG := 36; sys_EDOM := 33; sys_EAGAIN := 11;
  sys_EISDIR := 21; sys_EFAULT := 14; sys_EINPROGRESS := 115; sys_EALREADY := 114 |}.

Lemma linux_errno_ok : KernelErrnoOk linux_errno.
Proof.
  constructor.
  - unfold errno_table, MAX_ERRNO; simpl. repeat constructor; lia.
  - unfold errno_table; simpl. apply (bool_decide_unpack _). vm_compute. exact I.
Qed.

(** The [ERR_PTR] helpers on 64-bit pointer values. *)
Class KernelErrPtr := {
  rust_helper_IS_ERR : Z -> bool;
  rust_helper_PTR_ERR : Z -> Z;
  rust_helper_ERR_PTR : Z -> Z
}.

(** Documented in [linux/err.h]: the last [MAX_ERRNO] addresses encode errors. *)
Class KernelErrPtrOk (KP : KernelErrPtr) : Prop := {
  is_err_spec p : 0 <= p < 2 ^ 64 -> rust_helper_IS_ERR p = (2 ^ 64 - MAX_ERRNO <=? p);
  ptr_err_spec p : 0 <= p < 2 ^ 64 -> rust_helper_PTR_ERR p = sext 64 p;
  err_ptr_spec e : - MAX_ERRNO <= e < 0 -> rust_helper_ERR_PTR e = 2 ^ 64 + e
}.

Definition linux_err_ptr : KernelErrPtr := {|
  rust_helper_IS_ERR p := 2 ^ 64 - MAX_ERRNO <=? p;
  rust_helper_PTR_ERR p := sext 64 p;
  rust_helper_ERR_PTR e := wrap 64 e |}.

Lemma linux_err_ptr_ok : KernelErrPtrOk linux_err_ptr.
Proof.
  constructor; simpl; [done|done|]. unfold MAX_ERRNO. intros e He. unfold wrap.
  symmetry. apply Z.mod_unique with (q := -1); lia.
Qed.

Record Error : Type := mkError { errno : Z }.

#[global] Instance Error_eq_dec : EqDecision Error.
Proof. solve_decision. Defined.

(** [Error::new], [Error::to_errno], [Error::from_errno]. *)
Definition Error_new (e : Z) : Error := mkError (sext 32 (- e)).
Definition to_errno (e : Error) : Z := errno e.

Section Codes.
Context `{KE : KernelErrno}.

Definition EINVAL : Error := Error_new sys_EINVAL.
Definition ENOMEM : Error := Error_new sys_ENOMEM.
Definition ENOENT : Error := Error_new sys_ENOENT.
Definition EBUSY : Error := Error_new sys_EBUSY.
Definition EEXIST : Error := Error_new sys_EEXIST.
Definition EIO : Error := Error_new sys_EIO.
Definition EPERM : Error := Error_new sys_EPERM.
Definition ECONNRESET : Error := Error_new sys_ECONNRESET.
Definition ECONNABORTED : Error := Error_new sys_ECONNABORTED.
Definition ENXIO : Error := Error_new sys_ENXIO.
Definition ENOSYS : Error := Error_new sys_ENOSYS.
Definition EOPNOTSUPP : Error := Error_new sys_EOPNOTSUPP.
Definition ESTALE : Error := Error_new sys_ESTALE.
Definition ENODATA : Error := Error_new sys_ENODATA.
Definition ENOTDIR : Error := Error_new sys_ENOTDIR.
Definition ERANGE : Error := Error_new sys_ERANGE.
Definition E2BIG : Error := Error_new sys_E2BIG.
Definition ENAMETOOLONG : Error := Error_new sys_ENAMETOOLONG.
Definition EDOM : Error := Error_new sys_EDOM.
Definition EAGAIN : Error := Error_new sys_EAGAIN.
Definition EISDIR : Error := Error_new sys_EISDIR.
Definition EFAULT : Error := Error_new sys_EFAULT.

Definition from_errno (e : Z) : Error := if e <? 0 then mkError e else EINVAL.

End Codes.

(** [from_result]: 0 on success, the stored errno on failure. *)
Definition from_result {E} (r : res Error unit) : res E Z :=
  match r with
  | Ok _ => Ok 0
  | Err e => Ok (to_errno e)
  | Panic => Panic
  | Ub => Ub
  | Pending => Pending
  end.

Section ErrPtr.
Context `{KE : KernelErrno, KP : KernelErrPtr}.

(** [from_err_ptr]: the [i64] of [PTR_ERR] is cast to [i32]. *)
Definition from_err_ptr (ptr : Z) : res Error Z :=
  if rust_helper_IS_ERR ptr
  then Err (from_errno (sext 32 (rust_helper_PTR_ERR ptr)))
  else Ok ptr.

(** [to_err_ptr]: the [i32] errno is widened to [i64]. *)
Definition to_err_ptr (r : Z + Error) : Z :=
  match r with
  | inl ptr => ptr
  | inr e => rust_helper_ERR_PTR (to_errno e)
  end.

End ErrPtr.

(** ** Properties *)

Section Facts.
Context `{KE : KernelErrno}.

Lemma Error_new_neg e : 0 < e <= MAX_ERRNO -> errno (Error_new e) = - e.
Proof. unfold MAX_ERRNO. intros He. unfold Error_new; simpl. apply sext_neg; lia. Qed.

Lemma Error_new_pos e : - MAX_ERRNO <= e < 0 -> errno (Error_new e) = - e.
Proof. unfold MAX_ERRNO. intros He. unfold Error_new; simpl. apply sext_small; lia. Qed.

Context {KEok : KernelErrnoOk KE}.

Lemma errno_in e : e ∈ errno_table -> 0 < e <= MAX_ERRNO.
Proof. intros Hin. pose proof errno_bounds as H. rewrite Forall_forall in H. by apply H. Qed.

Lemma Error_new_table e : e ∈ errno_table -> errno (Error_new e) = - e.
Proof. intros H. apply Error_new_neg. by apply errno_in. Qed.

Lemma from_errno_neg e : e < 0 -> from_errno e = mkError e.
Proof. intros H. unfold from_errno. by destruct (e <? 0) eqn:?; [|blia]. Qed.

Lemma from_errno_is_negative e : errno (from_errno e) < 0.
Proof.
  unfold from_errno. destruct (e <? 0) eqn:E; [simpl; blia|].
  unfold EINVAL. rewrite Error_new_table by (unfold errno_table; set_solver).
  assert (0 < sys_EINVAL <= MAX_ERRNO) by (apply errno_in; unfold errno_table; set_solver).
  lia.
Qed.

Context `{KP : KernelErrPtr} {KPok : KernelErrPtrOk KP}.

(** The error-pointer encoding round-trips: a [Result] pointer turned into
    an [ERR_PTR] by [to_err_ptr] is read back unchanged by [from_err_ptr], for
    every errno of the kernel's range and every pointer outside the error
    window. *)
Theorem err_ptr_roundtrip (r : Z + Error) :
  match r with
  | inl ptr => 0 <= ptr < 2 ^ 64 - MAX_ERRNO
  | inr e => - MAX_ERRNO <= errno e < 0
  end ->
  from_err_ptr (to_err_ptr r) = match r with inl ptr => Ok ptr | inr e => Err e end.
Proof.
  destruct r as [ptr|[e]]; simpl; intros H; unfold from_err_ptr, to_errno; simpl.
  - rewrite is_err_spec by (unfold MAX_ERRNO in *; lia).
    destruct (_ <=? _) eqn:E; [blia|done].
  - rewrite err_ptr_spec, is_err_spec, ptr_err_spec by (unfold MAX_ERRNO in *; lia).
    destruct (_ <=? _) eqn:E; [|unfold MAX_ERRNO in *; blia].
    assert (sext 64 (2 ^ 64 + e) = e) as ->.
    { unfold sext, wrap. unfold MAX_ERRNO in H.
      rewrite Z.mod_small by lia.
      destruct (_ <? _) eqn:E2; [blia|lia]. }
    rewrite (sext_neg 32 e) by (unfold MAX_ERRNO in *; lia).
    rewrite from_errno_neg by lia. done.
Qed.

End Facts.

Lemma err_ptr_roundtrip_witness :
  @from_err_ptr linux_errno linux_err_ptr (@to_err_ptr linux_err_ptr (inr (mkError (-5))))
  = Err (mkError (-5)).
Proof.
  apply (@err_ptr_roundtrip linux_errno linux_err_ptr linux_err_ptr_ok (inr (mkError (-5)))).
  unfold MAX_ERRNO. simpl. lia.
Defined.
