(* ===== verification/KVec.v ===== *)
(** * Kernel vectors (rko-core/src/alloc/kvec.rs, layout.rs, allocator.rs)

    [Vec] keeps the block the pointer designates as its list of slots; a slot
    that was never written is [None], and reading one is [Ub].  [KernelAlloc]
    is the kernel allocator behind [Kmalloc::realloc].  The second half of the
    file states the vector as a list ([vec_spec]) and proves that every
    operation refines it, allocation failure included. *)
From Stdlib Require Import ZArith Lia Bool.
From stdpp Require Import base list option numbers.
From S2P Require Import Prelude.

(** [struct AllocError]. *)
Inductive AllocError : Type := AllocErr.

#[global] Instance AllocError_eq_dec : EqDecision AllocError.
Proof. solve_decision. Defined.

(** [krealloc_node_align_noprof]: does the request of [size] bytes at [align]
    return a non-null pointer, and the allocator state after it. *)
Class KernelAlloc := {
  kst : Type;
  krealloc : kst -> Z -> Z -> bool * kst;
  kfree : kst -> kst
}.

(** [array_layout::<T>(n)]: [checked_mul], then [Layout::from_size_align]. *)
Definition array_layout (size_of align_of : Z) (n : nat) : option Z :=
  match u_checked_mul 64 size_of (Z.of_nat n) with
  | Some size => if isize_max - (align_of - 1) <? size then None else Some size
  | None => None
  end.

(** [Kmalloc::realloc]: the slot count of the block is returned by the caller. *)
Definition kmalloc_realloc `{KA : KernelAlloc} (size align : Z) : M kst AllocError unit :=
  fun k =>
    let '(non_null, k') := krealloc k size align in
    if size =? 0 then (Ok tt, k')
    else if non_null then (Ok tt, k') else (Err AllocErr, k').

Record Vec (T : Type) : Type := mkVec {
  v_slots : list (option T);   (** the block [ptr] points at *)
  v_len : nat;
  v_cap : nat
}.
Arguments mkVec {T}.
Arguments v_slots {T}.
Arguments v_len {T}.
Arguments v_cap {T}.

Section Vec.
Context {T : Type} (size_of align_of : Z) `{KA : KernelAlloc}.
#[local] Abbreviation VM := (M (Vec T * kst) AllocError).
#[local] Abbreviation VR := (res AllocError).

(** A call that only touches the vector. *)
Definition on_vec {A} (f : Vec T -> VR A * Vec T) : VM A :=
  fun '(v, k) => let '(r, v') := f v in (r, (v', k)).

(** A write through the pointer: a bad one leaves the vector as it was. *)
Definition vec_update (f : Vec T -> VR (Vec T)) (v : Vec T) : VR unit * Vec T :=
  match f v with
  | Ok v' => (Ok tt, v')
  | Err e => (Err e, v)
  | Panic => (Panic, v)
  | Ub => (Ub, v)
  | Pending => (Pending, v)
  end.

(** [Vec::new]. *)
Definition vec_new : Vec T := mkVec [] 0 0.

Definition vec_set_len (n : nat) (v : Vec T) : Vec T := mkVec (v_slots v) n (v_cap v).
Definition vec_set_slots (l : list (option T)) (v : Vec T) : Vec T := mkVec l (v_len v) (v_cap v).

(** [ptr.add(i).read()] and [ptr.add(i).write(x)] on the block. *)
Definition slot_read (v : Vec T) (i : nat) : VR T :=
  match v_slots v !! i with Some (Some x) => Ok x | _ => Ub end.
Definition slot_write (i : nat) (x : T) (v : Vec T) : VR (Vec T) :=
  if bool_decide (i < length (v_slots v))%nat
  then Ok (vec_set_slots (<[i := Some x]> (v_slots v)) v)
  else Ub.

(** [ptr::copy(p.add(src), p.add(dst), count)] inside the block. *)
Definition slots_copy (l : list (option T)) (src dst count : nat) : VR (list (option T)) :=
  if bool_decide (src + count <= length l /\ dst + count <= length l)%nat
  then Ok (take dst l ++ take count (drop src l) ++ drop (dst + count) l)
  else Ub.

(** [ptr::swap] of two slots. *)
Definition slots_swap (l : list (option T)) (i j : nat) : VR (list (option T)) :=
  match l !! i, l !! j with
  | Some a, Some b => Ok (<[j := a]> (<[i := b]> l))
  | _, _ => Ub
  end.

(** [ptr::drop_in_place] of slots: the dropped values, in order. *)
Fixpoint slots_drop (l : list (option T)) : VR (list T) :=
  match l with
  | [] => Ok []
  | Some x :: t => xs <-? slots_drop t;; Ok (x :: xs)
  | None :: _ => Ub
  end.

(** [Vec::realloc_to]: the old contents survive in the new block. *)
Definition realloc_to (new_cap : nat) : VM unit :=
  fun '(v, k) =>
    match array_layout size_of align_of new_cap with
    | None => (Err AllocErr, (v, k))
    | Some size =>
        match array_layout size_of align_of (v_cap v) with
        | None => (Err AllocErr, (v, k))
        | Some _ =>
            match kmalloc_realloc size align_of k with
            | (Ok _, k') =>
                (Ok tt, (mkVec (take new_cap (v_slots v) ++
                                replicate (new_cap - length (v_slots v)) None)
                               (v_len v) new_cap, k'))
            | (r, k') => (r, (v, k'))
            end
        end
    end.

(** [Vec::grow]. *)
Definition vec_grow : VM unit :=
  fun '(v, k) =>
    match v_cap v with
    | O => realloc_to 1 (v, k)
    | c =>
        match u_checked_mul 64 (Z.of_nat c) 2 with
        | Some _ => realloc_to (c * 2) (v, k)
        | None => (Err AllocErr, (v, k))
        end
    end.

(** [Vec::reserve]. *)
Definition vec_reserve (additional : nat) : VM unit :=
  fun '(v, k) =>
    match u_checked_add 64 (Z.of_nat (v_len v)) (Z.of_nat additional) with
    | None => (Err AllocErr, (v, k))
    | Some _ =>
        let needed := (v_len v + additional)%nat in
        if bool_decide (needed <= v_cap v)%nat then (Ok tt, (v, k))
        else realloc_to needed (v, k)
    end.

(** [write(x)] at the end, then [self.len += 1]. *)
Definition write_end (x : T) (v : Vec T) : VR (Vec T) :=
  v' <-? slot_write (v_len v) x v;; Ok (vec_set_len (S (v_len v')) v').

(** [Vec::push]. *)
Definition vec_push (x : T) : VM unit :=
  _ <-! (fun '(v, k) => if bool_decide (v_len v = v_cap v) then vec_grow (v, k)
                        else (Ok tt, (v, k)));;
  on_vec (vec_update (write_end x)).

(** [Vec::pop]. *)
Definition vec_pop (v : Vec T) : VR (option T) * Vec T :=
  match v_len v with
  | O => (Ok None, v)
  | S n => (x <-? slot_read v n;; Ok (Some x), vec_set_len n v)
  end.

(** [Vec::remove]. *)
Definition vec_remove (index : nat) (v : Vec T) : VR T * Vec T :=
  if bool_decide (index < v_len v)%nat then
    match slot_read v index with
    | Ok x =>
        let count := (v_len v - index - 1)%nat in
        let r := if bool_decide (0 < count)%nat
                 then slots_copy (v_slots v) (index + 1) index count
                 else Ok (v_slots v) in
        match r with
        | Ok slots => (Ok x, mkVec slots (v_len v - 1) (v_cap v))
        | _ => (Ub, v)
        end
    | _ => (Ub, v)
    end
  else (Panic, v).

(** [Vec::swap_remove]. *)
Definition vec_swap_remove (index : nat) (v : Vec T) : VR T * Vec T :=
  if bool_decide (index < v_len v)%nat then
    let n := (v_len v - 1)%nat in
    let r := if bool_decide (index <> n) then slots_swap (v_slots v) index n
             else Ok (v_slots v) in
    match r with
    | Ok slots =>
        let v' := mkVec slots n (v_cap v) in (slot_read v' n, v')
    | _ => (Ub, v)
    end
  else (Panic, v).

(** [Vec::as_slice]: the slice of initialised elements. *)
Definition vec_as_slice (v : Vec T) : VR (list T) :=
  slots_drop (take (v_len v) (v_slots v)).

(** [Vec::truncate] and [Vec::clear]: the values that are dropped. *)
Definition vec_truncate (new_len : nat) (v : Vec T) : VR (list T) * Vec T :=
  if bool_decide (v_len v <= new_len)%nat then (Ok [], v)
  else
    let old_len := v_len v in
    (slots_drop (take (old_len - new_len) (drop new_len (v_slots v))), vec_set_len new_len v).
Definition vec_clear (v : Vec T) : VR (list T) * Vec T := vec_truncate 0 v.

(** The loop [while self.len < new_len { write(f()); len += 1 }]; [f i] is the
    result of the closure's [i]-th call. *)
Fixpoint vec_fill (n : nat) (f : nat -> T) (v : Vec T) : VR (Vec T) :=
  match n with
  | O => Ok v
  | S m => v' <-? write_end (f O) v;; vec_fill m (fun i => f (S i)) v'
  end.

(** [Vec::resize_with] and [Vec::resize]: the dropped tail. *)
Definition vec_resize_with (new_len : nat) (f : nat -> T) : VM (list T) :=
  fun '(v, k) =>
    if bool_decide (new_len <= v_len v)%nat then on_vec (vec_truncate new_len) (v, k)
    else
      (_ <-! vec_reserve (new_len - v_len v);;
       _ <-! on_vec (vec_update (vec_fill (new_len - v_len v) f));;
       m_ret []) (v, k).
Definition vec_resize (new_len : nat) (x : T) : VM (list T) :=
  vec_resize_with new_len (fun _ => x).

(** The loop of [extend_from_slice]. *)
Fixpoint vec_push_all (xs : list T) : VM unit :=
  match xs with
  | [] => m_ret tt
  | x :: t => _ <-! vec_push x;; vec_push_all t
  end.

(** [Vec::extend_from_slice]. *)
Definition vec_extend_from_slice (xs : list T) : VM unit :=
  _ <-! vec_reserve (length xs);; vec_push_all xs.

(** Run on a fresh vector and return it. *)
Definition on_fresh (m : VM unit) : M kst AllocError (Vec T) :=
  fun k => let '(r, (v, k')) := m (vec_new, k) in (_ <-? r;; Ok v, k').

(** [Vec::with_capacity] and [Vec::from_slice]: the new vector on success. *)
Definition vec_with_capacity (n : nat) : M kst AllocError (Vec T) :=
  on_fresh (vec_reserve n).
Definition vec_from_slice (xs : list T) : M kst AllocError (Vec T) :=
  on_fresh (_ <-! vec_reserve (length xs);; vec_extend_from_slice xs).

(** [Drop for Vec]: drops the elements, then frees the block when there is one. *)
Definition vec_drop (v : Vec T) (k : kst) : VR (list T) * kst :=
  let '(r, v') := vec_clear v in
  if bool_decide (0 < v_cap v')%nat then
    match array_layout size_of align_of (v_cap v') with
    | Some _ => (r, kfree k)
    | None => (r, k)
    end
  else (r, k).

(** [IntoIter]: the vector it owns and the position of the next element. *)
Record IntoIter : Type := mkIter { it_vec : Vec T; it_pos : nat }.
Definition vec_into_iter (v : Vec T) : IntoIter := mkIter v 0.
Definition iter_next (it : IntoIter) : VR (option T) * IntoIter :=
  if bool_decide (v_len (it_vec it) <= it_pos it)%nat then (Ok None, it)
  else
    (x <-? slot_read (it_vec it) (it_pos it);; Ok (Some x),
     mkIter (it_vec it) (S (it_pos it))).
Definition iter_size_hint (it : IntoIter) : nat := (v_len (it_vec it) - it_pos it)%nat.

(** [Drop for IntoIter] followed by the drop of the vector field: the values
    each of the two drops. *)
Definition iter_drop (it : IntoIter) (k : kst) : VR (list T * list T) * kst :=
  let v := it_vec it in
  let rest := slots_drop (take (v_len v - it_pos it) (drop (it_pos it) (v_slots v))) in
  let '(r, k') := vec_drop (vec_set_len 0 v) k in
  (xs <-? rest;; ys <-? r;; Ok (xs, ys), k').

(** [n] calls of [next]. *)
Fixpoint iter_take (n : nat) (it : IntoIter) : VR (list T) * IntoIter :=
  match n with
  | O => (Ok [], it)
  | S m =>
      match iter_next it with
      | (Ok (Some x), it') =>
          let '(r, it'') := iter_take m it' in (xs <-? r;; Ok (x :: xs), it'')
      | (Ok None, it') => (Ok [], it')
      | (_, it') => (Ub, it')
      end
  end.

End Vec.

Lemma fmap_const_seq {T} (x : T) a n : (fun _ => x) <$> seq a n = replicate n x.
Proof. revert a. induction n; intros; simpl; [done|]. by f_equal. Qed.

(** ** The list specification *)

(** One call of the public interface. *)
Inductive vop (T : Type) : Type :=
| VPush (x : T)
| VPop
| VRemove (i : nat)
| VSwapRemove (i : nat)
| VTruncate (n : nat)
| VClear
| VReserve (n : nat)
| VExtend (xs : list T)
| VResize (n : nat) (x : T).
Arguments VPush {T} x.
Arguments VPop {T}.
Arguments VRemove {T} i.
Arguments VSwapRemove {T} i.
Arguments VTruncate {T} n.
Arguments VClear {T}.
Arguments VReserve {T} n.
Arguments VExtend {T} xs.
Arguments VResize {T} n x.

(** What a call hands back: nothing, an element, or the elements it dropped. *)
Inductive vout (T : Type) : Type :=
| VUnit
| VElem (o : option T)
| VDropped (l : list T).
Arguments VUnit {T}.
Arguments VElem {T} o.
Arguments VDropped {T} l.

(** The vector as a list: the result and the list after a call that succeeds. *)
Definition vec_spec {T} (op : vop T) (l : list T) : option (vout T * list T) :=
  match op with
  | VPush x => Some (VUnit, l ++ [x])
  | VPop => Some (VElem (list.last l), take (length l - 1) l)
  | VRemove i => x ← l !! i; Some (VElem (Some x), delete i l)
  | VSwapRemove i =>
      x ← l !! i; y ← list.last l; Some (VElem (Some x), take (length l - 1) (<[i := y]> l))
  | VTruncate n => Some (VDropped (drop n l), take n l)
  | VClear => Some (VDropped l, [])
  | VReserve n => Some (VUnit, l)
  | VExtend xs => Some (VUnit, l ++ xs)
  | VResize n x => Some (VDropped (drop n l), resize n x l)
  end.

(** Does the call ask for memory? *)
Definition vop_allocates {T} (op : vop T) : bool :=
  match op with
  | VPush _ | VReserve _ | VExtend _ | VResize _ _ => true
  | _ => false
  end.

Section VecFacts.
Context {T : Type} (size_of align_of : Z) `{KA : KernelAlloc}.
Implicit Types (v : Vec T) (l : list T) (k : kst).

(** The representation invariant: [v] holds exactly the elements of [l]. *)
Record vec_repr v l : Prop := {
  repr_len : v_len v = length l;
  repr_cap : length (v_slots v) = v_cap v;
  repr_slots : take (v_len v) (v_slots v) = Some <$> l;
  repr_fits : (Z.of_nat (v_cap v) < 2 ^ 64)
}.

Definition vec_exec (op : vop T) : M (Vec T * kst) AllocError (vout T) :=
  match op with
  | VPush x => _ <-! vec_push size_of align_of x;; m_ret VUnit
  | VPop => o <-! on_vec vec_pop;; m_ret (VElem o)
  | VRemove i => x <-! on_vec (vec_remove i);; m_ret (VElem (Some x))
  | VSwapRemove i => x <-! on_vec (vec_swap_remove i);; m_ret (VElem (Some x))
  | VTruncate n => xs <-! on_vec (vec_truncate n);; m_ret (VDropped xs)
  | VClear => xs <-! on_vec vec_clear;; m_ret (VDropped xs)
  | VReserve n => _ <-! vec_reserve size_of align_of n;; m_ret VUnit
  | VExtend xs => _ <-! vec_extend_from_slice size_of align_of xs;; m_ret VUnit
  | VResize n x => xs <-! vec_resize size_of align_of n x;; m_ret (VDropped xs)
  end.

(** What a call may do to the list: succeed with the specified result, fail for
    want of memory and leave the list as it was, or panic exactly when the
    specification has no result. *)
Definition vec_step_ok (op : vop T) l (o : res AllocError (vout T)) l' : Prop :=
  match o with
  | Ok out => vec_spec op l = Some (out, l')
  | Err _ => vop_allocates op = true /\ l' = l
  | Panic => vec_spec op l = None /\ l' = l
  | Ub | Pending => False
  end.

Lemma vec_new_repr : vec_repr vec_new [].
Proof. by split. Qed.

Lemma repr_le v l : vec_repr v l -> (length l <= v_cap v)%nat.
Proof.
  intros [Hl Hc Hs _]. apply (f_equal length) in Hs.
  rewrite length_take, length_fmap in Hs. lia.
Qed.

Lemma repr_lookup v l i : vec_repr v l -> (i < length l)%nat -> v_slots v !! i = Some <$> l !! i.
Proof.
  intros [Hl Hc Hs _] Hi. rewrite <- list_lookup_fmap, <- Hs.
  by rewrite lookup_take_lt by lia.
Qed.

Lemma repr_read v l i x : vec_repr v l -> l !! i = Some x -> slot_read v i = Ok x.
Proof.
  intros Hr Hi. unfold slot_read.
  by rewrite (repr_lookup v l) by eauto using lookup_lt_Some; rewrite Hi.
Qed.

(** Shrinking the length keeps a prefix. *)
Lemma repr_shrink v l n : vec_repr v l -> (n <= length l)%nat -> vec_repr (vec_set_len n v) (take n l).
Proof.
  intros [Hl Hc Hs Hf] Hn. split; simpl; [rewrite length_take; lia|done| |done].
  rewrite fmap_take, <- Hs, take_take. f_equal. lia.
Qed.

Lemma slots_drop_fmap l : slots_drop (Some <$> l) = Ok l.
Proof. induction l as [|x l IH]; [done|]. cbn. by rewrite IH. Qed.

Lemma repr_drop v l n : vec_repr v l ->
  slots_drop (take (v_len v - n) (drop n (v_slots v))) = Ok (drop n l).
Proof.
  intros [Hl Hc Hs _]. rewrite <- slots_drop_fmap. f_equal.
  rewrite fmap_drop, <- Hs. by rewrite skipn_firstn_comm.
Qed.

Lemma repr_as_slice v l : vec_repr v l -> vec_as_slice v = Ok l.
Proof. intros [Hl Hc Hs _]. unfold vec_as_slice. by rewrite Hs, slots_drop_fmap. Qed.

Lemma write_end_repr v l x : vec_repr v l -> (length l < v_cap v)%nat ->
  exists v', write_end x v = Ok v' /\ vec_repr v' (l ++ [x]) /\ v_cap v' = v_cap v.
Proof.
  intros [Hl Hc Hs Hf] Hlt. unfold write_end, slot_write.
  rewrite bool_decide_eq_true_2 by lia. simpl. eexists. split; [done|].
  split; [|done]. split; simpl.
  - rewrite length_app; simpl. lia.
  - by rewrite length_insert.
  - rewrite (take_S_r _ _ (Some x)) by (rewrite list_lookup_insert_eq; [done|lia]).
    rewrite take_insert_ge by lia. by rewrite Hs, fmap_app.
  - done.
Qed.

Lemma array_layout_fits n s : array_layout size_of align_of n = Some s ->
  0 < size_of -> (Z.of_nat n < 2 ^ 64).
Proof.
  unfold array_layout, u_checked_mul. intros H Hs.
  destruct (size_of * Z.of_nat n <? 2 ^ 64) eqn:E; [|done]. zify_bools. nia.
Qed.

(** [realloc_to] succeeds with at least the old contents, or changes nothing. *)
Lemma realloc_to_repr n v l k : vec_repr v l -> (length l <= n)%nat -> Z.of_nat n < 2 ^ 64 ->
  exists r v' k', realloc_to size_of align_of n (v, k) = (r, (v', k')) /\
    ((r = Ok tt /\ v_cap v' = n /\ vec_repr v' l) \/ (r = Err AllocErr /\ v' = v)).
Proof.
  intros [Hl Hc Hs Hf] Hn Hfit. unfold realloc_to, kmalloc_realloc.
  destruct (array_layout _ _ n) as [s|] eqn:E1; [|eauto 10].
  destruct (array_layout _ _ (v_cap v)) as [s0|] eqn:E2; [|eauto 10].
  destruct (krealloc k s align_of) as [nn k'].
  assert (vec_repr (mkVec (take n (v_slots v) ++ replicate (n - length (v_slots v)) None) (v_len v) n) l) as Hnew.
  { pose proof (f_equal length Hs) as Hlen. rewrite length_take, length_fmap in Hlen.
    split; simpl; [done| |  |done].
    - rewrite length_app, length_take, length_replicate. lia.
    - rewrite take_app_le by (rewrite length_take; lia). rewrite take_take, Nat.min_l by lia. done. }
  destruct (s =? 0); [do 3 eexists; split; [done|]; left; eauto|].
  destruct nn; do 3 eexists; (split; [done|]); [left|right]; eauto.
Qed.

Lemma vec_grow_repr v l k : vec_repr v l -> v_len v = v_cap v ->
  exists r v' k', vec_grow size_of align_of (v, k) = (r, (v', k')) /\
    ((r = Ok tt /\ (length l < v_cap v')%nat /\ vec_repr v' l) \/ (r = Err AllocErr /\ v' = v)).
Proof.
  intros Hr Hfull. pose proof (repr_len v l Hr) as Hl. unfold vec_grow.
  destruct (v_cap v) as [|c] eqn:Ec.
  - destruct (realloc_to_repr 1 v l k Hr ltac:(lia) ltac:(lia)) as (r & v' & k' & He & Hor).
    exists r, v', k'. split; [done|]. destruct Hor as [(-> & Hc & Hv)|[-> ->]]; [left|right]; eauto.
    split; [done|]. split; [lia|done].
  - unfold u_checked_mul. destruct (_ <? _) eqn:E; [|eauto 10].
    destruct (realloc_to_repr (S c * 2) v l k Hr ltac:(lia) ltac:(blia)) as (r & v' & k' & He & Hor).
    exists r, v', k'. split; [done|]. destruct Hor as [(-> & Hc & Hv)|[-> ->]]; [left|right]; eauto.
    split; [done|]. split; [lia|done].
Qed.

(** [reserve] makes room for [n] more elements, or changes nothing. *)
Lemma vec_reserve_repr n v l k : vec_repr v l ->
  exists r v' k', vec_reserve size_of align_of n (v, k) = (r, (v', k')) /\
    ((r = Ok tt /\ (length l + n <= v_cap v')%nat /\ vec_repr v' l) \/ (r = Err AllocErr /\ v' = v)).
Proof.
  intros Hr. pose proof (repr_len v l Hr) as Hl. unfold vec_reserve, u_checked_add.
  destruct (_ <? _) eqn:E; [|eauto 10]. case_bool_decide.
  - do 3 eexists. split; [done|]. left. split; [done|]. split; [lia|done].
  - destruct (realloc_to_repr (v_len v + n) v l k Hr ltac:(lia) ltac:(blia)) as (r & v' & k' & He & Hor).
    exists r, v', k'. split; [done|]. destruct Hor as [(-> & Hc & Hv)|[-> ->]]; [left|right]; eauto.
    split; [done|]. split; [lia|done].
Qed.

(** With room left, [push] does not call the allocator. *)
Lemma vec_push_room x v l k : vec_repr v l -> (length l < v_cap v)%nat ->
  exists v', vec_push size_of align_of x (v, k) = (Ok tt, (v', k)) /\
    vec_repr v' (l ++ [x]) /\ v_cap v' = v_cap v.
Proof.
  intros Hr Hlt. pose proof (repr_len v l Hr) as Hl.
  destruct (write_end_repr v l x Hr Hlt) as (v' & Hw & Hv' & Hc).
  exists v'. split; [|done]. unfold vec_push, m_bind.
  rewrite bool_decide_eq_false_2 by lia. unfold on_vec, vec_update. by rewrite Hw.
Qed.

Lemma vec_push_repr x v l k : vec_repr v l ->
  exists r v' k', vec_push size_of align_of x (v, k) = (r, (v', k')) /\
    ((r = Ok tt /\ vec_repr v' (l ++ [x])) \/ (r = Err AllocErr /\ v' = v)).
Proof.
  intros Hr. pose proof (repr_len v l Hr) as Hl. pose proof (repr_le v l Hr) as Hle.
  destruct (decide (v_len v = v_cap v)) as [Hfull|Hroom].
  - destruct (vec_grow_repr v l k Hr Hfull) as (r & v1 & k1 & Hg & Hor).
    unfold vec_push, m_bind. rewrite bool_decide_eq_true_2 by done. rewrite Hg.
    destruct Hor as [(-> & Hlt & Hr1)|[-> ->]]; [|eauto 10].
    destruct (write_end_repr v1 l x Hr1 Hlt) as (v' & Hw & Hv' & Hc).
    unfold on_vec, vec_update. rewrite Hw. eauto 10.
  - destruct (vec_push_room x v l k Hr ltac:(lia)) as (v' & He & Hv' & _). eauto 10.
Qed.

Lemma vec_push_all_repr xs v l k : vec_repr v l -> (length l + length xs <= v_cap v)%nat ->
  exists v', vec_push_all size_of align_of xs (v, k) = (Ok tt, (v', k)) /\ vec_repr v' (l ++ xs).
Proof.
  revert v l. induction xs as [|x xs IH]; intros v l Hr Hroom; simpl in *.
  - exists v. by rewrite app_nil_r.
  - destruct (vec_push_room x v l k Hr ltac:(lia)) as (v1 & He & Hr1 & Hc).
    destruct (IH v1 (l ++ [x]) Hr1) as (v' & He' & Hr').
    { rewrite length_app; simpl. lia. }
    exists v'. unfold m_bind. rewrite He, He'. split; [done|]. by rewrite <- app_assoc in Hr'.
Qed.

(** [extend_from_slice] is all or nothing. *)
Lemma vec_extend_repr xs v l k : vec_repr v l ->
  exists r v' k', vec_extend_from_slice size_of align_of xs (v, k) = (r, (v', k')) /\
    ((r = Ok tt /\ vec_repr v' (l ++ xs)) \/ (r = Err AllocErr /\ v' = v)).
Proof.
  intros Hr. destruct (vec_reserve_repr (length xs) v l k Hr) as (r & v1 & k1 & He & Hor).
  unfold vec_extend_from_slice, m_bind. rewrite He.
  destruct Hor as [(-> & Hroom & Hr1)|[-> ->]]; [|eauto 10].
  destruct (vec_push_all_repr xs v1 l k1 Hr1 Hroom) as (v' & He' & Hr'). eauto 10.
Qed.

Lemma vec_fill_repr n f v l : vec_repr v l -> (length l + n <= v_cap v)%nat ->
  exists v', vec_fill n f v = Ok v' /\ vec_repr v' (l ++ (f <$> seq 0 n)).
Proof.
  revert f v l. induction n as [|n IH]; intros f v l Hr Hroom.
  - exists v. simpl. by rewrite app_nil_r.
  - destruct (write_end_repr v l (f 0%nat) Hr ltac:(lia)) as (v1 & He & Hr1 & Hc).
    destruct (IH (fun i => f (S i)) v1 (l ++ [f 0%nat]) Hr1) as (v' & He' & Hr').
    { rewrite length_app; simpl. lia. }
    exists v'. cbn [vec_fill]. rewrite He. cbn. split; [done|].
    rewrite <- app_assoc in Hr'. simpl in Hr'. rewrite <- fmap_S_seq, <- list_fmap_compose. done.
Qed.

(** [resize_with] appends the results of the closure's calls in order, or truncates. *)
Lemma vec_resize_with_repr n f v l k : vec_repr v l ->
  exists r v' k', vec_resize_with size_of align_of n f (v, k) = (r, (v', k')) /\
    ((r = Ok (drop n l) /\ vec_repr v' (take n l ++ (f <$> seq 0 (n - length l)))) \/
     (r = Err AllocErr /\ v' = v)).
Proof.
  intros Hr. pose proof (repr_len v l Hr) as Hl. unfold vec_resize_with. case_bool_decide as Hn.
  - unfold on_vec, vec_truncate. case_bool_decide as Hn2.
    + do 3 eexists. split; [done|]. left. split; [by rewrite drop_ge by lia|].
      rewrite take_ge by lia. replace (n - length l)%nat with 0%nat by lia. by rewrite app_nil_r.
    + rewrite (repr_drop v l n Hr). do 3 eexists. split; [done|]. left. split; [done|].
      replace (n - length l)%nat with 0%nat by lia. rewrite app_nil_r. apply repr_shrink; [done|lia].
  - destruct (vec_reserve_repr (n - v_len v) v l k Hr) as (r & v1 & k1 & He & Hor).
    unfold m_bind. rewrite He. destruct Hor as [(-> & Hroom & Hr1)|[-> ->]]; [|eauto 10].
    destruct (vec_fill_repr (n - v_len v) f v1 l Hr1 ltac:(lia)) as (v' & He' & Hr').
    unfold on_vec, vec_update. rewrite He'. do 3 eexists. split; [done|]. left.
    rewrite drop_ge, take_ge by lia. rewrite Hl in Hr'. done.
Qed.

Lemma vec_pop_repr v l : vec_repr v l ->
  exists v', vec_pop v = (Ok (list.last l), v') /\ vec_repr v' (take (length l - 1) l).
Proof.
  intros Hr. pose proof (repr_len v l Hr) as Hl. unfold vec_pop. rewrite Hl.
  destruct (length l) as [|n] eqn:E.
  - apply nil_length_inv in E as ->. eauto.
  - assert (is_Some (l !! n)) as [x Hx] by (apply lookup_lt_is_Some; lia).
    rewrite (repr_read v l n x Hr Hx). simpl. eexists. rewrite last_lookup, E. simpl. rewrite Hx.
    split; [done|]. rewrite Nat.sub_0_r. apply repr_shrink; [done|lia].
Qed.

Lemma slots_copy_shift (sl : list (option T)) i n : (i < n <= length sl)%nat ->
  exists sl', slots_copy sl (i + 1) i (n - i - 1) = Ok sl' /\
    length sl' = length sl /\ take (n - 1) sl' = delete i (take n sl).
Proof.
  intros Hi. unfold slots_copy. rewrite bool_decide_eq_true_2 by lia. eexists. split; [done|].
  split.
  - rewrite !length_app, !length_take, !length_drop. lia.
  - rewrite delete_take_drop, take_take, Nat.min_l by lia.
    rewrite app_assoc, take_app_le by (rewrite length_app, !length_take, length_drop; lia).
    rewrite take_ge by (rewrite length_app, !length_take, length_drop; lia).
    f_equal. rewrite skipn_firstn_comm. f_equal; [lia|]. f_equal. lia.
Qed.

Lemma vec_remove_repr i v l x : vec_repr v l -> l !! i = Some x ->
  exists v', vec_remove i v = (Ok x, v') /\ vec_repr v' (delete i l).
Proof.
  intros Hr Hx. pose proof (lookup_lt_Some _ _ _ Hx) as Hlt. pose proof (repr_le v l Hr) as Hle.
  pose proof Hr as [Hl Hc Hs Hf].
  assert (length (delete i l) = v_len v - 1)%nat as Hdl by (rewrite length_delete by eauto; lia).
  unfold vec_remove. rewrite bool_decide_eq_true_2 by lia. rewrite (repr_read v l i x Hr Hx).
  destruct (slots_copy_shift (v_slots v) i (v_len v) ltac:(lia)) as (sl' & He & Hl' & Ht).
  rewrite Hs, <- list_fmap_delete in Ht.
  case_bool_decide as Hcnt; [rewrite He|]; eexists; (split; [done|]); split; simpl; try done; try lia.
  rewrite list_fmap_delete, <- Hs, delete_take_drop, take_take, Nat.min_l by lia.
  rewrite (drop_ge (take _ _)) by (rewrite length_take; lia). rewrite app_nil_r. f_equal. lia.
Qed.

Lemma vec_swap_remove_repr i v l x y : vec_repr v l -> l !! i = Some x -> list.last l = Some y ->
  exists v', vec_swap_remove i v = (Ok x, v') /\ vec_repr v' (take (length l - 1) (<[i := y]> l)).
Proof.
  intros Hr Hx Hy. pose proof (lookup_lt_Some _ _ _ Hx) as Hlt. pose proof (repr_le v l Hr) as Hle.
  pose proof Hr as [Hl Hc Hs Hf]. rewrite last_lookup in Hy.
  replace (pred (length l)) with (length l - 1)%nat in Hy by lia.
  pose proof (repr_lookup v l i Hr Hlt) as Hi. rewrite Hx in Hi.
  pose proof (repr_lookup v l (length l - 1) Hr ltac:(lia)) as Hn. rewrite Hy in Hn. simpl in *.
  unfold vec_swap_remove. rewrite bool_decide_eq_true_2 by lia. rewrite Hl. case_bool_decide as Hne.
  - unfold slots_swap. rewrite Hi, Hn. unfold slot_read; simpl.
    rewrite list_lookup_insert_eq by (rewrite length_insert; lia). eexists. split; [done|].
    split; simpl; try done.
    + rewrite length_take, length_insert. lia.
    + by rewrite !length_insert.
    + rewrite take_insert_ge, fmap_take, list_fmap_insert by lia.
      rewrite !take_insert_lt by lia. f_equal. rewrite <- Hs, Hl, take_take. f_equal. lia.
  - subst i. rewrite list_insert_id by congruence.
    unfold slot_read; simpl. rewrite Hi. eexists. split; [done|].
    change (vec_repr (vec_set_len (length l - 1) v) (take (length l - 1) l)).
    apply repr_shrink; [done|lia].
Qed.

Lemma vec_truncate_repr n v l : vec_repr v l ->
  exists v', vec_truncate n v = (Ok (drop n l), v') /\ vec_repr v' (take n l).
Proof.
  intros Hr. pose proof (repr_len v l Hr) as Hl. unfold vec_truncate. case_bool_decide as Hn.
  - exists v. rewrite drop_ge, take_ge by lia. done.
  - rewrite (repr_drop v l n Hr). eexists. split; [done|]. apply repr_shrink; [done|lia].
Qed.

Lemma remove_oob i v l : vec_repr v l -> l !! i = None ->
  vec_remove i v = (Panic, v) /\ vec_swap_remove i v = (Panic, v).
Proof.
  intros Hr Hi. apply lookup_ge_None in Hi. pose proof (repr_len v l Hr).
  unfold vec_remove, vec_swap_remove. by rewrite !bool_decide_eq_false_2 by lia.
Qed.

Ltac vec_case H := destruct H as (?r & ?v' & ?k' & ?He & [[-> ?Hr']|[-> ->]]).

(** One call refines the list specification. *)
Lemma vec_exec_repr op v l k : vec_repr v l ->
  exists o v' k' l', vec_exec op (v, k) = (o, (v', k')) /\ vec_repr v' l' /\ vec_step_ok op l o l'.
Proof.
  intros Hr. destruct op as [x| |i|i|n| |n|xs|n x]; unfold vec_exec, m_bind, on_vec.
  - vec_case (vec_push_repr x v l k Hr); rewrite He; do 4 eexists; done.
  - destruct (vec_pop_repr v l Hr) as (v' & He & Hr'). rewrite He. do 4 eexists. done.
  - destruct (l !! i) as [x|] eqn:Hx.
    + destruct (vec_remove_repr i v l x Hr Hx) as (v' & He & Hr'). rewrite He.
      do 4 eexists. split; [done|]. split; [done|]. simpl. by rewrite Hx.
    + destruct (remove_oob i v l Hr Hx) as [He _]. rewrite He.
      do 4 eexists. split; [done|]. split; [done|]. simpl. by rewrite Hx.
  - destruct (l !! i) as [x|] eqn:Hx.
    + assert (is_Some (list.last l)) as [y Hy].
      { apply last_is_Some. intros ->. done. }
      destruct (vec_swap_remove_repr i v l x y Hr Hx Hy) as (v' & He & Hr'). rewrite He.
      do 4 eexists. split; [done|]. split; [done|]. simpl. by rewrite Hx, Hy.
    + destruct (remove_oob i v l Hr Hx) as [_ He]. rewrite He.
      do 4 eexists. split; [done|]. split; [done|]. simpl. by rewrite Hx.
  - destruct (vec_truncate_repr n v l Hr) as (v' & He & Hr'). rewrite He. do 4 eexists. done.
  - destruct (vec_truncate_repr 0 v l Hr) as (v' & He & Hr'). unfold vec_clear. rewrite He.
    do 4 eexists. done.
  - destruct (vec_reserve_repr n v l k Hr) as (r & v' & k' & He & [(-> & _ & Hr')|[-> ->]]);
      rewrite He; do 4 eexists; done.
  - vec_case (vec_extend_repr xs v l k Hr); rewrite He; do 4 eexists; done.
  - vec_case (vec_resize_with_repr n (fun _ => x) v l k Hr); unfold vec_resize; rewrite He;
      do 4 eexists; [|done]. split; [done|]. split; [done|]. simpl. rewrite resize_spec.
    by rewrite fmap_const_seq.
Qed.

(** A sequence of calls, the way a caller that matches on each [Result] makes
    them; a panic ends the program. *)
Fixpoint vec_run (ops : list (vop T)) (s : Vec T * kst) : list (res AllocError (vout T)) * (Vec T * kst) :=
  match ops with
  | [] => ([], s)
  | op :: rest =>
      match vec_exec op s with
      | (Panic, s') => ([Panic], s')
      | (o, s') => let '(os, s'') := vec_run rest s' in (o :: os, s'')
      end
  end.

(** The same sequence on the list, with the outcomes it observed. *)
Inductive spec_run : list (vop T) -> list T -> list (res AllocError (vout T)) -> list T -> Prop :=
| spec_done l : spec_run [] l [] l
| spec_panic op rest l l' : vec_step_ok op l Panic l' -> spec_run (op :: rest) l [Panic] l'
| spec_next op rest l o l' os l'' :
    vec_step_ok op l o l' -> o <> Panic -> spec_run rest l' os l'' ->
    spec_run (op :: rest) l (o :: os) l''.

(** C4. Refinement of the kernel vector to a list: any sequence of public calls
    on a fresh vector, with any allocator, behaves as the list specification:
    each call returns the specified result, or reports [AllocError] and leaves
    the contents untouched, or panics exactly on an index out of range; no slot
    that was never written is read ([Ub] is not among the outcomes), and the
    slice of the final vector is the final list. *)
Theorem vec_refines_list (ops : list (vop T)) (k : kst) :
  let '(os, (v', _)) := vec_run ops (vec_new, k) in
  exists l', spec_run ops [] os l' /\ vec_as_slice v' = Ok l'.
Proof.
  assert (forall v l k, vec_repr v l -> let '(os, (v', _)) := vec_run ops (v, k) in
            exists l', spec_run ops l os l' /\ vec_repr v' l') as Hgen.
  { clear k. induction ops as [|op rest IH]; intros v l k Hr; cbn [vec_run].
    - exists l. split; [constructor|done].
    - destruct (vec_exec_repr op v l k Hr) as (o & v1 & k1 & l1 & He & Hr1 & Hok). rewrite He.
      specialize (IH v1 l1 k1 Hr1).
      destruct (vec_run rest (v1, k1)) as [os [v2 k2]], IH as (l2 & Hrun & Hr2).
      destruct o; try done; [exists l2|exists l2|exists l1]; (split; [|done]).
      1, 2: by eapply spec_next. by constructor. }
  specialize (Hgen vec_new [] k vec_new_repr). destruct (vec_run ops _) as [os [v' k']].
  destruct Hgen as (l' & Hrun & Hr'). exists l'. split; [done|]. by apply repr_as_slice.
Qed.

Lemma iter_take_repr n p v l : vec_repr v l ->
  exists p', iter_take n (mkIter v p) = (Ok (take n (drop p l)), mkIter v p') /\
    drop p' l = drop n (drop p l).
Proof.
  intros Hr. pose proof (repr_len v l Hr) as Hl. revert p.
  induction n as [|n IH]; intros p; cbn [iter_take].
  - exists p. by rewrite drop_0.
  - unfold iter_next; simpl. case_bool_decide as Hp.
    + exists p. rewrite (drop_ge l p) by lia. by rewrite drop_nil.
    + assert (is_Some (l !! p)) as [x Hx] by (apply lookup_lt_is_Some; lia).
      rewrite (repr_read v l p x Hr Hx). simpl. destruct (IH (S p)) as (p' & He & Hd).
      rewrite He. exists p'. rewrite (drop_S l x p Hx). done.
Qed.

Lemma vec_drop_empty v k : fst (vec_drop size_of align_of (vec_set_len 0 v) k) = Ok [].
Proof.
  unfold vec_drop. simpl. case_bool_decide; [|done].
  by destruct (array_layout size_of align_of (v_cap v)).
Qed.

(** C12. A consuming iterator hands out or drops every element exactly once: the
    elements returned by [n] calls of [next], followed by those the
    iterator's [Drop] reads out, are the vector's elements in order, and the
    vector's own [Drop] afterwards drops none. *)
Theorem into_iter_exactly_once (v : Vec T) (l : list T) (n : nat) (k : kst) :
  vec_repr v l ->
  exists it rest,
    iter_take n (vec_into_iter v) = (Ok (take n l), it) /\
    fst (iter_drop size_of align_of it k) = Ok (rest, []) /\
    take n l ++ rest = l /\ iter_size_hint it = length rest.
Proof.
  intros Hr. destruct (iter_take_repr n 0 v l Hr) as (p & He & Hd). rewrite !drop_0 in *.
  exists (mkIter v p), (drop p l). split; [done|]. split.
  - unfold iter_drop; simpl. rewrite (repr_drop v l p Hr).
    pose proof (vec_drop_empty v k) as Hd0.
    destruct (vec_drop _ _ _ k) as [r k']. simpl in *. by subst r.
  - split; [by rewrite Hd, take_drop|]. unfold iter_size_hint; simpl.
    rewrite length_drop. by rewrite (repr_len v l Hr).
Qed.

(** An allocation failure on a fresh vector has a reason: the size overflows or
    the kernel returned null. *)
Definition alloc_refused (n : nat) (k : kst) : Prop :=
  2 ^ 64 <= Z.of_nat n \/ array_layout size_of align_of n = None \/
  exists size, array_layout size_of align_of n = Some size /\
               fst (krealloc k size align_of) = false.

Lemma vec_reserve_new_err n k e s : 0 <= size_of ->
  vec_reserve size_of align_of n (@vec_new T, k) = (Err e, s) -> alloc_refused n k.
Proof.
  intros Hsz. unfold vec_reserve, u_checked_add, alloc_refused; simpl.
  destruct (_ <? _) eqn:E; [|intros _; left; blia].
  case_bool_decide; [done|]. unfold realloc_to, kmalloc_realloc.
  destruct (array_layout _ _ n) as [size|] eqn:En; [|auto]. simpl.
  destruct (array_layout size_of align_of 0) eqn:E0.
  - destruct (krealloc k size align_of) as [[] k'] eqn:Ek; destruct (size =? 0); try done.
    intros _. right. right. exists size. by rewrite Ek.
  - intros _. exfalso. unfold array_layout, u_checked_mul in *.
    rewrite Z.mul_0_r in E0. change (0 <? 2 ^ 64) with true in E0. cbn iota in E0.
    destruct (size_of * _ <? _); [|done].
    destruct (_ <? 0) eqn:E1; [|done]. destruct (_ <? _) eqn:E2 in En; [done|].
    zify_bools. nia.
Qed.

(** [Vec::from_slice] yields a vector whose slice is the argument, and the
    only way it can fail is that the allocation of its single block was refused:
    the byte size overflows [isize], or the kernel returned null for exactly
    that request. *)
Theorem from_slice_contents (xs : list T) (k : kst) :
  0 <= size_of ->
  match vec_from_slice size_of align_of xs k with
  | (Ok v, _) => vec_as_slice v = Ok xs
  | (Err _, _) => alloc_refused (length xs) k
  | _ => False
  end.
Proof.
  intros Hsz. unfold vec_from_slice, on_fresh, m_bind.
  destruct (vec_reserve_repr (length xs) vec_new [] k vec_new_repr)
    as (r & v1 & k1 & He & [(-> & Hroom & Hr1)|[-> ->]]); rewrite He; simpl.
  - unfold vec_extend_from_slice, m_bind, vec_reserve, u_checked_add.
    pose proof (repr_len v1 [] Hr1) as Hl1. pose proof (repr_fits v1 [] Hr1). simpl in *.
    rewrite Hl1. destruct (_ <? _) eqn:E; [|blia].
    rewrite bool_decide_eq_true_2 by lia.
    destruct (vec_push_all_repr xs v1 [] k1 Hr1 Hroom) as (v' & He' & Hr').
    rewrite He'. simpl. by apply repr_as_slice.
  - by eapply vec_reserve_new_err.
Qed.

End VecFacts.

(** ** The view of the clients

    Code that uses a vector only through its public calls sees its list of
    elements and whether the allocator granted the request.  [VecAlloc] is that
    interface; [kv_push_sound] and its siblings discharge it against the block
    model: every outcome of a real call is the outcome of the list-level call
    for one answer of the allocator. *)
Class VecAlloc := {
  ast : Type;
  grant : ast -> bool * ast
}.

Section Client.
Context `{VA : VecAlloc} {T : Type}.

Definition kv_try {A} (a : A) : M ast AllocError A :=
  fun s => let '(b, s') := grant s in if b then (Ok a, s') else (Err AllocErr, s').
Definition kv_push (l : list T) (x : T) : M ast AllocError (list T) := kv_try (l ++ [x]).
Definition kv_extend (l xs : list T) : M ast AllocError (list T) := kv_try (l ++ xs).
Definition kv_from_slice (xs : list T) : M ast AllocError (list T) := kv_try xs.
Definition kv_with_capacity : M ast AllocError (list T) := kv_try [].
Definition kv_resize (n : nat) (x : T) (l : list T) : M ast AllocError (list T) :=
  if bool_decide (n <= length l)%nat then m_ret (take n l) else kv_try (resize n x l).

End Client.

(** Every outcome of a vector call is success with the list or [AllocError]. *)
Lemma kv_try_cases `{VA : VecAlloc} {A} (x : A) a :
  exists a', kv_try x a = (Ok x, a') \/ kv_try x a = (Err AllocErr, a').
Proof. unfold kv_try. destruct (grant a) as [[] a']; eauto. Qed.

(** An allocator that never refuses. *)
Class AlwaysGrants (VA : VecAlloc) : Prop := always_grants : forall a, fst (grant a) = true.

Lemma kv_try_granted `{VA : VecAlloc} {Hg : AlwaysGrants VA} {A} (x : A) a : exists a', kv_try x a = (Ok x, a').
Proof.
  unfold kv_try. pose proof (always_grants a) as H. destruct (grant a) as [b a'].
  simpl in H. subst b. eauto.
Qed.

(** An allocator that gives one answer. *)
Definition const_alloc : VecAlloc := {| ast := bool; grant b := (b, b) |}.

Section ClientSound.
Context {T : Type} (size_of align_of : Z) `{KA : KernelAlloc}.

(** [r] on the vector and [r'] on the list agree. *)
Definition kv_agrees (l : list T) {A} (o : res AllocError A * (Vec T * kst))
    (o' : res AllocError (list T) * bool) : Prop :=
  match fst o, fst o' with
  | Ok _, Ok l' => vec_repr (fst (snd o)) l'
  | Err _, Err _ => vec_repr (fst (snd o)) l
  | _, _ => False
  end.

Lemma kv_push_sound x v l k : vec_repr v l ->
  exists b, kv_agrees l (vec_push size_of align_of x (v, k)) (kv_push (VA := const_alloc) l x b).
Proof.
  intros Hr. destruct (vec_push_repr size_of align_of x v l k Hr)
    as (r & v' & k' & He & [[-> Hr']|[-> ->]]); rewrite He; [by exists true|by exists false].
Qed.

Lemma kv_extend_sound xs v l k : vec_repr v l ->
  exists b, kv_agrees l (vec_extend_from_slice size_of align_of xs (v, k))
                        (kv_extend (VA := const_alloc) l xs b).
Proof.
  intros Hr. destruct (vec_extend_repr size_of align_of xs v l k Hr)
    as (r & v' & k' & He & [[-> Hr']|[-> ->]]); rewrite He; [by exists true|by exists false].
Qed.

Lemma kv_resize_sound n x v l k : vec_repr v l ->
  exists b, kv_agrees l (vec_resize size_of align_of n x (v, k))
                        (kv_resize (VA := const_alloc) n x l b).
Proof.
  intros Hr. destruct (vec_resize_with_repr size_of align_of n (fun _ => x) v l k Hr)
    as (r & v' & k' & He & Hor). unfold vec_resize. rewrite He. unfold kv_resize.
  rewrite fmap_const_seq, <- resize_spec in Hor. case_bool_decide as Hn.
  - destruct Hor as [[-> Hr']|[-> ->]].
    + exists true. unfold kv_agrees; simpl. by rewrite resize_le in Hr'.
    + exfalso. unfold vec_resize_with in He. rewrite (repr_len v l Hr) in He.
      rewrite bool_decide_eq_true_2 in He by done. unfold on_vec in He.
      destruct (vec_truncate_repr n v l Hr) as (v2 & He2 & _). by rewrite He2 in He.
  - destruct Hor as [[-> Hr']|[-> ->]]; [by exists true|by exists false].
Qed.

End ClientSound.

(** ** Witnesses *)

(** An allocator that grants the requests its script says. *)
Definition scripted_alloc : KernelAlloc := {|
  kst := list bool;
  krealloc s _ _ := match s with [] => (true, []) | b :: t => (b, t) end;
  kfree s := s |}.

Lemma into_iter_exactly_once_witness :
  exists it rest,
    iter_take 2 (vec_into_iter (mkVec [Some 1; Some 2; Some 3; None] 3 4)) = (Ok [1; 2], it) /\
    fst (@iter_drop Z 8 8 scripted_alloc it []) = Ok (rest, []) /\
    [1; 2] ++ rest = [1; 2; 3] /\ iter_size_hint it = length rest.
Proof.
  apply (@into_iter_exactly_once Z 8 8 scripted_alloc
           (mkVec [Some 1; Some 2; Some 3; None] 3 4) [1; 2; 3] 2 []).
  split; done.
Defined.

Lemma from_slice_contents_witness :
  match @vec_from_slice Z 8 8 scripted_alloc [4; 5] [] with
  | (Ok v, _) => vec_as_slice v = Ok [4; 5]
  | (Err _, _) => @alloc_refused 8 8 scripted_alloc 2 []
  | _ => False
  end.
Proof. apply (@from_slice_contents Z 8 8 scripted_alloc [4; 5] []). lia. Defined.
