(* ===== verification/KvecTest.v ===== *)
(** * The vector test module (samples/kvec_test/kvec_test.rs)

    The checks the module makes when it is loaded, run on the vectors of [KVec].  The source
    returns the same value for a refused allocation and for a failed check and tells them
    apart in the log; [TestErr] keeps them apart.  The drops of the vectors, which end every
    path, are left out ([KVec] has them). *)
From Stdlib Require Import ZArith Lia Bool.
From stdpp Require Import base list option numbers.
From S2P Require Import Prelude Errors KVec.

Inductive TestErr : Type := Refused | CheckFailed.

Section KvecTest.
Context `{KE : KernelErrno, KA : KernelAlloc}.

Abbreviation KM := (M kst TestErr).

(** A call on a vector with [map_err(|_| ())?]. *)
Definition on_alloc {T} (m : M (Vec T * kst) AllocError unit) (v : Vec T) : KM (Vec T) := fun k =>
  let '(r, (v', k')) := m (v, k) in (map_err (fun _ => Refused) (_ <-? r ;; Ok v'), k').
(** A call that cannot fail for want of memory. *)
Definition pure {A} (r : res AllocError A) : KM A := m_lift (map_err (fun _ => Refused) r).
Definition check (b : bool) : KM unit := if b then m_ret tt else m_err CheckFailed.

(** [for x in v4 { sum += x }] on [u32]. *)
Definition sum_iter (v : Vec Z) : res AllocError Z :=
  xs <-? fst (iter_take (S (v_len v)) (vec_into_iter v)) ;; Ok (foldl (fun s x => wrap 32 (s + x)) 0 xs).

Definition test_kvec : KM unit :=
  (* 1: push and len *)
  v <-! on_alloc (vec_push 4 4 10) vec_new ;;
  v <-! on_alloc (vec_push 4 4 20) v ;;
  v <-! on_alloc (vec_push 4 4 30) v ;;
  _ <-! check (Nat.eqb (v_len v) 3) ;;
  (* 2: indexing *)
  s <-! pure (vec_as_slice v) ;;
  x0 <-! pure (index s 0) ;;
  _ <-! check (x0 =? 10) ;;
  x1 <-! pure (index s 1) ;;
  _ <-! check (x1 =? 20) ;;
  x2 <-! pure (index s 2) ;;
  _ <-! check (x2 =? 30) ;;
  (* 3: pop *)
  let '(o, v) := vec_pop v in
  o <-! pure o ;;
  _ <-! check (bool_decide (o = Some 30)) ;;
  _ <-! check (Nat.eqb (v_len v) 2) ;;
  (* 4: with_capacity *)
  v2 <-! m_map_err (fun _ => Refused) (vec_with_capacity (T := Z) 8 8 16) ;;
  _ <-! check (negb (bool_decide (v_cap v2 < 16)%nat)) ;;
  (* 5: extend_from_slice *)
  v3 <-! on_alloc (vec_extend_from_slice 1 1 [1; 2; 3; 4; 5]) vec_new ;;
  _ <-! check (Nat.eqb (v_len v3) 5) ;;
  s <-! pure (vec_as_slice v3) ;;
  x4 <-! pure (index s 4) ;;
  _ <-! check (x4 =? 5) ;;
  (* 6: clear *)
  let '(o, v3) := vec_clear v3 in
  _ <-! pure o ;;
  _ <-! check (Nat.eqb (v_len v3) 0) ;;
  (* 7: into_iter *)
  v4 <-! on_alloc (vec_push 4 4 100) vec_new ;;
  v4 <-! on_alloc (vec_push 4 4 200) v4 ;;
  sum <-! pure (sum_iter v4) ;;
  check (sum =? 300).

(** The module's [init]. *)
Definition kvec_test_init (k : kst) : res Error unit * kst :=
  match test_kvec k with
  | (Ok _, k') => (Ok tt, k')
  | (Err _, k') => (Err EINVAL, k')
  | (Panic, k') => (Panic, k')
  | (Ub, k') => (Ub, k')
  | (Pending, k') => (Pending, k')
  end.

(** What a test may do: succeed, or stop because memory was refused. *)
Definition passes_or_refused {A} (m : KM A) (Q : A -> Prop) : Prop :=
  forall k, match m k with (Ok a, _) => Q a | (Err Refused, _) => True | _ => False end.

Lemma pr_bind {A B} (m : KM A) (f : A -> KM B) P Q :
  passes_or_refused m P -> (forall a, P a -> passes_or_refused (f a) Q) -> passes_or_refused (m_bind m f) Q.
Proof.
  intros Hm Hf k. unfold m_bind. specialize (Hm k). destruct (m k) as [[a|[]| | |] k']; try done. by apply Hf.
Qed.
Lemma pr_check b : b = true -> passes_or_refused (check b) (fun _ => True).
Proof. by intros -> k. Qed.
Lemma pr_pure {A} (r : res AllocError A) a (Q : A -> Prop) : r = Ok a -> Q a -> passes_or_refused (pure r) Q.
Proof. by intros -> HQ k. Qed.
Lemma pr_push {T} s a (x : T) v l : vec_repr v l -> passes_or_refused (on_alloc (vec_push s a x) v) (fun v' => vec_repr v' (l ++ [x])).
Proof.
  intros Hr k. unfold on_alloc. destruct (vec_push_repr s a x v l k Hr) as (r & v' & k' & -> & [[-> H]|[-> ->]]); done.
Qed.
Lemma pr_extend {T} s a (xs : list T) v l : vec_repr v l ->
  passes_or_refused (on_alloc (vec_extend_from_slice s a xs) v) (fun v' => vec_repr v' (l ++ xs)).
Proof.
  intros Hr k. unfold on_alloc. destruct (vec_extend_repr s a xs v l k Hr) as (r & v' & k' & -> & [[-> H]|[-> ->]]); done.
Qed.
Lemma pr_with_capacity {T} s a n : passes_or_refused (m_map_err (fun _ => Refused) (vec_with_capacity (T := T) s a n)) (fun v => (n <= v_cap v)%nat).
Proof.
  intros k. unfold m_map_err, vec_with_capacity, on_fresh.
  destruct (vec_reserve_repr s a n (vec_new (T := T)) [] k vec_new_repr) as (r & v' & k' & -> & [(-> & H & _)|[-> ->]]); done.
Qed.

(** The test module loads exactly when memory is granted: with any allocator no check fails,
    nothing panics and no unwritten slot is read; a load that fails was refused memory. *)
Theorem kvec_test_passes : passes_or_refused test_kvec (fun _ => True).
Proof.
  unfold test_kvec.
  eapply pr_bind; [eapply pr_push, vec_new_repr|]. cbn beta. intros v1 R1.
  eapply pr_bind; [eapply pr_push, R1|]. cbn beta. intros v2 R2.
  eapply pr_bind; [eapply pr_push, R2|]. cbn beta. intros v R.
  cbn [app] in R. eapply pr_bind; [apply pr_check; by rewrite (repr_len _ _ R)|intros _ _].
  eapply pr_bind; [eapply (pr_pure _ _ (fun s => s = [10; 20; 30])); [apply repr_as_slice, R|done]|]. intros s ->.
  eapply pr_bind; [by eapply (pr_pure _ _ (fun x => x = 10))|]. intros x0 ->. eapply pr_bind; [by apply pr_check|intros _ _].
  eapply pr_bind; [by eapply (pr_pure _ _ (fun x => x = 20))|]. intros x1 ->. eapply pr_bind; [by apply pr_check|intros _ _].
  eapply pr_bind; [by eapply (pr_pure _ _ (fun x => x = 30))|]. intros x2 ->.
  eapply pr_bind; [by apply pr_check|intros _ _].
  destruct (vec_pop_repr v _ R) as (v' & -> & R'). cbn in R'.
  eapply pr_bind; [by eapply (pr_pure _ _ (fun o => o = Some 30))|]. intros o ->.
  eapply pr_bind; [by apply pr_check|intros _ _]. eapply pr_bind; [apply pr_check; by rewrite (repr_len _ _ R')|intros _ _].
  eapply pr_bind; [apply pr_with_capacity|]. cbn beta. intros w Hw.
  eapply pr_bind; [apply pr_check; rewrite bool_decide_false; [done|lia]|intros _ _].
  eapply pr_bind; [eapply pr_extend, vec_new_repr|]. cbn beta. intros v3 R3. cbn [app] in R3.
  eapply pr_bind; [apply pr_check; by rewrite (repr_len _ _ R3)|intros _ _].
  eapply pr_bind; [eapply (pr_pure _ _ (fun s => s = [1; 2; 3; 4; 5])); [apply repr_as_slice, R3|done]|]. intros s ->.
  eapply pr_bind; [by eapply (pr_pure _ _ (fun x => x = 5))|]. intros x4 ->. eapply pr_bind; [by apply pr_check|intros _ _].
  unfold vec_clear. destruct (vec_truncate_repr 0 v3 _ R3) as (v3' & -> & R3').
  eapply pr_bind; [by eapply (pr_pure _ _ (fun _ => True))|]. intros _ _.
  eapply pr_bind; [apply pr_check; by rewrite (repr_len _ _ R3')|intros _ _].
  eapply pr_bind; [eapply pr_push, vec_new_repr|]. cbn beta. intros v4 R4.
  eapply pr_bind; [eapply pr_push, R4|]. cbn beta. intros v5 R5. cbn [app] in R5.
  eapply pr_bind; [eapply (pr_pure _ _ (fun x => x = 300)); [|done]|].
  - unfold sum_iter. rewrite (repr_len _ _ R5). destruct (iter_take_repr 3 0 v5 _ R5) as (p & He & _).
    unfold vec_into_iter. cbn [length]. rewrite He. done.
  - intros sum ->. by apply pr_check.
Qed.

Lemma kvec_test_loads k : match kvec_test_init k with
  | (Ok _, _) => True
  | (Err e, _) => e = EINVAL /\ fst (test_kvec k) = Err Refused
  | _ => False
  end.
Proof. unfold kvec_test_init. pose proof (kvec_test_passes k) as H. destruct (test_kvec k) as [[[]|[]| | |] k']; done. Qed.
End KvecTest.
