(* ===== verification/Stream.v ===== *)
(** * The byte-stream interface between the network and its users

    [ByteStream] is what the HTTP code uses of [kasync::net::TcpStream]: the two
    awaited calls [read] and [write_all], each run to completion.  The ghost
    views [st_incoming] (the bytes the peer has sent and nobody has read) and
    [st_sent] (the bytes handed to the peer) state what the calls promise.
    [ByteStreamOk] is discharged for the kernel sockets in [AsyncNet]. *)
From Stdlib Require Import ZArith Lia Bool.
From Stdlib.Strings Require Import Byte String.
From stdpp Require Import base list option numbers.
From S2P Require Import Prelude Errors KVec.

Class ByteStream := {
  st : Type;
  st_read : Z -> M st Error (list byte);
  st_write_all : list byte -> M st Error unit;
  st_incoming : st -> list byte;
  st_sent : st -> list byte
}.

(** Safety of the calls: a read takes a prefix of what is incoming that fits the
    buffer, a write that succeeds sends the whole buffer and one that fails a
    prefix of it; neither call disturbs the other direction. *)
Class ByteStreamOk (BS : ByteStream) : Prop := {
  read_ok n s d s' : 0 <= n -> st_read n s = (Ok d, s') ->
    st_incoming s = d ++ st_incoming s' /\ lenZ d <= n;
  read_err n s e s' : 0 <= n -> st_read n s = (Err e, s') -> st_incoming s' = st_incoming s;
  read_total n s : 0 <= n -> match fst (st_read n s) with Ok _ | Err _ => True | _ => False end;
  read_sent n s : 0 <= n -> st_sent (snd (st_read n s)) = st_sent s;
  write_ok d s u s' : lenZ d <= isize_max -> st_write_all d s = (Ok u, s') -> st_sent s' = st_sent s ++ d;
  write_err d s e s' : lenZ d <= isize_max -> st_write_all d s = (Err e, s') ->
    exists k, st_sent s' = st_sent s ++ take k d;
  write_total d s : lenZ d <= isize_max ->
    match fst (st_write_all d s) with Ok _ | Err _ => True | _ => False end;
  write_incoming d s : lenZ d <= isize_max -> st_incoming (snd (st_write_all d s)) = st_incoming s
}.

(** A connection without faults: a read with room returns something while bytes
    are incoming, and a write succeeds. *)
Class ByteStreamLive (BS : ByteStream) : Prop := {
  read_live n s : 0 < n -> st_incoming s <> [] ->
    exists d s', st_read n s = (Ok d, s') /\ d <> [];
  write_live d s : exists s', st_write_all d s = (Ok tt, s')
}.

(** ** A scripted connection

    The incoming bytes arrive in chunks of the scripted sizes (at least one byte
    each); writes always succeed. *)
Record script : Type := mkScript { sc_in : list byte; sc_chunks : list nat; sc_out : list byte }.

Definition script_read (n : Z) : M script Error (list byte) :=
  fun s =>
    let '(c, cs) := match sc_chunks s with [] => (length (sc_in s), []) | c :: cs => (S c, cs) end in
    let k := Nat.min c (Z.to_nat n) in
    (Ok (take k (sc_in s)), mkScript (drop k (sc_in s)) cs (sc_out s)).

Definition scripted : ByteStream := {|
  st := script;
  st_read := script_read;
  st_write_all d s := (Ok tt, mkScript (sc_in s) (sc_chunks s) (sc_out s ++ d));
  st_incoming := sc_in;
  st_sent := sc_out |}.

#[global] Instance scripted_ok : ByteStreamOk scripted.
Proof.
  constructor; cbn.
  - intros n s d s' Hn H. unfold script_read in H.
    destruct (sc_chunks s); cbn zeta in H;
      match type of H with context [Nat.min ?a ?b] => remember (Nat.min a b) as k eqn:Hk end;
      injection H as <- <-; cbn [sc_in]; rewrite take_drop; (split; [done|]);
      unfold lenZ; rewrite length_take; lia.
  - intros n s e s'. unfold script_read. by destruct (sc_chunks s).
  - intros n s. unfold script_read. by destruct (sc_chunks s).
  - intros n s. unfold script_read. by destruct (sc_chunks s).
  - by intros d s u s' _ [= <- <-].
  - done.
  - done.
  - done.
Qed.

#[global] Instance scripted_live : ByteStreamLive scripted.
Proof.
  constructor; cbn.
  - intros n s Hn Hin. unfold script_read.
    destruct (sc_chunks s); do 2 eexists; (split; [done|]); destruct (sc_in s);
      try done; simpl; destruct (Z.to_nat n) eqn:E; try lia; done.
  - intros d s. eauto.
Qed.

(** ** The monad of a connection: allocator and stream *)
Section Connection.
Context `{VA : VecAlloc, BS : ByteStream}.

Definition HM (E A : Type) : Type := M (ast * st) E A.

Definition with_alloc {E A} (m : M ast E A) : HM E A :=
  fun '(a, s) => let '(r, a') := m a in (r, (a', s)).
Definition with_stream {E A} (m : M st E A) : HM E A :=
  fun '(a, s) => let '(r, s') := m s in (r, (a, s')).

End Connection.
