(* ===== verification/Net.v ===== *)
(** * Addresses and blocking TCP sockets (rko-core/src/net/addr.rs, tcp.rs)

    The kernel's socket calls are the interface [KernelNet]; its ghost views
    [k_incoming] and [k_sent] give [KernelNetOk], what [kernel_recvmsg] and
    [kernel_sendmsg] document.  A [TcpStream] or [TcpListener] is the socket it
    wraps; [released] views let the constructors' error paths be checked for
    leaks. *)
From Stdlib Require Import ZArith Lia Bool.
From Stdlib.Strings Require Import Byte String.
From stdpp Require Import base list option numbers.
From S2P Require Import Prelude Errors.

(** ** addr.rs *)
Record Ipv4Addr : Type := mkIpv4 { v4_octets : list byte }.
Record Ipv6Addr : Type := mkIpv6 { v6_octets : list byte }.

Definition Ipv4_ANY : Ipv4Addr := mkIpv4 [x00; x00; x00; x00].
Definition Ipv4_LOCALHOST : Ipv4Addr := mkIpv4 [x7f; x00; x00; x01].
Definition Ipv4_new (a b c d : byte) : Ipv4Addr := mkIpv4 [a; b; c; d].
(** [u32::from_be_bytes]. *)
Definition Ipv4_to_bits (ip : Ipv4Addr) : Z := be_decode (v4_octets ip).
Definition Ipv6_ANY : Ipv6Addr := mkIpv6 (replicate 16 x00).
Definition Ipv6_LOCALHOST : Ipv6Addr := mkIpv6 (replicate 15 x00 ++ [x01]).

Record SocketAddrV4 : Type := mkV4 { v4_ip : Ipv4Addr; v4_port : Z }.
Record SocketAddrV6 : Type := mkV6 {
  v6_ip : Ipv6Addr; v6_port : Z; v6_flowinfo : Z; v6_scope_id : Z }.
Inductive SocketAddr : Type := V4 (a : SocketAddrV4) | V6 (a : SocketAddrV6).

Definition new_v4 (ip : Ipv4Addr) (port : Z) : SocketAddr := V4 (mkV4 ip port).
Definition new_v6 (ip : Ipv6Addr) (port : Z) : SocketAddr := V6 (mkV6 ip port 0 0).

(** The [AF_*], [SOCK_STREAM] and [IPPROTO_TCP] constants of the bindings. *)
Definition AF_INET : Z := 2.
Definition AF_INET6 : Z := 10.
Definition SOCK_STREAM : Z := 1.
Definition IPPROTO_TCP : Z := 6.
Definition O_NONBLOCK : Z := 2048.

Definition addr_family (a : SocketAddr) : Z := match a with V4 _ => AF_INET | V6 _ => AF_INET6 end.
Definition addr_port (a : SocketAddr) : Z := match a with V4 x => v4_port x | V6 x => v6_port x end.

(** [x.to_be()] on a little-endian machine: the bytes swapped. *)
Definition to_be (n : nat) (z : Z) : Z := be_decode (le_encode n z).

Record SockaddrIn : Type := mkSin {
  sin_family : Z; sin_port : Z; sin_addr : Z; sin_zero : list byte }.
Record SockaddrIn6 : Type := mkSin6 {
  sin6_family : Z; sin6_port : Z; sin6_flowinfo : Z; sin6_addr : list byte; sin6_scope_id : Z }.
Inductive SockaddrStorage : Type := St4 (s : SockaddrIn) | St6 (s : SockaddrIn6).

(** The C layout of the two structs in memory. *)
Definition storage_bytes (s : SockaddrStorage) : list byte :=
  match s with
  | St4 x => le_encode 2 (sin_family x) ++ le_encode 2 (sin_port x) ++ le_encode 4 (sin_addr x) ++ sin_zero x
  | St6 x => le_encode 2 (sin6_family x) ++ le_encode 2 (sin6_port x) ++
             le_encode 4 (sin6_flowinfo x) ++ sin6_addr x ++ le_encode 4 (sin6_scope_id x)
  end.

(** [SocketAddr::to_raw]: the storage and the [addrlen]. *)
Definition to_raw (a : SocketAddr) : SockaddrStorage * Z :=
  match a with
  | V4 x => (St4 (mkSin (wrap 16 AF_INET) (to_be 2 (v4_port x)) (to_be 4 (Ipv4_to_bits (v4_ip x)))
                        (replicate 8 x00)), 16)
  | V6 x => (St6 (mkSin6 (wrap 16 AF_INET6) (to_be 2 (v6_port x)) (to_be 4 (v6_flowinfo x))
                         (v6_octets (v6_ip x)) (v6_scope_id x)), 28)
  end.

(** What the kernel reads out of a [sockaddr]: family in host order, port and
    address in network order. *)
Definition addr_wf (a : SocketAddr) : Prop :=
  match a with
  | V4 x => length (v4_octets (v4_ip x)) = 4%nat /\ 0 <= v4_port x < 2 ^ 16
  | V6 x => length (v6_octets (v6_ip x)) = 16%nat /\ 0 <= v6_port x < 2 ^ 16 /\
            0 <= v6_flowinfo x < 2 ^ 32 /\ 0 <= v6_scope_id x < 2 ^ 32
  end.

Definition kernel_sockaddr (a : SocketAddr) : list byte :=
  match a with
  | V4 x => le_encode 2 AF_INET ++ be_encode 2 (v4_port x) ++ v4_octets (v4_ip x) ++ replicate 8 x00
  | V6 x => le_encode 2 AF_INET6 ++ be_encode 2 (v6_port x) ++ be_encode 4 (v6_flowinfo x) ++
            v6_octets (v6_ip x) ++ le_encode 4 (v6_scope_id x)
  end.

(** ** The kernel's socket calls *)
Class KernelNet := {
  knet : Type;
  sock : Type;
  sock_create_kern : Z -> Z -> Z -> knet -> (Z * sock) * knet;
  kernel_bind : sock -> list byte -> Z -> knet -> Z * knet;
  kernel_listen : sock -> Z -> knet -> Z * knet;
  kernel_accept : sock -> Z -> knet -> (Z * sock) * knet;
  kernel_connect : sock -> list byte -> Z -> Z -> knet -> Z * knet;
  kernel_recvmsg : sock -> Z -> knet -> (Z * list byte) * knet;
  kernel_sendmsg : sock -> list byte -> knet -> Z * knet;
  sock_release : sock -> knet -> knet;
  SOMAXCONN : Z;
  k_incoming : sock -> knet -> list byte;
  k_sent : sock -> knet -> list byte;
  k_open : knet -> list sock
}.

(** Documented: a receive that succeeds returns the number of bytes it placed, at
    most the buffer's; a send that succeeds the number it took; a failure
    transfers nothing and is a negative [int]. *)
Class KernelNetOk (KN : KernelNet) : Prop := {
  recv_ok so n k ret d k' : 0 <= n -> kernel_recvmsg so n k = (ret, d, k') -> 0 <= ret ->
    ret = lenZ d /\ ret <= n /\ k_incoming so k = d ++ k_incoming so k' /\ ret < 2 ^ 31;
  recv_fail so n k ret d k' : kernel_recvmsg so n k = (ret, d, k') -> ret < 0 ->
    k_incoming so k' = k_incoming so k;
  recv_frame so n k ret d k' : kernel_recvmsg so n k = (ret, d, k') -> k_sent so k' = k_sent so k;
  send_ok so d k ret k' : kernel_sendmsg so d k = (ret, k') -> 0 <= ret ->
    ret <= lenZ d /\ k_sent so k' = k_sent so k ++ take (Z.to_nat ret) d /\ ret < 2 ^ 31;
  send_fail so d k ret k' : kernel_sendmsg so d k = (ret, k') -> ret < 0 -> k_sent so k' = k_sent so k;
  send_frame so d k ret k' : kernel_sendmsg so d k = (ret, k') -> k_incoming so k' = k_incoming so k
}.

Section Tcp.
Context `{KE : KernelErrno, KN : KernelNet}.
#[local] Abbreviation KM := (M knet Error).

(** [check_err]. *)
Definition check_err (ret : Z) : res Error Z := if ret <? 0 then Err (from_errno ret) else Ok ret.

(** [TcpListener::try_new]. *)
Definition listener_try_new (addr : SocketAddr) : KM sock :=
  fun k =>
    let '(ret, so, k1) := sock_create_kern (addr_family addr) SOCK_STREAM IPPROTO_TCP k in
    (_ <-! m_lift (check_err ret);;
     let '(storage, addrlen) := to_raw addr in
     fun k1 =>
       let '(ret, k2) := kernel_bind so (storage_bytes storage) addrlen k1 in
       if ret <? 0 then (Err (from_errno ret), sock_release so k2)
       else
         let '(ret, k3) := kernel_listen so SOMAXCONN k2 in
         if ret <? 0 then (Err (from_errno ret), sock_release so k3)
         else (Ok so, k3)) k1.

(** [TcpListener::accept]. *)
Definition listener_accept (l : sock) (block : bool) : KM sock :=
  fun k =>
    let flags := if block then 0 else O_NONBLOCK in
    let '(ret, new_sock, k1) := kernel_accept l flags k in
    (_ <-? check_err ret;; Ok new_sock, k1).

(** [kernel_connect_raw]. *)
Definition kernel_connect_raw (so : sock) (addr : SocketAddr) (flags : Z) (k : knet) : Z * knet :=
  let '(storage, addrlen) := to_raw addr in
  kernel_connect so (storage_bytes storage) addrlen flags k.

(** [connect_nonblock]: a connect in progress is reported as [EAGAIN]. *)
Definition connect_nonblock (so : sock) (addr : SocketAddr) : KM unit :=
  fun k =>
    let '(ret, k') := kernel_connect_raw so addr O_NONBLOCK k in
    if ret =? 0 then (Ok tt, k')
    else if (ret =? - sys_EINPROGRESS) || (ret =? - sys_EALREADY)
         then (Err (from_errno (- sys_EAGAIN)), k')
         else (Err (from_errno ret), k').

(** [create_and_connect] and [TcpStream::connect]. *)
Definition create_and_connect (addr : SocketAddr) (flags : Z) : KM sock :=
  fun k =>
    let '(ret, so, k1) := sock_create_kern (addr_family addr) SOCK_STREAM IPPROTO_TCP k in
    match check_err ret with
    | Ok _ =>
        let '(ret, k2) := kernel_connect_raw so addr flags k1 in
        if ret <? 0 then (Err (from_errno ret), sock_release so k2) else (Ok so, k2)
    | Err e => (Err e, k1)
    | _ => (Ub, k1)
    end.
Definition stream_connect (addr : SocketAddr) : KM sock := create_and_connect addr 0.

(** [TcpStream::read]: the bytes that were placed in the buffer. *)
Definition tcp_read (so : sock) (n : Z) : KM (list byte) :=
  fun k =>
    let '(ret, d, k') := kernel_recvmsg so n k in
    (_ <-? check_err ret;; Ok d, k').

(** [TcpStream::write]: the count, [n as usize]. *)
Definition tcp_write (so : sock) (buf : list byte) : KM Z :=
  fun k =>
    let '(ret, k') := kernel_sendmsg so buf k in
    (n <-? check_err ret;; Ok (wrap 64 n), k').

(** The loop [while offset < buf.len()] over a [write], blocking or awaited. *)
Fixpoint write_all_loop {W} (write : list byte -> M W Error Z) (fuel : nat) (offset : Z)
    (buf : list byte) : M W Error unit :=
  if offset <? lenZ buf then
    match fuel with
    | O => m_lift Pending
    | S fuel' =>
        tail <-! m_lift (slice buf offset (lenZ buf));;
        n <-! write tail;;
        if n =? 0 then m_err ECONNRESET
        else write_all_loop write fuel' (wrap 64 (offset + n)) buf
    end
  else m_ret tt.

(** [TcpStream::write_all]; each round sends at least a byte, so [buf.len()] rounds
    are enough. *)
Definition tcp_write_all (so : sock) (buf : list byte) : KM unit :=
  write_all_loop (tcp_write so) (length buf) 0 buf.

(** [Drop]: the socket is never null once constructed. *)
Definition tcp_drop (so : sock) (k : knet) : knet := sock_release so k.

End Tcp.

(** ** Facts *)

Lemma to_be_bytes n z : le_encode n (to_be n z) = be_encode n z.
Proof.
  unfold to_be, be_decode, be_encode.
  rewrite <- (le_encode_decode (rev (le_encode n z))) at 2.
  rewrite length_rev, le_encode_length. done.
Qed.

Lemma be_encode_decode l : be_encode (length l) (be_decode l) = l.
Proof.
  unfold be_encode, be_decode. rewrite <- (length_rev l), le_encode_decode. apply rev_involutive.
Qed.

(** [write_all] over any [write] that reports what it took: on success the whole
    buffer went out, on failure a prefix; the loop ends unless a [write] does not. *)
Section WriteAll.
Context `{KE : KernelErrno} {W : Type} (write : list byte -> M W Error Z) (sent : W -> list byte).
Hypothesis write_takes : forall d w n w', write d w = (Ok n, w') ->
  0 <= n <= lenZ d /\ sent w' = sent w ++ take (Z.to_nat n) d.
Hypothesis write_fails : forall d w e w', write d w = (Err e, w') -> sent w' = sent w.
Hypothesis write_waits : forall d w w', write d w = (Pending, w') -> sent w' = sent w.
Hypothesis write_sound : forall d w, match fst (write d w) with Panic | Ub => False | _ => True end.

Lemma write_all_loop_spec fuel offset buf w :
  0 <= offset <= lenZ buf -> lenZ buf - offset <= Z.of_nat fuel -> lenZ buf < 2 ^ 64 ->
  match write_all_loop write fuel offset buf w with
  | (Ok _, w') => sent w' = sent w ++ drop (Z.to_nat offset) buf
  | (Err _, w') => exists k, sent w' = sent w ++ take k (drop (Z.to_nat offset) buf)
  | (Pending, w') => (exists k, sent w' = sent w ++ take k (drop (Z.to_nat offset) buf)) /\
                     exists d v, fst (write d v) = Pending
  | _ => False
  end.
Proof.
  revert offset w. induction fuel as [|fuel IH]; intros offset w Ho Hf Hmax; cbn [write_all_loop].
  - destruct (offset <? lenZ buf) eqn:E; zify_bools; [lia|]. simpl.
    rewrite drop_ge by (unfold lenZ in *; lia). by rewrite app_nil_r.
  - destruct (offset <? lenZ buf) eqn:E; zify_bools.
    2: { simpl. rewrite drop_ge by (unfold lenZ in *; lia). by rewrite app_nil_r. }
    unfold m_bind at 1, m_lift at 1. rewrite slice_ok by lia.
    rewrite (take_ge (drop _ _)) by (rewrite length_drop; unfold lenZ in *; lia).
    unfold m_bind. pose proof (write_sound (drop (Z.to_nat offset) buf) w) as Hset.
    destruct (write _ w) as [[n|e| | |] w1] eqn:Ew; try done.
    + destruct (write_takes _ _ _ _ Ew) as [Hn Hs].
      unfold lenZ in Hn. rewrite length_drop in Hn.
      destruct (n =? 0) eqn:En; zify_bools.
      { subst n. exists 0%nat. rewrite Hs. done. }
      rewrite wrap_small by (unfold lenZ in *; lia).
      specialize (IH (offset + n) w1 ltac:(unfold lenZ in *; lia) ltac:(lia) Hmax).
      assert (forall x, take (Z.to_nat n) (drop (Z.to_nat offset) buf) ++ take x (drop (Z.to_nat (offset + n)) buf)
              = take (Z.to_nat n + x) (drop (Z.to_nat offset) buf)) as Hjoin.
      { intros x. rewrite <- take_take_drop, drop_drop. do 3 f_equal. lia. }
      destruct (write_all_loop _ _ _ _ _) as [[u|e| | |] w2]; try done.
      * rewrite IH, Hs, <- app_assoc. f_equal. rewrite <- (take_drop (Z.to_nat n) (drop (Z.to_nat offset) buf)) at 2.
        rewrite drop_drop. do 2 f_equal. lia.
      * destruct IH as [k Hk]. eexists. rewrite Hk, Hs, <- app_assoc, Hjoin. done.
      * destruct IH as [[k Hk] Hp]. split; [|done]. eexists. rewrite Hk, Hs, <- app_assoc, Hjoin. done.
    + exists 0%nat. rewrite (write_fails _ _ _ _ Ew). by rewrite app_nil_r.
    + split; [|by eexists _, w; rewrite Ew]. exists 0%nat. rewrite (write_waits _ _ _ Ew). by rewrite app_nil_r.
Qed.

End WriteAll.

Section TcpFacts.
Context `{KE : KernelErrno, KN : KernelNet} {KNok : KernelNetOk KN}.

Lemma check_err_cases ret : check_err ret = Ok ret /\ 0 <= ret \/ check_err ret = Err (from_errno ret) /\ ret < 0.
Proof. unfold check_err. destruct (ret <? 0) eqn:E; zify_bools; [right|left]; split; done. Qed.

Lemma tcp_read_spec so n k : 0 <= n ->
  match tcp_read so n k with
  | (Ok d, k') => k_incoming so k = d ++ k_incoming so k' /\ lenZ d <= n
  | (Err _, k') => k_incoming so k' = k_incoming so k
  | _ => False
  end /\ k_sent so (snd (tcp_read so n k)) = k_sent so k.
Proof.
  intros Hn. unfold tcp_read. destruct (kernel_recvmsg so n k) as [[ret d] k'] eqn:E.
  split; [|by eapply recv_frame].
  destruct (check_err_cases ret) as [[-> Hr]|[-> Hr]]; simpl.
  - destruct (recv_ok _ _ _ _ _ _ Hn E Hr) as (-> & Hle & Hin & _). done.
  - by eapply recv_fail.
Qed.

Lemma tcp_write_spec so d k :
  match tcp_write so d k with
  | (Ok n, k') => 0 <= n <= lenZ d /\ k_sent so k' = k_sent so k ++ take (Z.to_nat n) d
  | (Err _, k') => k_sent so k' = k_sent so k
  | _ => False
  end /\ k_incoming so (snd (tcp_write so d k)) = k_incoming so k.
Proof.
  unfold tcp_write. destruct (kernel_sendmsg so d k) as [ret k'] eqn:E.
  split; [|by eapply send_frame].
  destruct (check_err_cases ret) as [[-> Hr]|[-> Hr]]; simpl.
  - destruct (send_ok _ _ _ _ _ E Hr) as (Hle & Hs & Hmax). rewrite wrap_small by lia. done.
  - by eapply send_fail.
Qed.

End TcpFacts.

(** ** Ownership of sockets

    Documented: [sock_create_kern] and [kernel_accept] hand out a new socket only
    when they succeed, [sock_release] gives one back, the others keep the set. *)
Class KernelNetOpen (KN : KernelNet) : Prop := {
  create_open f t p k ret so k' : sock_create_kern f t p k = (ret, so, k') ->
    k_open k' = if ret <? 0 then k_open k else so :: k_open k;
  accept_open l fl k ret so k' : kernel_accept l fl k = (ret, so, k') ->
    k_open k' = if ret <? 0 then k_open k else so :: k_open k;
  bind_open so d n k : k_open (snd (kernel_bind so d n k)) = k_open k;
  listen_open so n k : k_open (snd (kernel_listen so n k)) = k_open k;
  connect_open so d n fl k : k_open (snd (kernel_connect so d n fl k)) = k_open k;
  recv_open so n k : k_open (snd (kernel_recvmsg so n k)) = k_open k;
  send_open so d k : k_open (snd (kernel_sendmsg so d k)) = k_open k;
  release_open so k l : k_open k = so :: l -> k_open (sock_release so k) = l
}.

(** The outcome of a constructor owns one more socket on success and none on
    failure. *)
Definition owns_result `{KN : KernelNet} (k : knet) (o : res Error sock * knet) : Prop :=
  match fst o with
  | Ok so => k_open (snd o) = so :: k_open k
  | Err _ => k_open (snd o) = k_open k
  | _ => False
  end.

Section Leaks.
Context `{KE : KernelErrno, KN : KernelNet} {KNopen : KernelNetOpen KN}.

Lemma listener_try_new_owns addr k : owns_result k (listener_try_new addr k).
Proof.
  unfold listener_try_new, owns_result, m_bind, m_lift.
  destruct (sock_create_kern _ _ _ k) as [[ret so] k1] eqn:Ec. apply create_open in Ec.
  unfold check_err. destruct (ret <? 0); [done|]. cbn beta iota.
  destruct (to_raw addr) as [sto len]. pose proof (bind_open so (storage_bytes sto) len k1) as Hb.
  destruct (kernel_bind _ _ _ k1) as [ret2 k2]. simpl in Hb.
  destruct (ret2 <? 0); simpl; [apply release_open; congruence|].
  pose proof (listen_open so SOMAXCONN k2) as Hl. destruct (kernel_listen so SOMAXCONN k2) as [ret3 k3].
  simpl in Hl. destruct (ret3 <? 0); simpl; [apply release_open|]; congruence.
Qed.

Lemma listener_accept_owns l b k : owns_result k (listener_accept l b k).
Proof.
  unfold listener_accept, owns_result. destruct (kernel_accept _ _ k) as [[ret so] k1] eqn:E.
  apply accept_open in E. unfold check_err. by destruct (ret <? 0).
Qed.

Lemma connect_raw_open so addr fl k : k_open (snd (kernel_connect_raw so addr fl k)) = k_open k.
Proof. unfold kernel_connect_raw. destruct (to_raw addr). apply connect_open. Qed.

Lemma create_and_connect_owns addr fl k : owns_result k (create_and_connect addr fl k).
Proof.
  unfold create_and_connect, owns_result.
  destruct (sock_create_kern _ _ _ k) as [[ret so] k1] eqn:Ec. apply create_open in Ec.
  unfold check_err. destruct (ret <? 0); [done|]. cbn beta iota.
  pose proof (connect_raw_open so addr fl k1) as Hr.
  destruct (kernel_connect_raw _ _ _ k1) as [ret2 k2]. simpl in Hr.
  destruct (ret2 <? 0); simpl; [apply release_open|]; congruence.
Qed.

End Leaks.

(** The raw socket address is the one the kernel expects: the bytes of
    [to_raw], laid out as [sockaddr_in] or [sockaddr_in6], carry the family in
    host order and port, flow information and address in network order, and the
    returned [addrlen] is exactly their number. *)
Theorem to_raw_layout (a : SocketAddr) :
  addr_wf a ->
  storage_bytes (fst (to_raw a)) = kernel_sockaddr a /\
  lenZ (storage_bytes (fst (to_raw a))) = snd (to_raw a).
Proof.
  destruct a as [[ip port]|[ip port fl sc]]; intros Hwf;
    cbn [to_raw fst snd storage_bytes kernel_sockaddr sin_family sin_port sin_addr sin_zero
         sin6_family sin6_port sin6_flowinfo sin6_addr sin6_scope_id v4_ip v4_port
         v6_ip v6_port v6_flowinfo v6_scope_id addr_wf] in *.
  - destruct Hwf as [Hip Hport]. split.
    + rewrite !to_be_bytes. unfold Ipv4_to_bits.
      rewrite <- Hip at 1. rewrite be_encode_decode. done.
    + unfold lenZ. rewrite !length_app, !le_encode_length. done.
  - destruct Hwf as (Hip & Hport & Hfl & Hsc). split.
    + by rewrite !to_be_bytes.
    + unfold lenZ. rewrite !length_app, !le_encode_length, Hip. done.
Qed.

Lemma to_raw_layout_witness :
  storage_bytes (fst (to_raw (new_v4 Ipv4_LOCALHOST 8080))) = kernel_sockaddr (new_v4 Ipv4_LOCALHOST 8080) /\
  lenZ (storage_bytes (fst (to_raw (new_v4 Ipv4_LOCALHOST 8080)))) = 16.
Proof. apply (to_raw_layout (new_v4 Ipv4_LOCALHOST 8080)). split; [reflexivity|simpl; lia]. Defined.
