(* ===== verification/AsyncNet.v ===== *)
(** * Awaited sockets (rko-core/src/kasync/net/mod.rs)

    [SocketFuture] with its callback state and its wait-queue entry, polled by an
    executor until it is ready, and the async [TcpListener]/[TcpStream] built on
    it.  Between two polls the kernel moves on: [k_wait] is the network at the
    next wake-up.  The number of polls an [await] is given is a parameter; an
    await that has not resolved by then is [Pending], which says nothing about
    whether it ever will.  [SocketReady] is the hypothesis that a socket does
    become ready, and under it the last part discharges the [ByteStream] interface
    for the async stream. *)
From Stdlib Require Import ZArith Lia Bool.
From Stdlib.Strings Require Import Byte String.
From stdpp Require Import base list option numbers.
From S2P Require Import Prelude Errors KVec Stream Net.

(** The poll masks of the bindings and the wait. *)
Class KernelWait `{KN : KernelNet} := {
  POLLIN : Z;
  POLLOUT : Z;
  k_wait : sock -> Z -> knet -> knet
}.

(** Waiting neither consumes nor sends bytes, and opens no socket. *)
Class KernelWaitOk `{KN : KernelNet} (KW : KernelWait) : Prop := {
  wait_incoming so so' m k : k_incoming so (k_wait so' m k) = k_incoming so k;
  wait_sent so so' m k : k_sent so (k_wait so' m k) = k_sent so k;
  wait_open so m k : k_open (k_wait so m k) = k_open k
}.

(** The world of the executor: allocator, network, and the resources the futures
    hold: registered wait-queue entries and live [CallbackState]s. *)
Record AsyncWorld `{VA : VecAlloc, KN : KernelNet} : Type := mkAW {
  aw_alloc : ast; aw_net : knet; aw_queued : nat; aw_cbs : nat }.

(** [SocketFuture]: [sf_cb] is false when its allocation failed. *)
Record SocketFuture : Type := mkSF { sf_is_queued : bool; sf_cb : bool }.

Section Async.
Context `{KE : KernelErrno, VA : VecAlloc, KW : KernelWait}.

Definition on_net {E A} (m : M knet E A) : M AsyncWorld E A :=
  fun w => let '(r, k) := m (aw_net w) in (r, mkAW VA KN (aw_alloc w) k (aw_queued w) (aw_cbs w)).

(** [SocketFuture::new]. *)
Definition sf_new (w : AsyncWorld) : SocketFuture * AsyncWorld :=
  match kv_try tt (aw_alloc w) with
  | (Ok _, a) => (mkSF false true, mkAW VA KN a (aw_net w) (aw_queued w) (S (aw_cbs w)))
  | (_, a) => (mkSF false false, mkAW VA KN a (aw_net w) (aw_queued w) (aw_cbs w))
  end.

(** [SocketFuture::poll]: [None] is [Poll::Pending]. *)
Definition sf_poll {A} (operation : M knet Error A) (sf : SocketFuture) (w : AsyncWorld)
    : option (res Error A) * SocketFuture * AsyncWorld :=
  if negb (sf_cb sf) then (Some (Err ENOMEM), sf, w)
  else
    let w1 := if sf_is_queued sf then w
              else mkAW VA KN (aw_alloc w) (aw_net w) (S (aw_queued w)) (aw_cbs w) in
    let sf1 := mkSF true (sf_cb sf) in
    match on_net operation w1 with
    | (Ok v, w2) => (Some (Ok v), sf1, w2)
    | (Err e, w2) =>
        let errno := to_errno e in
        if errno =? - sys_EAGAIN then (None, sf1, w2)
        else (Some (Err (from_errno errno)), sf1, w2)
    | (Panic, w2) => (Some Panic, sf1, w2)
    | (Ub, w2) => (Some Ub, sf1, w2)
    | (Pending, w2) => (Some Pending, sf1, w2)
    end.

(** [Drop for SocketFuture]. *)
Definition sf_drop (sf : SocketFuture) (w : AsyncWorld) : AsyncWorld :=
  mkAW VA KN (aw_alloc w) (aw_net w)
    (if sf_is_queued sf then Nat.pred (aw_queued w) else aw_queued w)
    (if sf_cb sf then Nat.pred (aw_cbs w) else aw_cbs w).

Definition aw_wait (so : sock) (mask : Z) (w : AsyncWorld) : AsyncWorld :=
  mkAW VA KN (aw_alloc w) (k_wait so mask (aw_net w)) (aw_queued w) (aw_cbs w).

(** [.await]: poll, wait to be woken, poll again; the future is dropped when it
    has resolved. *)
Fixpoint sf_run {A} (polls : nat) (so : sock) (mask : Z) (operation : M knet Error A)
    (sf : SocketFuture) (w : AsyncWorld) : res Error A * AsyncWorld :=
  match polls with
  | O => (Pending, w)
  | S n =>
      match sf_poll operation sf w with
      | (Some r, sf', w') => (r, sf_drop sf' w')
      | (None, sf', w') => sf_run n so mask operation sf' (aw_wait so mask w')
      end
  end.
Definition sf_await {A} (polls : nat) (so : sock) (mask : Z) (operation : M knet Error A)
    : M AsyncWorld Error A :=
  fun w => let '(sf, w1) := sf_new w in sf_run polls so mask operation sf w1.

(** The async [TcpListener::accept]. *)
Definition async_accept (polls : nat) (l : sock) : M AsyncWorld Error sock :=
  sf_await polls l POLLIN (listener_accept l false).

(** The async [TcpStream::connect]: the socket is released when the connect fails. *)
Definition async_connect (polls : nat) (addr : SocketAddr) : M AsyncWorld Error sock :=
  fun w =>
    let '(ret, so, k1) := sock_create_kern (addr_family addr) SOCK_STREAM IPPROTO_TCP (aw_net w) in
    let w1 := mkAW VA KN (aw_alloc w) k1 (aw_queued w) (aw_cbs w) in
    if ret <? 0 then (Err (from_errno ret), w1)
    else
      match sf_await polls so POLLOUT (connect_nonblock so addr) w1 with
      | (Ok _, w2) => (Ok so, w2)
      | (Err e, w2) =>
          (Err e, mkAW VA KN (aw_alloc w2) (sock_release so (aw_net w2)) (aw_queued w2) (aw_cbs w2))
      | (Panic, w2) => (Panic, w2)
      | (Ub, w2) => (Ub, w2)
      | (Pending, w2) => (Pending, w2)
      end.

(** The async [TcpStream::read], [write] and [write_all]. *)
Definition async_read (polls : nat) (so : sock) (n : Z) : M AsyncWorld Error (list byte) :=
  sf_await polls so POLLIN (tcp_read so n).
Definition async_write (polls : nat) (so : sock) (buf : list byte) : M AsyncWorld Error Z :=
  sf_await polls so POLLOUT (tcp_write so buf).
Definition async_write_all (polls : nat) (so : sock) (buf : list byte) : M AsyncWorld Error unit :=
  write_all_loop (async_write polls so) (length buf) 0 buf.

(** ** The stream the HTTP code is written against *)
Definition tcp_byte_stream (polls : nat) (so : sock) : ByteStream := {|
  st := AsyncWorld;
  st_read := async_read polls so;
  st_write_all := async_write_all polls so;
  st_incoming w := k_incoming so (aw_net w);
  st_sent w := k_sent so (aw_net w) |}.

(** The network at the [j]-th attempt of an await: each earlier one was answered, and then
    a wake-up was waited for. *)
Fixpoint attempt {A} (op : M knet Error A) (so : sock) (mask : Z) (j : nat) (k : knet) : knet :=
  match j with
  | O => k
  | S j' => attempt op so mask j' (k_wait so mask (snd (op k)))
  end.
Definition would_block {A} (r : res Error A) : bool :=
  match r with Err e => to_errno e =? - sys_EAGAIN | _ => false end.

(** A hypothesis about the peer and the kernel, not a fact: whatever happened before, one of
    the first [polls] attempts to read from or write to the socket is not answered with
    EAGAIN.  A peer that is silent for good violates it. *)
Class SocketReady (polls : nat) (so : sock) : Prop := {
  read_ready n k : exists j, (j < polls)%nat /\
    would_block (fst (tcp_read so n (attempt (tcp_read so n) so POLLIN j k))) = false;
  write_ready d k : exists j, (j < polls)%nat /\
    would_block (fst (tcp_write so d (attempt (tcp_write so d) so POLLOUT j k))) = false
}.

End Async.

(** ** Facts *)
Section AsyncFacts.
Context `{KE : KernelErrno, VA : VecAlloc, KW : KernelWait}.
Context {KWok : KernelWaitOk KW}.

(** An invariant [I] of the network that the operation and the wait keep, and a
    relation [Post] between the result and the network it leaves: they hold of
    the await. *)
Lemma sf_run_spec {A} (I : knet -> Prop) (Post : res Error A -> knet -> Prop) polls so mask op sf w :
  (forall k, I k -> I (k_wait so mask k)) ->
  (forall k, I k -> match op k with
     | (Ok a, k') => Post (Ok a) k'
     | (Err e, k') => I k' /\ Post (Err (from_errno (to_errno e))) k'
     | _ => False end) ->
  (forall k, I k -> Post (Err ENOMEM) k) ->
  I (aw_net w) ->
  let '(r, w') := sf_run polls so mask op sf w in r = Pending \/ Post r (aw_net w').
Proof.
  intros Hwait Hop Hmem. revert sf w. induction polls as [|n IH]; intros sf w HI; [by left|].
  cbn [sf_run]. unfold sf_poll, on_net. destruct (sf_cb sf); simpl; [|by right; apply Hmem].
  specialize (Hop (aw_net w) HI).
  assert (aw_net (if sf_is_queued sf then w
                  else mkAW VA KN (aw_alloc w) (aw_net w) (S (aw_queued w)) (aw_cbs w)) = aw_net w) as ->
    by (by destruct (sf_is_queued sf)).
  destruct (op (aw_net w)) as [[v|e| | |] k']; try done; [by right|].
  destruct Hop as [HI' Hpost]. destruct (_ =? _).
  - apply IH. simpl. by apply Hwait.
  - right. done.
Qed.

(** An await that resolves gives back its wait-queue entry and callback state. *)
Lemma sf_run_resources {A} polls so mask (op : M knet Error A) sf w :
  (sf_is_queued sf = true -> (0 < aw_queued w)%nat) ->
  (sf_cb sf = true -> (0 < aw_cbs w)%nat) ->
  let '(r, w') := sf_run polls so mask op sf w in
  r = Pending \/
  (aw_queued w' = (if sf_is_queued sf then Nat.pred (aw_queued w) else aw_queued w) /\
   aw_cbs w' = (if sf_cb sf then Nat.pred (aw_cbs w) else aw_cbs w)).
Proof.
  revert sf w. induction polls as [|n IH]; intros sf w Hq Hc; [by left|].
  cbn [sf_run]. unfold sf_poll, on_net. destruct (sf_cb sf) eqn:Ecb; simpl.
  - set (w1 := if sf_is_queued sf then w
               else mkAW VA KN (aw_alloc w) (aw_net w) (S (aw_queued w)) (aw_cbs w)).
    assert ((0 < aw_queued w1)%nat /\ Nat.pred (aw_queued w1) =
            (if sf_is_queued sf then Nat.pred (aw_queued w) else aw_queued w) /\
            aw_cbs w1 = aw_cbs w) as (Hq1 & Hp1 & Hc1).
    { subst w1. destruct (sf_is_queued sf); simpl; [auto|]. split; [lia|done]. }
    destruct (op (aw_net w1)) as [[v|e| | |] k']; try (right; simpl; by rewrite Hp1, Hc1).
    destruct (_ =? _); [|right; simpl; by rewrite Hp1, Hc1].
    specialize (IH (mkSF true true)
      (aw_wait so mask (mkAW VA KN (aw_alloc w1) k' (aw_queued w1) (aw_cbs w1)))
      ltac:(done) ltac:(simpl; intros _; rewrite Hc1; auto)).
    destruct (sf_run n so mask op _ _) as [r w']. simpl in IH. by rewrite Hp1, Hc1 in IH.
  - right. rewrite Ecb. done.
Qed.

(** Awaiting a socket operation leaks nothing: once the future has resolved,
    with a value or an error, its wait-queue entry has been removed and its
    callback state freed, however many times it was polled and whether or not
    the callback state could be allocated. *)
Theorem socket_future_releases {A} (polls : nat) (so : sock) (mask : Z) (op : M knet Error A)
    (w : AsyncWorld) :
  let '(r, w') := sf_await polls so mask op w in
  r = Pending \/ (aw_queued w' = aw_queued w /\ aw_cbs w' = aw_cbs w).
Proof.
  unfold sf_await, sf_new. destruct (kv_try_cases (VA := VA) tt (aw_alloc w)) as [a [-> | ->]].
  - pose proof (sf_run_resources polls so mask op (mkSF false true)
      (mkAW VA KN a (aw_net w) (aw_queued w) (S (aw_cbs w))) ltac:(done) ltac:(simpl; lia)) as H.
    by destruct (sf_run _ _ _ _ _ _).
  - pose proof (sf_run_resources polls so mask op (mkSF false false)
      (mkAW VA KN a (aw_net w) (aw_queued w) (aw_cbs w)) ltac:(done) ltac:(done)) as H.
    by destruct (sf_run _ _ _ _ _ _).
Qed.

Lemma sf_await_spec {A} (I : knet -> Prop) (Post : res Error A -> knet -> Prop) polls so mask op w :
  (forall k, I k -> I (k_wait so mask k)) ->
  (forall k, I k -> match op k with
     | (Ok a, k') => Post (Ok a) k'
     | (Err e, k') => I k' /\ Post (Err (from_errno (to_errno e))) k'
     | _ => False end) ->
  (forall k, I k -> Post (Err ENOMEM) k) ->
  I (aw_net w) ->
  let '(r, w') := sf_await polls so mask op w in r = Pending \/ Post r (aw_net w').
Proof.
  intros Hw Hop Hmem HI. unfold sf_await, sf_new.
  destruct (kv_try_cases (VA := VA) tt (aw_alloc w)) as [a [-> | ->]]; by apply (sf_run_spec I).
Qed.

(** An await that has not resolved was answered EAGAIN at every attempt. *)
Lemma sf_run_blocked {A} polls so mask (op : M knet Error A) sf w : (forall k, fst (op k) <> Pending) ->
  fst (sf_run polls so mask op sf w) = Pending ->
  forall j, (j < polls)%nat -> would_block (fst (op (attempt op so mask j (aw_net w)))) = true.
Proof.
  intros Hop. revert sf w. induction polls as [|n IH]; intros sf w Hp j Hj; [lia|]. revert Hp.
  cbn [sf_run]. unfold sf_poll, on_net. destruct (sf_cb sf); cbn [negb]; [|done].
  assert (aw_net (if sf_is_queued sf then w
                  else mkAW VA KN (aw_alloc w) (aw_net w) (S (aw_queued w)) (aw_cbs w)) = aw_net w) as ->
    by (by destruct (sf_is_queued sf)).
  pose proof (Hop (aw_net w)) as Hnp. destruct (op (aw_net w)) as [[v|e| | |] k'] eqn:E; cbn [fst snd] in *; try done.
  destruct (_ =? _) eqn:Ea; [|done]. intros Hp. destruct j as [|j]; cbn [attempt]; rewrite E; [exact Ea|].
  cbn [snd]. apply (IH (mkSF true true) _ Hp j). lia.
Qed.
Lemma sf_await_blocked {A} polls so mask (op : M knet Error A) w : (forall k, fst (op k) <> Pending) ->
  fst (sf_await polls so mask op w) = Pending ->
  forall j, (j < polls)%nat -> would_block (fst (op (attempt op so mask j (aw_net w)))) = true.
Proof.
  intros Hop. unfold sf_await, sf_new. destruct (kv_try_cases (VA := VA) tt (aw_alloc w)) as [a [-> | ->]];
    exact (sf_run_blocked polls so mask op _ _ Hop).
Qed.

(** What a pending await has done to the network: nothing its invariant sees. *)
Lemma sf_run_pending {A} (I : knet -> Prop) polls so mask (op : M knet Error A) sf w :
  (forall k, I k -> I (k_wait so mask k)) -> (forall k, fst (op k) <> Pending) ->
  (forall k, I k -> match op k with (Err _, k') => I k' | _ => True end) -> I (aw_net w) ->
  let '(r, w') := sf_run polls so mask op sf w in r = Pending -> I (aw_net w').
Proof.
  intros Hwait Hnp Hop. revert sf w. induction polls as [|n IH]; intros sf w HI; [by intros _|].
  cbn [sf_run]. unfold sf_poll, on_net. destruct (sf_cb sf); cbn [negb]; [|done].
  assert (aw_net (if sf_is_queued sf then w
                  else mkAW VA KN (aw_alloc w) (aw_net w) (S (aw_queued w)) (aw_cbs w)) = aw_net w) as ->
    by (by destruct (sf_is_queued sf)).
  specialize (Hop (aw_net w) HI). specialize (Hnp (aw_net w)).
  destruct (op (aw_net w)) as [[v|e| | |] k']; cbn [fst] in *; try done.
  destruct (_ =? _); [|done]. apply IH. simpl. by apply Hwait.
Qed.
Lemma sf_await_pending {A} (I : knet -> Prop) polls so mask (op : M knet Error A) w :
  (forall k, I k -> I (k_wait so mask k)) -> (forall k, fst (op k) <> Pending) ->
  (forall k, I k -> match op k with (Err _, k') => I k' | _ => True end) -> I (aw_net w) ->
  let '(r, w') := sf_await polls so mask op w in r = Pending -> I (aw_net w').
Proof.
  intros Hw Hnp Hop HI. unfold sf_await, sf_new.
  destruct (kv_try_cases (VA := VA) tt (aw_alloc w)) as [a [-> | ->]]; by apply (sf_run_pending I).
Qed.

Context {KNok : KernelNetOk KN} (polls : nat) (so : sock).

(** What an await of [read] has done so far. *)
Lemma async_read_spec n w : 0 <= n ->
  match async_read polls so n w with
  | (Ok d, w') => k_incoming so (aw_net w) = d ++ k_incoming so (aw_net w') /\ lenZ d <= n
  | (Err _, w') => k_incoming so (aw_net w') = k_incoming so (aw_net w)
  | (Pending, w') => k_incoming so (aw_net w') = k_incoming so (aw_net w) /\ forall j, (j < polls)%nat ->
      would_block (fst (tcp_read so n (attempt (tcp_read so n) so POLLIN j (aw_net w)))) = true
  | _ => False
  end /\ k_sent so (aw_net (snd (async_read polls so n w))) = k_sent so (aw_net w).
Proof.
  intros Hn. unfold async_read.
  set (inc := k_incoming so (aw_net w)). set (snt := k_sent so (aw_net w)).
  assert (forall k, fst (tcp_read so n k) <> Pending) as Hnp.
  { intros k. destruct (tcp_read_spec so n k Hn) as [Hr _]. by destruct (tcp_read so n k) as [[]]. }
  opose proof* (sf_await_spec (fun k => k_incoming so k = inc /\ k_sent so k = snt)
    (fun r k' => match r with
       | Ok d => inc = d ++ k_incoming so k' /\ lenZ d <= n
       | Err _ => k_incoming so k' = inc
       | _ => False end /\ k_sent so k' = snt) polls so POLLIN (tcp_read so n) w) as H;
    [intros k [<- <-]; by rewrite wait_incoming, wait_sent|
     intros k [<- <-]; destruct (tcp_read_spec so n k Hn) as [Hr Hs]; by destruct (tcp_read so n k) as [[d|e| | |] k']|
     by intros k [<- <-]|done|].
  pose proof (sf_await_blocked polls so POLLIN (tcp_read so n) w Hnp) as Hb.
  opose proof* (sf_await_pending (fun k => k_incoming so k = inc /\ k_sent so k = snt) polls so POLLIN (tcp_read so n) w) as Hk;
    [intros k [<- <-]; by rewrite wait_incoming, wait_sent|done|
     intros k [<- <-]; destruct (tcp_read_spec so n k Hn) as [Hr Hs]; by destruct (tcp_read so n k) as [[d|e| | |] k']|done|].
  destruct (sf_await _ _ _ _ w) as [r w']. cbn [fst] in Hb.
  destruct H as [->|H]; [|destruct r; by destruct H]. destruct (Hk eq_refl) as [Hk1 Hk2]. split; [|done]. split; [done|]. exact (Hb eq_refl).
Qed.

Lemma async_write_spec d w :
  match async_write polls so d w with
  | (Ok n, w') => 0 <= n <= lenZ d /\
      k_sent so (aw_net w') = k_sent so (aw_net w) ++ take (Z.to_nat n) d
  | (Err _, w') => k_sent so (aw_net w') = k_sent so (aw_net w)
  | (Pending, w') => k_sent so (aw_net w') = k_sent so (aw_net w) /\ forall j, (j < polls)%nat ->
      would_block (fst (tcp_write so d (attempt (tcp_write so d) so POLLOUT j (aw_net w)))) = true
  | _ => False
  end /\ k_incoming so (aw_net (snd (async_write polls so d w))) = k_incoming so (aw_net w).
Proof.
  unfold async_write.
  set (inc := k_incoming so (aw_net w)). set (snt := k_sent so (aw_net w)).
  assert (forall k, fst (tcp_write so d k) <> Pending) as Hnp.
  { intros k. destruct (tcp_write_spec so d k) as [Hr _]. by destruct (tcp_write so d k) as [[]]. }
  opose proof* (sf_await_spec (fun k => k_incoming so k = inc /\ k_sent so k = snt)
    (fun r k' => match r with
       | Ok n => 0 <= n <= lenZ d /\ k_sent so k' = snt ++ take (Z.to_nat n) d
       | Err _ => k_sent so k' = snt
       | _ => False end /\ k_incoming so k' = inc) polls so POLLOUT (tcp_write so d) w) as H;
    [intros k [<- <-]; by rewrite wait_incoming, wait_sent|
     intros k [<- <-]; destruct (tcp_write_spec so d k) as [Hr Hs]; by destruct (tcp_write so d k) as [[n|e| | |] k']|
     by intros k [<- <-]|done|].
  pose proof (sf_await_blocked polls so POLLOUT (tcp_write so d) w Hnp) as Hb.
  opose proof* (sf_await_pending (fun k => k_incoming so k = inc /\ k_sent so k = snt) polls so POLLOUT (tcp_write so d) w) as Hk;
    [intros k [<- <-]; by rewrite wait_incoming, wait_sent|done|
     intros k [<- <-]; destruct (tcp_write_spec so d k) as [Hr Hs]; by destruct (tcp_write so d k) as [[n|e| | |] k']|done|].
  destruct (sf_await _ _ _ _ w) as [r w']. cbn [fst] in Hb.
  destruct H as [->|H]; [|destruct r; by destruct H]. destruct (Hk eq_refl) as [Hk1 Hk2]. split; [|done]. split; [done|]. exact (Hb eq_refl).
Qed.

Lemma async_write_all_incoming fuel off buf w :
  k_incoming so (aw_net (snd (write_all_loop (async_write polls so) fuel off buf w))) =
  k_incoming so (aw_net w).
Proof.
  revert off w. induction fuel as [|fuel IH]; intros off w; cbn [write_all_loop];
    destruct (off <? lenZ buf); try done.
  unfold m_bind, m_lift. destruct (slice buf off (lenZ buf)) as [tl|e| | |]; try done.
  destruct (async_write_spec tl w) as [_ Hin].
  destruct (async_write polls so tl w) as [[n|e| | |] w']; simpl in Hin; try done.
  destruct (n =? 0); [done|]. by rewrite IH.
Qed.

Lemma async_write_all_spec d w : lenZ d <= isize_max ->
  match async_write_all polls so d w with
  | (Ok _, w') => k_sent so (aw_net w') = k_sent so (aw_net w) ++ d
  | (Err _, w') => exists k, k_sent so (aw_net w') = k_sent so (aw_net w) ++ take k d
  | (Pending, w') => (exists k, k_sent so (aw_net w') = k_sent so (aw_net w) ++ take k d) /\
                     exists x v, fst (async_write polls so x v) = Pending
  | _ => False
  end.
Proof.
  intros Hd. unfold async_write_all. unfold isize_max in Hd. pose proof (lenZ_nonneg d).
  apply (write_all_loop_spec (async_write polls so) (fun w => k_sent so (aw_net w)));
    [..|lia|unfold lenZ; lia|lia].
  - intros x v n v' He. destruct (async_write_spec x v) as [H1 _]. by rewrite He in H1.
  - intros x v e v' He. destruct (async_write_spec x v) as [H1 _]. by rewrite He in H1.
  - intros x v v' He. destruct (async_write_spec x v) as [H1 _]. rewrite He in H1. by destruct H1.
  - intros x v. destruct (async_write_spec x v) as [H1 _].
    by destruct (async_write polls so x v) as [[]].
Qed.

(** On a socket that becomes ready the awaited calls are the byte stream the HTTP code uses. *)
Lemma tcp_byte_stream_ok : SocketReady polls so -> ByteStreamOk (tcp_byte_stream polls so).
Proof.
  intros Hready.
  assert (forall d w, fst (async_write polls so d w) <> Pending) as Hws.
  { intros d w Hp. destruct (async_write_spec d w) as [H1 _]. destruct (async_write polls so d w) as [r w']. cbn in Hp. subst r.
    destruct (write_ready d (aw_net w)) as (j & Hj & Hb). destruct H1 as [_ H1]. rewrite H1 in Hb by done. done. }
  split; cbn.
  - intros n s d s' Hn He. destruct (async_read_spec n s Hn) as [H _]. by rewrite He in H.
  - intros n s e s' Hn He. destruct (async_read_spec n s Hn) as [H _]. by rewrite He in H.
  - intros n s Hn. destruct (async_read_spec n s Hn) as [H _].
    destruct (async_read polls so n s) as [[]]; try done. destruct (read_ready n (aw_net s)) as (j & Hj & Hb).
    destruct H as [_ H]. by rewrite H in Hb.
  - intros n s Hn. by destruct (async_read_spec n s Hn).
  - intros d s u s' Hd He. pose proof (async_write_all_spec d s Hd) as H. by rewrite He in H.
  - intros d s e s' Hd He. pose proof (async_write_all_spec d s Hd) as H. by rewrite He in H.
  - intros d s Hd. pose proof (async_write_all_spec d s Hd) as H.
    destruct (async_write_all polls so d s) as [[]]; try done. destruct H as [_ (x & v & Hp)]. by destruct (Hws x v).
  - intros d s Hd. apply async_write_all_incoming.
Qed.

(** C7. The async TCP stream keeps the byte-stream contract, however many times its futures
    have been polled: a read that has resolved delivered the next incoming bytes, at most as
    many as the buffer holds; a [write_all] that has resolved delivered the whole buffer, or
    reported an error after a prefix; neither call panics or disturbs the other direction.  A
    read that is still pending was answered EAGAIN at each of its polls and has lost nothing;
    a [write_all] that is still pending has sent a prefix.  Short writes, failed allocations
    of the callback state and spurious wake-ups are covered.  Whether the calls resolve is
    up to the peer and to the kernel's wake-ups: under the hypothesis that the socket becomes
    ready ([SocketReady]) they do, and are the [ByteStream] the HTTP code is proved against. *)
Theorem tcp_stream_contract :
  (forall n w, 0 <= n -> match async_read polls so n w with
   | (Ok d, w') => k_incoming so (aw_net w) = d ++ k_incoming so (aw_net w') /\ lenZ d <= n
   | (Err _, w') => k_incoming so (aw_net w') = k_incoming so (aw_net w)
   | (Pending, w') => k_incoming so (aw_net w') = k_incoming so (aw_net w) /\ forall j, (j < polls)%nat ->
       would_block (fst (tcp_read so n (attempt (tcp_read so n) so POLLIN j (aw_net w)))) = true
   | _ => False
   end /\ k_sent so (aw_net (snd (async_read polls so n w))) = k_sent so (aw_net w)) /\
  (forall d w, lenZ d <= isize_max -> match async_write_all polls so d w with
   | (Ok _, w') => k_sent so (aw_net w') = k_sent so (aw_net w) ++ d
   | (Err _, w') | (Pending, w') => exists k, k_sent so (aw_net w') = k_sent so (aw_net w) ++ take k d
   | _ => False
   end /\ k_incoming so (aw_net (snd (async_write_all polls so d w))) = k_incoming so (aw_net w)) /\
  (SocketReady polls so -> ByteStreamOk (tcp_byte_stream polls so)).
Proof.
  split; [apply async_read_spec|]. split; [|apply tcp_byte_stream_ok].
  intros d w Hd. split; [|apply async_write_all_incoming].
  pose proof (async_write_all_spec d w Hd) as H. destruct (async_write_all polls so d w) as [[]]; [exact H|exact H|done|done|exact (proj1 H)].
Qed.

End AsyncFacts.

(** No socket leaks: each of the four constructors (bind-and-listen, accept,
    blocking connect, async connect) ends owning exactly the one socket it
    returns, and on every error path has released what it created. *)
Theorem sockets_not_leaked `{KE : KernelErrno, VA : VecAlloc, KW : KernelWait}
    {KWok : KernelWaitOk KW} {KNopen : KernelNetOpen KN}
    (addr : SocketAddr) (l : sock) (block : bool) (polls : nat) (k : knet) (w : AsyncWorld) :
  owns_result k (listener_try_new addr k) /\
  owns_result k (listener_accept l block k) /\
  owns_result k (stream_connect addr k) /\
  (let '(r, w') := async_connect polls addr w in
   r = Pending \/ owns_result (aw_net w) (r, aw_net w')).
Proof.
  split; [apply listener_try_new_owns|]. split; [apply listener_accept_owns|].
  split; [apply create_and_connect_owns|]. unfold async_connect.
  destruct (sock_create_kern _ _ _ (aw_net w)) as [[ret so] k1] eqn:Ec. apply create_open in Ec.
  destruct (ret <? 0); [by right|].
  opose proof* (sf_await_spec (fun k => k_open k = so :: k_open (aw_net w))
    (fun (r : res Error unit) k => match r with Ok _ | Err _ => k_open k = so :: k_open (aw_net w) | _ => False end)
    polls so POLLOUT (connect_nonblock so addr) (mkAW VA KN (aw_alloc w) k1 (aw_queued w) (aw_cbs w))) as H.
  - intros k0 Hk. by rewrite wait_open.
  - intros k0 Hk. unfold connect_nonblock. pose proof (connect_raw_open so addr O_NONBLOCK k0) as Hr.
    destruct (kernel_connect_raw _ _ _ k0) as [ret2 k2]. simpl in Hr.
    destruct (ret2 =? 0); [congruence|]. destruct (_ || _); split; congruence.
  - done.
  - done.
  - destruct (sf_await _ _ _ _ _) as [r w']. destruct H as [->|H]; [by left|].
    destruct r; try done; right; unfold owns_result; simpl; [done|by apply release_open].
Qed.

(** ** Witnesses: a network with one peer

    Receives deliver at most three bytes and sends take at most two; while
    [tn_again] is set they report [EAGAIN], and a wake-up clears it; one
    connection is waiting to be accepted then. *)
Record toy_net : Type := mkToy {
  tn_in : list byte; tn_out : list byte; tn_again : bool; tn_open : list nat }.

Definition toy : KernelNet := {|
  knet := toy_net;
  sock := nat;
  sock_create_kern _ _ _ k :=
    (0, length (tn_open k), mkToy (tn_in k) (tn_out k) (tn_again k) (length (tn_open k) :: tn_open k));
  kernel_bind _ _ _ k := (0, k);
  kernel_listen _ _ k := (-22, k);
  kernel_accept _ _ k :=
    if tn_again k
    then (0, length (tn_open k), mkToy (tn_in k) (tn_out k) false (length (tn_open k) :: tn_open k))
    else (-22, 0%nat, k);
  kernel_connect _ _ _ _ k := (if tn_again k then -115 else -111, k);
  kernel_recvmsg _ n k :=
    if tn_again k then (-11, [], k)
    else let d := take (Nat.min 3 (Z.to_nat n)) (tn_in k) in
         (lenZ d, d, mkToy (drop (length d) (tn_in k)) (tn_out k) false (tn_open k));
  kernel_sendmsg _ d k :=
    if tn_again k then (-11, k)
    else let t := take 2 d in (lenZ t, mkToy (tn_in k) (tn_out k ++ t) true (tn_open k));
  sock_release _ k := mkToy (tn_in k) (tn_out k) (tn_again k) (tail (tn_open k));
  SOMAXCONN := 4096;
  k_incoming _ k := tn_in k;
  k_sent _ k := tn_out k;
  k_open := tn_open |}.

#[global] Instance toy_ok : KernelNetOk toy.
Proof.
  split; cbn -[Nat.min take drop].
  - intros _ n k ret d k' Hn. remember (Nat.min 3 (Z.to_nat n)) as c eqn:Hc.
    assert (Z.of_nat c <= n /\ (c <= 3)%nat) as [Hcn Hc3] by lia. clear Hc.
    destruct (tn_again k); [intros [= <- <- <-] ?; lia|].
    intros [= <- <- <-] _. split; [done|]. unfold lenZ. rewrite length_take.
    split; [lia|]. split; [|lia]. cbn [tn_in]. rewrite <- (take_drop c (tn_in k)) at 1. f_equal.
    destruct (decide (c <= length (tn_in k))%nat); [f_equal; lia|by rewrite !drop_ge by lia].
  - intros _ n k ret d k'. generalize (Nat.min 3 (Z.to_nat n)). intros c.
    destruct (tn_again k); intros [= <- <- <-] H; [done|]. pose proof (lenZ_nonneg (take c (tn_in k))). lia.
  - intros _ n k ret d k'. destruct (tn_again k); by intros [= <- <- <-].
  - intros _ d k ret k'. destruct (tn_again k); [intros [= <- <-] ?; lia|]. intros [= <- <-] _.
    unfold lenZ. rewrite length_take. split; [lia|]. split; [|lia]. cbn [tn_out]. f_equal.
    destruct d as [|a [|b d]]; done.
  - intros _ d k ret k'. destruct (tn_again k); intros [= <- <-] H; [done|]. pose proof (lenZ_nonneg (take 2 d)). lia.
  - intros _ d k ret k'. by destruct (tn_again k); intros [= <- <-].
Qed.

#[global] Instance toy_opens : KernelNetOpen toy.
Proof.
  split; cbn; try done.
  - by intros f t p k ret so k' [= <- <- <-].
  - intros l fl k ret so k'. by destruct (tn_again k); intros [= <- <- <-].
  - intros so n k. by destruct (tn_again k).
  - intros so d k. by destruct (tn_again k).
  - intros so k l ->. done.
Qed.

Definition toy_wake (k : toy_net) : toy_net := mkToy (tn_in k) (tn_out k) false (tn_open k).
Definition toy_wait : @KernelWait toy := @Build_KernelWait toy 1 4 (fun _ _ => toy_wake).
#[global] Instance toy_wait_ok : KernelWaitOk toy_wait.
Proof. by split. Qed.

Lemma check_err_lenZ {A} (l : list A) : @check_err linux_errno (lenZ l) = Ok (lenZ l).
Proof.
  unfold check_err. destruct (_ <? 0) eqn:E; [|done]. pose proof (lenZ_nonneg l). blia.
Qed.

#[global] Instance toy_ready : @SocketReady linux_errno toy toy_wait 2 0%nat.
Proof.
  split.
  - intros n k. exists (if tn_again k then 1%nat else 0%nat).
    destruct (tn_again k) eqn:E; (split; [lia|]); cbn -[take drop Nat.min check_err lenZ];
      unfold tcp_read; cbn -[take drop Nat.min check_err lenZ]; rewrite ?E; cbn -[take drop Nat.min check_err lenZ];
      by rewrite check_err_lenZ.
  - intros d k. exists (if tn_again k then 1%nat else 0%nat).
    destruct (tn_again k) eqn:E; (split; [lia|]); cbn -[take drop Nat.min check_err lenZ];
      unfold tcp_write; cbn -[take drop Nat.min check_err lenZ]; rewrite ?E; cbn -[take drop Nat.min check_err lenZ];
      by rewrite check_err_lenZ.
Qed.

Lemma tcp_stream_contract_witness :
  ByteStreamOk (@tcp_byte_stream linux_errno const_alloc toy toy_wait 2 0%nat).
Proof. apply (@tcp_stream_contract linux_errno const_alloc toy toy_wait _ _ 2 0%nat). apply toy_ready. Defined.

Definition toy_world : @AsyncWorld const_alloc toy :=
  mkAW const_alloc toy true (mkToy (bs "hello") [] true [7%nat]) 0 0.

Lemma sockets_not_leaked_witness :
  owns_result (KN := toy) (aw_net toy_world) (@listener_try_new linux_errno toy (new_v4 Ipv4_ANY 80) (aw_net toy_world)) /\
  owns_result (KN := toy) (aw_net toy_world) (@listener_accept linux_errno toy 7%nat false (aw_net toy_world)) /\
  owns_result (KN := toy) (aw_net toy_world) (@stream_connect linux_errno toy (new_v4 Ipv4_ANY 80) (aw_net toy_world)) /\
  (let '(r, w') := @async_connect linux_errno const_alloc toy toy_wait 3 (new_v4 Ipv4_ANY 80) toy_world in
   r = Pending \/ owns_result (KN := toy) (aw_net toy_world) (r, aw_net w')).
Proof.
  apply (@sockets_not_leaked linux_errno const_alloc toy toy_wait _ _
           (new_v4 Ipv4_ANY 80) 7%nat false 3 (aw_net toy_world) toy_world).
Defined.
