(* ===== verification/HttpTypes.v ===== *)
(** * HTTP messages (rko-util/src/http/{header,headers,version,method,status,
    error,request,response}.rs)

    The message types, the case-insensitive header table, the builders and the
    error responses.  Byte vectors are lists behind the [VecAlloc] interface, so
    every place that can run out of memory does so here too. *)
From Stdlib Require Import ZArith Lia Bool.
From Stdlib.Strings Require Import Byte String.
From stdpp Require Import base list option numbers.
From S2P Require Import Prelude Errors KVec.

Abbreviation bytes := (list byte).

(** ** header.rs *)
Definition HOST : bytes := bs "Host".
Definition CONTENT_TYPE : bytes := bs "Content-Type".
Definition CONTENT_LENGTH : bytes := bs "Content-Length".
Definition CONNECTION : bytes := bs "Connection".
Definition TRANSFER_ENCODING : bytes := bs "Transfer-Encoding".
Definition ACCEPT : bytes := bs "Accept".
Definition USER_AGENT : bytes := bs "User-Agent".
Definition AUTHORIZATION : bytes := bs "Authorization".
Definition LOCATION : bytes := bs "Location".

(** [u8::to_ascii_lowercase], as a code. *)
Definition ascii_lower (b : byte) : Z :=
  let z := b2z b in if (65 <=? z) && (z <=? 90) then z + 32 else z.
Definition byte_eq_ignore_case (x y : byte) : bool := ascii_lower x =? ascii_lower y.

Definition eq_ignore_ascii_case (a b : bytes) : bool :=
  if bool_decide (length a <> length b) then false
  else forallb (fun '(x, y) => byte_eq_ignore_case x y) (zip a b).

(** ** The parts of [core::str] the code uses *)

(** [core::str::from_utf8] succeeds. *)
Definition utf8_cont (b : byte) : bool := (128 <=? b2z b) && (b2z b <=? 191).
Definition in_range (lo hi : Z) (b : byte) : bool := (lo <=? b2z b) && (b2z b <=? hi).
Fixpoint utf8_valid (l : bytes) : bool :=
  match l with
  | [] => true
  | a :: l1 =>
      if b2z a <? 128 then utf8_valid l1
      else match l1 with
      | [] => false
      | b :: l2 =>
          if in_range 194 223 a then utf8_cont b && utf8_valid l2
          else match l2 with
          | [] => false
          | c :: l3 =>
              if in_range 224 239 a then
                (if b2z a =? 224 then in_range 160 191 b
                 else if b2z a =? 237 then in_range 128 159 b else utf8_cont b)
                && utf8_cont c && utf8_valid l3
              else match l3 with
              | [] => false
              | d :: l4 =>
                  in_range 240 244 a &&
                  (if b2z a =? 240 then in_range 144 191 b
                   else if b2z a =? 244 then in_range 128 143 b else utf8_cont b)
                  && utf8_cont c && utf8_cont d && utf8_valid l4
              end
          end
      end
  end.

Definition digit_of (b : byte) : option Z :=
  let z := b2z b in if (48 <=? z) && (z <=? 57) then Some (z - 48) else None.

(** The digit loop of [str::parse::<usize>]: [checked_mul], then [checked_add]. *)
Fixpoint parse_digits (l : bytes) (acc : Z) : option Z :=
  match l with
  | [] => Some acc
  | b :: t =>
      d ← digit_of b;
      m ← u_checked_mul 64 acc 10;
      a ← u_checked_add 64 m d;
      parse_digits t a
  end.

(** [str::parse::<usize>]: a leading [+] is accepted, a lone sign is not. *)
Definition parse_usize (l : bytes) : option Z :=
  match l with
  | [] => None
  | b :: t =>
      if bool_decide (b = "+"%byte) then
        match t with [] => None | _ => parse_digits t 0 end
      else parse_digits l 0
  end.

(** ** headers.rs *)
Definition Headers : Type := list (bytes * bytes).
Definition headers_new : Headers := [].

Fixpoint headers_get (h : Headers) (name : bytes) : option bytes :=
  match h with
  | [] => None
  | (n, v) :: t => if eq_ignore_ascii_case n name then Some v else headers_get t name
  end.

Definition headers_insert `{VA : VecAlloc} (h : Headers) (name value : bytes) : M ast AllocError Headers :=
  n <-! kv_from_slice name;;
  v <-! kv_from_slice value;;
  kv_push h (n, v).

Definition headers_len (h : Headers) : nat := length h.
Definition headers_is_empty (h : Headers) : bool := bool_decide (length h = 0%nat).

Definition content_length (h : Headers) : option Z :=
  val ← headers_get h CONTENT_LENGTH;
  if utf8_valid val then parse_usize val else None.

Definition is_connection_close (h : Headers) : bool :=
  default false ((fun v => eq_ignore_ascii_case v (bs "close")) <$> headers_get h CONNECTION).
Definition is_connection_keepalive (h : Headers) : bool :=
  default false ((fun v => eq_ignore_ascii_case v (bs "keep-alive")) <$> headers_get h CONNECTION).

(** ** version.rs *)
Inductive Version : Type := Http10 | Http11.
#[global] Instance Version_eq_dec : EqDecision Version.
Proof. solve_decision. Defined.

Definition version_from_httparse (v : Z) : Version := if v =? 0 then Http10 else Http11.
Definition version_as_str (v : Version) : bytes :=
  match v with Http10 => bs "HTTP/1.0" | Http11 => bs "HTTP/1.1" end.

(** ** method.rs *)
Inductive Method : Type := Get | Head | Post | Put | Delete | Options | Patch.
#[global] Instance Method_eq_dec : EqDecision Method.
Proof. solve_decision. Defined.

Definition method_as_str (m : Method) : bytes :=
  match m with
  | Get => bs "GET" | Head => bs "HEAD" | Post => bs "POST" | Put => bs "PUT"
  | Delete => bs "DELETE" | Options => bs "OPTIONS" | Patch => bs "PATCH"
  end.

Definition method_parse (s : bytes) : option Method :=
  if bool_decide (s = bs "GET") then Some Get
  else if bool_decide (s = bs "HEAD") then Some Head
  else if bool_decide (s = bs "POST") then Some Post
  else if bool_decide (s = bs "PUT") then Some Put
  else if bool_decide (s = bs "DELETE") then Some Delete
  else if bool_decide (s = bs "OPTIONS") then Some Options
  else if bool_decide (s = bs "PATCH") then Some Patch
  else None.

(** ** status.rs *)
Record StatusCode : Type := mkStatus { as_u16 : Z }.
#[global] Instance StatusCode_eq_dec : EqDecision StatusCode.
Proof. solve_decision. Defined.

Definition OK : StatusCode := mkStatus 200.
Definition CREATED : StatusCode := mkStatus 201.
Definition NO_CONTENT : StatusCode := mkStatus 204.
Definition BAD_REQUEST : StatusCode := mkStatus 400.
Definition NOT_FOUND : StatusCode := mkStatus 404.
Definition METHOD_NOT_ALLOWED : StatusCode := mkStatus 405.
Definition PAYLOAD_TOO_LARGE : StatusCode := mkStatus 413.
Definition HEADER_TOO_LARGE : StatusCode := mkStatus 431.
Definition INTERNAL_SERVER_ERROR : StatusCode := mkStatus 500.
Definition GATEWAY_TIMEOUT : StatusCode := mkStatus 504.
Definition SERVICE_UNAVAILABLE : StatusCode := mkStatus 503.

Definition status_consts : list StatusCode :=
  [OK; CREATED; NO_CONTENT; BAD_REQUEST; NOT_FOUND; METHOD_NOT_ALLOWED; PAYLOAD_TOO_LARGE;
   HEADER_TOO_LARGE; INTERNAL_SERVER_ERROR; GATEWAY_TIMEOUT; SERVICE_UNAVAILABLE].

Definition reason_table : list (Z * bytes) :=
  [(200, bs "OK"); (201, bs "Created"); (204, bs "No Content");
   (301, bs "Moved Permanently"); (302, bs "Found"); (304, bs "Not Modified");
   (400, bs "Bad Request"); (401, bs "Unauthorized"); (403, bs "Forbidden");
   (404, bs "Not Found"); (405, bs "Method Not Allowed"); (413, bs "Payload Too Large");
   (431, bs "Request Header Fields Too Large"); (500, bs "Internal Server Error");
   (502, bs "Bad Gateway"); (503, bs "Service Unavailable")].

(** [StatusCode::reason]: the arms in order, then [_]. *)
Fixpoint reason_lookup (t : list (Z * bytes)) (code : Z) : bytes :=
  match t with
  | [] => bs "Unknown"
  | (c, s) :: t' => if code =? c then s else reason_lookup t' code
  end.
Definition reason (s : StatusCode) : bytes := reason_lookup reason_table (as_u16 s).

Definition is_success (s : StatusCode) : bool := (200 <=? as_u16 s) && (as_u16 s <? 300).
Definition is_redirect (s : StatusCode) : bool := (300 <=? as_u16 s) && (as_u16 s <? 400).
Definition is_client_error (s : StatusCode) : bool := (400 <=? as_u16 s) && (as_u16 s <? 500).
Definition is_server_error (s : StatusCode) : bool := (500 <=? as_u16 s) && (as_u16 s <? 600).

(** ** request.rs and response.rs *)
Record Request : Type := mkRequest {
  req_method : Method; req_path : bytes; req_version : Version;
  req_headers : Headers; req_body : bytes }.

Record Response : Type := mkResponse {
  resp_status : StatusCode; resp_version : Version; resp_headers : Headers; resp_body : bytes }.

(** [Request::path]: the path when it is UTF-8, else ["/"]. *)
Definition request_path (r : Request) : bytes :=
  if utf8_valid (req_path r) then req_path r else bs "/".

Record RequestBuilder : Type := mkReqB {
  rb_method : Method; rb_path : option bytes; rb_version : Version;
  rb_headers : Headers; rb_error : option AllocError }.

Record ResponseBuilder : Type := mkRespB {
  sb_status : StatusCode; sb_version : Version; sb_headers : Headers; sb_error : option AllocError }.

Section Builders.
Context `{VA : VecAlloc}.

(** A call whose [Result] is inspected rather than propagated. *)
Definition m_try {W E A} (m : M W E A) : M W E (A + E) :=
  fun w => match m w with
           | (Ok a, w') => (Ok (inl a), w')
           | (Err e, w') => (Ok (inr e), w')
           | (Panic, w') => (Panic, w')
           | (Ub, w') => (Ub, w')
           | (Pending, w') => (Pending, w')
           end.

Definition reqb_new : RequestBuilder := mkReqB Get None Http11 headers_new None.
Definition reqb_method (b : RequestBuilder) (m : Method) : RequestBuilder :=
  mkReqB m (rb_path b) (rb_version b) (rb_headers b) (rb_error b).
Definition reqb_path (b : RequestBuilder) (p : bytes) : M ast AllocError RequestBuilder :=
  r <-! m_try (kv_from_slice p);;
  m_ret match r with
        | inl v => mkReqB (rb_method b) (Some v) (rb_version b) (rb_headers b) (rb_error b)
        | inr e => mkReqB (rb_method b) (rb_path b) (rb_version b) (rb_headers b) (Some e)
        end.
Definition reqb_version (b : RequestBuilder) (v : Version) : RequestBuilder :=
  mkReqB (rb_method b) (rb_path b) v (rb_headers b) (rb_error b).
Definition reqb_header (b : RequestBuilder) (name value : bytes) : M ast AllocError RequestBuilder :=
  r <-! m_try (headers_insert (rb_headers b) name value);;
  m_ret match r with
        | inl h => mkReqB (rb_method b) (rb_path b) (rb_version b) h (rb_error b)
        | inr e => mkReqB (rb_method b) (rb_path b) (rb_version b) (rb_headers b) (Some e)
        end.
Definition reqb_body (b : RequestBuilder) (body : bytes) : M ast AllocError Request :=
  match rb_error b with
  | Some e => m_err e
  | None =>
      path <-! match rb_path b with
               | Some p => m_ret p
               | None => kv_from_slice (bs "/")
               end;;
      m_ret (mkRequest (rb_method b) path (rb_version b) (rb_headers b) body)
  end.

(** [Request::get] and [Request::post]. *)
Definition request_get (path : bytes) : M ast AllocError Request :=
  b <-! reqb_path (reqb_method reqb_new Get) path;;
  reqb_body b [].
Definition request_post (path body content_type : bytes) : M ast AllocError Request :=
  b <-! reqb_path (reqb_method reqb_new Post) path;;
  b <-! reqb_header b CONTENT_TYPE content_type;;
  bv <-! kv_from_slice body;;
  reqb_body b bv.

Definition respb_new : ResponseBuilder := mkRespB OK Http11 headers_new None.
Definition respb_status (b : ResponseBuilder) (s : StatusCode) : ResponseBuilder :=
  mkRespB s (sb_version b) (sb_headers b) (sb_error b).
Definition respb_version (b : ResponseBuilder) (v : Version) : ResponseBuilder :=
  mkRespB (sb_status b) v (sb_headers b) (sb_error b).
Definition respb_header (b : ResponseBuilder) (name value : bytes) : M ast AllocError ResponseBuilder :=
  r <-! m_try (headers_insert (sb_headers b) name value);;
  m_ret match r with
        | inl h => mkRespB (sb_status b) (sb_version b) h (sb_error b)
        | inr e => mkRespB (sb_status b) (sb_version b) (sb_headers b) (Some e)
        end.
Definition respb_body (b : ResponseBuilder) (body : bytes) : M ast AllocError Response :=
  match sb_error b with
  | Some e => m_err e
  | None => m_ret (mkResponse (sb_status b) (sb_version b) (sb_headers b) body)
  end.

End Builders.

(** ** error.rs *)
Inductive HttpError : Type :=
| BadRequest | HeaderTooLarge | PayloadTooLarge | ConnectionClosed | Internal.
#[global] Instance HttpError_eq_dec : EqDecision HttpError.
Proof. solve_decision. Defined.

Definition http_error_parts (e : HttpError) : StatusCode * bytes :=
  let nl := [x0a] in
  match e with
  | BadRequest => (BAD_REQUEST, bs "400 Bad Request" ++ nl)
  | HeaderTooLarge => (HEADER_TOO_LARGE, bs "431 Request Header Fields Too Large" ++ nl)
  | PayloadTooLarge => (PAYLOAD_TOO_LARGE, bs "413 Payload Too Large" ++ nl)
  | ConnectionClosed | Internal => (INTERNAL_SERVER_ERROR, bs "500 Internal Server Error" ++ nl)
  end.

(** [HttpError::to_response]: a failed insert is ignored, a failed body is empty. *)
Definition http_error_to_response `{VA : VecAlloc} (e : HttpError) : M ast AllocError Response :=
  let '(status, body_bytes) := http_error_parts e in
  b <-! m_try (kv_from_slice body_bytes);;
  let body := match b with inl v => v | inr _ => [] end in
  r1 <-! m_try (headers_insert headers_new CONTENT_TYPE (bs "text/plain"));;
  let h1 := match r1 with inl h => h | inr _ => headers_new end in
  r2 <-! m_try (headers_insert h1 CONNECTION (bs "close"));;
  let h2 := match r2 with inl h => h | inr _ => h1 end in
  m_ret (mkResponse status Http11 h2 body).

Definition http_error_to_error `{KE : KernelErrno} (e : HttpError) : Error :=
  match e with
  | BadRequest | HeaderTooLarge => EINVAL
  | PayloadTooLarge => E2BIG
  | ConnectionClosed => ECONNRESET
  | Internal => ENOMEM
  end.

(** ** Facts *)

Lemma method_parse_as_str m : method_parse (method_as_str m) = Some m.
Proof. by destruct m. Qed.

Lemma method_parse_inv s m : method_parse s = Some m -> s = method_as_str m.
Proof.
  unfold method_parse. intros H.
  repeat (case_bool_decide; [subst s; by injection H as <-|]). done.
Qed.

Lemma byte_eq_ignore_case_spec x y :
  byte_eq_ignore_case x y = true <-> ascii_lower x = ascii_lower y.
Proof. apply Z.eqb_eq. Qed.

(** Header names are compared as the lists of their lower-cased codes. *)
Lemma eq_ignore_ascii_case_spec a b :
  eq_ignore_ascii_case a b = true <-> ascii_lower <$> a = ascii_lower <$> b.
Proof.
  unfold eq_ignore_ascii_case. case_bool_decide as Hl.
  - split; [done|]. intros H. apply (f_equal length) in H. rewrite !length_fmap in H. done.
  - revert b Hl. induction a as [|x a IH]; intros [|y b] Hl; try done.
    cbn. rewrite andb_true_iff, byte_eq_ignore_case_spec, IH by (simpl in Hl; lia).
    split; [intros [-> ->]; done|intros [= -> ->]; done].
Qed.

Lemma eq_ignore_refl a : eq_ignore_ascii_case a a = true.
Proof. by apply eq_ignore_ascii_case_spec. Qed.

(** [get] after [insert]: the first entry whose name matches wins. *)
Lemma headers_get_app h n v name :
  headers_get (h ++ [(n, v)]) name =
  match headers_get h name with
  | Some x => Some x
  | None => if eq_ignore_ascii_case n name then Some v else None
  end.
Proof.
  induction h as [|[m x] h IH]; [done|]. simpl. by destruct (eq_ignore_ascii_case m name).
Qed.

(** With the allocator granting, insertion is appending. *)
Section Granted.
Context `{VA : VecAlloc} {Hg : AlwaysGrants VA}.

Lemma headers_insert_granted h n v a : exists a', headers_insert h n v a = (Ok (h ++ [(n, v)]), a').
Proof.
  unfold headers_insert, m_bind, kv_from_slice, kv_push.
  destruct (kv_try_granted n a) as [a1 ->]. destruct (kv_try_granted v a1) as [a2 ->].
  apply kv_try_granted.
Qed.

End Granted.

Lemma headers_insert_cases `{VA : VecAlloc} h n v a :
  exists a', headers_insert h n v a = (Ok (h ++ [(n, v)]), a') \/
             headers_insert h n v a = (Err AllocErr, a').
Proof.
  unfold headers_insert, m_bind, kv_from_slice, kv_push.
  destruct (kv_try_cases n a) as [a1 [-> | ->]]; [|by eauto].
  destruct (kv_try_cases v a1) as [a2 [-> | ->]]; [|by eauto].
  apply kv_try_cases.
Qed.
