(* ===== verification/HttpReader.v ===== *)
(** * The buffered reader (rko-util/src/http/buf_reader.rs)

    [BufReader] with its capacity buffer and the two cursors as [usize] values:
    subtraction and addition wrap, slicing panics.  The invariant
    [pos <= len <= capacity] is kept by every operation its callers use, and
    [reader_data] is then a plain view of the unread bytes. *)
From Stdlib Require Import ZArith Lia Bool.
From Stdlib.Strings Require Import Byte String.
From stdpp Require Import base list option numbers.
From S2P Require Import Prelude Errors KVec Stream.

Record BufReader : Type := mkReader { br_buf : list byte; br_pos : Z; br_len : Z }.

(** [BufReader::new]. *)
Definition reader_new `{VA : VecAlloc} (capacity : Z) : M ast AllocError BufReader :=
  buf <-! kv_with_capacity;;
  buf <-! kv_resize (Z.to_nat capacity) x00 buf;;
  m_ret (mkReader buf 0 0).

(** [slice.copy_within(a..b, 0)]. *)
Definition copy_to_front {E} (l : list byte) (a b : Z) : res E (list byte) :=
  part <-? slice l a b;;
  Ok (part ++ drop (length part) l).

(** The bytes a socket wrote at [&mut l[at..]]; more than the slice holds would
    be out of bounds. *)
Definition write_at {E} (l : list byte) (at_ : Z) (d : list byte) : res E (list byte) :=
  tail <-? slice l at_ (lenZ l);;
  if lenZ d <=? lenZ tail
  then Ok (take (Z.to_nat at_) l ++ d ++ drop (Z.to_nat at_ + length d) l)
  else Ub.

(** The compaction [fill] and [reset] share. *)
Definition reader_compact {E} (r : BufReader) : res E BufReader :=
  let remaining := wrap 64 (br_len r - br_pos r) in
  buf <-? copy_to_front (br_buf r) (br_pos r) (br_len r);;
  Ok (mkReader buf 0 remaining).

Section Reader.
Context `{KE : KernelErrno, BS : ByteStream}.

(** [BufReader::fill]. *)
Definition reader_fill : M (BufReader * st) Error Z :=
  fun '(r, s) =>
    match (if 0 <? br_pos r then reader_compact r else Ok r) with
    | Ok r1 =>
        if lenZ (br_buf r1) <=? br_len r1 then (Err E2BIG, (r1, s))
        else
          match st_read (lenZ (br_buf r1) - br_len r1) s with
          | (Ok d, s') =>
              match write_at (br_buf r1) (br_len r1) d with
              | Ok buf =>
                  if lenZ d =? 0 then (Err ECONNRESET, (mkReader buf (br_pos r1) (br_len r1), s'))
                  else (Ok (lenZ d), (mkReader buf (br_pos r1) (wrap 64 (br_len r1 + lenZ d)), s'))
              | Err e => (Err e, (r1, s'))
              | Panic => (Panic, (r1, s'))
              | Ub => (Ub, (r1, s'))
              | Pending => (Pending, (r1, s'))
              end
          | (Err e, s') => (Err e, (r1, s'))
          | (Panic, s') => (Panic, (r1, s'))
          | (Ub, s') => (Ub, (r1, s'))
          | (Pending, s') => (Pending, (r1, s'))
          end
    | Err e => (Err e, (r, s))
    | Panic => (Panic, (r, s))
    | Ub => (Ub, (r, s))
    | Pending => (Pending, (r, s))
    end.

End Reader.

(** [BufReader::data], [consume] and [reset]. *)
Definition reader_data {E} (r : BufReader) : res E (list byte) :=
  slice (br_buf r) (br_pos r) (br_len r).
Definition reader_consume (n : Z) (r : BufReader) : BufReader :=
  mkReader (br_buf r) (wrap 64 (br_pos r + n)) (br_len r).
Definition reader_reset {E} (r : BufReader) : res E BufReader :=
  if br_pos r <? br_len r then reader_compact r
  else Ok (mkReader (br_buf r) 0 0).

(** ** The invariant *)

(** [reader_inv cap u r]: the cursors are in order, the buffer has its capacity,
    and [u] is the unread data. *)
Record reader_inv (cap : Z) (u : list byte) (r : BufReader) : Prop := {
  inv_pos : 0 <= br_pos r;
  inv_len : br_pos r <= br_len r <= cap;
  inv_cap : lenZ (br_buf r) = cap;
  inv_max : cap < 2 ^ 63;
  inv_data : u = take (Z.to_nat (br_len r - br_pos r)) (drop (Z.to_nat (br_pos r)) (br_buf r))
}.

Section ReaderFacts.
Context `{KE : KernelErrno, BS : ByteStream} {BSok : ByteStreamOk BS}.

Lemma reader_inv_length cap u r : reader_inv cap u r -> lenZ u = br_len r - br_pos r.
Proof.
  intros [Hp Hl Hc Hm ->]. unfold lenZ in *. rewrite length_take, length_drop. lia.
Qed.

Lemma reader_data_inv {E} cap u r : reader_inv cap u r -> @reader_data E r = Ok u.
Proof.
  intros [Hp Hl Hc Hm ->]. unfold reader_data. rewrite slice_ok by lia. done.
Qed.

Lemma reader_consume_inv cap n u r : reader_inv cap u r -> 0 <= n <= lenZ u ->
  reader_inv cap (drop (Z.to_nat n) u) (reader_consume n r).
Proof.
  intros Hi Hn. pose proof (reader_inv_length _ _ _ Hi) as Hlu. destruct Hi as [Hp Hl Hc Hm Hd].
  unfold reader_consume. rewrite wrap_small by lia.
  split; simpl; try lia. rewrite Hd, skipn_firstn_comm, drop_drop.
  f_equal; [lia|]. f_equal. lia.
Qed.

Lemma reader_compact_inv {E} cap u r : reader_inv cap u r ->
  exists r', @reader_compact E r = Ok r' /\ reader_inv cap u r' /\ br_pos r' = 0 /\ br_len r' = lenZ u.
Proof.
  intros Hi. pose proof (reader_inv_length _ _ _ Hi) as Hlu. destruct Hi as [Hp Hl Hc Hm Hd].
  unfold reader_compact, copy_to_front. rewrite slice_ok by lia. rewrite <- Hd. simpl.
  eexists. split; [done|]. simpl. rewrite wrap_small by lia.
  assert (length u <= length (br_buf r))%nat by (unfold lenZ in *; lia).
  split; [|done]. split; simpl; try lia.
  - rewrite lenZ_app. unfold lenZ in *. rewrite length_drop. lia.
  - rewrite drop_0. symmetry. rewrite take_app_le by (unfold lenZ in *; lia).
    apply take_ge. unfold lenZ in *. lia.
Qed.

Lemma reader_reset_inv {E} cap u r : reader_inv cap u r ->
  exists r', @reader_reset E r = Ok r' /\ reader_inv cap u r' /\ br_pos r' = 0.
Proof.
  intros Hi. unfold reader_reset. destruct (_ <? _) eqn:E1.
  - destruct (reader_compact_inv (E := E) cap u r Hi) as (r' & He & Hi' & Hz & _). eauto.
  - eexists. split; [done|]. pose proof (reader_inv_length _ _ _ Hi) as Hlu.
    destruct Hi as [Hp Hl Hc Hm Hd]. zify_bools.
    assert (u = []) as -> by (apply lenZ_0; lia). split; [|done]. split; simpl; try lia. done.
Qed.

(** One [fill]: the buffer is full, the read failed or hit the end of the
    stream, or at least one incoming byte moved behind the unread data. *)
Inductive fill_result (cap : Z) (u : list byte) (s : st) :
    res Error Z * (BufReader * st) -> Prop :=
| fill_full r' : lenZ u = cap -> reader_inv cap u r' ->
    fill_result cap u s (Err E2BIG, (r', s))
| fill_failed e r' s' : lenZ u < cap -> reader_inv cap u r' -> st_incoming s' = st_incoming s ->
    st_read (cap - lenZ u) s = (Err e, s') ->
    fill_result cap u s (Err e, (r', s'))
| fill_eof r' s' : lenZ u < cap -> reader_inv cap u r' -> st_incoming s' = st_incoming s ->
    st_read (cap - lenZ u) s = (Ok [], s') ->
    fill_result cap u s (Err ECONNRESET, (r', s'))
| fill_more d r' s' : lenZ u < cap -> d <> [] -> reader_inv cap (u ++ d) r' ->
    st_incoming s = d ++ st_incoming s' ->
    fill_result cap u s (Ok (lenZ d), (r', s')).

Lemma write_at_end {E} cap u r d : reader_inv cap u r -> br_pos r = 0 -> br_len r = lenZ u ->
  lenZ d <= cap - lenZ u ->
  exists buf, @write_at E (br_buf r) (br_len r) d = Ok buf /\ lenZ buf = cap /\
    take (Z.to_nat (lenZ u + lenZ d)) buf = u ++ d.
Proof.
  intros [Hp Hl Hc Hm Hd] H0 Hlu Hdl. unfold write_at.
  pose proof (lenZ_nonneg u). pose proof (lenZ_nonneg d).
  rewrite slice_ok by lia. cbn [res_bind].
  destruct (_ <=? _) eqn:E1.
  2: { unfold lenZ in *. rewrite length_take, length_drop in E1. zify_bools. lia. }
  eexists. split; [done|]. rewrite H0, Z.sub_0_r, drop_0 in Hd. rewrite <- Hd. split.
  - rewrite !lenZ_app. unfold lenZ in *. rewrite length_drop. lia.
  - rewrite app_assoc. rewrite take_app_le by (rewrite length_app; unfold lenZ; lia).
    apply take_ge. rewrite length_app. unfold lenZ. lia.
Qed.

Lemma reader_fill_spec cap u r s : reader_inv cap u r ->
  fill_result cap u s (reader_fill (r, s)).
Proof.
  intros Hi. unfold reader_fill.
  assert (exists r1, (if 0 <? br_pos r then reader_compact (E := Error) r else Ok r) = Ok r1 /\
            reader_inv cap u r1 /\ br_pos r1 = 0 /\ br_len r1 = lenZ u) as (r1 & -> & Hi1 & H0 & Hl1).
  { destruct (0 <? br_pos r) eqn:E1; [by apply reader_compact_inv|].
    exists r. split; [done|]. split; [done|]. rewrite (reader_inv_length _ _ _ Hi).
    destruct Hi. zify_bools. lia. }
  pose proof (lenZ_nonneg u) as Hu0. rewrite (inv_cap _ _ _ Hi1), Hl1.
  destruct (cap <=? lenZ u) eqn:Ec; zify_bools.
  { apply fill_full; [|done]. destruct Hi1. lia. }
  pose proof (read_total (cap - lenZ u) s ltac:(lia)) as Htot.
  destruct (st_read (cap - lenZ u) s) as [[d|e| | |] s'] eqn:Er; try done.
  - destruct (read_ok (cap - lenZ u) s d s' ltac:(lia) Er) as [Hin Hd].
    destruct (write_at_end (E := Error) cap u r1 d Hi1 H0 Hl1 Hd) as (buf & Hw & Hlb & Htk).
    rewrite <- Hl1, Hw. pose proof (lenZ_nonneg d) as Hd0.
    destruct (lenZ d =? 0) eqn:Ed; zify_bools.
    + apply lenZ_0 in Ed. subst d. rewrite app_nil_l in Hin.
      rewrite app_nil_r, lenZ_nil, Z.add_0_r in Htk.
      apply fill_eof; try done. destruct Hi1. split; simpl; try lia.
      rewrite H0, Hl1, Z.sub_0_r, drop_0. done.
    + apply fill_more; try done.
      { by intros ->. }
      destruct Hi1. rewrite Hl1. rewrite wrap_small by lia. split; simpl; try lia.
      rewrite H0, Z.sub_0_r, drop_0. done.
  - apply fill_failed; try done. eapply read_err; [|done]. lia.
Qed.

(** Filling sends nothing. *)
Lemma reader_fill_sent r s : st_sent (snd (snd (reader_fill (r, s)))) = st_sent s.
Proof.
  unfold reader_fill. destruct (if 0 <? br_pos r then _ else _) as [r1|e| | |]; try done.
  destruct (_ <=? _) eqn:E; [done|].
  pose proof (read_sent (lenZ (br_buf r1) - br_len r1) s ltac:(blia)) as Hs.
  destruct (st_read _ s) as [[d|e| | |] s']; try done.
  destruct (write_at _ _ d); try done. by destruct (lenZ d =? 0).
Qed.

End ReaderFacts.
