(* ===== verification/HttpParse.v ===== *)
(** * Reading requests and responses (rko-util/src/http/parse.rs)

    [httparse] is a third-party crate, so its two incremental parsers are the
    interface [HttParse]; [HttParseOk] is what its documentation promises about
    the offset it returns.  The loops that fill the buffer carry fuel; the
    entry points compute enough of it from the buffer capacity and the body
    length, and [parse_request_total] shows that it is enough. *)
From Stdlib Require Import ZArith Lia Bool.
From Stdlib.Strings Require Import Byte String.
From stdpp Require Import base list option numbers.
From S2P Require Import Prelude Errors KVec Stream HttpTypes HttpReader.

(** What [Request::parse] and [Response::parse] of httparse leave behind. *)
Inductive HpStatus (R : Type) : Type :=
| HpComplete (offset : Z) (r : R)
| HpPartial
| HpError.
Arguments HpComplete {R} offset r.
Arguments HpPartial {R}.
Arguments HpError {R}.

Record HpRequest : Type := mkHpRequest {
  hp_method : option bytes; hp_path : option bytes; hp_version : option Z;
  hp_headers : list (bytes * bytes) }.
Record HpResponse : Type := mkHpResponse {
  hpr_code : option Z; hpr_version : option Z; hpr_headers : list (bytes * bytes) }.

Class HttParse := {
  hp_parse_request : bytes -> HpStatus HpRequest;
  hp_parse_response : bytes -> HpStatus HpResponse
}.

(** Documented: a complete parse reports the length of the head it consumed (a
    head is never empty). *)
Class HttParseOk (HP : HttParse) : Prop := {
  hp_req_offset d n r : hp_parse_request d = HpComplete n r -> 0 < n <= lenZ d;
  hp_resp_offset d n r : hp_parse_response d = HpComplete n r -> 0 < n <= lenZ d
}.

(** server.rs: [ServerConfig] and its default. *)
Record ServerConfig : Type := mkConfig {
  max_header_size : Z; max_body_size : Z; max_connections : Z;
  keepalive_timeout_secs : Z; max_headers : Z }.
Definition default_config : ServerConfig := mkConfig 8192 (1024 * 1024) 64 30 64.

Section Parse.
Context `{KE : KernelErrno, VA : VecAlloc, BS : ByteStream, HP : HttParse}.

(** The world of a parse: the reader, the allocator and the stream. *)
Definition PM (A : Type) : Type := M (BufReader * (ast * st)) HttpError A.

Definition pm_alloc {A} (m : M ast AllocError A) : PM A :=
  fun '(r, (a, s)) => let '(o, a') := m a in (map_err (fun _ => Internal) o, (r, (a', s))).
Definition pm_read (n : Z) : PM bytes :=
  fun '(r, (a, s)) => let '(o, s') := st_read n s in (map_err (fun _ => ConnectionClosed) o, (r, (a, s'))).
Definition pm_fill : PM Z :=
  fun '(r, (a, s)) =>
    let '(o, (r', s')) := reader_fill (r, s) in (map_err (fun _ => ConnectionClosed) o, (r', (a, s'))).
Definition pm_data : PM bytes := fun '(r, w) => (reader_data r, (r, w)).
Definition pm_consume (n : Z) : PM unit := fun '(r, w) => (Ok tt, (reader_consume n r, w)).

(** The [while remaining > 0] loop of [read_body]. *)
Fixpoint read_body_loop (fuel : nat) (remaining : Z) (body : bytes) : PM bytes :=
  if 0 <? remaining then
    match fuel with
    | O => m_lift Pending
    | S fuel' =>
        let cur_len := lenZ body in
        body <-! pm_alloc (kv_resize (Z.to_nat (wrap 64 (cur_len + remaining))) x00 body);;
        tail <-! m_lift (slice body cur_len (lenZ body));;
        d <-! pm_read (lenZ tail);;
        body <-! m_lift (write_at body cur_len d);;
        let n := lenZ d in
        if n =? 0 then m_err ConnectionClosed
        else
          body <-! pm_alloc (kv_resize (Z.to_nat (wrap 64 (cur_len + n))) x00 body);;
          read_body_loop fuel' (wrap 64 (remaining - n)) body
    end
  else m_ret body.

Definition read_body (content_length max_body : Z) : PM bytes :=
  if content_length =? 0 then m_ret []
  else if max_body <? content_length then m_err PayloadTooLarge
  else
    body <-! pm_alloc kv_with_capacity;;
    buffered <-! pm_data;;
    let from_buf := Z.min (lenZ buffered) content_length in
    part <-! m_lift (slice buffered 0 from_buf);;
    body <-! pm_alloc (kv_extend body part);;
    _ <-! pm_consume from_buf;;
    let remaining := wrap 64 (content_length - from_buf) in
    read_body_loop (Z.to_nat remaining) remaining body.

(** The loop that copies the parsed headers. *)
Fixpoint insert_headers (hs : list (bytes * bytes)) (h : Headers) : PM Headers :=
  match hs with
  | [] => m_ret h
  | (n, v) :: t => h' <-! pm_alloc (headers_insert h n v);; insert_headers t h'
  end.

(** The [Complete] arm of [parse_request]. *)
Definition request_complete (config : ServerConfig) (req : HpRequest) (body_offset : Z) : PM Request :=
  method <-! m_lift (ok_or (method_parse (default [] (hp_method req))) BadRequest);;
  path <-! pm_alloc (kv_from_slice (default (bs "/") (hp_path req)));;
  let version := version_from_httparse (default 1 (hp_version req)) in
  headers <-! insert_headers (hp_headers req) headers_new;;
  let cl := default 0 (content_length headers) in
  if max_body_size config <? cl then m_err PayloadTooLarge
  else
    _ <-! pm_consume body_offset;;
    body <-! read_body cl (max_body_size config);;
    m_ret (mkRequest method path version headers body).

(** The [Complete] arm of [parse_response]. *)
Definition response_complete (max_body : Z) (resp : HpResponse) (body_offset : Z) : PM Response :=
  let status := mkStatus (default 0 (hpr_code resp)) in
  let version := version_from_httparse (default 1 (hpr_version resp)) in
  headers <-! insert_headers (hpr_headers resp) headers_new;;
  let cl := default 0 (content_length headers) in
  _ <-! pm_consume body_offset;;
  body <-! read_body cl max_body;;
  m_ret (mkResponse status version headers body).

(** The [loop] both functions share: fill, parse what is buffered, and either
    finish, fill again or fail. *)
Fixpoint parse_loop {R A} (parse : bytes -> HpStatus R) (complete : R -> Z -> PM A)
    (max_header : Z) (fuel : nat) : PM A :=
  match fuel with
  | O => m_lift Pending
  | S fuel' =>
      _ <-! pm_fill;;
      data <-! pm_data;;
      match parse data with
      | HpComplete off req => complete req off
      | HpPartial =>
          if max_header <=? lenZ data then m_err HeaderTooLarge
          else parse_loop parse complete max_header fuel'
      | HpError => m_err BadRequest
      end
  end.

Definition parse_fuel (r : BufReader) : nat := S (length (br_buf r)).

Definition parse_request (config : ServerConfig) : PM Request :=
  fun '(r, w) =>
    parse_loop hp_parse_request (request_complete config) (max_header_size config)
      (parse_fuel r) (r, w).

Definition parse_response (max_header max_body : Z) : PM Response :=
  fun '(r, w) =>
    parse_loop hp_parse_response (response_complete max_body) max_header (parse_fuel r) (r, w).

End Parse.

(** ** Byte conservation

    [reads cap w c w']: going from [w] to [w'] the code took exactly the bytes [c]
    from the connection, in order: what was buffered or incoming before is [c]
    followed by what is buffered or incoming after, and nothing was sent. *)
Section ParseFacts.
Context `{KE : KernelErrno, VA : VecAlloc, BS : ByteStream, HP : HttParse}.
Context {BSok : ByteStreamOk BS}.

Definition reads (cap : Z) (w : BufReader * (ast * st)) (c : bytes) (w' : BufReader * (ast * st)) : Prop :=
  exists u u', reader_inv cap u (fst w) /\ reader_inv cap u' (fst w') /\
    u ++ st_incoming (snd (snd w)) = c ++ u' ++ st_incoming (snd (snd w')) /\
    st_sent (snd (snd w')) = st_sent (snd (snd w)).

Definition settled {A} (o : res HttpError A) : Prop :=
  match o with Ok _ | Err _ => True | _ => False end.

Definition world_inv (cap : Z) (w : BufReader * (ast * st)) : Prop :=
  exists u, reader_inv cap u (fst w).

Lemma reads_refl cap w : world_inv cap w -> reads cap w [] w.
Proof. intros [u Hu]. exists u, u. done. Qed.

Lemma reader_inv_unique cap u u' r : reader_inv cap u r -> reader_inv cap u' r -> u = u'.
Proof. intros [_ _ _ _ ->] [_ _ _ _ ->]. done. Qed.

Lemma reads_trans cap w c w1 c' w2 : reads cap w c w1 -> reads cap w1 c' w2 -> reads cap w (c ++ c') w2.
Proof.
  intros (u & u1 & Hu & Hu1 & He & Hs) (v & u2 & Hv & Hu2 & He2 & Hs2).
  pose proof (reader_inv_unique _ _ _ _ Hv Hu1) as ->.
  exists u, u2. split; [done|]. split; [done|]. split; [|congruence].
  rewrite He, He2. by rewrite <- app_assoc.
Qed.

Lemma reads_inv_l cap w c w' : reads cap w c w' -> world_inv cap w.
Proof. intros (u & _ & Hu & _). by exists u. Qed.
Lemma reads_inv_r cap w c w' : reads cap w c w' -> world_inv cap w'.
Proof. intros (_ & u & _ & Hu & _). by exists u. Qed.

(** [m] settles, the bytes it takes from the connection satisfy [P] with its
    result, and it conserves bytes when it fails too. *)
Definition pm_spec (cap : Z) {A} (m : PM A) (w : BufReader * (ast * st))
    (P : bytes -> A -> BufReader * (ast * st) -> Prop) : Prop :=
  exists c, reads cap w c (snd (m w)) /\
    match fst (m w) with Ok a => P c a (snd (m w)) | Err _ => True | _ => False end.

Lemma pm_spec_bind cap {A B} (m : PM A) (k : A -> PM B) w P Q :
  pm_spec cap m w P ->
  (forall a c w', P c a w' -> reads cap w c w' ->
     pm_spec cap (k a) w' (fun c' b w'' => Q (c ++ c') b w'')) ->
  pm_spec cap (m_bind m k) w Q.
Proof.
  intros (c & Hr & Hm) Hk. unfold pm_spec, m_bind.
  destruct (m w) as [[a|e| | |] w'] eqn:Em; simpl in *; try done.
  - destruct (Hk a c w' Hm Hr) as (c' & Hr' & Hk'). exists (c ++ c').
    split; [by eapply reads_trans|]. done.
  - by exists c.
Qed.

Lemma pm_spec_weaken cap {A} (m : PM A) w (P Q : bytes -> A -> BufReader * (ast * st) -> Prop) :
  (forall c a w', P c a w' -> Q c a w') -> pm_spec cap m w P -> pm_spec cap m w Q.
Proof.
  intros Hi (c & Hr & Hm). exists c. split; [done|]. destruct (fst (m w)); try done. by apply Hi.
Qed.

Lemma pm_spec_ret cap {A} (a : A) w (P : bytes -> A -> BufReader * (ast * st) -> Prop) :
  world_inv cap w -> P [] a w -> pm_spec cap (m_ret a) w P.
Proof. intros Hw HP'. exists []. split; [by apply reads_refl|done]. Qed.

Lemma pm_spec_err cap {A} e w (P : bytes -> A -> BufReader * (ast * st) -> Prop) :
  world_inv cap w -> pm_spec cap (m_err e) w P.
Proof. intros Hw. exists []. split; [by apply reads_refl|done]. Qed.

Lemma pm_spec_lift cap {A} (a : A) (o : res HttpError A) w (P : bytes -> A -> BufReader * (ast * st) -> Prop) :
  o = Ok a -> world_inv cap w -> P [] a w -> pm_spec cap (m_lift o) w P.
Proof. intros -> Hw HP'. by apply pm_spec_ret. Qed.

(** Allocation touches neither the reader nor the stream. *)
Lemma pm_spec_alloc cap {A} (m : M ast AllocError A) w x :
  world_inv cap w ->
  (forall a, exists a', m a = (Ok x, a') \/ m a = (Err AllocErr, a')) ->
  pm_spec cap (pm_alloc m) w (fun c y w' => c = [] /\ y = x /\ fst w' = fst w).
Proof.
  destruct w as [r [a s]]. intros [u Hu] Hm. unfold pm_spec, pm_alloc. exists [].
  destruct (Hm a) as [a' [-> | ->]]; simpl; (split; [exists u, u; done|done]).
Qed.

Lemma kv_resize_cases n (l : bytes) a : exists a',
  kv_resize n x00 l a = (Ok (resize n x00 l), a') \/ kv_resize n x00 l a = (Err AllocErr, a').
Proof.
  unfold kv_resize. case_bool_decide; [|apply kv_try_cases].
  exists a. left. by rewrite resize_le.
Qed.

(** A read that bypasses the buffer is in order only when the buffer is empty. *)
Lemma pm_spec_read cap n w : reader_inv cap [] (fst w) -> 0 <= n ->
  pm_spec cap (pm_read n) w (fun c d w' => c = d /\ lenZ d <= n /\ fst w' = fst w).
Proof.
  destruct w as [r [a s]]. intros Hu Hn. unfold pm_spec, pm_read.
  pose proof (read_total n s Hn) as Ht. pose proof (read_sent n s Hn) as Hs.
  destruct (st_read n s) as [[d|e| | |] s'] eqn:Er; simpl in *; try done.
  - destruct (read_ok n s d s' Hn Er) as [Hin Hd]. exists d. split; [|done].
    exists [], []. done.
  - pose proof (read_err n s e s' Hn Er) as Hin. exists []. split; [|done].
    exists [], []. simpl. by rewrite Hin.
Qed.

Lemma pm_spec_data cap u w : reader_inv cap u (fst w) ->
  pm_spec cap pm_data w (fun c d w' => c = [] /\ d = u /\ w' = w).
Proof.
  destruct w as [r w]. intros Hu. unfold pm_spec, pm_data. simpl in *.
  rewrite (reader_data_inv cap u r Hu). exists []. split; [|done]. exists u, u. done.
Qed.

Lemma pm_spec_consume cap u n w : reader_inv cap u (fst w) -> 0 <= n <= lenZ u ->
  pm_spec cap (pm_consume n) w
    (fun c _ w' => c = take (Z.to_nat n) u /\ reader_inv cap (drop (Z.to_nat n) u) (fst w')).
Proof.
  destruct w as [r w]. intros Hu Hn. unfold pm_spec, pm_consume. simpl in *.
  pose proof (reader_consume_inv cap n u r Hu Hn) as Hc.
  exists (take (Z.to_nat n) u). split; [|done]. exists u, (drop (Z.to_nat n) u).
  simpl. split; [done|]. split; [done|]. by rewrite app_assoc, take_drop.
Qed.

(** [resize] up, overwrite at the old end, [resize] down: the list with the
    received bytes appended. *)
Lemma body_append {E} (body d : bytes) remaining :
  0 < remaining -> lenZ d <= remaining -> lenZ body + remaining < 2 ^ 64 ->
  let body1 := resize (Z.to_nat (wrap 64 (lenZ body + remaining))) x00 body in
  lenZ body1 = lenZ body + remaining /\
  exists body2, @write_at E body1 (lenZ body) d = Ok body2 /\
    resize (Z.to_nat (wrap 64 (lenZ body + lenZ d))) x00 body2 = body ++ d.
Proof.
  intros Hr Hd Hmax body1. pose proof (lenZ_nonneg body) as Hb0. pose proof (lenZ_nonneg d) as Hd0.
  assert (lenZ body1 = lenZ body + remaining) as Hl1.
  { subst body1. unfold lenZ at 1. rewrite length_resize, wrap_small by lia. lia. }
  split; [done|]. unfold write_at. rewrite slice_ok by lia. cbn [res_bind].
  destruct (_ <=? _) eqn:E1.
  2: { unfold lenZ in E1. rewrite length_take, length_drop in E1. unfold lenZ in *. zify_bools. lia. }
  eexists. split; [done|].
  assert (take (Z.to_nat (lenZ body)) body1 = body) as ->.
  { subst body1. rewrite wrap_small by lia. rewrite resize_ge by (unfold lenZ; lia).
    replace (Z.to_nat (lenZ body)) with (length body) by (unfold lenZ; lia).
    by rewrite take_app_length. }
  rewrite wrap_small by lia. rewrite resize_le.
  - rewrite app_assoc. rewrite take_app_le by (rewrite length_app; unfold lenZ; lia).
    apply take_ge. rewrite length_app. unfold lenZ. lia.
  - rewrite !length_app. unfold lenZ. lia.
Qed.

(** The loop reads exactly the bytes that are missing, straight from the stream. *)
Lemma read_body_loop_spec cap fuel remaining body w :
  reader_inv cap [] (fst w) -> 0 <= remaining <= Z.of_nat fuel ->
  lenZ body + remaining < 2 ^ 64 ->
  pm_spec cap (read_body_loop fuel remaining body) w
    (fun c b _ => b = body ++ c /\ lenZ c = remaining).
Proof.
  revert remaining body w. induction fuel as [|fuel IH]; intros remaining body w Hu Hrem Hmax.
  - assert (remaining = 0) as -> by lia. apply pm_spec_ret; [by exists []|]. by rewrite app_nil_r.
  - cbn [read_body_loop]. destruct (0 <? remaining) eqn:Epos; zify_bools.
    2: { assert (remaining = 0) as -> by lia. apply pm_spec_ret; [by exists []|]. by rewrite app_nil_r. }
    eapply pm_spec_bind. { apply pm_spec_alloc; [by exists []|apply kv_resize_cases]. }
    intros body1 c1 w1 (-> & -> & Hw1) _. rewrite <- Hw1 in Hu.
    pose proof (lenZ_nonneg body) as Hb0.
    destruct (body_append (E := HttpError) body [] remaining ltac:(lia) ltac:(rewrite lenZ_nil; lia) Hmax)
      as [Hl1 _].
    eapply (pm_spec_bind _ _ _ _ (fun c t w' => c = [] /\ lenZ t = remaining /\ w' = w1)).
    { eapply pm_spec_lift; [apply slice_ok; lia|by exists []|].
      split; [done|]. split; [|done]. unfold lenZ at 1. rewrite length_take, length_drop.
      unfold lenZ in *. lia. }
    intros tl c2 w2 (-> & Htl & ->) _.
    eapply pm_spec_bind. { apply pm_spec_read; [done|lia]. }
    intros d c3 w3 (-> & Hd & Hw3) _. rewrite <- Hw3 in Hu. pose proof (lenZ_nonneg d) as Hd0.
    destruct (body_append (E := HttpError) body d remaining ltac:(lia) ltac:(lia) Hmax)
      as (_ & body2 & Hwr & Hre).
    eapply (pm_spec_bind _ _ _ _ (fun c b w' => c = [] /\ b = body2 /\ w' = w3)).
    { eapply pm_spec_lift; [exact Hwr|by exists []|done]. }
    intros b2 c4 w4 (-> & -> & ->) _.
    destruct (lenZ d =? 0) eqn:Ed; [apply pm_spec_err; by exists []|]. zify_bools.
    eapply pm_spec_bind. { apply pm_spec_alloc; [by exists []|apply kv_resize_cases]. }
    intros b3 c5 w5 (-> & -> & Hw5) _. rewrite <- Hw5 in Hu. rewrite Hre.
    rewrite wrap_small by lia. eapply pm_spec_weaken; [|apply IH; [done|lia|rewrite lenZ_app; lia]].
    intros c b w' [-> Hc]. cbn [app]. rewrite <- app_assoc. split; [done|].
    rewrite !lenZ_app, ?lenZ_nil. lia.
Qed.

(** [read_body] takes exactly the declared number of bytes. *)
Lemma read_body_spec cap cl max w : world_inv cap w -> 0 <= cl < 2 ^ 64 ->
  pm_spec cap (read_body cl max) w (fun c b _ => c = b /\ lenZ b = cl /\ (cl = 0 \/ cl <= max)).
Proof.
  intros [u Hu] Hcl. unfold read_body. destruct (cl =? 0) eqn:E0; zify_bools.
  { subst cl. apply pm_spec_ret; [by exists u|]. auto. }
  destruct (max <? cl) eqn:Em; zify_bools; [apply pm_spec_err; by exists u|].
  eapply pm_spec_bind. { apply pm_spec_alloc; [by exists u|apply kv_try_cases]. }
  intros b0 c0 w0 (-> & -> & Hw0) _. rewrite <- Hw0 in Hu.
  eapply pm_spec_bind. { by apply pm_spec_data. }
  intros buf c1 w1 (-> & -> & ->) _. pose proof (lenZ_nonneg u) as Hu0.
  eapply (pm_spec_bind _ _ _ _ (fun c p w' => c = [] /\ p = take (Z.to_nat (Z.min (lenZ u) cl)) u /\ w' = w0)).
  { eapply pm_spec_lift; [apply slice_ok; lia|by exists u|].
    by rewrite Z.sub_0_r. }
  intros p c2 w2 (-> & -> & ->) _.
  eapply pm_spec_bind. { apply pm_spec_alloc; [by exists u|apply kv_try_cases]. }
  intros b1 c3 w3 (-> & -> & Hw3) _. rewrite <- Hw3 in Hu.
  eapply pm_spec_bind. { apply (pm_spec_consume cap u); [done|lia]. }
  intros _ c4 w4 (-> & Hu4) _. rewrite app_nil_l.
  destruct (decide (lenZ u < cl)) as [Hlt|Hge].
  - rewrite Z.min_l in * by lia.
    rewrite (drop_ge u) in Hu4 by (unfold lenZ; lia). rewrite (take_ge u) by (unfold lenZ; lia).
    rewrite wrap_small by lia. eapply pm_spec_weaken; [|apply read_body_loop_spec; [done|lia|lia]].
    intros c b w' [-> Hc]. rewrite !app_nil_l. split; [done|]. rewrite lenZ_app. lia.
  - rewrite Z.min_r in * by lia. rewrite Z.sub_diag. change (wrap 64 0) with 0.
    apply pm_spec_ret; [by eexists|]. rewrite !app_nil_l, app_nil_r. split; [done|].
    split; [|lia]. unfold lenZ. rewrite length_take. unfold lenZ in *. lia.
Qed.

Lemma insert_headers_spec cap hs h w : world_inv cap w ->
  pm_spec cap (insert_headers hs h) w (fun c h' w' => c = [] /\ h' = h ++ hs /\ fst w' = fst w).
Proof.
  revert h w. induction hs as [|[n v] hs IH]; intros h w Hw; cbn [insert_headers].
  - apply pm_spec_ret; [done|]. by rewrite app_nil_r.
  - eapply pm_spec_bind. { apply pm_spec_alloc; [done|apply headers_insert_cases]. }
    intros h1 c1 w1 (-> & -> & Hw1) Hr. eapply pm_spec_weaken; [|apply IH; by eapply reads_inv_r].
    intros c h' w' (-> & -> & Hw'). rewrite <- app_assoc. split; [done|]. split; [done|congruence].
Qed.

Lemma content_length_range h n : content_length h = Some n -> 0 <= n < 2 ^ 64.
Proof.
  unfold content_length. intros H. apply bind_Some in H as (v & _ & H).
  destruct (utf8_valid v); [|done].
  assert (forall l acc n, 0 <= acc < 2 ^ 64 -> parse_digits l acc = Some n -> 0 <= n < 2 ^ 64) as Hd.
  { clear. induction l as [|b l IH]; intros acc n Hacc H; cbn in H; [by simplify_eq|].
    apply bind_Some in H as (d & Hd & H). apply bind_Some in H as (m & Hm & H).
    apply bind_Some in H as (a & Ha & H). eapply IH; [|exact H].
    unfold u_checked_mul, u_checked_add, digit_of in *.
    repeat case_match; simplify_eq; zify_bools; lia. }
  unfold parse_usize in H. destruct v as [|b v]; [done|]. case_bool_decide.
  - destruct v; [done|]. eapply Hd; [|exact H]; lia.
  - eapply Hd; [|exact H]; lia.
Qed.

Lemma cl_default_range h : 0 <= default 0 (content_length h) < 2 ^ 64.
Proof.
  destruct (content_length h) eqn:E; simpl; [by eapply content_length_range|lia].
Qed.

(** The two [Complete] arms, with the head still in the buffer. *)
Lemma request_complete_spec cap config req off u w :
  reader_inv cap u (fst w) -> 0 <= off <= lenZ u ->
  pm_spec cap (request_complete config req off) w
    (fun c r _ => exists body, c = take (Z.to_nat off) u ++ body /\
       method_parse (default [] (hp_method req)) = Some (req_method r) /\
       r = mkRequest (req_method r) (default (bs "/") (hp_path req))
             (version_from_httparse (default 1 (hp_version req))) (hp_headers req) body /\
       lenZ body = default 0 (content_length (hp_headers req)) /\
       (body = [] \/ lenZ body <= max_body_size config)).
Proof.
  intros Hu Hoff. unfold request_complete.
  destruct (method_parse _) as [m|] eqn:Em; [|apply pm_spec_err; by exists u].
  eapply (pm_spec_bind _ _ _ _ (fun c a w' => c = [] /\ a = m /\ w' = w)).
  { eapply pm_spec_lift; [done|by exists u|done]. }
  intros a c w0 (-> & -> & ->) _.
  eapply pm_spec_bind. { apply pm_spec_alloc; [by exists u|apply kv_try_cases]. }
  intros p c w1 (-> & -> & Hw1) _. rewrite <- Hw1 in Hu.
  eapply pm_spec_bind. { apply insert_headers_spec. by exists u. }
  intros h c w2 (-> & -> & Hw2) _. rewrite <- Hw2 in Hu. cbn [app].
  destruct (_ <? _) eqn:Emax; [apply pm_spec_err; by exists u|]. zify_bools.
  eapply pm_spec_bind. { by apply (pm_spec_consume cap u). }
  intros _ c w3 (-> & Hu3) _.
  eapply pm_spec_bind. { apply read_body_spec; [by eexists|apply cl_default_range]. }
  intros b c w4 (-> & Hb & Hmax) Hr4. apply pm_spec_ret; [by eapply reads_inv_r|].
  exists b. rewrite app_nil_r. simpl. split; [done|]. split; [done|]. split; [done|]. split; [done|].
  right. unfold headers_new in *. simpl in *. lia.
Qed.

Lemma response_complete_spec cap max resp off u w :
  reader_inv cap u (fst w) -> 0 <= off <= lenZ u ->
  pm_spec cap (response_complete max resp off) w
    (fun c r _ => exists body, c = take (Z.to_nat off) u ++ body /\
       r = mkResponse (mkStatus (default 0 (hpr_code resp)))
             (version_from_httparse (default 1 (hpr_version resp))) (hpr_headers resp) body /\
       lenZ body = default 0 (content_length (hpr_headers resp)) /\
       (body = [] \/ lenZ body <= max)).
Proof.
  intros Hu Hoff. unfold response_complete.
  eapply pm_spec_bind. { apply insert_headers_spec. by exists u. }
  intros h c w2 (-> & -> & Hw2) _. rewrite <- Hw2 in Hu. cbn [app].
  eapply pm_spec_bind. { by apply (pm_spec_consume cap u). }
  intros _ c w3 (-> & Hu3) _.
  eapply pm_spec_bind. { apply read_body_spec; [by eexists|apply cl_default_range]. }
  intros b c w4 (-> & Hb & Hmax) Hr4. apply pm_spec_ret; [by eapply reads_inv_r|].
  exists b. rewrite app_nil_r. split; [done|]. split; [done|]. split; [done|].
  destruct Hmax as [H0|H0]; [left; apply lenZ_0; congruence|right; lia].
Qed.

Lemma pm_spec_fill cap u w : reader_inv cap u (fst w) ->
  pm_spec cap pm_fill w (fun c _ w' => c = [] /\
    exists d, d <> [] /\ lenZ u < cap /\ reader_inv cap (u ++ d) (fst w')).
Proof.
  destruct w as [r [a s]]. intros Hu. unfold pm_spec, pm_fill.
  pose proof (reader_fill_sent r s) as Hs. pose proof (reader_fill_spec cap u r s Hu) as Hf.
  destruct (reader_fill (r, s)) as [o [r' s']]. simpl in *.
  inversion Hf as [r1 Hc Hi|e r1 s1 Hc Hi Hin|r1 s1 Hc Hi Hin|d r1 s1 Hc Hd Hi Hin];
    subst; simpl; exists []; (split; [|by eauto 10]).
  - exists u, u. done.
  - exists u, u. simpl. by rewrite Hin.
  - exists u, u. simpl. by rewrite Hin.
  - exists u, (u ++ d). simpl. rewrite Hin. by rewrite <- app_assoc.
Qed.

Section Loop.
Context {R A : Type} (parse : bytes -> HpStatus R) (complete : R -> Z -> PM A) (max_header : Z).
Context (cap : Z) (Q : R -> Z -> bytes -> bytes -> A -> BufReader * (ast * st) -> Prop).
Hypothesis parse_offset : forall d n r, parse d = HpComplete n r -> 0 < n <= lenZ d.
Hypothesis complete_spec : forall r off u w,
  reader_inv cap u (fst w) -> 0 <= off <= lenZ u -> pm_spec cap (complete r off) w (Q r off u).

Lemma parse_loop_spec fuel u w : reader_inv cap u (fst w) -> cap - lenZ u < Z.of_nat fuel ->
  pm_spec cap (parse_loop parse complete max_header fuel) w
    (fun c a w' => exists d off r, parse d = HpComplete off r /\ Q r off d c a w').
Proof.
  revert u w. induction fuel as [|fuel IH]; intros u w Hu Hf.
  { exfalso. pose proof (reader_inv_length _ _ _ Hu). destruct Hu. lia. }
  cbn [parse_loop]. eapply pm_spec_bind. { by apply pm_spec_fill. }
  intros _ c w1 (-> & d & Hd & Hlt & Hu1) _.
  eapply pm_spec_bind. { by apply pm_spec_data. }
  intros _ c w2 (-> & -> & ->) _. cbn [app].
  destruct (parse (u ++ d)) as [off r| |] eqn:Ep.
  - eapply pm_spec_weaken; [|apply complete_spec; [done|apply parse_offset in Ep; lia]].
    intros c a w' HQ. eauto 10.
  - destruct (max_header <=? lenZ (u ++ d)); [apply pm_spec_err; by eexists|].
    apply (IH (u ++ d)); [done|]. rewrite lenZ_app.
    assert (lenZ d <> 0) by (intros H0; apply lenZ_0 in H0; done). pose proof (lenZ_nonneg d). lia.
  - apply pm_spec_err. by eexists.
Qed.

End Loop.

Lemma parse_fuel_enough cap u (w : BufReader * (ast * st)) :
  reader_inv cap u (fst w) -> cap - lenZ u < Z.of_nat (parse_fuel (fst w)).
Proof.
  intros [Hp Hl Hc Hm _]. unfold parse_fuel. unfold lenZ in *. lia.
Qed.

Context {HPok : HttParseOk HP}.

(** What a parsed request has to do with the bytes [c] that were taken. *)
Definition request_from (config : ServerConfig) (c : bytes) (r : Request) : Prop :=
  exists d off hr,
    hp_parse_request d = HpComplete off hr /\ 0 < off <= lenZ d /\
    c = take (Z.to_nat off) d ++ req_body r /\
    method_parse (default [] (hp_method hr)) = Some (req_method r) /\
    req_path r = default (bs "/") (hp_path hr) /\
    req_version r = version_from_httparse (default 1 (hp_version hr)) /\
    req_headers r = hp_headers hr /\
    lenZ (req_body r) = default 0 (content_length (hp_headers hr)) /\
    (req_body r = [] \/ lenZ (req_body r) <= max_body_size config).

Lemma parse_request_spec cap config w : world_inv cap w ->
  pm_spec cap (parse_request config) w (fun c r _ => request_from config c r).
Proof.
  intros [u Hu]. unfold parse_request. destruct w as [r [a s]].
  eapply pm_spec_weaken; [|apply (parse_loop_spec hp_parse_request (request_complete config)
    (max_header_size config) cap _ hp_req_offset (request_complete_spec cap config) (parse_fuel r) u
    (r, (a, s)) Hu (parse_fuel_enough cap u (r, (a, s)) Hu))].
  intros c q w' (d & off & hr & Hp & body & -> & Hm & -> & Hb & Hmax).
  exists d, off, hr. pose proof (hp_req_offset d off hr Hp). done.
Qed.

(** C8. Reading a request is total and conserves the connection's bytes, whatever
    the peer sends, the allocator does and the socket reports: [parse_request]
    never panics and never runs out of fuel; the reader's cursors stay in
    bounds; it takes a contiguous run of bytes off the front of the connection
    and sends nothing; and when it succeeds that run is exactly one message: the
    head [httparse] accepted followed by a body of the declared length, at most
    [max_body_size], with the request's fields those of the head
    ([request_from]). *)
Theorem parse_request_total (cap : Z) (config : ServerConfig) (w : BufReader * (ast * st)) :
  world_inv cap w ->
  let '(o, w') := parse_request config w in
  exists c, reads cap w c w' /\
    match o with
    | Ok r => request_from config c r
    | Err _ => True
    | _ => False
    end.
Proof.
  intros Hw. destruct (parse_request_spec cap config w Hw) as (c & Hr & Ho).
  destruct (parse_request config w) as [o w']. by exists c.
Qed.

(** The same for responses on the client's side. *)
Theorem parse_response_total (cap max_header max_body : Z) (w : BufReader * (ast * st)) :
  world_inv cap w ->
  let '(o, w') := parse_response max_header max_body w in
  exists c, reads cap w c w' /\
    match o with
    | Ok r => exists d off hr,
        hp_parse_response d = HpComplete off hr /\
        c = take (Z.to_nat off) d ++ resp_body r /\
        as_u16 (resp_status r) = default 0 (hpr_code hr) /\
        resp_headers r = hpr_headers hr /\
        lenZ (resp_body r) = default 0 (content_length (hpr_headers hr)) /\
        (resp_body r = [] \/ lenZ (resp_body r) <= max_body)
    | Err _ => True
    | _ => False
    end.
Proof.
  intros [u Hu]. unfold parse_response. destruct w as [r [a s]].
  pose proof (parse_loop_spec hp_parse_response (response_complete max_body) max_header cap
    _ hp_resp_offset (response_complete_spec cap max_body) (parse_fuel r) u (r, (a, s)) Hu
    (parse_fuel_enough cap u (r, (a, s)) Hu)) as (c & Hr & Ho).
  destruct (parse_loop _ _ _ _ _) as [o w']. exists c. split; [done|].
  destruct o as [q| | | |]; try done. simpl in Ho.
  destruct Ho as (d & off & hr & Hp & body & -> & -> & Hb & Hmax).
  exists d, off, hr. done.
Qed.

End ParseFacts.

(** ** Reassembly on a connection without faults *)
Section Live.
Context `{KE : KernelErrno, VA : VecAlloc, BS : ByteStream, HP : HttParse}.
Context {BSok : ByteStreamOk BS} {BSlive : ByteStreamLive BS} {Hgrants : AlwaysGrants VA}.

(** [m] succeeds from [w]. *)
Definition pm_succeeds {A} (m : PM A) (w : BufReader * (ast * st)) (P : A -> BufReader * (ast * st) -> Prop) : Prop :=
  exists a w', m w = (Ok a, w') /\ P a w'.

Lemma pm_succeeds_bind {A B} (m : PM A) (k : A -> PM B) w P Q :
  pm_succeeds m w P -> (forall a w', P a w' -> pm_succeeds (k a) w' Q) -> pm_succeeds (m_bind m k) w Q.
Proof.
  intros (a & w' & He & Ha) Hk. destruct (Hk a w' Ha) as (b & w'' & He' & Hb).
  exists b, w''. unfold m_bind. by rewrite He.
Qed.

Lemma pm_succeeds_alloc {A} (m : M ast AllocError A) x r a s :
  (forall a, exists a', m a = (Ok x, a')) ->
  pm_succeeds (pm_alloc m) (r, (a, s)) (fun y w' => y = x /\ exists a', w' = (r, (a', s))).
Proof.
  intros Hm. destruct (Hm a) as [a' He]. exists x, (r, (a', s)). unfold pm_alloc. rewrite He. eauto.
Qed.

Lemma kv_resize_granted n (l : bytes) a : exists a', kv_resize n x00 l a = (Ok (resize n x00 l), a').
Proof.
  unfold kv_resize. case_bool_decide; [|apply kv_try_granted]. exists a. by rewrite resize_le.
Qed.

(** The body loop gets its bytes when they are on their way. *)
Lemma read_body_loop_live cap fuel remaining body r a s :
  reader_inv cap [] r -> 0 <= remaining <= Z.of_nat fuel -> lenZ body + remaining < 2 ^ 64 ->
  remaining <= lenZ (st_incoming s) ->
  exists b w', read_body_loop fuel remaining body (r, (a, s)) = (Ok b, w').
Proof.
  revert remaining body a s. induction fuel as [|fuel IH]; intros remaining body a s Hu Hrem Hmax Hin.
  - assert (remaining = 0) as -> by lia. do 2 eexists. done.
  - cbn [read_body_loop]. destruct (0 <? remaining) eqn:Epos; [|do 2 eexists; done]. zify_bools.
    destruct (body_append (E := HttpError) body [] remaining ltac:(lia) ltac:(rewrite lenZ_nil; lia) Hmax) as [Hl1 _].
    pose proof (lenZ_nonneg body) as Hb0.
    destruct (pm_succeeds_alloc (kv_resize (Z.to_nat (wrap 64 (lenZ body + remaining))) x00 body)
      _ r a s (kv_resize_granted _ _)) as (x & w1 & He1 & -> & a1 & ->).
    unfold m_bind at 1. rewrite He1. unfold m_bind at 1, m_lift at 1. rewrite slice_ok by lia.
    remember (lenZ (take _ (drop _ _))) as n eqn:En.
    assert (n = remaining) as ->.
    { rewrite En. unfold lenZ at 1. rewrite length_take, length_drop. unfold lenZ in *. lia. }
    clear En. unfold m_bind at 1, pm_read at 1.
    destruct (read_live remaining s Epos) as (d & s' & Hrd & Hd); [intros H0; rewrite H0, lenZ_nil in Hin; lia|].
    rewrite Hrd. simpl map_err. destruct (read_ok remaining s d s' ltac:(lia) Hrd) as [Hsplit Hdl].
    destruct (body_append (E := HttpError) body d remaining ltac:(lia) Hdl Hmax) as (_ & body2 & Hwr & Hre).
    unfold m_bind at 1, m_lift at 1. rewrite Hwr.
    assert (lenZ d <> 0) as Hd0 by (intros H0; apply lenZ_0 in H0; done).
    pose proof (lenZ_nonneg d). destruct (lenZ d =? 0) eqn:E0; [blia|].
    destruct (pm_succeeds_alloc (kv_resize (Z.to_nat (wrap 64 (lenZ body + lenZ d))) x00 body2)
      _ r a1 s' (kv_resize_granted _ _)) as (x & w2 & He2 & -> & a2 & ->).
    unfold m_bind at 1. rewrite He2, Hre. rewrite wrap_small by lia.
    apply IH; [done|lia|rewrite lenZ_app; lia|]. rewrite Hsplit, lenZ_app in Hin. lia.
Qed.

Lemma read_body_live cap cl max u r a s :
  reader_inv cap u r -> 0 <= cl < 2 ^ 64 -> cl <= max -> cl <= lenZ (u ++ st_incoming s) ->
  exists b w', read_body cl max (r, (a, s)) = (Ok b, w').
Proof.
  intros Hu Hcl Hmax Hav. unfold read_body. destruct (cl =? 0) eqn:E0; [do 2 eexists; done|].
  destruct (max <? cl) eqn:Em; [blia|]. rewrite lenZ_app in Hav. pose proof (lenZ_nonneg u) as Hu0.
  destruct (pm_succeeds_alloc (kv_with_capacity (T := byte)) [] r a s (kv_try_granted _))
    as (x & w1 & He1 & -> & a1 & ->).
  unfold m_bind at 1. rewrite He1. unfold m_bind at 1, pm_data at 1.
  rewrite (reader_data_inv cap u r Hu). unfold m_bind at 1, m_lift at 1.
  rewrite slice_ok by (zify_bools; lia).
  destruct (pm_succeeds_alloc (kv_extend (T := byte) [] (take (Z.to_nat (Z.min (lenZ u) cl - 0)) (drop (Z.to_nat 0) u)))
    _ r a1 s (kv_try_granted _)) as (x & w2 & He2 & -> & a2 & ->).
  unfold m_bind at 1. rewrite He2. unfold m_bind at 1, pm_consume at 1.
  pose proof (reader_consume_inv cap (Z.min (lenZ u) cl) u r Hu ltac:(lia)) as Hc.
  rewrite wrap_small by lia.
  destruct (decide (lenZ u < cl)) as [Hlt|Hge].
  - rewrite Z.min_l in * by lia. rewrite drop_ge in Hc by (unfold lenZ; lia).
    eapply read_body_loop_live; [done|lia| |lia].
    rewrite app_nil_l, Z.sub_0_r, drop_0. rewrite take_ge by (unfold lenZ; lia). lia.
  - rewrite Z.min_r in * by lia. rewrite Z.sub_diag. do 2 eexists. done.
Qed.

Lemma insert_headers_live hs h r a s : exists a', insert_headers hs h (r, (a, s)) = (Ok (h ++ hs), (r, (a', s))).
Proof.
  revert h a. induction hs as [|[n v] hs IH]; intros h a; cbn [insert_headers].
  - exists a. by rewrite app_nil_r.
  - destruct (pm_succeeds_alloc (headers_insert h n v) _ r a s (headers_insert_granted h n v))
      as (x & w1 & He & -> & a1 & ->).
    unfold m_bind. rewrite He. destruct (IH (h ++ [(n, v)]) a1) as [a' He']. exists a'.
    rewrite He'. by rewrite <- app_assoc.
Qed.

Lemma request_complete_live cap config hr m u r a s off :
  reader_inv cap u r -> 0 <= off <= lenZ u ->
  method_parse (default [] (hp_method hr)) = Some m ->
  default 0 (content_length (hp_headers hr)) <= max_body_size config ->
  off + default 0 (content_length (hp_headers hr)) <= lenZ (u ++ st_incoming s) ->
  exists q w', request_complete config hr off (r, (a, s)) = (Ok q, w').
Proof.
  intros Hu Hoff Hm Hmax Hav. unfold request_complete. rewrite Hm.
  unfold m_bind at 1, m_lift at 1, ok_or at 1.
  destruct (pm_succeeds_alloc (kv_from_slice (default (bs "/") (hp_path hr))) _ r a s (kv_try_granted _))
    as (x & w1 & He & -> & a1 & ->).
  unfold m_bind at 1. rewrite He. unfold m_bind at 1.
  destruct (insert_headers_live (hp_headers hr) headers_new r a1 s) as [a2 He2].
  rewrite He2. cbn [app headers_new]. destruct (_ <? _) eqn:E; [blia|].
  unfold m_bind at 1, pm_consume at 1.
  destruct (read_body_live cap (default 0 (content_length (hp_headers hr))) (max_body_size config)
    (drop (Z.to_nat off) u) (reader_consume off r) a2 s) as (b & w' & Hb).
  - by apply reader_consume_inv.
  - apply cl_default_range.
  - done.
  - rewrite lenZ_app in *. unfold lenZ at 1. rewrite length_drop. unfold lenZ in *. lia.
  - unfold m_bind. rewrite Hb. do 2 eexists. done.
Qed.

Lemma response_complete_live cap max hr u r a s off :
  reader_inv cap u r -> 0 <= off <= lenZ u ->
  default 0 (content_length (hpr_headers hr)) <= max ->
  off + default 0 (content_length (hpr_headers hr)) <= lenZ (u ++ st_incoming s) ->
  exists q w', response_complete max hr off (r, (a, s)) = (Ok q, w').
Proof.
  intros Hu Hoff Hmax Hav. unfold response_complete. unfold m_bind at 1.
  destruct (insert_headers_live (hpr_headers hr) headers_new r a s) as [a2 He2].
  rewrite He2. cbn [app headers_new]. unfold m_bind at 1, pm_consume at 1.
  destruct (read_body_live cap (default 0 (content_length (hpr_headers hr))) max
    (drop (Z.to_nat off) u) (reader_consume off r) a2 s) as (b & w' & Hb).
  - by apply reader_consume_inv.
  - apply cl_default_range.
  - done.
  - rewrite lenZ_app in *. unfold lenZ at 1. rewrite length_drop. unfold lenZ in *. lia.
  - unfold m_bind. rewrite Hb. do 2 eexists. done.
Qed.

(** A call whose first fill cannot add a byte fails, whatever is buffered. *)
Lemma parse_request_stuck cap config u r a s : reader_inv cap u r -> lenZ u = cap \/ st_incoming s = [] ->
  fst (parse_request config (r, (a, s))) = Err ConnectionClosed.
Proof.
  intros Hu Hin. unfold parse_request, parse_fuel. cbn [parse_loop]. unfold m_bind at 1, pm_fill at 1.
  pose proof (reader_fill_spec cap u r s Hu) as Hf. destruct (reader_fill (r, s)) as [o [rd1 s1]].
  inversion Hf as [r2 Hc Hi|e r2 s2 Hc Hi Hin2 Hr2|r2 s2 Hc Hi Hin2 Hr2|d r2 s2 Hc Hd Hi Hin2]; subst; try done.
  destruct Hin as [|Hin]; [lia|]. rewrite Hin in Hin2. symmetry in Hin2. apply app_nil in Hin2 as [-> _]. done.
Qed.

(** Unread bytes shorter than the head leave room in the buffer and bytes to come. *)
Lemma short_fillable (u head tail inc : bytes) cap : u ++ inc = head ++ tail ->
  lenZ u < lenZ head -> lenZ head <= cap -> lenZ u < cap /\ inc <> [].
Proof.
  intros Heq Hlt Hcap. split; [lia|]. intros ->. rewrite app_nil_r in Heq. apply (f_equal lenZ) in Heq.
  rewrite lenZ_app in Heq. pose proof (lenZ_nonneg tail). lia.
Qed.

(** A connection that carries [head] next: the loop reaches the [Complete] arm
    with the head in the buffer, however the bytes are cut into reads. *)
Lemma parse_loop_live {R A} (parse : bytes -> HpStatus R) (complete : R -> Z -> PM A)
    cap max_header fuel head tail hr u r a s :
  (forall x, parse (head ++ x) = HpComplete (lenZ head) hr) ->
  (forall p, p `prefix_of` head -> p <> head -> parse p = HpPartial) ->
  reader_inv cap u r -> u ++ st_incoming s = head ++ tail ->
  lenZ u < cap -> st_incoming s <> [] -> lenZ head <= cap -> lenZ head <= max_header ->
  cap - lenZ u < Z.of_nat fuel ->
  exists x r' s', reader_inv cap (head ++ x) r' /\ x ++ st_incoming s' = tail /\
    st_sent s' = st_sent s /\
    parse_loop parse complete max_header fuel (r, (a, s)) = complete hr (lenZ head) (r', (a, s')).
Proof.
  intros Hcomp Hpart. revert u r s.
  induction fuel as [|fuel IH]; intros u r s Hu Heq Hlt Hne Hcap Hmh Hf; [lia|].
  cbn [parse_loop]. unfold m_bind at 1, pm_fill at 1.
  pose proof (reader_fill_sent r s) as Hsent. pose proof (reader_fill_spec cap u r s Hu) as Hfill.
  destruct (read_live (cap - lenZ u) s ltac:(lia) Hne) as (d0 & s0 & Hrd & Hd0).
  destruct (reader_fill (r, s)) as [o [r1 s1]]. simpl in Hsent.
  inversion Hfill as [r2 Hc Hi|e r2 s2 Hc Hi Hin Hr2|r2 s2 Hc Hi Hin Hr2|d r2 s2 Hc Hd Hi Hin];
    subst; [lia|congruence|congruence|].
  simpl map_err. cbn iota beta. unfold m_bind at 1, pm_data at 1.
  rewrite (reader_data_inv cap (u ++ d) r1 Hi). rewrite Hin, app_assoc in Heq.
  assert (lenZ d <> 0) as Hdz by (intros H0; apply lenZ_0 in H0; done). pose proof (lenZ_nonneg d).
  apply app_eq_inv in Heq as [(k & Hk & Htail)|(k & Hk & Htail)].
  - rewrite Hk, Hcomp in *. exists k, r1, s1. done.
  - destruct k as [|b k].
    + rewrite app_nil_r in Hk. subst head. pose proof (Hcomp []) as Hc0. rewrite app_nil_r in Hc0. rewrite Hc0.
      exists [], r1, s1. rewrite app_nil_r. done.
    + rewrite Hpart; [|by exists (b :: k)|].
      2: { intros H0. rewrite <- H0 in Hk. apply (f_equal length) in Hk.
           rewrite !length_app in Hk. simpl in Hk. lia. }
      assert (lenZ (u ++ d) < lenZ head) as Hshort.
      { rewrite Hk. rewrite (lenZ_app (u ++ d)), lenZ_cons. pose proof (lenZ_nonneg k). lia. }
      destruct (_ <=? _) eqn:E; [blia|]. rewrite <- Hsent.
      apply (IH (u ++ d)); try done; [by rewrite Htail, Hk, <- !app_assoc|lia| |rewrite lenZ_app; lia].
      by rewrite Htail.
Qed.

Lemma parse_request_live (cap : Z) (config : ServerConfig) (head body rest u : bytes)
    (hr : HpRequest) (m : Method) (r : BufReader) (a : ast) (s : st) :
  (forall x, hp_parse_request (head ++ x) = HpComplete (lenZ head) hr) ->
  (forall p, p `prefix_of` head -> p <> head -> hp_parse_request p = HpPartial) ->
  method_parse (default [] (hp_method hr)) = Some m ->
  default 0 (content_length (hp_headers hr)) = lenZ body ->
  lenZ body <= max_body_size config ->
  lenZ head <= cap -> lenZ head <= max_header_size config ->
  reader_inv cap u r -> lenZ u < cap -> st_incoming s <> [] ->
  u ++ st_incoming s = head ++ body ++ rest ->
  exists r' a' s' u',
    parse_request config (r, (a, s)) =
      (Ok (mkRequest m (default (bs "/") (hp_path hr))
             (version_from_httparse (default 1 (hp_version hr))) (hp_headers hr) body),
       (r', (a', s'))) /\
    reader_inv cap u' r' /\ u' ++ st_incoming s' = rest /\ st_sent s' = st_sent s.
Proof.
  intros Hcomp Hpart Hm Hcl Hmax Hcap Hmh Hu Hlt Hne Heq.
  destruct (parse_loop_live hp_parse_request (request_complete config) cap (max_header_size config)
    (parse_fuel r) head (body ++ rest) hr u r a s Hcomp Hpart Hu Heq Hlt Hne Hcap Hmh)
    as (x & r1 & s1 & Hu1 & Htail & Hsent & Hrun).
  { apply (parse_fuel_enough cap u (r, (a, s)) Hu). }
  unfold parse_request. rewrite Hrun. pose proof (lenZ_nonneg head) as Hh0.
  assert (0 <= lenZ head <= lenZ (head ++ x)) as Hoff by (rewrite lenZ_app; pose proof (lenZ_nonneg x); lia).
  destruct (request_complete_live cap config hr m (head ++ x) r1 a s1 (lenZ head) Hu1 Hoff Hm)
    as (q & w' & Hq).
  { lia. }
  { rewrite <- app_assoc, Htail, Hcl, !lenZ_app. pose proof (lenZ_nonneg rest). lia. }
  destruct (request_complete_spec cap config hr (lenZ head) (head ++ x) (r1, (a, s1)) Hu1 Hoff)
    as (c & (v & u' & Hv & Hu' & Hbytes & Hs') & Hpost).
  rewrite Hq in *. simpl in *. destruct Hpost as (body' & -> & Hm' & -> & Hb' & _). simpl in *.
  rewrite Hm in Hm'. injection Hm' as <-.
  pose proof (reader_inv_unique _ _ _ _ Hv Hu1) as ->.
  replace (Z.to_nat (lenZ head)) with (length head) in Hbytes by (unfold lenZ; lia).
  rewrite take_app_length, <- !app_assoc, Htail in Hbytes. apply app_inv_head in Hbytes.
  destruct w' as [r' [a' s']]. simpl in *.
  apply app_inj_1 in Hbytes as [<- Hrest]; [|unfold lenZ in *; lia].
  exists r', a', s', u'. split; [done|]. split; [done|]. split; [done|congruence].
Qed.

Lemma parse_response_live (cap max_header max_body : Z) (head body rest u : bytes)
    (hr : HpResponse) (r : BufReader) (a : ast) (s : st) :
  (forall x, hp_parse_response (head ++ x) = HpComplete (lenZ head) hr) ->
  (forall p, p `prefix_of` head -> p <> head -> hp_parse_response p = HpPartial) ->
  default 0 (content_length (hpr_headers hr)) = lenZ body ->
  lenZ body <= max_body -> lenZ head <= cap -> lenZ head <= max_header ->
  reader_inv cap u r -> lenZ u < lenZ head ->
  u ++ st_incoming s = head ++ body ++ rest ->
  exists r' a' s' u',
    parse_response max_header max_body (r, (a, s)) =
      (Ok (mkResponse (mkStatus (default 0 (hpr_code hr)))
             (version_from_httparse (default 1 (hpr_version hr))) (hpr_headers hr) body),
       (r', (a', s'))) /\
    reader_inv cap u' r' /\ u' ++ st_incoming s' = rest /\ st_sent s' = st_sent s.
Proof.
  intros Hcomp Hpart Hcl Hmax Hcap Hmh Hu Hlt Heq.
  destruct (short_fillable u head (body ++ rest) (st_incoming s) cap Heq Hlt Hcap) as [Hroom Hne].
  destruct (parse_loop_live hp_parse_response (response_complete max_body) cap max_header
    (parse_fuel r) head (body ++ rest) hr u r a s Hcomp Hpart Hu Heq Hroom Hne Hcap Hmh)
    as (x & r1 & s1 & Hu1 & Htail & Hsent & Hrun).
  { apply (parse_fuel_enough cap u (r, (a, s)) Hu). }
  unfold parse_response. rewrite Hrun. pose proof (lenZ_nonneg head) as Hh0.
  assert (0 <= lenZ head <= lenZ (head ++ x)) as Hoff by (rewrite lenZ_app; pose proof (lenZ_nonneg x); lia).
  destruct (response_complete_live cap max_body hr (head ++ x) r1 a s1 (lenZ head) Hu1 Hoff)
    as (q & w' & Hq).
  { lia. }
  { rewrite <- app_assoc, Htail, Hcl, !lenZ_app. pose proof (lenZ_nonneg rest). lia. }
  destruct (response_complete_spec cap max_body hr (lenZ head) (head ++ x) (r1, (a, s1)) Hu1 Hoff)
    as (c & (v & u' & Hv & Hu' & Hbytes & Hs') & Hpost).
  rewrite Hq in *. simpl in *. destruct Hpost as (body' & -> & -> & Hb' & _). simpl in *.
  pose proof (reader_inv_unique _ _ _ _ Hv Hu1) as ->.
  replace (Z.to_nat (lenZ head)) with (length head) in Hbytes by (unfold lenZ; lia).
  rewrite take_app_length, <- !app_assoc, Htail in Hbytes. apply app_inv_head in Hbytes.
  destruct w' as [r' [a' s']]. simpl in *.
  apply app_inj_1 in Hbytes as [<- Hrest]; [|unfold lenZ in *; lia].
  exists r', a', s', u'. split; [done|]. split; [done|]. split; [done|congruence].
Qed.

(** C1. Requests are reassembled from any segmentation: when the connection
    carries [head ++ body ++ rest], with [head] a request head as [httparse]
    recognises it (complete exactly at its end, partial before), of a known
    method, that fits the buffer and declares [lenZ body] bytes within the limit,
    then, whatever sizes the socket's reads have and however much of it is already
    buffered ([u]), [parse_request] returns exactly that request, and [rest] is
    what the connection still holds, in the buffer or incoming, for the next one,
    as long as the first fill can add a byte, which it always can while the head
    is incomplete.  [parse_request] fills before it looks: when the head is
    buffered already and the buffer is full or no further byte comes, the call
    fails with [ConnectionClosed] although the request is there. *)
Theorem parse_request_reassembles (cap : Z) (config : ServerConfig) (head body rest u : bytes)
    (hr : HpRequest) (m : Method) (r : BufReader) (a : ast) (s : st) :
  (forall x, hp_parse_request (head ++ x) = HpComplete (lenZ head) hr) ->
  (forall p, p `prefix_of` head -> p <> head -> hp_parse_request p = HpPartial) ->
  method_parse (default [] (hp_method hr)) = Some m ->
  default 0 (content_length (hp_headers hr)) = lenZ body ->
  lenZ body <= max_body_size config ->
  lenZ head <= cap -> lenZ head <= max_header_size config ->
  reader_inv cap u r ->
  u ++ st_incoming s = head ++ body ++ rest ->
  (lenZ u < lenZ head \/ lenZ u < cap /\ st_incoming s <> [] ->
   exists r' a' s' u',
    parse_request config (r, (a, s)) =
      (Ok (mkRequest m (default (bs "/") (hp_path hr))
             (version_from_httparse (default 1 (hp_version hr))) (hp_headers hr) body),
       (r', (a', s'))) /\
    reader_inv cap u' r' /\ u' ++ st_incoming s' = rest /\ st_sent s' = st_sent s) /\
  (lenZ u = cap \/ st_incoming s = [] ->
   lenZ head <= lenZ u /\ fst (parse_request config (r, (a, s))) = Err ConnectionClosed).
Proof.
  intros Hcomp Hpart Hm Hcl Hmax Hcap Hmh Hu Heq. split; intros Hfill.
  - assert (lenZ u < cap /\ st_incoming s <> []) as [Hroom Hne].
    { destruct Hfill as [Hlt|Hroom]; [by eapply short_fillable|done]. }
    by eapply parse_request_live.
  - split; [|by eapply parse_request_stuck]. destruct (Z.le_gt_cases (lenZ head) (lenZ u)) as [|Hlt]; [done|].
    destruct (short_fillable u head (body ++ rest) (st_incoming s) cap Heq Hlt Hcap) as [? Hne].
    destruct Hfill as [|H0]; [lia|done].
Qed.

End Live.

(** ** Witnesses *)

Definition crlf : bytes := [x0d; x0a].
Definition sample_head : bytes :=
  bs "POST /a HTTP/1.1" ++ crlf ++ bs "Content-Length: 3" ++ crlf ++ crlf.
Definition sample_req : HpRequest :=
  mkHpRequest (Some (bs "POST")) (Some (bs "/a")) (Some 1) [(bs "Content-Length", bs "3")].
Definition sample_resp : HpResponse := mkHpResponse (Some 200) (Some 1) [(bs "Content-Length", bs "3")].

(** A parser that recognises one head. *)
Definition one_head {R} (h : bytes) (r : R) (d : bytes) : HpStatus R :=
  if starts_with d h then HpComplete (lenZ h) r
  else if starts_with h d then HpPartial else HpError.
Definition sample_parser : HttParse := {|
  hp_parse_request := one_head sample_head sample_req;
  hp_parse_response := one_head sample_head sample_resp |}.

Lemma one_head_offset {R} h (r0 : R) d n r : h <> [] ->
  one_head h r0 d = HpComplete n r -> 0 < n <= lenZ d.
Proof.
  intros Hne. unfold one_head. destruct (starts_with d h) eqn:E; [|by destruct (starts_with h d)].
  intros [= <- <-]. apply starts_with_spec in E as [k ->]. rewrite lenZ_app.
  assert (lenZ h <> 0) by (intros H0; apply lenZ_0 in H0; done).
  pose proof (lenZ_nonneg h). pose proof (lenZ_nonneg k). lia.
Qed.

Lemma one_head_complete {R} h (r : R) x : one_head h r (h ++ x) = HpComplete (lenZ h) r.
Proof.
  unfold one_head. destruct (starts_with (h ++ x) h) eqn:E; [done|].
  exfalso. apply not_true_iff_false in E. apply E. apply starts_with_spec. by exists x.
Qed.

Lemma one_head_partial {R} h (r : R) p : p `prefix_of` h -> p <> h -> one_head h r p = HpPartial.
Proof.
  intros [k Hk] Hne. unfold one_head. destruct (starts_with p h) eqn:E.
  - exfalso. apply starts_with_spec in E as [j Hj]. apply Hne. subst p.
    rewrite <- app_assoc in Hk. rewrite <- (app_nil_r h) in Hk at 1. apply app_inv_head in Hk.
    symmetry in Hk. apply app_nil in Hk as [-> _]. apply app_nil_r.
  - destruct (starts_with h p) eqn:E2; [done|]. exfalso. apply not_true_iff_false in E2. apply E2.
    apply starts_with_spec. by exists k.
Qed.

#[global] Instance sample_parser_ok : HttParseOk sample_parser.
Proof. split; intros d n r; by apply one_head_offset. Qed.

Definition unit_alloc : VecAlloc := {| ast := unit; grant a := (true, a) |}.
#[global] Instance unit_alloc_grants : AlwaysGrants unit_alloc.
Proof. by intros a. Qed.

Definition empty_reader (cap : nat) : BufReader := mkReader (replicate cap x00) 0 0.

Lemma empty_reader_inv cap : Z.of_nat cap < 2 ^ 63 -> reader_inv (Z.of_nat cap) [] (empty_reader cap).
Proof.
  intros H. split; simpl; try lia; [|done]. unfold lenZ. by rewrite length_replicate.
Qed.

Definition sample_world : BufReader * (@ast unit_alloc * @st scripted) :=
  (empty_reader 64, (tt, mkScript (sample_head ++ bs "abcGET") [4; 30; 0]%nat [])).

Lemma sample_world_inv : @world_inv unit_alloc scripted 64 sample_world.
Proof. exists []. by apply (empty_reader_inv 64). Qed.

Lemma parse_request_total_witness :
  let '(o, w') := @parse_request linux_errno unit_alloc scripted sample_parser default_config sample_world in
  exists c, @reads unit_alloc scripted 64 sample_world c w' /\
    match o with
    | Ok r => @request_from sample_parser default_config c r
    | Err _ => True
    | _ => False
    end.
Proof. apply parse_request_total. apply sample_world_inv. Defined.

Lemma parse_response_total_witness :
  let '(o, w') := @parse_response linux_errno unit_alloc scripted sample_parser 8192 100 sample_world in
  exists c, @reads unit_alloc scripted 64 sample_world c w' /\
    match o with
    | Ok r => exists d off hr,
        @hp_parse_response sample_parser d = HpComplete off hr /\
        c = take (Z.to_nat off) d ++ resp_body r /\
        as_u16 (resp_status r) = default 0 (hpr_code hr) /\
        resp_headers r = hpr_headers hr /\
        lenZ (resp_body r) = default 0 (content_length (hpr_headers hr)) /\
        (resp_body r = [] \/ lenZ (resp_body r) <= 100)
    | Err _ => True
    | _ => False
    end.
Proof. apply parse_response_total. apply sample_world_inv. Defined.

Lemma parse_request_reassembles_witness :
  (exists r' a' s' u',
    @parse_request linux_errno unit_alloc scripted sample_parser default_config sample_world =
      (Ok (mkRequest Post (bs "/a") Http11 [(bs "Content-Length", bs "3")] (bs "abc")), (r', (a', s'))) /\
    reader_inv 64 u' r' /\ u' ++ @st_incoming scripted s' = bs "GET" /\ @st_sent scripted s' = []).
Proof.
  apply (@parse_request_reassembles linux_errno unit_alloc scripted sample_parser _ _ _
    64 default_config sample_head (bs "abc") (bs "GET") [] sample_req Post
    (empty_reader 64) tt (mkScript (sample_head ++ bs "abcGET") [4; 30; 0]%nat [])).
  - apply one_head_complete.
  - apply one_head_partial.
  - reflexivity.
  - reflexivity.
  - vm_compute. congruence.
  - vm_compute. congruence.
  - vm_compute. congruence.
  - by apply (empty_reader_inv 64).
  - reflexivity.
  - left. reflexivity.
Defined.
