(* ===== verification/HttpWire.v ===== *)
(** * Writing requests and responses (rko-util/src/http/wire.rs)

    The serialisers with their allocating buffer, the integer formatter with its
    fixed-size scratch buffer, and the [Host] formatter.  [render_response] and
    [render_request] are the reference: the bytes the message is. *)
From Stdlib Require Import ZArith Lia Bool.
From Stdlib.Strings Require Import Byte String.
From stdpp Require Import base list option numbers.
From S2P Require Import Prelude Errors KVec Stream Net HttpTypes HttpReader HttpParse.

(** The loop of [format_usize], writing digits from the end of the buffer. *)
Fixpoint format_loop (pos : nat) (val : Z) (buf : bytes) : nat * bytes :=
  match pos with
  | O => (O, buf)
  | S p =>
      if 0 <? val
      then format_loop p (val / 10) (<[p := z2b (wrap 8 (48 + wrap 8 (val mod 10)))]> buf)
      else (pos, buf)
  end.

Definition format_usize {E} (val : Z) (buf : bytes) : res E bytes :=
  if val =? 0 then
    match buf with [] => Panic | _ :: t => slice (z2b 48 :: t) 0 1 end
  else
    let '(pos, buf') := format_loop (length buf) val buf in
    slice buf' (Z.of_nat pos) (lenZ buf').

Section Wire.
Context `{KE : KernelErrno, VA : VecAlloc, BS : ByteStream}.
#[local] Abbreviation AM := (M ast Error).

Definition enomem {A} (m : M ast AllocError A) : AM A := m_map_err (fun _ => ENOMEM) m.

Definition extend (buf data : bytes) : AM bytes := enomem (kv_extend buf data).
Definition write_header (buf name value : bytes) : AM bytes :=
  buf <-! extend buf name;;
  buf <-! extend buf (bs ": ");;
  buf <-! extend buf value;;
  extend buf crlf.
Definition write_header_usize (buf name : bytes) (value : Z) : AM bytes :=
  s <-! m_lift (format_usize value (replicate 20 x00));;
  write_header buf name s.
Definition write_u16 (buf : bytes) (val : Z) : AM bytes :=
  s <-! m_lift (format_usize val (replicate 5 x00));;
  extend buf s.
Definition write_u8 (buf : bytes) (val : Z) : AM bytes :=
  s <-! m_lift (format_usize val (replicate 3 x00));;
  extend buf s.

(** The loops over the message's own headers. *)
Fixpoint write_headers (buf : bytes) (h : Headers) : AM bytes :=
  match h with
  | [] => m_ret buf
  | (n, v) :: t => buf <-! write_header buf n v;; write_headers buf t
  end.

(** The head of a request, up to and including the empty line. *)
Definition request_head (req : Request) (host : bytes) : AM bytes :=
  buf <-! enomem kv_with_capacity;;
  buf <-! extend buf (method_as_str (req_method req));;
  buf <-! extend buf (bs " ");;
  buf <-! extend buf (req_path req);;
  buf <-! extend buf (bs " ");;
  buf <-! extend buf (version_as_str (req_version req));;
  buf <-! extend buf crlf;;
  buf <-! write_header buf HOST host;;
  buf <-! (if bool_decide (req_body req = []) then m_ret buf
           else write_header_usize buf CONTENT_LENGTH (lenZ (req_body req)));;
  buf <-! write_headers buf (req_headers req);;
  extend buf crlf.

(** Head, then the body when there is one. *)
Definition send_message (head : AM bytes) (body : bytes) : M (ast * st) Error unit :=
  buf <-! with_alloc head;;
  _ <-! with_stream (st_write_all buf);;
  if bool_decide (body = []) then m_ret tt else with_stream (st_write_all body).

Definition write_request (req : Request) (host : bytes) : M (ast * st) Error unit :=
  send_message (request_head req host) (req_body req).

Definition response_head (resp : Response) : AM bytes :=
  buf <-! enomem kv_with_capacity;;
  buf <-! extend buf (version_as_str (resp_version resp));;
  buf <-! extend buf (bs " ");;
  buf <-! write_u16 buf (as_u16 (resp_status resp));;
  buf <-! extend buf (bs " ");;
  buf <-! extend buf (reason (resp_status resp));;
  buf <-! extend buf crlf;;
  buf <-! write_header_usize buf CONTENT_LENGTH (lenZ (resp_body resp));;
  buf <-! write_headers buf (resp_headers resp);;
  extend buf crlf.

Definition write_response (resp : Response) : M (ast * st) Error unit :=
  send_message (response_head resp) (resp_body resp).

(** [format_host]: the four octets, and the port unless it is 80; every IPv6
    address is written as the loopback. *)
Definition format_host (addr : SocketAddr) (buf : bytes) : AM bytes :=
  match addr with
  | V4 v4 =>
      let octet i := b2z (default x00 (v4_octets (v4_ip v4) !! i)) in
      buf <-! write_u8 buf (octet 0%nat);;
      buf <-! extend buf (bs ".");;
      buf <-! write_u8 buf (octet 1%nat);;
      buf <-! extend buf (bs ".");;
      buf <-! write_u8 buf (octet 2%nat);;
      buf <-! extend buf (bs ".");;
      buf <-! write_u8 buf (octet 3%nat);;
      if v4_port v4 =? 80 then m_ret buf
      else
        buf <-! extend buf (bs ":");;
        write_u16 buf (v4_port v4)
  | V6 _ => extend buf (bs "[::1]")
  end.

End Wire.

(** ** The reference: decimal numbers and rendered messages *)

(** The decimal value of a string of digits. *)
Definition dec_val (l : bytes) : Z := foldl (fun acc b => 10 * acc + (b2z b - 48)) 0 l.
Definition is_digits (l : bytes) : Prop := Forall (fun b => 48 <= b2z b <= 57) l.

(** The shortest decimal rendering, as the formatter computes it with room for [k]
    digits. *)
Definition dec (k : nat) (n : Z) : bytes :=
  match @format_usize Error n (replicate k x00) with Ok s => s | _ => [] end.

Definition header_line (n v : bytes) : bytes := n ++ bs ": " ++ v ++ crlf.
Definition header_lines (h : Headers) : bytes := concat ((fun '(n, v) => header_line n v) <$> h).

(** All the headers that go on the wire, in order. *)
Definition wire_request_headers (req : Request) (host : bytes) : Headers :=
  (HOST, host) ::
  (if bool_decide (req_body req = []) then [] else [(CONTENT_LENGTH, dec 20 (lenZ (req_body req)))])
  ++ req_headers req.
Definition wire_response_headers (resp : Response) : Headers :=
  (CONTENT_LENGTH, dec 20 (lenZ (resp_body resp))) :: resp_headers resp.

Definition render_request_head (req : Request) (host : bytes) : bytes :=
  method_as_str (req_method req) ++ bs " " ++ req_path req ++ bs " " ++
  version_as_str (req_version req) ++ crlf ++
  header_lines (wire_request_headers req host) ++ crlf.
Definition render_response_head (resp : Response) : bytes :=
  version_as_str (resp_version resp) ++ bs " " ++ dec 5 (as_u16 (resp_status resp)) ++ bs " " ++
  reason (resp_status resp) ++ crlf ++
  header_lines (wire_response_headers resp) ++ crlf.

(** ** The integer formatter *)

Lemma dec_val_snoc l b : dec_val (l ++ [b]) = 10 * dec_val l + (b2z b - 48).
Proof. unfold dec_val. by rewrite foldl_app. Qed.

Lemma digit_byte val : b2z (z2b (wrap 8 (48 + wrap 8 (val mod 10)))) = 48 + val mod 10.
Proof.
  pose proof (Z.mod_pos_bound val 10 ltac:(lia)).
  rewrite b2z_z2b, (wrap_small 8 (val mod 10)) by lia.
  rewrite (wrap_small 8 (48 + _)) by lia. apply wrap_small. lia.
Qed.

(** The loop leaves the digits of [val] just before the part already written. *)
Lemma format_loop_spec pos val buf : 0 <= val < 10 ^ Z.of_nat pos -> (pos <= length buf)%nat ->
  exists ds p buf', format_loop pos val buf = (p, buf') /\
    drop p buf' = ds ++ drop pos buf /\ length buf' = length buf /\ (p <= length buf)%nat /\
    dec_val ds = val /\ is_digits ds /\ (0 < val -> ds <> []) /\ (length ds <= pos)%nat.
Proof.
  revert val buf. induction pos as [|pos IH]; intros val buf Hv Hl; cbn [format_loop].
  - exists [], 0%nat, buf. assert (val = 0) as -> by (simpl in Hv; lia).
    split_and!; try done; try lia; constructor.
  - destruct (0 <? val) eqn:Epos; zify_bools.
    2: { exists [], (S pos), buf. assert (val = 0) as -> by lia.
         split_and!; try done; try lia; try constructor; simpl; lia. }
    set (b := z2b _). rewrite Nat2Z.inj_succ, Z.pow_succ_r in Hv by lia.
    destruct (IH (val / 10) (<[pos := b]> buf)) as (ds & p & buf' & He & Hd & Hlb & Hp & Hval & Hdig & _ & Hlen).
    { split; [apply Z.div_pos; lia|]. apply Z.div_lt_upper_bound; lia. }
    { rewrite length_insert. lia. }
    rewrite length_insert in Hlb, Hp.
    exists (ds ++ [b]), p, buf'. split; [done|]. split.
    { rewrite Hd. rewrite (drop_S _ b) by (rewrite list_lookup_insert_eq; [done|lia]).
      rewrite drop_insert_lt by lia. by rewrite <- app_assoc. }
    split; [done|]. split; [done|]. split.
    { rewrite dec_val_snoc, Hval. subst b. rewrite digit_byte.
      pose proof (Z.div_mod val 10 ltac:(lia)). lia. }
    split.
    { apply Forall_app. split; [done|]. constructor; [|constructor]. subst b. rewrite digit_byte.
      pose proof (Z.mod_pos_bound val 10 ltac:(lia)). lia. }
    split; [by intros _; destruct ds|]. rewrite length_app. simpl. lia.
Qed.

Lemma format_usize_spec {E} k n : 0 <= n < 10 ^ Z.of_nat k -> (0 < k)%nat ->
  exists s, @format_usize E n (replicate k x00) = Ok s /\ dec k n = s /\
    dec_val s = n /\ is_digits s /\ s <> [] /\ (length s <= k)%nat.
Proof.
  intros Hn Hk. assert (exists s, (forall E, @format_usize E n (replicate k x00) = Ok s) /\
    dec_val s = n /\ is_digits s /\ s <> [] /\ (length s <= k)%nat) as (s & Hs & H).
  { unfold format_usize. destruct (n =? 0) eqn:E0; zify_bools.
    - destruct k as [|k]; [lia|]. subst n. exists [z2b 48]. split; [|repeat split; try done; try (simpl; lia)].
      + intros E'. simpl. rewrite slice_ok; [done|lia|]. rewrite lenZ_cons.
        pose proof (lenZ_nonneg (replicate k x00)). lia.
      + constructor; [|constructor]. vm_compute. split; congruence.
    - destruct (format_loop_spec k n (replicate k x00)) as (ds & p & buf' & He & Hd & Hlb & Hp & Hval & Hdig & Hne & Hlen).
      { done. } { rewrite length_replicate. lia. }
      rewrite length_replicate, He in *. exists ds. split; [|split; [done|split; [done|split; [apply Hne; lia|lia]]]].
      intros E'. rewrite slice_ok by (unfold lenZ; lia). f_equal.
      rewrite Nat2Z.id, Hd, (drop_ge (replicate k x00)) by (rewrite length_replicate; lia).
      rewrite app_nil_r. apply take_ge. apply (f_equal length) in Hd.
      rewrite length_drop, length_app, length_drop, length_replicate in Hd. unfold lenZ. lia. }
  exists s. split; [apply Hs|]. split; [|done]. unfold dec. by rewrite Hs.
Qed.

(** Parsing a string of digits gives its decimal value when that fits. *)
Lemma parse_digits_val l acc : is_digits l -> 0 <= acc ->
  foldl (fun acc b => 10 * acc + (b2z b - 48)) acc l < 2 ^ 64 ->
  parse_digits l acc = Some (foldl (fun acc b => 10 * acc + (b2z b - 48)) acc l).
Proof.
  intros Hd. revert acc. induction Hd as [|b l Hb Hd IH]; intros acc Hacc Hmax; [done|].
  simpl in Hmax. assert (forall x, 0 <= x -> x <= foldl (fun acc b => 10 * acc + (b2z b - 48)) x l) as Hmono.
  { clear -Hd. induction Hd as [|b l Hb Hd IH]; intros x Hx; simpl; [lia|].
    etransitivity; [|apply IH]; lia. }
  pose proof (Hmono (10 * acc + (b2z b - 48)) ltac:(lia)) as Hle.
  cbn [parse_digits foldl]. unfold digit_of.
  destruct ((48 <=? b2z b) && (b2z b <=? 57)) eqn:E.
  2: { apply andb_false_iff in E as [E|E]; blia. }
  simpl. unfold u_checked_mul, u_checked_add.
  destruct (acc * 10 <? 2 ^ 64) eqn:E1; [|blia]. simpl.
  destruct (acc * 10 + (b2z b - 48) <? 2 ^ 64) eqn:E2; [|blia]. simpl.
  replace (acc * 10 + (b2z b - 48)) with (10 * acc + (b2z b - 48)) by lia.
  apply IH; lia.
Qed.

Lemma is_digits_utf8 l : is_digits l -> utf8_valid l = true.
Proof.
  induction 1 as [|b l Hb Hd IH]; [done|]. simpl. destruct (b2z b <? 128) eqn:E; [done|blia].
Qed.

Lemma parse_usize_digits l : is_digits l -> l <> [] -> dec_val l < 2 ^ 64 ->
  parse_usize l = Some (dec_val l).
Proof.
  intros Hd Hne Hmax. unfold parse_usize. destruct l as [|b l]; [done|].
  case_bool_decide as Hb.
  - exfalso. inversion Hd as [|? ? Hr]; subst. change (b2z "+"%byte) with 43 in Hr. lia.
  - by apply parse_digits_val.
Qed.

(** Content-Length round trip: for every [usize] the digits [format_usize]
    writes into the 20-byte scratch buffer fit it, and reading them back with
    [Headers::content_length] gives the same number, the first header winning
    over any the user added. *)
Theorem content_length_roundtrip (n : Z) (rest : Headers) :
  0 <= n < 2 ^ 64 ->
  exists s, @format_usize Error n (replicate 20 x00) = Ok s /\
    content_length ((CONTENT_LENGTH, s) :: rest) = Some n.
Proof.
  intros Hn. destruct (format_usize_spec (E := Error) 20 n) as (s & Hs & _ & Hval & Hdig & Hne & _).
  { change (10 ^ Z.of_nat 20) with 100000000000000000000. lia. } { lia. }
  exists s. split; [done|]. unfold content_length. cbn [headers_get].
  rewrite eq_ignore_refl. cbn [mbind option_bind]. rewrite is_digits_utf8 by done.
  rewrite parse_usize_digits; [by rewrite Hval|done|done|lia].
Qed.

Lemma content_length_roundtrip_witness :
  exists s, @format_usize Error 18446744073709551615 (replicate 20 x00) = Ok s /\
    content_length ((CONTENT_LENGTH, s) :: [(CONTENT_LENGTH, bs "7")]) = Some 18446744073709551615.
Proof. apply (content_length_roundtrip 18446744073709551615 [(CONTENT_LENGTH, bs "7")]). lia. Defined.

(** ** What goes on the wire *)
Section WireFacts.
Context `{KE : KernelErrno, VA : VecAlloc, BS : ByteStream} {BSok : ByteStreamOk BS}.

(** [m] yields [x] or runs out of memory. *)
Definition yields {A} (m : M ast Error A) (x : A) : Prop :=
  forall a, exists a', m a = (Ok x, a') \/ m a = (Err ENOMEM, a').

Lemma yields_bind {A B} (m : M ast Error A) (k : A -> M ast Error B) x y :
  yields m x -> yields (k x) y -> yields (m_bind m k) y.
Proof.
  intros Hm Hk a. unfold m_bind. destruct (Hm a) as [a' [-> | ->]]; [apply Hk|eauto].
Qed.

Lemma yields_ret {A} (x : A) : yields (m_ret x) x.
Proof. intros a. exists a. by left. Qed.

Lemma yields_lift {A} (o : res Error A) x : o = Ok x -> yields (m_lift o) x.
Proof. intros -> a. exists a. by left. Qed.

Lemma yields_enomem {A} (x : A) : yields (enomem (kv_try x)) x.
Proof.
  intros a. unfold enomem, m_map_err. destruct (kv_try_cases x a) as [a' [-> | ->]]; eauto.
Qed.

Lemma yields_extend buf d : yields (extend buf d) (buf ++ d).
Proof. apply yields_enomem. Qed.

Lemma yields_eq {A} (m : M ast Error A) x y : x = y -> yields m x -> yields m y.
Proof. by intros ->. Qed.

Lemma yields_header buf n v : yields (write_header buf n v) (buf ++ header_line n v).
Proof.
  unfold write_header. repeat (eapply yields_bind; [apply yields_extend|]).
  eapply yields_eq; [|apply yields_extend]. unfold header_line. by rewrite <- !app_assoc.
Qed.

Lemma yields_headers buf h : yields (write_headers buf h) (buf ++ header_lines h).
Proof.
  revert buf. induction h as [|[n v] h IH]; intros buf; cbn [write_headers].
  - unfold header_lines; simpl. rewrite app_nil_r. apply yields_ret.
  - eapply yields_bind; [apply yields_header|]. eapply yields_eq; [|apply IH].
    unfold header_lines; simpl. by rewrite <- app_assoc.
Qed.

Lemma yields_number k n buf : 0 <= n < 10 ^ Z.of_nat k -> (0 < k)%nat ->
  yields (s <-! m_lift (format_usize n (replicate k x00));; extend buf s) (buf ++ dec k n).
Proof.
  intros Hn Hk. destruct (format_usize_spec (E := Error) k n Hn Hk) as (s & Hs & Hd & _).
  eapply yields_bind; [by apply yields_lift|]. rewrite Hd. apply yields_extend.
Qed.

Lemma yields_header_usize buf n v : 0 <= v < 2 ^ 64 ->
  yields (write_header_usize buf n v) (buf ++ header_line n (dec 20 v)).
Proof.
  intros Hv. destruct (format_usize_spec (E := Error) 20 v) as (s & Hs & Hd & _).
  { change (10 ^ Z.of_nat 20) with 100000000000000000000. lia. } { lia. }
  eapply yields_bind; [by apply yields_lift|]. rewrite Hd. apply yields_header.
Qed.

Lemma yields_request_head req host : lenZ (req_body req) < 2 ^ 64 ->
  yields (request_head req host) (render_request_head req host).
Proof.
  intros Hb. unfold request_head.
  eapply yields_bind; [apply yields_enomem|].
  repeat (eapply yields_bind; [apply yields_extend|]).
  eapply yields_bind; [apply yields_header|].
  eapply yields_bind.
  { instantiate (1 := _ ++ header_lines (if bool_decide (req_body req = []) then []
                        else [(CONTENT_LENGTH, dec 20 (lenZ (req_body req)))])).
    case_bool_decide.
    - unfold header_lines; simpl. rewrite app_nil_r. apply yields_ret.
    - unfold header_lines; simpl. rewrite app_nil_r. apply yields_header_usize.
      pose proof (lenZ_nonneg (req_body req)). lia. }
  eapply yields_bind; [apply yields_headers|].
  eapply yields_eq; [|apply yields_extend].
  unfold render_request_head, wire_request_headers, header_lines. rewrite !fmap_cons, fmap_app, concat_cons, concat_app.
  by rewrite <- !app_assoc.
Qed.

Lemma yields_response_head resp : 0 <= as_u16 (resp_status resp) < 2 ^ 16 -> lenZ (resp_body resp) < 2 ^ 64 ->
  yields (response_head resp) (render_response_head resp).
Proof.
  intros Hs Hb. unfold response_head.
  eapply yields_bind; [apply yields_enomem|].
  repeat (eapply yields_bind; [apply yields_extend|]).
  eapply yields_bind; [apply (yields_number 5); [change (10 ^ Z.of_nat 5) with 100000; lia|lia]|].
  repeat (eapply yields_bind; [apply yields_extend|]).
  eapply yields_bind; [apply yields_header_usize; pose proof (lenZ_nonneg (resp_body resp)); lia|].
  eapply yields_bind; [apply yields_headers|].
  eapply yields_eq; [|apply yields_extend].
  unfold render_response_head, wire_response_headers, header_lines. rewrite fmap_cons, concat_cons.
  by rewrite <- !app_assoc.
Qed.

(** Sending a rendered head and a body. *)
Lemma send_message_spec m head body a s :
  yields m head -> lenZ head <= isize_max -> lenZ body <= isize_max ->
  let '(o, (_, s')) := send_message m body (a, s) in
  st_incoming s' = st_incoming s /\
  match o with
  | Ok _ => st_sent s' = st_sent s ++ head ++ body
  | Err _ => exists k, st_sent s' = st_sent s ++ take k (head ++ body)
  | _ => False
  end.
Proof.
  intros Hm Hh Hb. unfold send_message, with_alloc, with_stream, m_bind.
  destruct (Hm a) as [a' [-> | ->]]; cbn beta iota.
  2: { split; [done|]. exists 0%nat. by rewrite app_nil_r. }
  pose proof (write_total head s Hh) as Ht. pose proof (write_incoming head s Hh) as Hin.
  destruct (st_write_all head s) as [[u|e| | |] s1] eqn:E1; simpl in Ht, Hin; try done.
  - pose proof (write_ok _ _ _ _ Hh E1) as Hs1. case_bool_decide as Hbody.
    + simpl. subst body. split; [done|]. by rewrite app_nil_r.
    + pose proof (write_total body s1 Hb) as Ht2. pose proof (write_incoming body s1 Hb) as Hin2.
      destruct (st_write_all body s1) as [[u2|e| | |] s2] eqn:E2; simpl in Ht2, Hin2; try done;
        (split; [congruence|]).
      * rewrite (write_ok _ _ _ _ Hb E2), Hs1. by rewrite <- app_assoc.
      * destruct (write_err _ _ _ _ Hb E2) as [k Hk]. exists (length head + k)%nat.
        rewrite Hk, Hs1, take_app_add. by rewrite <- app_assoc.
  - split; [done|]. destruct (write_err _ _ _ _ Hh E1) as [k Hk]. exists (Nat.min k (length head)).
    rewrite Hk. f_equal. rewrite take_app_le by lia.
    destruct (decide (k <= length head)%nat); [f_equal; lia|]. rewrite !take_ge by lia. done.
Qed.

(** A response on the wire: whatever the allocator and the socket do,
    [write_response] sends exactly the rendered response (status line, a
    Content-Length that is the body's, the user's headers, the empty line and the
    body) when it reports success, and a prefix of it when it reports an error;
    it reads nothing and never panics. *)
Theorem write_response_wire (resp : Response) (a : ast) (s : st) :
  0 <= as_u16 (resp_status resp) < 2 ^ 16 ->
  lenZ (render_response_head resp) <= isize_max -> lenZ (resp_body resp) <= isize_max ->
  let '(o, (_, s')) := write_response resp (a, s) in
  st_incoming s' = st_incoming s /\
  match o with
  | Ok _ => st_sent s' = st_sent s ++ render_response_head resp ++ resp_body resp
  | Err _ => exists k, st_sent s' = st_sent s ++ take k (render_response_head resp ++ resp_body resp)
  | _ => False
  end.
Proof.
  intros Hs Hh Hb. apply send_message_spec; try done. apply yields_response_head; [done|].
  unfold isize_max in Hb. lia.
Qed.

(** A request on the wire: likewise for [write_request], with the [Host]
    header first and a Content-Length exactly when there is a body. *)
Theorem write_request_wire (req : Request) (host : bytes) (a : ast) (s : st) :
  lenZ (render_request_head req host) <= isize_max -> lenZ (req_body req) <= isize_max ->
  let '(o, (_, s')) := write_request req host (a, s) in
  st_incoming s' = st_incoming s /\
  match o with
  | Ok _ => st_sent s' = st_sent s ++ render_request_head req host ++ req_body req
  | Err _ => exists k, st_sent s' = st_sent s ++ take k (render_request_head req host ++ req_body req)
  | _ => False
  end.
Proof.
  intros Hh Hb. apply send_message_spec; try done. apply yields_request_head.
  unfold isize_max in Hb. lia.
Qed.

End WireFacts.
