(* ===== verification/HttpServer.v ===== *)
(** * Server and client (rko-util/src/http/server.rs, client.rs)

    [connection_loop] is the keep-alive loop of [handle_connection]; its result is
    the list of exchanges it completed and why it stopped, which the Rust
    function does not return but which the theorems speak about.  The handler is
    the user's: a function on a handler state, whose future may never resolve
    ([None]); the connection's task then waits for it for good.  [accept_loop], [start_inner] and
    the client run on the async sockets of [AsyncNet]. *)
From Stdlib Require Import ZArith Lia Bool.
From Stdlib.Strings Require Import Byte String.
From stdpp Require Import base list option numbers.
From S2P Require Import Prelude Errors KVec Stream Net AsyncNet HttpTypes HttpReader HttpParse HttpWire.

(** The keep-alive decision. *)
Definition keepalive (q : Request) : bool :=
  match req_version q with
  | Http11 => negb (is_connection_close (req_headers q))
  | Http10 => is_connection_keepalive (req_headers q)
  end.

(** Why a connection ended. *)
Inductive conn_end : Type :=
| EndNoMemory                      (** the reader could not be allocated *)
| EndPeer                          (** the peer closed or the socket failed *)
| EndError (e : HttpError) (r : Response)   (** an error response was attempted *)
| EndWrite (q : Request) (r : Response)     (** the response could not be written *)
| EndClose                         (** the last exchange was not keep-alive *)
| EndHung (q : Request).           (** it did not: the handler's future never resolves *)

Section Server.
Context `{KE : KernelErrno, VA : VecAlloc, BS : ByteStream, HP : HttParse}.
Context {hst : Type} (handle : Request -> hst -> option Response * hst) (config : ServerConfig).

(** What a connection owns: the handler's state, the reader, allocator, stream. *)
Definition CM (A : Type) : Type := M (hst * (BufReader * (ast * st))) Error A.

Definition cm_parse : CM (Request + HttpError) :=
  fun '(h, w) =>
    match parse_request config w with
    | (Ok q, w') => (Ok (inl q), (h, w'))
    | (Err e, w') => (Ok (inr e), (h, w'))
    | (Panic, w') => (Panic, (h, w'))
    | (Ub, w') => (Ub, (h, w'))
    | (Pending, w') => (Pending, (h, w'))
    end.
Definition cm_handle (q : Request) : CM (option Response) :=
  fun '(h, w) => let '(r, h') := handle q h in (Ok r, (h', w)).
(** A write whose failure is looked at, not propagated. *)
Definition cm_write (r : Response) : CM bool :=
  fun '(h, (rd, w)) =>
    match write_response r w with
    | (Ok _, w') => (Ok true, (h, (rd, w')))
    | (Err _, w') => (Ok false, (h, (rd, w')))
    | (Panic, w') => (Panic, (h, (rd, w')))
    | (Ub, w') => (Ub, (h, (rd, w')))
    | (Pending, w') => (Pending, (h, (rd, w')))
    end.
Definition cm_to_response (e : HttpError) : CM Response :=
  fun '(h, (rd, (a, s))) =>
    let '(o, a') := http_error_to_response e a in
    (map_err (fun _ => ENOMEM) o, (h, (rd, (a', s)))).
Definition cm_reset : CM unit :=
  fun '(h, (rd, w)) =>
    match reader_reset (E := Error) rd with
    | Ok rd' => (Ok tt, (h, (rd', w)))
    | Err e => (Err e, (h, (rd, w)))
    | Panic => (Panic, (h, (rd, w)))
    | Ub => (Ub, (h, (rd, w)))
    | Pending => (Pending, (h, (rd, w)))
    end.

(** The loop of [handle_connection]. *)
Fixpoint connection_loop (fuel : nat) : CM (list (Request * Response) * conn_end) :=
  match fuel with
  | O => m_lift Pending
  | S fuel' =>
      parsed <-! cm_parse;;
      match parsed with
      | inr ConnectionClosed => m_ret ([], EndPeer)
      | inr e =>
          r <-! cm_to_response e;;
          _ <-! cm_write r;;
          m_ret ([], EndError e r)
      | inl request =>
          let ka := keepalive request in
          answer <-! cm_handle request;;
          match answer with
          | None => m_ret ([], EndHung request)
          | Some response =>
              sent <-! cm_write response;;
              if negb sent then m_ret ([], EndWrite request response)
              else if negb ka then m_ret ([(request, response)], EndClose)
              else
                _ <-! cm_reset;;
                rest <-! connection_loop fuel';;
                m_ret ((request, response) :: fst rest, snd rest)
          end
      end
  end.

(** [handle_connection]; one round per request, and a request takes at least a
    byte, so the bytes the peer sends bound the rounds. *)
Definition handle_connection (fuel : nat) (h : hst) (w : ast * st)
    : res Error (list (Request * Response) * conn_end) * (hst * (ast * st)) :=
  match reader_new (max_header_size config) (fst w) with
  | (Ok rd, a') =>
      let '(o, (h', (_, w'))) := connection_loop fuel (h, (rd, (a', snd w))) in (o, (h', w'))
  | (_, a') => (Ok ([], EndNoMemory), (h, (a', snd w)))
  end.

End Server.

(** ** client.rs *)
Section Client.
Context `{KE : KernelErrno, VA : VecAlloc, BS : ByteStream, HP : HttParse}.

Definition host_for (req : Request) (addr : option SocketAddr) : M ast Error bytes :=
  match addr with
  | Some addr => buf <-! enomem kv_with_capacity;; format_host addr buf
  | None =>
      match headers_get (req_headers req) (bs "Host") with
      | Some h => enomem (kv_from_slice h)
      | None => m_ret []
      end
  end.

(** [send_on_inner]. *)
Definition send_on_inner (req : Request) (addr : option SocketAddr) : M (ast * st) Error Response :=
  host <-! with_alloc (host_for req addr);;
  _ <-! m_map_err (fun _ => EIO) (write_request req host);;
  rd <-! with_alloc (m_map_err (fun _ => ENOMEM) (reader_new 8192));;
  fun w =>
    let '(o, (_, w')) := parse_response 8192 (1024 * 1024) (rd, w) in
    (map_err http_error_to_error o, w').
Definition send_on (req : Request) : M (ast * st) Error Response := send_on_inner req None.

End Client.

(** [HttpClient::send]: a fresh connection, released when the call returns. *)
Definition client_send `{KE : KernelErrno, VA : VecAlloc, KW : KernelWait, HP : HttParse}
    (polls : nat) (addr : SocketAddr) (req : Request) : M (ast * AsyncWorld) Error Response :=
  fun '(a, w) =>
    match async_connect polls addr w with
    | (Ok so, w1) =>
        let '(o, (a', w2)) := send_on_inner (BS := tcp_byte_stream polls so) req (Some addr) (a, w1) in
        (o, (a', mkAW VA KN (aw_alloc w2) (tcp_drop so (aw_net w2)) (aw_queued w2) (aw_cbs w2)))
    | (Err e, w1) => (Err e, (a, w1))
    | (Panic, w1) => (Panic, (a, w1))
    | (Ub, w1) => (Ub, (a, w1))
    | (Pending, w1) => (Pending, (a, w1))
    end.

(** ** The accept loop and start-up *)

(** What the server uses of the executor: [spawn] of a connection task, which
    leaves the sockets alone and fails for want of memory or because the
    executor has been stopped. *)
Class ExecutorSpawn `{VA : VecAlloc, KN : KernelNet} := {
  exec_spawn : M AsyncWorld Error unit
}.
Class ExecutorSpawnOk `{VA : VecAlloc, KN : KernelNet} (EX : ExecutorSpawn) : Prop := {
  spawn_net w : aw_net (snd (exec_spawn w)) = aw_net w;
  spawn_settles w : match fst (exec_spawn w) with Ok _ | Err _ => True | _ => False end
}.

Section Accept.
Context `{KE : KernelErrno, VA : VecAlloc, KN : KernelNet, KW : !KernelWait, EX : !ExecutorSpawn}.

Definition aw_release (so : sock) (w : AsyncWorld) : AsyncWorld :=
  mkAW VA KN (aw_alloc w) (tcp_drop so (aw_net w)) (aw_queued w) (aw_cbs w).
(** [Arc::new] in the async world. *)
Definition aw_arc_new : M AsyncWorld Error unit :=
  fun w => let '(o, a) := kv_try tt (aw_alloc w) in
           (map_err (fun _ => ENOMEM) o, mkAW VA KN a (aw_net w) (aw_queued w) (aw_cbs w)).

(** [accept_loop] until the listener fails: the connections whose task was spawned.
    A task that cannot be spawned drops its future, and with it the stream. *)
Fixpoint accept_loop (fuel polls : nat) (l : sock) : M AsyncWorld Error (list sock) :=
  match fuel with
  | O => m_lift Pending
  | S fuel' =>
      fun w =>
        match async_accept polls l w with
        | (Ok so, w1) =>
            match exec_spawn w1 with
            | (Ok _, w2) => (rest <-! accept_loop fuel' polls l;; m_ret (so :: rest)) w2
            | (_, w2) => accept_loop fuel' polls l (aw_release so w2)
            end
        | (Err _, w1) => (Ok [], w1)
        | (Panic, w1) => (Panic, w1)
        | (Ub, w1) => (Ub, w1)
        | (Pending, w1) => (Pending, w1)
        end
  end.

(** [start_inner]: bind, share the configuration, spawn the accept loop; the
    listener goes away with the future when either step fails. *)
Definition start_inner (addr : SocketAddr) : M AsyncWorld Error sock :=
  fun w =>
    match on_net (listener_try_new addr) w with
    | (Ok l, w1) =>
        match aw_arc_new w1 with
        | (Ok _, w2) =>
            let '(o, w3) := exec_spawn w2 in
            match o with
            | Ok _ => (Ok l, w3)
            | Err e => (Err e, aw_release l w3)
            | Panic => (Panic, w3)
            | Ub => (Ub, w3)
            | Pending => (Pending, w3)
            end
        | (_, w2) => (Err ENOMEM, aw_release l w2)
        end
    | (r, w1) => (r, w1)
    end.

End Accept.

(** ** The connection theorem *)
Section ServerFacts.
Context `{KE : KernelErrno, VA : VecAlloc, BS : ByteStream, HP : HttParse}.
Context {BSok : ByteStreamOk BS} {HPok : HttParseOk HP}.
Context {hst : Type} (handle : Request -> hst -> option Response * hst) (config : ServerConfig).

Definition render_response (r : Response) : bytes := render_response_head r ++ resp_body r.

(** A response that fits memory and has a 16-bit status. *)
Definition response_ok (r : Response) : Prop :=
  0 <= as_u16 (resp_status r) < 2 ^ 16 /\
  lenZ (render_response_head r) <= isize_max /\ lenZ (resp_body r) <= isize_max.

Hypothesis handle_ok : forall q h r h', handle q h = (Some r, h') -> response_ok r.

(** The handler applied to a sequence of requests, when it answers all of them. *)
Fixpoint run_handler (qs : list Request) (h : hst) : option (list Response * hst) :=
  match qs with
  | [] => Some ([], h)
  | q :: t =>
      match handle q h with
      | (Some r, h1) => '(rs, h2) ← run_handler t h1; Some (r :: rs, h2)
      | (None, _) => None
      end
  end.

(** The bytes that may follow the complete responses when the connection ends. *)
Definition end_tail (e : conn_end) (tail : bytes) : Prop :=
  match e with
  | EndError err r =>
      resp_status r = fst (http_error_parts err) /\ exists k, tail = take k (render_response r)
  | EndWrite _ r => exists k, tail = take k (render_response r)
  | _ => tail = []
  end.

(** The handler saw the served requests in order, then the one whose write failed or the one
    it does not answer. *)
Definition handled (h : hst) (served : list (Request * Response)) (e : conn_end) (h' : hst) : Prop :=
  match e with
  | EndWrite q r => run_handler ((fst <$> served) ++ [q]) h = Some ((snd <$> served) ++ [r], h')
  | EndHung q => exists h1, run_handler (fst <$> served) h = Some (snd <$> served, h1) /\ handle q h1 = (None, h')
  | _ => run_handler (fst <$> served) h = Some (snd <$> served, h')
  end.

(** Every exchange but the last allowed another one. *)
Definition keepalive_chain (served : list (Request * Response)) (e : conn_end) : Prop :=
  match e with
  | EndClose => exists front q r, served = front ++ [(q, r)] /\ keepalive q = false /\
                  Forall (fun x => keepalive (fst x) = true) front
  | _ => Forall (fun x => keepalive (fst x) = true) served
  end.

Lemma cm_write_spec r (h : hst) rd a s : response_ok r ->
  exists b a' s', cm_write r (h, (rd, (a, s))) = (Ok b, (h, (rd, (a', s')))) /\
    st_incoming s' = st_incoming s /\
    (if b : bool then st_sent s' = st_sent s ++ render_response r
     else exists k, st_sent s' = st_sent s ++ take k (render_response r)).
Proof.
  intros (Hs & Hh & Hb). unfold cm_write.
  pose proof (send_message_spec (response_head r) (render_response_head r) (resp_body r) a s
    (yields_response_head r Hs ltac:(unfold isize_max in *; lia)) Hh Hb) as H.
  unfold write_response. destruct (send_message _ _ (a, s)) as [o [a' s']].
  destruct H as [Hin Ho]. destruct o; try done; eauto 10.
Qed.

(** The error responses: their status is the error's and their body and headers
    the fixed texts, or less when memory is short. *)
Lemma cm_to_response_spec e (h : hst) rd a s :
  exists r a', cm_to_response e (h, (rd, (a, s))) = (Ok r, (h, (rd, (a', s)))) /\
    resp_status r = fst (http_error_parts e) /\ response_ok r.
Proof.
  unfold cm_to_response, http_error_to_response. destruct (http_error_parts e) as [status body] eqn:Ep.
  assert (forall b h, b = [] \/ b = body ->
    h = [] \/ h = [(CONTENT_TYPE, bs "text/plain")] \/ h = [(CONNECTION, bs "close")] \/
    h = [(CONTENT_TYPE, bs "text/plain"); (CONNECTION, bs "close")] ->
    response_ok (mkResponse status Http11 h b)) as Hok.
  { intros b hh Hb Hh. unfold response_ok.
    destruct e; injection Ep as <- <-; destruct Hb as [-> | ->];
      destruct Hh as [-> |[-> |[-> | ->]]]; split_and!; vm_compute; congruence. }
  unfold m_bind, m_try, m_ret.
  destruct (kv_try_cases body a) as [a1 [E1|E1]]; unfold kv_from_slice at 1; rewrite E1;
  (destruct (headers_insert_cases headers_new CONTENT_TYPE (bs "text/plain") a1) as [a2 [E2|E2]];
   rewrite E2; cbv zeta;
   match goal with |- context [headers_insert ?x CONNECTION ?c a2] =>
     destruct (headers_insert_cases x CONNECTION c a2) as [a3 [E3|E3]] end;
   rewrite E3; do 2 eexists; (split; [reflexivity|]); (split; [done|]); apply Hok; eauto).
Qed.

Lemma unread_bytes cap (w : BufReader * (ast * st)) u : reader_inv cap u (fst w) ->
  forall c w', reads cap w c w' -> exists u', reader_inv cap u' (fst w') /\
    u ++ st_incoming (snd (snd w)) = c ++ u' ++ st_incoming (snd (snd w')) /\
    st_sent (snd (snd w')) = st_sent (snd (snd w)).
Proof.
  intros Hu c w' (v & u' & Hv & Hu' & He & Hs). pose proof (reader_inv_unique _ _ _ _ Hv Hu) as ->.
  by exists u'.
Qed.

Lemma connection_loop_spec cap fuel h rd a s u :
  reader_inv cap u rd -> (length (u ++ st_incoming s) < fuel)%nat ->
  exists served e h' rd' a' s',
    connection_loop handle config fuel (h, (rd, (a, s))) = (Ok (served, e), (h', (rd', (a', s')))) /\
    handled h served e h' /\ keepalive_chain served e /\ e <> EndNoMemory /\
    exists tail, end_tail e tail /\
      st_sent s' = st_sent s ++ concat (render_response <$> (snd <$> served)) ++ tail.
Proof.
  revert h rd a s u. induction fuel as [|fuel IH]; intros h rd a s u Hu Hf; [lia|].
  cbn [connection_loop]. unfold m_bind at 1, cm_parse at 1.
  destruct (parse_request_spec cap config (rd, (a, s)) ltac:(by exists u)) as (c & Hr & Ho).
  destruct (unread_bytes cap (rd, (a, s)) u Hu _ _ Hr) as (u1 & Hu1 & Hbytes & Hsent).
  destruct (parse_request config (rd, (a, s))) as [o [rd1 [a1 s1]]]. simpl in *.
  destruct o as [q|e| | |]; try done.
  - unfold m_bind at 1, cm_handle at 1. pose proof (handle_ok q h) as Hok.
    destruct (handle q h) as [[r|] h1] eqn:Eh.
    2: { exists [], (EndHung q), h1, rd1, a1, s1. split; [done|]. split; [by exists h|]. split; [constructor|].
         split; [done|]. exists []. split; [done|]. simpl. by rewrite app_nil_r. }
    specialize (Hok r h1 eq_refl). unfold m_bind at 1.
    destruct (cm_write_spec r h1 rd1 a1 s1 Hok) as (b & a2 & s2 & -> & Hin2 & Hs2). destruct b; simpl.
    + destruct (keepalive q) eqn:Eka; simpl.
      * unfold m_bind at 1, cm_reset at 1.
        destruct (reader_reset_inv (E := Error) cap u1 rd1 Hu1) as (rd2 & -> & Hu2 & _).
        destruct (IH h1 rd2 a2 s2 u1 Hu2) as (served & e & h' & rd' & a' & s' & He & Hh & Hk & Hnm & tl & Htl & Hst).
        { rewrite Hin2. destruct Ho as (d & off & hr & _ & Hoff & -> & _).
          apply (f_equal length) in Hbytes. rewrite !length_app, length_take in Hbytes.
          rewrite !length_app in *. unfold lenZ in Hoff. lia. }
        unfold m_bind. rewrite He. exists ((q, r) :: served), e, h', rd', a', s'. split; [done|].
        split. { unfold handled in *. destruct e; rewrite !fmap_cons; cbn [app run_handler fst snd];
                 rewrite Eh; try by rewrite Hh. destruct Hh as (h0 & Hh & H0). exists h0. by rewrite Hh. }
        split. { unfold keepalive_chain in *. destruct e; try by constructor.
                 destruct Hk as (front & q0 & r0 & -> & Hq0 & Hf0). exists ((q, r) :: front), q0, r0.
                 split; [done|]. split; [done|]. by constructor. }
        split; [done|]. exists tl. split; [done|]. rewrite Hst, Hs2, Hsent. simpl. by rewrite <- !app_assoc.
      * exists [(q, r)], EndClose, h1, rd1, a2, s2. split; [done|].
        split; [unfold handled; simpl; by rewrite Eh|].
        split; [by exists [], q, r|]. split; [done|]. exists []. split; [done|].
        rewrite Hs2, Hsent. simpl. by rewrite !app_nil_r.
    + destruct Hs2 as [k Hk]. exists [], (EndWrite q r), h1, rd1, a2, s2. split; [done|].
      split; [unfold handled; simpl; by rewrite Eh|]. split; [constructor|]. split; [done|].
      eexists. split; [by exists k|]. by rewrite Hk, Hsent.
  - destruct (decide (e = ConnectionClosed)) as [->|Hne].
    + exists [], EndPeer, h, rd1, a1, s1. split; [done|]. split; [done|]. split; [constructor|].
      split; [done|]. exists []. split; [done|]. simpl. by rewrite app_nil_r.
    + destruct (cm_to_response_spec e h rd1 a1 s1) as (r & a2 & He & Hst & Hok).
      destruct (cm_write_spec r h rd1 a2 s1 Hok) as (b & a3 & s3 & Hw & Hin3 & Hs3).
      exists [], (EndError e r), h, rd1, a3, s3. split.
      { destruct e; try done; unfold m_bind; rewrite He, Hw; done. }
      split; [done|]. split; [constructor|]. split; [done|].
      assert (exists k, st_sent s3 = st_sent s1 ++ take k (render_response r)) as [k Hk].
      { destruct b; [|done]. exists (length (render_response r)). by rewrite firstn_all. }
      eexists. split; [split; [done|by exists k]|]. by rewrite Hk, Hsent.
Qed.

Lemma reader_new_cases cap a : 0 <= cap < 2 ^ 63 ->
  exists a', (exists rd, reader_new cap a = (Ok rd, a') /\ reader_inv cap [] rd) \/
             reader_new cap a = (Err AllocErr, a').
Proof.
  intros Hcap. unfold reader_new, m_bind, kv_with_capacity.
  destruct (kv_try_cases (@nil byte) a) as [a1 [-> | ->]]; [|eauto].
  destruct (kv_resize_cases (Z.to_nat cap) [] a1) as [a2 [-> | ->]]; [|eauto].
  exists a2. left. eexists. split; [done|]. split; simpl; try lia; [|done].
  unfold lenZ. rewrite length_resize. lia.
Qed.

Lemma connection_served (fuel : nat) (h : hst) (a : ast) (s : st) :
  0 <= max_header_size config < 2 ^ 63 ->
  (length (st_incoming s) < fuel)%nat ->
  exists served e h' a' s' tail,
    handle_connection handle config fuel h (a, s) = (Ok (served, e), (h', (a', s'))) /\
    handled h served e h' /\ keepalive_chain served e /\ end_tail e tail /\
    st_sent s' = st_sent s ++ concat (render_response <$> (snd <$> served)) ++ tail.
Proof.
  intros Hcap Hf. unfold handle_connection; simpl.
  destruct (reader_new_cases (max_header_size config) a Hcap) as [a1 [(rd & -> & Hrd)| ->]].
  - destruct (connection_loop_spec _ fuel h rd a1 s [] Hrd Hf)
      as (served & e & h' & rd' & a' & s' & He & Hh & Hk & _ & tl & Htl & Hs).
    rewrite He. by exists served, e, h', a', s', tl.
  - exists [], EndNoMemory, h, a1, s, []. split; [done|]. split; [done|]. split; [constructor|].
    split; [done|]. simpl. by rewrite app_nil_r.
Qed.


(** A request that is already buffered is not looked at until more bytes
    arrive: [parse_request] fills the buffer before it parses, so when the peer
    has nothing more to send the call fails with [ConnectionClosed] whatever the
    buffer holds.  A second request pipelined in the segment of the first is
    therefore never answered unless the peer sends something after it. *)
Theorem buffered_request_not_parsed (cap : Z) (rd : BufReader) (a : ast) (s : st) :
  world_inv cap (rd, (a, s)) -> st_incoming s = [] ->
  fst (parse_request config (rd, (a, s))) = Err ConnectionClosed.
Proof.
  intros [u Hu] Hin. apply (parse_request_stuck cap config u); auto.
Qed.

End ServerFacts.

(** ** From one end of the connection to the other *)
Section RoundTrip.
Context `{KE : KernelErrno, VA : VecAlloc, BS : ByteStream, HP : HttParse}.
Context {BSok : ByteStreamOk BS} {BSlive : ByteStreamLive BS} {Hgrants : AlwaysGrants VA}.

Definition version_number (v : Version) : Z := match v with Http10 => 0 | Http11 => 1 end.

(** What the parser makes of a rendered head: the parts it was rendered from. *)
Definition hp_of_response (r : Response) : HpResponse :=
  mkHpResponse (Some (as_u16 (resp_status r))) (Some (version_number (resp_version r)))
    (wire_response_headers r).
Definition hp_of_request (q : Request) (host : bytes) : HpRequest :=
  mkHpRequest (Some (method_as_str (req_method q))) (Some (req_path q))
    (Some (version_number (req_version q))) (wire_request_headers q host).

(** The documented job of [httparse] on a head: complete at its end with its parts,
    partial before it. *)
Definition recognises {R} (parse : bytes -> HpStatus R) (head : bytes) (r : R) : Prop :=
  (forall x, parse (head ++ x) = HpComplete (lenZ head) r) /\
  (forall p, p `prefix_of` head -> p <> head -> parse p = HpPartial).

Lemma content_length_dec n rest : 0 <= n < 2 ^ 64 ->
  content_length ((CONTENT_LENGTH, dec 20 n) :: rest) = Some n.
Proof.
  intros Hn. destruct (format_usize_spec (E := Error) 20 n) as (s & _ & Hd & Hval & Hdig & Hne & _).
  { change (10 ^ Z.of_nat 20) with 100000000000000000000. lia. } { lia. }
  rewrite Hd. unfold content_length. cbn [headers_get]. rewrite eq_ignore_refl.
  cbn [mbind option_bind]. rewrite is_digits_utf8 by done.
  rewrite parse_usize_digits; [by rewrite Hval|done|done|lia].
Qed.

Lemma version_number_inv v : version_from_httparse (version_number v) = v.
Proof. by destruct v. Qed.

(** C9. Response round trip: what [write_response] sends on one end,
    [parse_response] on the other end, reading it in pieces of any sizes, turns
    back into the response: same status, version and body, and the headers as
    they were on the wire; whatever follows on the connection is left for the
    next message. *)
Theorem response_roundtrip (resp : Response) (rest : bytes) (max_header max_body cap : Z)
    (rd : BufReader) (a a1 a2 : ast) (s1 s1' s2 : st) :
  recognises hp_parse_response (render_response_head resp) (hp_of_response resp) ->
  response_ok resp -> lenZ (resp_body resp) <= max_body ->
  lenZ (render_response_head resp) <= cap -> lenZ (render_response_head resp) <= max_header ->
  st_sent s1 = [] -> write_response resp (a, s1) = (Ok tt, (a1, s1')) ->
  reader_inv cap [] rd -> st_incoming s2 = st_sent s1' ++ rest ->
  exists rd' a' s2' u',
    parse_response max_header max_body (rd, (a2, s2)) =
      (Ok (mkResponse (resp_status resp) (resp_version resp) (wire_response_headers resp) (resp_body resp)),
       (rd', (a', s2'))) /\
    reader_inv cap u' rd' /\ u' ++ st_incoming s2' = rest.
Proof.
  intros [Hc Hp] (Hst & Hh & Hb) Hmax Hcap Hmh Hs1 Hw Hrd Hin.
  pose proof (lenZ_nonneg (resp_body resp)) as Hb0. unfold isize_max in *.
  pose proof (send_message_spec (response_head resp) (render_response_head resp) (resp_body resp) a s1
    (yields_response_head resp Hst ltac:(lia)) Hh Hb) as Hsend.
  unfold write_response in Hw. rewrite Hw in Hsend. destruct Hsend as [_ Hsent].
  rewrite Hs1 in Hsent. simpl in Hsent.
  assert (0 < lenZ (render_response_head resp)).
  { unfold render_response_head. rewrite lenZ_app.
    assert (0 < lenZ (version_as_str (resp_version resp))) by (by destruct (resp_version resp)).
    pose proof (lenZ_nonneg (bs " " ++ dec 5 (as_u16 (resp_status resp)) ++ bs " " ++
      reason (resp_status resp) ++ crlf ++ header_lines (wire_response_headers resp) ++ crlf)). lia. }
  destruct (parse_response_live cap max_header max_body (render_response_head resp) (resp_body resp) rest []
    (hp_of_response resp) rd a2 s2 Hc Hp) as (rd' & a' & s' & u' & He & Hu & Hr & _); try done.
  - unfold hp_of_response, wire_response_headers. simpl hpr_headers.
    rewrite content_length_dec by lia. done.
  - rewrite Hin, Hsent. by rewrite app_nil_l, <- app_assoc.
  - exists rd', a', s', u'. split; [|done]. rewrite He. simpl. rewrite version_number_inv.
    by destruct (resp_status resp).
Qed.

(** Request round trip, for a request with a body or without one: what
    [write_request] sends, [parse_request] reads back, with the [Host] header
    (and the Content-Length) in front of the request's own headers, provided
    the caller did not set headers of those names that say something else. *)
Theorem request_roundtrip (req : Request) (host rest : bytes) (config : ServerConfig) (cap : Z)
    (rd : BufReader) (a a1 a2 : ast) (s1 s1' s2 : st) :
  recognises hp_parse_request (render_request_head req host) (hp_of_request req host) ->
  lenZ (render_request_head req host) <= isize_max -> lenZ (req_body req) <= isize_max ->
  lenZ (req_body req) <= max_body_size config ->
  (req_body req = [] -> default 0 (content_length (req_headers req)) = 0) ->
  lenZ (render_request_head req host) <= cap ->
  lenZ (render_request_head req host) <= max_header_size config ->
  st_sent s1 = [] -> write_request req host (a, s1) = (Ok tt, (a1, s1')) ->
  reader_inv cap [] rd -> st_incoming s2 = st_sent s1' ++ rest ->
  exists rd' a' s2' u',
    parse_request config (rd, (a2, s2)) =
      (Ok (mkRequest (req_method req) (req_path req) (req_version req)
             (wire_request_headers req host) (req_body req)),
       (rd', (a', s2'))) /\
    reader_inv cap u' rd' /\ u' ++ st_incoming s2' = rest.
Proof.
  intros [Hc Hp] Hh Hb Hmax Hcl Hcap Hmh Hs1 Hw Hrd Hin.
  pose proof (lenZ_nonneg (req_body req)) as Hb0. unfold isize_max in *.
  pose proof (send_message_spec (request_head req host) (render_request_head req host) (req_body req) a s1
    (yields_request_head req host ltac:(lia)) Hh Hb) as Hsend.
  unfold write_request in Hw. rewrite Hw in Hsend. destruct Hsend as [_ Hsent].
  rewrite Hs1 in Hsent. simpl in Hsent.
  assert (lenZ (@nil byte) < lenZ (render_request_head req host)) as Hlt.
  { rewrite lenZ_nil. unfold render_request_head. rewrite lenZ_app.
    assert (0 < lenZ (method_as_str (req_method req))) by (by destruct (req_method req)).
    pose proof (lenZ_nonneg (bs " " ++ req_path req ++ bs " " ++ version_as_str (req_version req) ++ crlf ++
      header_lines (wire_request_headers req host) ++ crlf)). lia. }
  assert ([] ++ st_incoming s2 = render_request_head req host ++ req_body req ++ rest) as Heq.
  { rewrite Hin, Hsent. by rewrite app_nil_l, <- app_assoc. }
  destruct (short_fillable (@nil byte) _ _ _ cap Heq Hlt Hcap) as [Hroom Hne].
  destruct (parse_request_live cap config (render_request_head req host) (req_body req) rest []
    (hp_of_request req host) (req_method req) rd a2 s2 Hc Hp) as (rd' & a' & s' & u' & He & Hu & Hr & _); try done.
  - apply method_parse_as_str.
  - unfold hp_of_request, wire_request_headers. simpl hp_headers.
    assert (forall v t, content_length ((HOST, v) :: t) = content_length t) as Hhost by done.
    rewrite Hhost. case_bool_decide as Hbody.
    + rewrite Hbody. by apply Hcl.
    + cbn [app]. rewrite content_length_dec by lia. done.
  - exists rd', a', s', u'. split; [|done]. rewrite He. simpl. by rewrite version_number_inv.
Qed.

End RoundTrip.

(** ** Ownership of the server's sockets *)
Section AcceptFacts.
Context `{KE : KernelErrno, VA : VecAlloc, KN : KernelNet, KW : !KernelWait, EX : !ExecutorSpawn}.
Context {KWok : KernelWaitOk KW} {KNopen : KernelNetOpen KN} {EXok : ExecutorSpawnOk EX}.

Lemma async_accept_owns polls l w :
  let '(r, w') := async_accept polls l w in r = Pending \/ owns_result (aw_net w) (r, aw_net w').
Proof.
  unfold async_accept.
  opose proof* (sf_await_spec (fun k => k_open k = k_open (aw_net w))
    (fun (r : res Error sock) k => match r with
       | Ok so => k_open k = so :: k_open (aw_net w)
       | Err _ => k_open k = k_open (aw_net w) | _ => False end)
    polls l POLLIN (listener_accept l false) w) as H.
  - intros k Hk. by rewrite wait_open.
  - intros k Hk. pose proof (listener_accept_owns l false k) as Ho. unfold owns_result in Ho.
    destruct (listener_accept l false k) as [[so|e| | |] k']; simpl in Ho; try done.
    + by rewrite Ho, Hk.
    + split; congruence.
  - done.
  - done.
  - destruct (sf_await _ _ _ _ w) as [r w']. destruct H as [H|H]; [by left|]. right.
    unfold owns_result. simpl. by destruct r.
Qed.

(** The accept loop accounts for every connection: when it returns, the open
    sockets are those that were open before plus exactly the connections whose
    task was spawned; a connection whose task could not be spawned has been
    closed. *)
Theorem accept_loop_accounts (fuel polls : nat) (l : sock) (w w' : AsyncWorld) (spawned : list sock) :
  accept_loop fuel polls l w = (Ok spawned, w') ->
  k_open (aw_net w') = rev spawned ++ k_open (aw_net w).
Proof.
  revert w spawned. induction fuel as [|fuel IH]; intros w spawned He; [done|].
  cbn [accept_loop] in He. pose proof (async_accept_owns polls l w) as Ho.
  destruct (async_accept polls l w) as [[so|e| | |] w1]; try done; destruct Ho as [|Ho]; try done;
    unfold owns_result in Ho; simpl in Ho.
  - pose proof (spawn_net w1) as Hn. pose proof (spawn_settles w1) as Hs.
    destruct (exec_spawn w1) as [[u|e| | |] w2]; try done; simpl in Hn.
    + unfold m_bind in He. destruct (accept_loop fuel polls l w2) as [[rest|e| | |] w3] eqn:E; try done.
      unfold m_ret in He. injection He as <- <-. rewrite (IH _ _ E), Hn, Ho. simpl. by rewrite <- app_assoc.
    + rewrite (IH _ _ He). f_equal. simpl. apply release_open. by rewrite Hn.
  - injection He as <- <-. done.
Qed.

(** Starting the server owns the listening socket exactly when it succeeds:
    a bind, listen, allocation or spawn failure leaves no socket behind. *)
Theorem start_inner_owns (addr : SocketAddr) (w : AsyncWorld) :
  let '(r, w') := start_inner addr w in owns_result (aw_net w) (r, aw_net w').
Proof.
  unfold start_inner, on_net. pose proof (listener_try_new_owns addr (aw_net w)) as Ho.
  destruct (listener_try_new addr (aw_net w)) as [[l|e| | |] k1]; try done.
  unfold owns_result in *. simpl in Ho. unfold aw_arc_new.
  destruct (kv_try_cases tt (aw_alloc (mkAW VA KN (aw_alloc w) k1 (aw_queued w) (aw_cbs w)))) as [a [-> | ->]];
    simpl; [|by apply release_open].
  pose proof (spawn_net (mkAW VA KN a k1 (aw_queued w) (aw_cbs w))) as Hn.
  pose proof (spawn_settles (mkAW VA KN a k1 (aw_queued w) (aw_cbs w))) as Hs.
  destruct (exec_spawn _) as [[u|e| | |] w3]; try done; simpl in *; rewrite Hn.
  - done.
  - apply release_open. done.
Qed.

End AcceptFacts.

(** ** Witnesses *)
Definition sample_answer : Response := mkResponse OK Http11 [(CONTENT_TYPE, bs "text/plain")] (bs "hi").
Definition sample_question : Request := mkRequest Post (bs "/a") Http11 [(ACCEPT, bs "x")] (bs "abc").
Definition count_handler (q : Request) (n : nat) : option Response * nat := (Some sample_answer, S n).

Lemma sample_answer_ok : response_ok sample_answer.
Proof. split_and!; vm_compute; congruence. Qed.

Lemma write_response_wire_witness :
  let '(o, (_, s')) := @write_response linux_errno unit_alloc scripted sample_answer (tt, mkScript [] [] []) in
  @st_incoming scripted s' = [] /\
  match o with
  | Ok _ => @st_sent scripted s' = render_response_head sample_answer ++ bs "hi"
  | Err _ => exists k, @st_sent scripted s' = take k (render_response_head sample_answer ++ bs "hi")
  | _ => False
  end.
Proof.
  apply (@write_response_wire linux_errno unit_alloc scripted _ sample_answer tt (mkScript [] [] []));
    vm_compute; try split; congruence.
Defined.

Lemma write_request_wire_witness :
  let '(o, (_, s')) := @write_request linux_errno unit_alloc scripted sample_question (bs "h") (tt, mkScript [] [] []) in
  @st_incoming scripted s' = [] /\
  match o with
  | Ok _ => @st_sent scripted s' = render_request_head sample_question (bs "h") ++ bs "abc"
  | Err _ => exists k, @st_sent scripted s' = take k (render_request_head sample_question (bs "h") ++ bs "abc")
  | _ => False
  end.
Proof.
  apply (@write_request_wire linux_errno unit_alloc scripted _ sample_question (bs "h") tt (mkScript [] [] []));
    vm_compute; congruence.
Defined.


(** Two requests in one segment: the reader holds the second one in full. *)
Definition pipelined_reader : BufReader := mkReader (sample_head ++ bs "abc" ++ replicate 20 x00) 0 42.

Lemma buffered_request_not_parsed_witness :
  world_inv (BS := scripted) (VA := unit_alloc) 62 (pipelined_reader, (tt, mkScript [] [] [])) /\
  fst (@parse_request linux_errno unit_alloc scripted sample_parser default_config
         (pipelined_reader, (tt, mkScript [] [] []))) = Err ConnectionClosed.
Proof.
  assert (world_inv (BS := scripted) (VA := unit_alloc) 62 (pipelined_reader, (tt, mkScript [] [] []))) as Hw.
  { eexists. split; try reflexivity; vm_compute; try split; congruence. }
  split; [exact Hw|].
  apply (@buffered_request_not_parsed linux_errno unit_alloc scripted sample_parser _ default_config 62
    pipelined_reader tt (mkScript [] [] []) Hw). reflexivity.
Defined.

Definition answer_parser : HttParse := {|
  hp_parse_request := one_head (render_request_head sample_question (bs "h")) (hp_of_request sample_question (bs "h"));
  hp_parse_response := one_head (render_response_head sample_answer) (hp_of_response sample_answer) |}.

Lemma one_head_recognises {R} h (r : R) : recognises (one_head h r) h r.
Proof. split; [apply one_head_complete|apply one_head_partial]. Qed.

Lemma response_roundtrip_witness :
  exists rd' a' s2' u',
    @parse_response linux_errno unit_alloc scripted answer_parser 200 10
      (empty_reader 200, (tt, mkScript (render_response sample_answer ++ bs "more") [3; 0; 7]%nat [])) =
      (Ok (mkResponse OK Http11 (wire_response_headers sample_answer) (bs "hi")), (rd', (a', s2'))) /\
    reader_inv 200 u' rd' /\ u' ++ @st_incoming scripted s2' = bs "more".
Proof.
  apply (@response_roundtrip linux_errno unit_alloc scripted answer_parser _ _ _
    sample_answer (bs "more") 200 10 200 (empty_reader 200) tt tt tt
    (mkScript [] [] []) (mkScript [] [] (render_response sample_answer))
    (mkScript (render_response sample_answer ++ bs "more") [3; 0; 7]%nat [])).
  - apply one_head_recognises.
  - apply sample_answer_ok.
  - vm_compute. congruence.
  - vm_compute. congruence.
  - vm_compute. congruence.
  - reflexivity.
  - vm_compute. reflexivity.
  - by apply (empty_reader_inv 200).
  - reflexivity.
Defined.

Lemma request_roundtrip_witness :
  exists rd' a' s2' u',
    @parse_request linux_errno unit_alloc scripted answer_parser default_config
      (empty_reader 200, (tt, mkScript (render_request_head sample_question (bs "h") ++ bs "abcX") [9; 50]%nat [])) =
      (Ok (mkRequest Post (bs "/a") Http11 (wire_request_headers sample_question (bs "h")) (bs "abc")), (rd', (a', s2'))) /\
    reader_inv 200 u' rd' /\ u' ++ @st_incoming scripted s2' = bs "X".
Proof.
  apply (@request_roundtrip linux_errno unit_alloc scripted answer_parser _ _ _
    sample_question (bs "h") (bs "X") default_config 200 (empty_reader 200) tt tt tt
    (mkScript [] [] []) (mkScript [] [] (render_request_head sample_question (bs "h") ++ bs "abc"))
    (mkScript (render_request_head sample_question (bs "h") ++ bs "abcX") [9; 50]%nat [])).
  - apply one_head_recognises.
  - vm_compute. congruence.
  - vm_compute. congruence.
  - vm_compute. congruence.
  - discriminate.
  - vm_compute. congruence.
  - vm_compute. congruence.
  - reflexivity.
  - vm_compute. reflexivity.
  - by apply (empty_reader_inv 200).
  - reflexivity.
Defined.

Definition toy_exec : @ExecutorSpawn const_alloc toy := @Build_ExecutorSpawn const_alloc toy (fun w => (Ok tt, w)).
#[global] Instance toy_exec_ok : ExecutorSpawnOk toy_exec.
Proof. by split. Qed.

Lemma accept_loop_accounts_witness :
  let w := toy_world in
  let o := @accept_loop linux_errno const_alloc toy toy_wait toy_exec 3 2 7%nat w in
  o = (Ok [1%nat], snd o) /\ @k_open toy (aw_net (snd o)) = rev [1%nat] ++ @k_open toy (aw_net w).
Proof.
  split; [vm_compute; reflexivity|].
  apply (@accept_loop_accounts linux_errno const_alloc toy toy_wait toy_exec _ _ _ 3 2 7%nat toy_world).
  vm_compute. reflexivity.
Defined.

Lemma start_inner_owns_witness :
  let '(r, w') := @start_inner linux_errno const_alloc toy toy_exec (new_v4 Ipv4_ANY 80) toy_world in
  owns_result (KN := toy) (aw_net toy_world) (r, aw_net w').
Proof. apply (@start_inner_owns linux_errno const_alloc toy toy_exec _ _ (new_v4 Ipv4_ANY 80) toy_world). Defined.
