(* ===== verification/HttpUring.v ===== *)
(** * The io_uring HTTP API (rko-util/src/http/uring.rs)

    [HttpUringHandler] as one record: queues, routes, pending requests, the id
    counters, and the oneshot channels its senders belong to.  Each of the eight
    commands and the two halves of the bridge handler is a function on the
    record, the allocator and the user's memory; [ustep] interleaves them.  The
    user-memory helpers and the server start are interfaces. *)
From Stdlib Require Import ZArith Lia Bool.
From Stdlib.Strings Require Import Byte String.
From stdpp Require Import base list option numbers sorting sets.
From S2P Require Import Prelude Errors KVec Net HttpTypes.

(** ** Command opcodes and payloads *)
Definition HTTP_CMD_SERVER_START : Z := 0.
Definition HTTP_CMD_SERVER_STOP : Z := 1.
Definition HTTP_CMD_CREATE_QUEUE : Z := 2.
Definition HTTP_CMD_DESTROY_QUEUE : Z := 3.
Definition HTTP_CMD_ADD_URL : Z := 4.
Definition HTTP_CMD_REMOVE_URL : Z := 5.
Definition HTTP_CMD_RECV_REQUEST : Z := 6.
Definition HTTP_CMD_SEND_RESPONSE : Z := 7.

(** [cmd_data::<T>]: the fields of the [repr(C)] payloads at their offsets in the
    80-byte command area. *)
Definition fld (cmd : bytes) (off n : nat) : Z := le_decode (take n (drop off cmd)).

Record CmdServerAddr : Type := mkServerAddr { sa_addr : Z; sa_port : Z }.
Definition read_server_addr (c : bytes) : CmdServerAddr := mkServerAddr (fld c 0 4) (fld c 4 2).
Record CmdUrl : Type := mkCmdUrl { url_queue_id : Z; url_len : Z; url_addr : Z }.
Definition read_cmd_url (c : bytes) : CmdUrl := mkCmdUrl (fld c 0 4) (fld c 4 4) (fld c 8 8).
Record CmdRecvRequest : Type := mkCmdRecv { rr_queue_id : Z; rr_buf_len : Z; rr_buf_addr : Z }.
Definition read_cmd_recv (c : bytes) : CmdRecvRequest := mkCmdRecv (fld c 0 4) (fld c 4 4) (fld c 8 8).
Record CmdSendResponse : Type := mkCmdSend {
  sr_req_id : Z; sr_status_code : Z; sr_header_count : Z; sr_body_len : Z; sr_buf_addr : Z }.
Definition read_cmd_send (c : bytes) : CmdSendResponse :=
  mkCmdSend (fld c 0 8) (fld c 8 2) (fld c 10 2) (fld c 12 4) (fld c 16 8).

(** ** State *)

(** The async oneshot channel as its two ends see it (see [Oneshot]). *)
Inductive chan : Type := ChEmpty | ChSent (r : Response) | ChClosed.

Record RequestQueue : Type := mkQueue {
  q_id : Z; q_max_pending : Z; q_buffered : list (Z * bytes) }.

Record Handler : Type := mkHandler {
  hu_queues : list (Z * RequestQueue);
  hu_routes : list (bytes * Z);
  hu_pending : list (Z * nat);        (** request id, sender's channel *)
  hu_next_req : Z;
  hu_next_queue : Z;
  hu_server : bool;
  hu_executor : option nat;           (** the executor whose handle is held *)
  hu_running : list nat;              (** executors that have not been stopped *)
  hu_next_exec : nat;
  hu_chans : list chan }.

Definition handler_new : Handler := mkHandler [] [] [] 1 1 false None [] 0 [].

Definition set_queues q (H : Handler) := mkHandler q (hu_routes H) (hu_pending H) (hu_next_req H)
  (hu_next_queue H) (hu_server H) (hu_executor H) (hu_running H) (hu_next_exec H) (hu_chans H).
Definition set_routes r (H : Handler) := mkHandler (hu_queues H) r (hu_pending H) (hu_next_req H)
  (hu_next_queue H) (hu_server H) (hu_executor H) (hu_running H) (hu_next_exec H) (hu_chans H).
Definition set_pending p (H : Handler) := mkHandler (hu_queues H) (hu_routes H) p (hu_next_req H)
  (hu_next_queue H) (hu_server H) (hu_executor H) (hu_running H) (hu_next_exec H) (hu_chans H).
Definition set_next_req n (H : Handler) := mkHandler (hu_queues H) (hu_routes H) (hu_pending H) n
  (hu_next_queue H) (hu_server H) (hu_executor H) (hu_running H) (hu_next_exec H) (hu_chans H).
Definition set_next_queue n (H : Handler) := mkHandler (hu_queues H) (hu_routes H) (hu_pending H)
  (hu_next_req H) n (hu_server H) (hu_executor H) (hu_running H) (hu_next_exec H) (hu_chans H).
Definition set_server s e r n (H : Handler) := mkHandler (hu_queues H) (hu_routes H) (hu_pending H)
  (hu_next_req H) (hu_next_queue H) s e r n (hu_chans H).
Definition set_chans c (H : Handler) := mkHandler (hu_queues H) (hu_routes H) (hu_pending H)
  (hu_next_req H) (hu_next_queue H) (hu_server H) (hu_executor H) (hu_running H) (hu_next_exec H) c.

(** [copy_to_user], [copy_from_user] (bytes left uncopied, and the data) and a
    plain load from a user address, which may fault. *)
Class UserMem := {
  umem : Type;
  copy_to_user : Z -> bytes -> umem -> Z * umem;
  copy_from_user : Z -> Z -> umem -> Z * bytes;
  user_load : Z -> Z -> umem -> option bytes
}.

(** [HttpServer::start_on] with the bridge handler, as the command sees it. *)
Class ServerStart `{VA : VecAlloc} := {
  start_on : SocketAddr -> M ast Error unit
}.

(** A vector with [cap] slots reserved: a push within the capacity does not
    allocate ([vec_push_room]); beyond it the allocator decides. *)
Definition kv_push_ignored `{VA : VecAlloc} {T} (b : nat * list T) (x : T) (a : ast)
    : (nat * list T) * ast :=
  let '(cap, l) := b in
  if bool_decide (length l < cap)%nat then ((cap, l ++ [x]), a)
  else match kv_push l x a with
       | (Ok l', a') => ((Nat.max 1 (cap * 2), l'), a')
       | (_, a') => (b, a')
       end.
Fixpoint kv_push_all_ignored `{VA : VecAlloc} {T} (b : nat * list T) (xs : list T) (a : ast)
    : (nat * list T) * ast :=
  match xs with
  | [] => (b, a)
  | x :: t => let '(b', a') := kv_push_ignored b x a in kv_push_all_ignored b' t a'
  end.

(** ** Route sorting and lookup *)
Section Routes.
#[local] Abbreviation rt := (bytes * Z)%type.

(** [routes.swap(j, j - 1)]. *)
Definition swap_adjacent (j : nat) (l : list rt) : list rt :=
  match l !! j, l !! (j - 1)%nat with
  | Some a, Some b => <[(j - 1)%nat := a]> (<[j := b]> l)
  | _, _ => l
  end.

(** The inner [while] loop. *)
Fixpoint bubble (j : nat) (l : list rt) : list rt :=
  match j with
  | O => l
  | S j' =>
      match l !! j, l !! j' with
      | Some a, Some b =>
          if bool_decide (length (fst b) < length (fst a))%nat
          then bubble j' (swap_adjacent j l) else l
      | _, _ => l
      end
  end.

(** The outer [for i in 1..len]. *)
Definition sort_routes (l : list rt) : list rt :=
  foldl (fun l i => bubble i l) l (seq 1 (length l - 1)).

(** [HttpUringHandler::route]. *)
Definition route_matches (path : bytes) (r : rt) : bool :=
  if bool_decide (fst r = bs "/*") then true else starts_with path (fst r).
Definition route (path : bytes) (routes : list rt) : option Z :=
  snd <$> (list_find (fun r => route_matches path r = true) routes ≫= fun '(_, r) => Some r).

End Routes.

(** ** Serialisation *)
Definition method_to_u8 (m : Method) : Z :=
  match m with
  | Get => 0 | Head => 1 | Post => 2 | Put => 3 | Delete => 4 | Options => 5 | Patch => 6
  end.
Definition version_to_u8 (v : Version) : Z := match v with Http10 => 10 | Http11 => 11 end.

(** [RequestHdr] and [HeaderEntry] in memory. *)
Definition request_hdr (req_id method version header_count path_len body_len total_len : Z) : bytes :=
  le_encode 8 req_id ++ le_encode 1 method ++ le_encode 1 version ++ le_encode 2 header_count ++
  le_encode 4 path_len ++ le_encode 4 body_len ++ le_encode 4 total_len.
Definition header_entry (name_len value_len : Z) : bytes :=
  le_encode 2 name_len ++ le_encode 2 value_len.

Definition headers_size (h : Headers) : Z :=
  foldl (fun acc '(n, v) => wrap 64 (acc + (4 + lenZ n + lenZ v))) 0 h.
Definition serialized_total (req : Request) : Z :=
  wrap 64 (24 + lenZ (req_path req) + headers_size (req_headers req) + lenZ (req_body req)).

Section Uring.
Context `{KE : KernelErrno, VA : VecAlloc, UM : UserMem, SS : !ServerStart}.

Fixpoint push_headers (b : nat * bytes) (h : Headers) (a : ast) : (nat * bytes) * ast :=
  match h with
  | [] => (b, a)
  | (n, v) :: t =>
      let '(b, a) := kv_push_all_ignored b (header_entry (wrap 16 (lenZ n)) (wrap 16 (lenZ v))) a in
      let '(b, a) := kv_push_all_ignored b n a in
      let '(b, a) := kv_push_all_ignored b v a in
      push_headers b t a
  end.

Definition serialize_request (req_id : Z) (req : Request) : M ast Error bytes :=
  let total := serialized_total req in
  _ <-! m_map_err (fun _ => ENOMEM) (kv_with_capacity (T := byte));;
  fun a =>
    let hdr := request_hdr req_id (method_to_u8 (req_method req)) (version_to_u8 (req_version req))
      (wrap 16 (lenZ (req_headers req))) (wrap 32 (lenZ (req_path req)))
      (wrap 32 (lenZ (req_body req))) (wrap 32 total) in
    let '(b, a) := kv_push_all_ignored (Z.to_nat total, []) hdr a in
    let '(b, a) := kv_push_all_ignored b (req_path req) a in
    let '(b, a) := push_headers b (req_headers req) a in
    let '(b, a) := kv_push_all_ignored b (req_body req) a in
    (Ok (snd b), a).

(** ** The commands *)
Definition UW : Type := Handler * (ast * umem).
#[local] Abbreviation CMD := (UW -> res Error Z * UW).

Definition errno_ret (e : Error) : res Error Z := Ok (to_errno e).
Definition has_id {A} (id : Z) (x : Z * A) : bool := fst x =? id.

Definition server_addr (p : CmdServerAddr) : SocketAddr :=
  let raw := to_be 4 (sa_addr p) in
  new_v4 (Ipv4_new (z2b (Z.shiftr raw 24)) (z2b (Z.shiftr raw 16)) (z2b (Z.shiftr raw 8)) (z2b raw))
         (to_be 2 (sa_port p)).

(** Dropping the handle of an executor stops it. *)
Definition stop_executor (held : option nat) (running : list nat) : list nat :=
  match held with
  | Some e => filter (fun x => x <> e) running
  | None => running
  end.

(** [cmd_server_start]: replacing the executor handle stops the executor it held. *)
Definition cmd_server_start (c : bytes) : CMD :=
  fun '(H, (a, u)) =>
    let addr := server_addr (read_server_addr c) in
    let exec := hu_next_exec H in
    match kv_try tt a with
    | (Ok _, a1) =>
        match kv_try tt a1 with
        | (Ok _, a2) =>
            match start_on addr a2 with
            | (Ok _, a3) =>
                (Ok 0, (set_server true (Some exec) (exec :: stop_executor (hu_executor H) (hu_running H))
                                   (S exec) H, (a3, u)))
            | (Err e, a3) => (errno_ret e, (H, (a3, u)))
            | (Panic, a3) => (Panic, (H, (a3, u)))
            | (Ub, a3) => (Ub, (H, (a3, u)))
            | (Pending, a3) => (Pending, (H, (a3, u)))
            end
        | (_, a2) => (errno_ret ENOMEM, (H, (a2, u)))
        end
    | (_, a1) => (errno_ret ENOMEM, (H, (a1, u)))
    end.

Definition cmd_server_stop : CMD :=
  fun '(H, w) =>
    (Ok 0, (set_server false None (stop_executor (hu_executor H) (hu_running H)) (hu_next_exec H) H, w)).

Definition cmd_create_queue (c : bytes) : CMD :=
  fun '(H, (a, u)) =>
    let p := fld c 0 4 in
    let max_pending := if p =? 0 then 256 else p in
    let id := hu_next_queue H in
    let H1 := set_next_queue (wrap 32 (id + 1)) H in
    match kv_push (hu_queues H1) (id, mkQueue id max_pending []) a with
    | (Ok qs, a') => (Ok (sext 32 id), (set_queues qs H1, (a', u)))
    | (_, a') => (errno_ret ENOMEM, (H1, (a', u)))
    end.

Definition cmd_destroy_queue (c : bytes) : CMD :=
  fun '(H, w) =>
    match position (has_id (fld c 0 4)) (hu_queues H) with
    | Some i => (Ok 0, (set_queues (remove_at i (hu_queues H)) H, w))
    | None => (errno_ret ENOENT, (H, w))
    end.

Definition cmd_add_url (c : bytes) : CMD :=
  fun '(H, (a, u)) =>
    let p := read_cmd_url c in
    if negb (existsb (has_id (url_queue_id p)) (hu_queues H)) then (errno_ret ENOENT, (H, (a, u)))
    else
      match kv_with_capacity (T := byte) a with
      | (Ok _, a1) =>
          match user_load (url_addr p) (url_len p) u with
          | None => (Ub, (H, (a1, u)))
          | Some src =>
              let '((_, url_buf), a2) := kv_push_all_ignored (Z.to_nat (url_len p), []) src a1 in
              if existsb (fun r => bool_decide (fst r = url_buf)) (hu_routes H)
              then (errno_ret EEXIST, (H, (a2, u)))
              else
                match kv_push (hu_routes H) (url_buf, url_queue_id p) a2 with
                | (Ok rs, a3) => (Ok 0, (set_routes (sort_routes rs) H, (a3, u)))
                | (_, a3) => (errno_ret ENOMEM, (H, (a3, u)))
                end
          end
      | (_, a1) => (errno_ret ENOMEM, (H, (a1, u)))
      end.

Definition cmd_remove_url (c : bytes) : CMD :=
  fun '(H, (a, u)) =>
    let p := read_cmd_url c in
    match user_load (url_addr p) (url_len p) u with
    | None => (Ub, (H, (a, u)))
    | Some url =>
        match position (fun r => bool_decide (fst r = url)) (hu_routes H) with
        | Some i => (Ok 0, (set_routes (remove_at i (hu_routes H)) H, (a, u)))
        | None => (errno_ret ENOENT, (H, (a, u)))
        end
    end.

(** Replace the contents of the first queue with the given id. *)
Fixpoint update_queue (id : Z) (b : list (Z * bytes)) (qs : list (Z * RequestQueue)) :=
  match qs with
  | [] => []
  | (i, q) :: t =>
      if i =? id then (i, mkQueue (q_id q) (q_max_pending q) b) :: t
      else (i, q) :: update_queue id b t
  end.
(** [queues.iter_mut().find(|(id, _)| *id == queue_id)]. *)
Fixpoint find_queue (id : Z) (qs : list (Z * RequestQueue)) : option RequestQueue :=
  match qs with
  | [] => None
  | (i, q) :: t => if i =? id then Some q else find_queue id t
  end.

Definition cmd_recv_request (c : bytes) : CMD :=
  fun '(H, (a, u)) =>
    let p := read_cmd_recv c in
    match find_queue (rr_queue_id p) (hu_queues H) with
    | Some q =>
        match q_buffered q with
        | [] => (errno_ret EAGAIN, (H, (a, u)))
        | (_, data) :: rest =>
            let H' := set_queues (update_queue (rr_queue_id p) rest (hu_queues H)) H in
            let copy_len := Z.min (lenZ data) (rr_buf_len p) in
            let '(pending, u') := copy_to_user (rr_buf_addr p) (take (Z.to_nat copy_len) data) u in
            if pending =? 0 then (Ok (sext 32 copy_len), (H', (a, u')))
            else (errno_ret EFAULT, (H', (a, u')))
        end
    | None => (errno_ret ENOENT, (H, (a, u)))
    end.

(** A sender that goes away: its channel is closed. *)
Definition chan_close (ch : nat) (H : Handler) : Handler := set_chans (<[ch := ChClosed]> (hu_chans H)) H.
Definition chan_send (ch : nat) (r : Response) (H : Handler) : Handler :=
  set_chans (<[ch := ChSent r]> (hu_chans H)) H.

Definition cmd_send_response (c : bytes) : CMD :=
  fun '(H, (a, u)) =>
    let p := read_cmd_send c in
    match position (has_id (sr_req_id p)) (hu_pending H) with
    | None => (errno_ret ENOENT, (H, (a, u)))
    | Some i =>
        match hu_pending H !! i with
        | None => (Panic, (H, (a, u)))
        | Some (_, ch) =>
            let H1 := set_pending (remove_at i (hu_pending H)) H in
            let status := mkStatus (sr_status_code p) in
            let finish body a := (Ok 0, (chan_send ch (mkResponse status Http11 headers_new body) H1, (a, u))) in
            if (0 <? sr_body_len p) && negb (sr_buf_addr p =? 0) then
              match kv_with_capacity (T := byte) a with
              | (Ok _, a1) =>
                  let '(pending_bytes, body) := copy_from_user (sr_buf_addr p) (sr_body_len p) u in
                  if pending_bytes =? 0 then finish body a1
                  else (errno_ret EFAULT, (chan_close ch H1, (a1, u)))
              | (_, a1) => (errno_ret ENOMEM, (chan_close ch H1, (a1, u)))
              end
            else finish [] a
        end
    end.

(** [dispatch]. *)
Definition dispatch (op : Z) (c : bytes) : CMD :=
  if op =? HTTP_CMD_SERVER_START then cmd_server_start c
  else if op =? HTTP_CMD_SERVER_STOP then cmd_server_stop
  else if op =? HTTP_CMD_CREATE_QUEUE then cmd_create_queue c
  else if op =? HTTP_CMD_DESTROY_QUEUE then cmd_destroy_queue c
  else if op =? HTTP_CMD_ADD_URL then cmd_add_url c
  else if op =? HTTP_CMD_REMOVE_URL then cmd_remove_url c
  else if op =? HTTP_CMD_RECV_REQUEST then cmd_recv_request c
  else if op =? HTTP_CMD_SEND_RESPONSE then cmd_send_response c
  else fun w => (errno_ret EINVAL, w).

(** ** The bridge handler *)

(** [enqueue_serialized]: a pending entry that cannot be stored drops its sender. *)
Definition enqueue_serialized (queue_id req_id : Z) (data : bytes) (ch : nat) : Handler * ast -> Handler * ast :=
  fun '(H, a) =>
    let '(H1, a1) :=
      match kv_push (hu_pending H) (req_id, ch) a with
      | (Ok ps, a') => (set_pending ps H, a')
      | (_, a') => (chan_close ch H, a')
      end in
    match find_queue queue_id (hu_queues H1) with
    | Some q =>
        if wrap 32 (lenZ (q_buffered q)) <? q_max_pending q then
          match kv_push (q_buffered q) (req_id, data) a1 with
          | (Ok b, a2) => (set_queues (update_queue queue_id b (hu_queues H1)) H1, a2)
          | (_, a2) => (H1, a2)
          end
        else (H1, a1)
    | None => (H1, a1)
    end.

(** [UringBridgeHandler::handle] up to its [rx.await]: the answer it gives at once,
    or the channel it waits on. *)
Definition empty_response (s : StatusCode) : Response := mkResponse s Http11 headers_new [].
Definition bridge_start (req : Request) : Handler * ast -> (Response + nat) * (Handler * ast) :=
  fun '(H, a) =>
    let req_id := hu_next_req H in
    let H1 := set_next_req (wrap 64 (req_id + 1)) H in
    let queue_id := route (req_path req) (hu_routes H1) in
    let '(serialized, a1) := serialize_request req_id req a in
    match queue_id with
    | None => (inl (empty_response NOT_FOUND), (H1, a1))
    | Some qid =>
        match serialized with
        | Ok data =>
            match kv_try tt a1 with
            | (Ok _, a2) =>
                let ch := length (hu_chans H1) in
                let H2 := set_chans (hu_chans H1 ++ [ChEmpty]) H1 in
                (inr ch, enqueue_serialized qid req_id data ch (H2, a2))
            | (_, a2) => (inl (empty_response INTERNAL_SERVER_ERROR), (H1, a2))
            end
        | _ => (inl (empty_response INTERNAL_SERVER_ERROR), (H1, a1))
        end
    end.

(** The await of the receiver: the response, or none while it is pending. *)
Definition bridge_poll (ch : nat) (H : Handler) : option Response :=
  match hu_chans H !! ch with
  | Some (ChSent r) => Some r
  | Some ChClosed => Some (empty_response GATEWAY_TIMEOUT)
  | _ => None
  end.

(** ** Interleaving: commands and incoming requests in any order *)
Inductive uevent : Type :=
| EvCmd (op : Z) (c : bytes)
| EvRequest (req : Request).

Definition ustep (e : uevent) : UW -> UW :=
  fun '(H, (a, u)) =>
    match e with
    | EvCmd op c => snd (dispatch op c (H, (a, u)))
    | EvRequest req => let '(H', a') := snd (bridge_start req (H, a)) in (H', (a', u))
    end.
Definition urun (es : list uevent) (w : UW) : UW := foldl (fun w e => ustep e w) w es.

End Uring.

(** ** Routes stay sorted by decreasing length *)
Section RouteFacts.
#[local] Abbreviation rt := (bytes * Z)%type.
Definition longer (a b : rt) : Prop := (length (fst b) <= length (fst a))%nat.
Definition routes_sorted (l : list rt) : Prop := StronglySorted longer l.

(** Insertion of [x] into a reversed prefix: what the inner loop computes. *)
Fixpoint ins (x : rt) (l : list rt) : list rt :=
  match l with
  | [] => [x]
  | y :: t => if bool_decide (length (fst y) < length (fst x))%nat then y :: ins x t else x :: y :: t
  end.

Lemma bubble_ins pre x post : bubble (length pre) (pre ++ x :: post) = rev (ins x (rev pre)) ++ post.
Proof.
  revert x post. induction pre as [|y p IH] using rev_ind; intros x post; [done|].
  rewrite length_app. cbn [length]. rewrite Nat.add_1_r, <- app_assoc. cbn [app bubble].
  rewrite lookup_app_r by lia. replace (S (length p) - length p)%nat with 1%nat by lia.
  rewrite (list_lookup_middle p (x :: post) y) by done. cbn [lookup list_lookup].
  rewrite rev_app_distr. cbn [rev app ins].
  case_bool_decide as Hlt.
  - unfold swap_adjacent. rewrite lookup_app_r by lia.
    replace (S (length p) - length p)%nat with 1%nat by lia.
    replace (S (length p) - 1)%nat with (length p) by lia.
    rewrite (list_lookup_middle p (x :: post) y) by done. cbn [lookup list_lookup].
    rewrite insert_app_r_alt by lia. replace (S (length p) - length p)%nat with 1%nat by lia.
    rewrite insert_app_r_alt by lia. rewrite Nat.sub_diag. cbn.
    rewrite IH. cbn [rev]. by rewrite <- app_assoc.
  - cbn [rev]. rewrite rev_involutive. by rewrite <- !app_assoc.
Qed.

Lemma StronglySorted_snoc {A} (R : A -> A -> Prop) l x :
  StronglySorted R l -> Forall (fun y => R y x) l -> StronglySorted R (l ++ [x]).
Proof.
  intros Hs. induction Hs as [|y l Hs IH Hf]; intros Hx; [repeat constructor|].
  inversion Hx; subst. constructor; [by apply IH|]. apply Forall_app. by repeat constructor.
Qed.

Lemma StronglySorted_rev {A} (R : A -> A -> Prop) l :
  StronglySorted R l -> StronglySorted (fun a b => R b a) (rev l).
Proof.
  intros Hs. induction Hs as [|y l Hs IH Hf]; [constructor|]. cbn [rev].
  apply StronglySorted_snoc; [done|]. apply Forall_rev. done.
Qed.

Lemma ins_perm x l : ins x l ≡ₚ x :: l.
Proof.
  induction l as [|y l IH]; [done|]. cbn [ins]. case_bool_decide; [|done].
  rewrite IH. apply Permutation_swap.
Qed.

Lemma ins_sorted x l : StronglySorted (fun a b => longer b a) l -> StronglySorted (fun a b => longer b a) (ins x l).
Proof.
  intros Hs. induction Hs as [|y l Hs IH Hf]; cbn [ins]; [repeat constructor|].
  case_bool_decide as Hlt.
  - constructor; [done|]. rewrite ins_perm. constructor; [unfold longer; lia|done].
  - constructor; [by constructor|]. constructor; [unfold longer; lia|].
    eapply Forall_impl; [exact Hf|]. unfold longer. simpl. intros z Hz. lia.
Qed.

(** The insertion sort sorts any list. *)
Lemma sort_routes_spec l : routes_sorted (sort_routes l) /\ sort_routes l ≡ₚ l.
Proof.
  assert (forall post pre, routes_sorted pre ->
    let r := foldl (fun l i => bubble i l) (pre ++ post) (seq (length pre) (length post)) in
    routes_sorted r /\ r ≡ₚ pre ++ post) as Hgen.
  { induction post as [|x post IH]; intros pre Hs; cbn [length seq foldl].
    - rewrite app_nil_r. done.
    - rewrite bubble_ins. set (pre' := rev (ins x (rev pre))).
      assert (length pre' = S (length pre)) as Hl.
      { subst pre'. rewrite length_rev. rewrite (Permutation_length (ins_perm x (rev pre))).
        cbn [length]. by rewrite length_rev. }
      rewrite <- Hl. destruct (IH pre') as [Hs' Hp'].
      + apply (StronglySorted_rev _ _ (ins_sorted x (rev pre) (StronglySorted_rev _ _ Hs))).
      + split; [done|]. rewrite Hp'. subst pre'.
        rewrite <- (Permutation_rev (ins x (rev pre))), ins_perm, <- (Permutation_rev pre).
        apply Permutation_middle. }
  unfold sort_routes. destruct l as [|x l]; [by split; [constructor|]|].
  destruct (Hgen l [x]) as [H1 H2]; [repeat constructor|].
  cbn [length app] in *. rewrite Nat.sub_succ, Nat.sub_0_r. done.
Qed.

(** The first match of a sorted table is a longest one. *)
Lemma route_first path l q : routes_sorted l -> route path l = Some q ->
  exists r, r ∈ l /\ snd r = q /\ route_matches path r = true /\
    forall r', r' ∈ l -> route_matches path r' = true -> longer r r' \/ r' = r.
Proof.
  unfold route. intros Hs. induction Hs as [|x l Hs IH Hf]; [done|].
  cbn [list_find]. destruct (decide (route_matches path x = true)) as [Hm|Hm].
  - intros [= <-]. exists x. split; [by constructor|]. split; [done|]. split; [done|].
    intros r' Hr' _. apply elem_of_cons in Hr' as [->|Hr']; [by right|]. left.
    rewrite Forall_forall in Hf. by apply Hf.
  - intros H. destruct IH as (r & Hr & Hq & Hrm & Hmax).
    { revert H. by destruct (list_find _ l) as [[i r]|]. }
    exists r. split; [by constructor|]. split; [done|]. split; [done|].
    intros r' Hr' Hm'. apply elem_of_cons in Hr' as [->|Hr']; [done|]. by apply Hmax.
Qed.

Lemma route_none path l : route path l = None -> forall r, r ∈ l -> route_matches path r = false.
Proof.
  unfold route. induction l as [|x l IH]; [by intros _ r Hr%elem_of_nil|].
  cbn [list_find]. destruct (decide (route_matches path x = true)) as [Hm|Hm]; [done|].
  intros H r Hr. apply elem_of_cons in Hr as [->|Hr]; [by destruct (route_matches path x)|].
  apply IH; [|done]. revert H. by destruct (list_find _ l) as [[i y]|].
Qed.

End RouteFacts.

(** ** The reserved buffer *)
Lemma push_all_reserved `{VA : VecAlloc} {T} (xs l : list T) cap a :
  (length l + length xs <= cap)%nat -> kv_push_all_ignored (cap, l) xs a = ((cap, l ++ xs), a).
Proof.
  revert l. induction xs as [|x xs IH]; intros l Hc; cbn [kv_push_all_ignored length] in *.
  - by rewrite app_nil_r.
  - unfold kv_push_ignored. rewrite bool_decide_eq_true_2 by lia.
    rewrite IH by (rewrite length_app; simpl; lia). by rewrite <- app_assoc.
Qed.

(** ** The decoder userspace uses, from the documented layout *)
Fixpoint decode_headers (n : nat) (d : bytes) : option (Headers * bytes) :=
  match n with
  | O => Some ([], d)
  | S n' =>
      if bool_decide (length d < 4)%nat then None
      else
        let nl := Z.to_nat (fld d 0 2) in
        let vl := Z.to_nat (fld d 2 2) in
        let d1 := drop 4 d in
        if bool_decide (length d1 < nl + vl)%nat then None
        else
          '(hs, rest) ← decode_headers n' (drop (nl + vl) d1);
          Some ((take nl d1, take vl (drop nl d1)) :: hs, rest)
  end.

(** The codes of methods and versions, as userspace reads them: GET, HEAD, POST, PUT, DELETE,
    OPTIONS and PATCH are 0 to 6, HTTP/1.0 and HTTP/1.1 are 10 and 11. *)
Definition decode_method (b : Z) : option Method :=
  [Get; Head; Post; Put; Delete; Options; Patch] !! Z.to_nat b.
Definition decode_version (b : Z) : option Version :=
  if b =? 10 then Some Http10 else if b =? 11 then Some Http11 else None.
Lemma decode_method_to_u8 m : decode_method (method_to_u8 m) = Some m.
Proof. by destruct m. Qed.
Lemma decode_version_to_u8 v : decode_version (version_to_u8 v) = Some v.
Proof. by destruct v. Qed.

Record decoded : Type := mkDecoded {
  de_req_id : Z; de_method : Method; de_version : Version; de_path : bytes; de_headers : Headers; de_body : bytes }.

Definition decode_request (d : bytes) : option decoded :=
  if bool_decide (length d < 24)%nat then None
  else
    let path_len := Z.to_nat (fld d 12 4) in
    let body_len := Z.to_nat (fld d 16 4) in
    let d1 := drop 24 d in
    if bool_decide (length d1 < path_len)%nat then None
    else
      method ← decode_method (fld d 8 1);
      version ← decode_version (fld d 9 1);
      '(hs, rest) ← decode_headers (Z.to_nat (fld d 10 2)) (drop path_len d1);
      if bool_decide (length rest = body_len) && (fld d 20 4 =? lenZ d)
      then Some (mkDecoded (fld d 0 8) method version (take path_len d1) hs rest)
      else None.

Lemma fld_app_l (l r : bytes) off n : (off + n <= length l)%nat -> fld (l ++ r) off n = fld l off n.
Proof.
  intros H. unfold fld. rewrite drop_app_le by lia. rewrite take_app_le by (rewrite length_drop; lia). done.
Qed.

Lemma fld_app_r (l r : bytes) off n : (length l <= off)%nat -> fld (l ++ r) off n = fld r (off - length l) n.
Proof. intros H. unfold fld. by rewrite drop_app_ge by lia. Qed.

Lemma fld_le_encode n z : 0 <= z < 256 ^ Z.of_nat n -> fld (le_encode n z) 0 n = z.
Proof.
  intros Hz. unfold fld. rewrite drop_0. rewrite take_ge by (rewrite le_encode_length; lia).
  by apply le_decode_encode_id.
Qed.

Ltac fld_at :=
  repeat (first
    [ rewrite fld_app_r by (rewrite !le_encode_length; lia); rewrite !le_encode_length; simpl Nat.sub
    | rewrite fld_app_l by (rewrite !le_encode_length; lia) ]).

Definition header_bytes (h : Headers) : bytes :=
  concat ((fun '(n, v) => header_entry (wrap 16 (lenZ n)) (wrap 16 (lenZ v)) ++ n ++ v) <$> h).

Definition headers_fit (h : Headers) : Prop :=
  Forall (fun '(n, v) => lenZ n < 2 ^ 16 /\ lenZ v < 2 ^ 16) h.

Lemma header_bytes_cons n v h :
  header_bytes ((n, v) :: h) = header_entry (wrap 16 (lenZ n)) (wrap 16 (lenZ v)) ++ n ++ v ++ header_bytes h.
Proof. unfold header_bytes. rewrite fmap_cons. cbn [concat]. by rewrite <- !app_assoc. Qed.

Lemma decode_headers_bytes h rest : headers_fit h ->
  decode_headers (length h) (header_bytes h ++ rest) = Some (h, rest).
Proof.
  intros Hf. induction Hf as [|[n v] h [Hn Hv] Hf IH]; [done|].
  rewrite header_bytes_cons. cbn [length decode_headers].
  pose proof (lenZ_nonneg n). pose proof (lenZ_nonneg v).
  unfold header_entry. rewrite !wrap_small by lia. rewrite <- !app_assoc.
  rewrite bool_decide_eq_false_2 by (rewrite !length_app, !le_encode_length; lia).
  assert (forall x, drop 4 (le_encode 2 (lenZ n) ++ le_encode 2 (lenZ v) ++ x) = x) as Hd.
  { intros x. rewrite app_assoc. apply drop_app_length'. by rewrite length_app, !le_encode_length. }
  rewrite Hd.
  rewrite (fld_app_l _ _ 0 2), fld_le_encode by (rewrite ?le_encode_length; change (256 ^ Z.of_nat 2) with (2 ^ 16); lia).
  rewrite (fld_app_r _ _ 2 2), le_encode_length by (rewrite le_encode_length; lia).
  rewrite (fld_app_l _ _ (2 - 2) 2), fld_le_encode by (rewrite ?le_encode_length; change (256 ^ Z.of_nat 2) with (2 ^ 16); lia).
  replace (Z.to_nat (lenZ n)) with (length n) by (unfold lenZ; lia).
  replace (Z.to_nat (lenZ v)) with (length v) by (unfold lenZ; lia).
  rewrite bool_decide_eq_false_2 by (rewrite !length_app; lia).
  rewrite <- drop_drop, drop_app_length, drop_app_length, IH. cbn.
  by rewrite take_app_length, take_app_length.
Qed.

Lemma push_headers_reserved `{VA : VecAlloc} h l cap a :
  (length l + length (header_bytes h) <= cap)%nat ->
  push_headers (cap, l) h a = ((cap, l ++ header_bytes h), a).
Proof.
  revert l. induction h as [|[n v] h IH]; intros l Hc; cbn [push_headers].
  - by rewrite app_nil_r.
  - rewrite header_bytes_cons, !length_app in Hc.
    rewrite push_all_reserved by lia. rewrite push_all_reserved by (rewrite length_app; lia).
    rewrite push_all_reserved by (rewrite !length_app; lia).
    rewrite IH by (rewrite !length_app; lia). rewrite header_bytes_cons. by rewrite <- !app_assoc.
Qed.

Lemma lenZ_header_entry a b : lenZ (header_entry a b) = 4.
Proof. unfold lenZ, header_entry. by rewrite length_app, !le_encode_length. Qed.

Lemma headers_size_bytes h : headers_size h = wrap 64 (lenZ (header_bytes h)).
Proof.
  unfold headers_size.
  assert (forall acc, 0 <= acc < 2 ^ 64 ->
    foldl (fun acc '(n, v) => wrap 64 (acc + (4 + lenZ n + lenZ v))) acc h =
    wrap 64 (acc + lenZ (header_bytes h))) as Hg.
  { induction h as [|[n v] h IH]; intros acc Hacc; cbn [foldl].
    - change (lenZ (header_bytes [])) with 0. rewrite Z.add_0_r. by rewrite wrap_small.
    - rewrite IH by (apply wrap_range; lia). rewrite header_bytes_cons, !lenZ_app.
      rewrite lenZ_header_entry. unfold wrap. rewrite Z.add_mod_idemp_l by lia. f_equal. lia. }
  by rewrite Hg by lia.
Qed.

(** The bytes of a serialised request. *)
Definition request_bytes (req_id : Z) (req : Request) : bytes :=
  request_hdr req_id (method_to_u8 (req_method req)) (version_to_u8 (req_version req))
    (wrap 16 (lenZ (req_headers req))) (wrap 32 (lenZ (req_path req)))
    (wrap 32 (lenZ (req_body req))) (wrap 32 (serialized_total req)) ++
  req_path req ++ header_bytes (req_headers req) ++ req_body req.

(** A request the 32- and 16-bit length fields can describe. *)
Definition request_fits (req : Request) : Prop :=
  lenZ (req_headers req) < 2 ^ 16 /\ headers_fit (req_headers req) /\
  24 + lenZ (req_path req) + lenZ (header_bytes (req_headers req)) + lenZ (req_body req) < 2 ^ 32.

Lemma request_hdr_length a b c d e f g : length (request_hdr a b c d e f g) = 24%nat.
Proof. unfold request_hdr. by rewrite !length_app, !le_encode_length. Qed.

Lemma serialized_total_fits req : request_fits req ->
  serialized_total req = 24 + lenZ (req_path req) + lenZ (header_bytes (req_headers req)) + lenZ (req_body req).
Proof.
  intros (_ & _ & Hf). unfold serialized_total. rewrite headers_size_bytes.
  pose proof (lenZ_nonneg (req_path req)). pose proof (lenZ_nonneg (header_bytes (req_headers req))).
  pose proof (lenZ_nonneg (req_body req)).
  rewrite (wrap_small 64 (lenZ (header_bytes _))) by lia. apply wrap_small. lia.
Qed.

Lemma serialize_request_bytes `{KE : KernelErrno, VA : VecAlloc} req_id req a :
  request_fits req ->
  exists a', serialize_request req_id req a = (Ok (request_bytes req_id req), a') \/
             serialize_request req_id req a = (Err ENOMEM, a').
Proof.
  intros Hf. unfold serialize_request, m_bind, m_map_err, kv_with_capacity.
  destruct (kv_try_cases (@nil byte) a) as [a1 [-> | ->]]; [|eauto]. cbn beta iota.
  pose proof (serialized_total_fits req Hf) as Ht. unfold request_bytes.
  set (hdr := request_hdr _ _ _ _ _ _ _).
  assert (length hdr = 24%nat) as Hh by apply request_hdr_length.
  pose proof (lenZ_nonneg (req_path req)). pose proof (lenZ_nonneg (header_bytes (req_headers req))).
  pose proof (lenZ_nonneg (req_body req)). unfold lenZ in *.
  rewrite push_all_reserved by (simpl; lia).
  rewrite push_all_reserved by (rewrite length_app; simpl; lia).
  rewrite push_headers_reserved by (rewrite !length_app; simpl; lia).
  rewrite push_all_reserved by (rewrite !length_app; simpl; lia).
  exists a1. left. simpl. by rewrite <- !app_assoc.
Qed.

Lemma decode_request_bytes req_id req : 0 <= req_id < 2 ^ 64 -> request_fits req ->
  decode_request (request_bytes req_id req) = Some (mkDecoded req_id (req_method req)
    (req_version req) (req_path req) (req_headers req) (req_body req)).
Proof.
  intros Hid Hf.
  pose proof (serialized_total_fits req Hf) as Ht. destruct Hf as (Hc & Hh & Htot).
  pose proof (lenZ_nonneg (req_path req)). pose proof (lenZ_nonneg (header_bytes (req_headers req))).
  pose proof (lenZ_nonneg (req_body req)). pose proof (lenZ_nonneg (req_headers req)).
  assert (0 <= method_to_u8 (req_method req) < 256) by (destruct (req_method req); simpl; lia).
  assert (0 <= version_to_u8 (req_version req) < 256) by (destruct (req_version req); simpl; lia).
  unfold decode_request, request_bytes. rewrite Ht, !wrap_small by lia.
  set (tot := 24 + _ + _ + _) in *. set (hdr := request_hdr _ _ _ _ _ _ _).
  assert (length hdr = 24%nat) as Hl by apply request_hdr_length.
  assert (fld hdr 0 8 = req_id /\ fld hdr 8 1 = method_to_u8 (req_method req) /\
          fld hdr 9 1 = version_to_u8 (req_version req) /\ fld hdr 10 2 = lenZ (req_headers req) /\
          fld hdr 12 4 = lenZ (req_path req) /\ fld hdr 16 4 = lenZ (req_body req) /\ fld hdr 20 4 = tot)
    as (F0 & F1 & F2 & F3 & F4 & F5 & F6).
  { subst hdr. unfold request_hdr.
    split_and!; fld_at; rewrite ?fld_le_encode; try done; simpl; lia. }
  rewrite !(fld_app_l hdr) by lia. rewrite F0, F1, F2, F3, F4, F5, F6.
  rewrite bool_decide_eq_false_2 by (rewrite length_app; lia).
  replace (drop 24 (hdr ++ _)) with (req_path req ++ header_bytes (req_headers req) ++ req_body req)
    by (symmetry; by apply drop_app_length').
  replace (Z.to_nat (lenZ (req_path req))) with (length (req_path req)) by (unfold lenZ; lia).
  replace (Z.to_nat (lenZ (req_headers req))) with (length (req_headers req)) by (unfold lenZ; lia).
  rewrite bool_decide_eq_false_2 by (rewrite length_app; lia).
  rewrite decode_method_to_u8, decode_version_to_u8. cbn [mbind option_bind].
  rewrite drop_app_length, decode_headers_bytes by done. cbn [mbind option_bind].
  rewrite bool_decide_eq_true_2 by (unfold lenZ; lia).
  destruct (tot =? _) eqn:E; [cbn; by rewrite take_app_length|].
  exfalso. zify_bools. apply E. subst tot. rewrite !lenZ_app. unfold lenZ at 4. rewrite Hl. lia.
Qed.

(** C6. Requests survive the trip to userspace: for every request the length
    fields can describe, [serialize_request] either reports [ENOMEM] or produces
    bytes that a reader of the documented layout, who knows the codes of the
    methods and versions, decodes to the same request id, method, version, path, headers and body, with [total_len] the exact size. *)
Theorem serialize_decode_roundtrip `{KE : KernelErrno, VA : VecAlloc} (req_id : Z) (req : Request) (a : ast) :
  0 <= req_id < 2 ^ 64 -> request_fits req ->
  match serialize_request req_id req a with
  | (Ok d, _) =>
      decode_request d = Some (mkDecoded req_id (req_method req)
        (req_version req) (req_path req) (req_headers req) (req_body req))
  | (Err e, _) => e = ENOMEM
  | _ => False
  end.
Proof.
  intros Hid Hf. destruct (serialize_request_bytes req_id req a Hf) as [a' [-> | ->]]; [|done].
  by apply decode_request_bytes.
Qed.

(** ** The handler's invariant *)

Definition queue_ok (next_req : Z) (q : Z * RequestQueue) : Prop :=
  lenZ (q_buffered (snd q)) <= q_max_pending (snd q) < 2 ^ 32 /\
  Forall (fun b => 0 < fst b < next_req) (q_buffered (snd q)).

Record uring_inv (H : Handler) : Prop := {
  ui_pending_ids : NoDup (fst <$> hu_pending H);
  ui_pending_lt : Forall (fun p => 0 < fst p < hu_next_req H) (hu_pending H);
  ui_pending_chans : NoDup (snd <$> hu_pending H);
  ui_pending_open : Forall (fun p => hu_chans H !! snd p = Some ChEmpty) (hu_pending H);
  ui_queue_ids : NoDup (fst <$> hu_queues H);
  ui_queue_lt : Forall (fun q => 0 < fst q < hu_next_queue H) (hu_queues H);
  ui_queues : Forall (queue_ok (hu_next_req H)) (hu_queues H);
  ui_sorted : routes_sorted (hu_routes H);
  ui_distinct : NoDup (fst <$> hu_routes H);
  ui_running : hu_running H = option_list (hu_executor H);
  ui_executor : forall e, hu_executor H = Some e -> (e < hu_next_exec H)%nat
}.

Lemma handler_new_inv : uring_inv handler_new.
Proof. split; try by constructor. done. Qed.

Lemma fld_range c off n : 0 <= fld c off n < 256 ^ Z.of_nat n.
Proof.
  unfold fld. pose proof (le_decode_range (take n (drop off c))) as Hr.
  split; [lia|]. eapply Z.lt_le_trans; [apply Hr|]. apply Z.pow_le_mono_r; [lia|].
  unfold lenZ. rewrite length_take. lia.
Qed.

Lemma NoDup_fmap_sublist {A B} (f : A -> B) l k : sublist l k -> NoDup (f <$> k) -> NoDup (f <$> l).
Proof. intros Hs Hn. eapply sublist_NoDup; [exact Hn|]. by apply fmap_sublist. Qed.

Lemma Forall_sublist {A} (P : A -> Prop) l k : sublist l k -> Forall P k -> Forall P l.
Proof.
  intros Hs. induction Hs; intros Hk; [done| |]; apply Forall_cons in Hk as [? ?]; eauto.
Qed.

Lemma NoDup_fmap_snoc {A B} (f : A -> B) l x : NoDup (f <$> l) -> f x ∉ f <$> l -> NoDup (f <$> (l ++ [x])).
Proof.
  intros Hn Hx. rewrite fmap_app. apply NoDup_app. split; [done|]. split; [|apply NoDup_singleton].
  intros y Hy Hy2. apply list_elem_of_singleton in Hy2 as ->. done.
Qed.

Lemma Forall_not_elem {A} (f : A -> Z) l n : Forall (fun x => 0 < f x < n) l -> n ∉ f <$> l.
Proof.
  intros Hf Hin. apply list_elem_of_fmap in Hin as (x & -> & Hx).
  rewrite Forall_forall in Hf. apply Hf in Hx. lia.
Qed.

Lemma StronglySorted_sublist {A} (R : A -> A -> Prop) l k : sublist l k -> StronglySorted R k -> StronglySorted R l.
Proof.
  intros Hs. induction Hs as [|x l k Hs IH|x l k Hs IH]; intros Hk; [constructor| |].
  - inversion Hk as [|? ? Hk' Hf]; subst. constructor; [by apply IH|].
    eapply Forall_sublist; done.
  - inversion Hk; subst. by apply IH.
Qed.

Section UringFacts.
Context `{KE : KernelErrno, VA : VecAlloc, UM : UserMem, SS : !ServerStart}.

(** The queue update keeps ids and only touches the contents of one queue. *)
Lemma update_queue_ids id b qs : fst <$> update_queue id b qs = fst <$> qs.
Proof.
  induction qs as [|[i q] qs IH]; [done|]. cbn. destruct (i =? id); [done|]. by rewrite fmap_cons, IH.
Qed.

Lemma update_queue_Forall (P : Z * RequestQueue -> Prop) id b qs :
  Forall P qs -> (forall i q, (i, q) ∈ qs -> i = id -> find_queue id qs = Some q ->
                  P (i, q) -> P (i, mkQueue (q_id q) (q_max_pending q) b)) ->
  Forall P (update_queue id b qs).
Proof.
  intros Hf. induction Hf as [|[i q] qs Hp Hf IH]; intros Hup; [constructor|].
  cbn [update_queue]. destruct (i =? id) eqn:E.
  - constructor; [|done]. apply Hup; [by constructor|by apply Z.eqb_eq| |done].
    cbn [find_queue]. by rewrite E.
  - constructor; [done|]. apply IH. intros j q' Hin Hj Hfind. apply Hup; [by constructor|done|].
    cbn [find_queue]. by rewrite E.
Qed.

Lemma find_queue_In id qs q : find_queue id qs = Some q -> (id, q) ∈ qs.
Proof.
  induction qs as [|[i x] qs IH]; [done|]. cbn [find_queue]. destruct (i =? id) eqn:E.
  - intros [= <-]. apply Z.eqb_eq in E as ->. constructor.
  - intros H. constructor. by apply IH.
Qed.

Lemma kv_push_cases {T} (l : list T) x a :
  exists a', kv_push l x a = (Ok (l ++ [x]), a') \/ kv_push l x a = (Err AllocErr, a').
Proof. apply kv_try_cases. Qed.

Lemma create_queue_inv c H a u H' r w : uring_inv H -> 0 < hu_next_queue H < 2 ^ 32 - 1 ->
  cmd_create_queue c (H, (a, u)) = (r, (H', w)) ->
  uring_inv H' /\ hu_next_req H' = hu_next_req H /\ hu_next_queue H' = hu_next_queue H + 1.
Proof.
  intros HI Hq. unfold cmd_create_queue. rewrite wrap_small by lia. pose proof (fld_range c 0 4) as Hp.
  change (256 ^ Z.of_nat 4) with (2 ^ 32) in Hp.
  set (q := mkQueue _ _ _). cbn [hu_queues set_next_queue].
  assert (0 <= q_max_pending q < 2 ^ 32) as Hmax.
  { subst q. cbn [q_max_pending]. destruct (fld c 0 4 =? 0) eqn:E; lia. }
  destruct (kv_push_cases (hu_queues H) (hu_next_queue H, q) a) as [a' [-> | ->]];
    intros [= <- <- <-]; (split; [|done]); destruct HI; split; simpl; try done.
  - apply NoDup_fmap_snoc; [done|]. by apply Forall_not_elem.
  - apply Forall_app. split; [|repeat constructor; simpl; lia].
    eapply Forall_impl; [exact ui_queue_lt0|]. simpl. lia.
  - apply Forall_app. split; [done|]. constructor; [|constructor]. split; [|constructor].
    exact Hmax.
  - eapply Forall_impl; [exact ui_queue_lt0|]. simpl. lia.
Qed.

Lemma destroy_queue_inv c H w H' r w' : uring_inv H ->
  cmd_destroy_queue c (H, w) = (r, (H', w')) ->
  uring_inv H' /\ hu_next_req H' = hu_next_req H /\ hu_next_queue H' = hu_next_queue H.
Proof.
  intros HI. unfold cmd_destroy_queue. destruct (position _ _) as [i|]; intros [= <- <- <-]; [|done].
  split; [|done]. pose proof (remove_at_sublist i (hu_queues H)) as Hs.
  destruct HI; split; simpl; try done.
  - by eapply NoDup_fmap_sublist.
  - by eapply Forall_sublist.
  - by eapply Forall_sublist.
Qed.

Lemma add_url_inv c H a u H' r w : uring_inv H ->
  cmd_add_url c (H, (a, u)) = (r, (H', w)) ->
  uring_inv H' /\ hu_next_req H' = hu_next_req H /\ hu_next_queue H' = hu_next_queue H.
Proof.
  intros HI. unfold cmd_add_url. set (p := read_cmd_url c).
  destruct (negb _); [by intros [= <- <- <-]|].
  destruct (kv_with_capacity a) as [[x|e| | |] a1]; try by intros [= <- <- <-].
  destruct (user_load _ _ u) as [src|]; [|by intros [= <- <- <-]].
  destruct (kv_push_all_ignored _ src a1) as [[cap url] a2].
  destruct (existsb _ (hu_routes H)) eqn:Edup; [by intros [= <- <- <-]|].
  destruct (kv_push_cases (hu_routes H) (url, url_queue_id p) a2) as [a' [-> | ->]];
    intros [= <- <- <-]; [|done].
  split; [|done]. destruct (sort_routes_spec (hu_routes H ++ [(url, url_queue_id p)])) as [Hs Hp].
  assert (NoDup (fst <$> sort_routes (hu_routes H ++ [(url, url_queue_id p)]))) as Hnd.
  2: { destruct HI; split; done. }
  rewrite Hp. apply NoDup_fmap_snoc; [apply HI|]. intros Hin. cbn [fst] in Hin. apply list_elem_of_fmap in Hin as (rr & -> & Hr).
  apply not_true_iff_false in Edup. apply Edup. apply existsb_exists.
  exists rr. split; [by apply list_elem_of_In|]. by apply bool_decide_eq_true_2.
Qed.

Lemma remove_url_inv c H a u H' r w : uring_inv H ->
  cmd_remove_url c (H, (a, u)) = (r, (H', w)) ->
  uring_inv H' /\ hu_next_req H' = hu_next_req H /\ hu_next_queue H' = hu_next_queue H.
Proof.
  intros HI. unfold cmd_remove_url. destruct (user_load _ _ u) as [src|]; [|by intros [= <- <- <-]].
  destruct (position _ _) as [i|]; intros [= <- <- <-]; [|done].
  split; [|done]. pose proof (remove_at_sublist i (hu_routes H)) as Hs.
  destruct HI; split; simpl; try done.
  - by eapply StronglySorted_sublist.
  - by eapply NoDup_fmap_sublist.
Qed.

Lemma set_queue_contents_inv id b q H : uring_inv H -> find_queue id (hu_queues H) = Some q ->
  queue_ok (hu_next_req H) (id, mkQueue (q_id q) (q_max_pending q) b) ->
  uring_inv (set_queues (update_queue id b (hu_queues H)) H).
Proof.
  intros HI Hfind Hok. destruct HI; split; simpl; try done.
  - by rewrite update_queue_ids.
  - apply update_queue_Forall; [done|]. intros i q' _ _ _ Hi. done.
  - apply update_queue_Forall; [done|]. intros i q' _ -> Hf' _. rewrite Hf' in Hfind. by simplify_eq.
Qed.

Lemma recv_request_inv c H a u H' r w : uring_inv H ->
  cmd_recv_request c (H, (a, u)) = (r, (H', w)) ->
  uring_inv H' /\ hu_next_req H' = hu_next_req H /\ hu_next_queue H' = hu_next_queue H.
Proof.
  intros HI. unfold cmd_recv_request. set (p := read_cmd_recv c).
  destruct (find_queue _ _) as [q|] eqn:Ef; [|by intros [= <- <- <-]].
  destruct (q_buffered q) as [|[i data] rest] eqn:Eb; [by intros [= <- <- <-]|].
  destruct (copy_to_user _ _ u) as [left u'].
  assert (uring_inv (set_queues (update_queue (rr_queue_id p) rest (hu_queues H)) H)) as HI'.
  { apply (set_queue_contents_inv _ _ q); [done|done|].
    pose proof (ui_queues H HI) as Hq. rewrite Forall_forall in Hq.
    destruct (Hq _ (find_queue_In _ _ _ Ef)) as [Hl Hf]. simpl in *. rewrite Eb in Hl, Hf.
    split; simpl; [rewrite lenZ_cons in Hl; lia|by inversion Hf]. }
  destruct (left =? 0); intros [= <- <- <-]; done.
Qed.

(** Removing a pending entry, then deciding its channel. *)
Lemma take_pending_inv i p ch v H : uring_inv H -> hu_pending H !! i = Some p -> snd p = ch ->
  uring_inv (set_chans (<[ch := v]> (hu_chans H)) (set_pending (remove_at i (hu_pending H)) H)).
Proof.
  intros HI Hi Hch. pose proof (remove_at_sublist i (hu_pending H)) as Hs.
  assert (Forall (fun q => snd q <> ch) (remove_at i (hu_pending H))) as Hother.
  { pose proof (ui_pending_chans H HI) as Hn. rewrite <- (take_drop_middle _ _ _ Hi) in Hn.
    rewrite fmap_app, fmap_cons in Hn. apply NoDup_app in Hn as (_ & Hd & Hc).
    apply NoDup_cons in Hc as [Hc _]. unfold remove_at. apply Forall_app.
    rewrite !Forall_forall. split; intros x Hx Heq.
    - apply (Hd (snd x)); [by apply list_elem_of_fmap_2|]. rewrite Hch, Heq. constructor.
    - apply Hc. rewrite Hch, <- Heq. by apply list_elem_of_fmap_2. }
  destruct HI; split; simpl; try done.
  - by eapply NoDup_fmap_sublist.
  - by eapply Forall_sublist.
  - by eapply NoDup_fmap_sublist.
  - pose proof (Forall_sublist _ _ _ Hs ui_pending_open0) as Ho. clear -Ho Hother.
    rewrite Forall_forall in *. intros x Hx. rewrite list_lookup_insert_ne; [by apply Ho|].
    specialize (Hother x Hx). done.
Qed.

Lemma send_response_inv c H a u H' r w : uring_inv H ->
  cmd_send_response c (H, (a, u)) = (r, (H', w)) ->
  uring_inv H' /\ hu_next_req H' = hu_next_req H /\ hu_next_queue H' = hu_next_queue H.
Proof.
  intros HI. unfold cmd_send_response. set (p := read_cmd_send c).
  destruct (position _ _) as [i|]; [|by intros [= <- <- <-]].
  destruct (hu_pending H !! i) as [[id ch]|] eqn:Ei; [|by intros [= <- <- <-]].
  pose proof (fun v => take_pending_inv i (id, ch) ch v H HI Ei eq_refl) as Ht.
  destruct (_ && _).
  - destruct (kv_with_capacity a) as [[x|e| | |] a1];
      try (intros [= <- <- <-]; split; [apply Ht|done]).
    destruct (copy_from_user _ _ u) as [left body]. destruct (left =? 0);
      intros [= <- <- <-]; (split; [apply Ht|done]).
  - intros [= <- <- <-]. split; [apply Ht|done].
Qed.

Lemma server_inv s e r n H : uring_inv H -> r = option_list e ->
  (forall x, e = Some x -> (x < n)%nat) -> uring_inv (set_server s e r n H).
Proof. intros HI Hr Hx. destruct HI; split; simpl; done. Qed.

Lemma stop_held H : uring_inv H -> stop_executor (hu_executor H) (hu_running H) = [].
Proof.
  intros HI. rewrite (ui_running H HI). unfold stop_executor. destruct (hu_executor H) as [e|]; [|done].
  cbn. by destruct (decide (e <> e)).
Qed.

Lemma server_cmd_inv H H' r w op c a u : uring_inv H ->
  (op = cmd_server_start c \/ op = cmd_server_stop) -> op (H, (a, u)) = (r, (H', w)) ->
  uring_inv H' /\ hu_next_req H' = hu_next_req H /\ hu_next_queue H' = hu_next_queue H.
Proof.
  intros HI [-> | ->].
  - unfold cmd_server_start. destruct (kv_try tt a) as [[x|e| | |] a1]; try by intros [= <- <- <-].
    destruct (kv_try tt a1) as [[x'|e| | |] a2]; try by intros [= <- <- <-].
    destruct (start_on _ a2) as [[x''|e| | |] a3]; intros [= <- <- <-]; try done.
    split; [|done]. rewrite stop_held by done. apply server_inv; [done|done|].
    intros y [= <-]. lia.
  - unfold cmd_server_stop. intros [= <- <- <-]. split; [|done].
    rewrite stop_held by done. by apply server_inv.
Qed.

Lemma dispatch_inv op c H a u H' r w : uring_inv H -> 0 < hu_next_queue H < 2 ^ 32 - 1 ->
  dispatch op c (H, (a, u)) = (r, (H', w)) ->
  uring_inv H' /\ hu_next_req H' = hu_next_req H /\
  hu_next_queue H <= hu_next_queue H' <= hu_next_queue H + 1.
Proof.
  intros HI Hq. unfold dispatch.
  repeat match goal with |- context [if ?b then _ else _] => destruct b end; intros He.
  - destruct (server_cmd_inv _ _ _ _ _ c _ _ HI (or_introl eq_refl) He) as (? & ? & ?). split_and!; try done; lia.
  - destruct (server_cmd_inv _ _ _ _ _ c _ _ HI (or_intror eq_refl) He) as (? & ? & ?). split_and!; try done; lia.
  - destruct (create_queue_inv _ _ _ _ _ _ _ HI Hq He) as (? & ? & ?). split_and!; try done; lia.
  - destruct (destroy_queue_inv _ _ _ _ _ _ HI He) as (? & ? & ?). split_and!; try done; lia.
  - destruct (add_url_inv _ _ _ _ _ _ _ HI He) as (? & ? & ?). split_and!; try done; lia.
  - destruct (remove_url_inv _ _ _ _ _ _ _ HI He) as (? & ? & ?). split_and!; try done; lia.
  - destruct (recv_request_inv _ _ _ _ _ _ _ HI He) as (? & ? & ?). split_and!; try done; lia.
  - destruct (send_response_inv _ _ _ _ _ _ _ HI He) as (? & ? & ?). split_and!; try done; lia.
  - injection He as <- <- <-. split_and!; try done; lia.
Qed.

(** A fresh request id, and its channel, extend the pending table. *)
Lemma next_req_inv H n : uring_inv H -> hu_next_req H <= n -> uring_inv (set_next_req n H).
Proof.
  intros HI Hn. destruct HI; split; simpl; try done.
  - eapply Forall_impl; [exact ui_pending_lt0|]. simpl. lia.
  - eapply Forall_impl; [exact ui_queues0|]. intros q [Hl Hf]. split; [done|].
    eapply Forall_impl; [exact Hf|]. simpl. lia.
Qed.

Lemma new_chan_inv H : uring_inv H -> uring_inv (set_chans (hu_chans H ++ [ChEmpty]) H).
Proof.
  intros HI. destruct HI; split; simpl; try done.
  eapply Forall_impl; [exact ui_pending_open0|]. intros p Hp. by apply lookup_app_l_Some.
Qed.

Lemma close_fresh_inv H ch : uring_inv H -> Forall (fun p => snd p <> ch) (hu_pending H) ->
  uring_inv (chan_close ch H).
Proof.
  intros HI Hf. destruct HI; split; simpl; try done. rewrite Forall_forall in *.
  intros p Hp. rewrite list_lookup_insert_ne; [by apply ui_pending_open0|].
  specialize (Hf p Hp). done.
Qed.

Lemma add_pending_inv H id ch : uring_inv H -> 0 < id < hu_next_req H ->
  id ∉ fst <$> hu_pending H -> Forall (fun p => snd p <> ch) (hu_pending H) ->
  hu_chans H !! ch = Some ChEmpty ->
  uring_inv (set_pending (hu_pending H ++ [(id, ch)]) H).
Proof.
  intros HI Hid Hni Hch Hopen. destruct HI; split; simpl; try done.
  - by apply NoDup_fmap_snoc.
  - apply Forall_app. split; [done|]. by apply Forall_singleton.
  - apply NoDup_fmap_snoc; [done|]. simpl. intros Hin. apply list_elem_of_fmap in Hin as (x & -> & Hx).
    rewrite Forall_forall in Hch. by apply (Hch x).
  - apply Forall_app. split; [done|]. by apply Forall_singleton.
Qed.

Lemma enqueue_inv qid id data ch H a : uring_inv H -> 0 < id < hu_next_req H ->
  id ∉ fst <$> hu_pending H -> Forall (fun p => snd p <> ch) (hu_pending H) ->
  hu_chans H !! ch = Some ChEmpty ->
  let '(H', _) := enqueue_serialized qid id data ch (H, a) in
  uring_inv H' /\ hu_next_req H' = hu_next_req H /\ hu_next_queue H' = hu_next_queue H.
Proof.
  intros HI Hid Hni Hch Hopen. unfold enqueue_serialized.
  assert (exists H1 a1, match kv_push (hu_pending H) (id, ch) a with
      | (Ok ps, a') => (set_pending ps H, a') | (_, a') => (chan_close ch H, a') end = (H1, a1) /\
    uring_inv H1 /\ hu_next_req H1 = hu_next_req H /\ hu_next_queue H1 = hu_next_queue H)
    as (H1 & a1 & -> & HI1 & Hr1 & Hq1).
  { destruct (kv_push_cases (hu_pending H) (id, ch) a) as [a' [-> | ->]]; do 2 eexists; (split; [done|]);
      (split; [|done]); [by apply add_pending_inv|by apply close_fresh_inv]. }
  destruct (find_queue qid (hu_queues H1)) as [q|] eqn:Ef; [|done].
  destruct (_ <? _) eqn:Elt; [|done]. zify_bools.
  destruct (kv_push_cases (q_buffered q) (id, data) a1) as [a' [-> | ->]]; [|done].
  split; [|done]. apply (set_queue_contents_inv _ _ q); [done|done|].
  pose proof (ui_queues H1 HI1) as Hqs. rewrite Forall_forall in Hqs.
  destruct (Hqs _ (find_queue_In _ _ _ Ef)) as [Hl Hf]. simpl in *.
  pose proof (lenZ_nonneg (q_buffered q)). rewrite wrap_small in Elt by lia.
  split; simpl; [rewrite lenZ_app, lenZ_cons, lenZ_nil; lia|].
  apply Forall_app. split; [done|]. apply Forall_singleton. simpl. lia.
Qed.

Lemma bridge_start_inv req H a : uring_inv H -> 0 < hu_next_req H < 2 ^ 64 - 1 ->
  let '(_, (H', _)) := bridge_start req (H, a) in
  uring_inv H' /\ hu_next_req H' = hu_next_req H + 1 /\ hu_next_queue H' = hu_next_queue H.
Proof.
  intros HI Hn. unfold bridge_start. rewrite wrap_small by lia. cbn [hu_routes set_next_req].
  pose proof (next_req_inv H (hu_next_req H + 1) HI ltac:(lia)) as HI1.
  destruct (serialize_request _ req a) as [ser a1].
  destruct (route _ _) as [qid|]; [|done].
  destruct ser as [data|e| | |]; try done.
  destruct (kv_try tt a1) as [[x|e| | |] a2]; try done.
  set (H2 := set_chans _ _).
  pose proof (new_chan_inv _ HI1) as HI2. fold H2 in HI2.
  pose proof (enqueue_inv qid (hu_next_req H) data (length (hu_chans (set_next_req (hu_next_req H + 1) H))) H2 a2 HI2) as He.
  destruct (enqueue_serialized _ _ _ _ (H2, a2)) as [H' a']. apply He.
  - simpl. lia.
  - simpl. apply Forall_not_elem. apply HI.
  - simpl. pose proof (ui_pending_open H HI) as Ho. rewrite Forall_forall in *.
    intros p Hp Heq. specialize (Ho p Hp). apply lookup_lt_Some in Ho. lia.
  - simpl. by rewrite lookup_app_r, Nat.sub_diag by lia.
Qed.

Lemma ustep_inv e w : uring_inv (fst w) -> 0 < hu_next_req (fst w) < 2 ^ 64 - 1 ->
  0 < hu_next_queue (fst w) < 2 ^ 32 - 1 ->
  uring_inv (fst (ustep e w)) /\
  hu_next_req (fst w) <= hu_next_req (fst (ustep e w)) <= hu_next_req (fst w) + 1 /\
  hu_next_queue (fst w) <= hu_next_queue (fst (ustep e w)) <= hu_next_queue (fst w) + 1.
Proof.
  destruct w as [H [a u]]. cbn [fst]. intros HI Hr Hq. destruct e as [op c|req]; unfold ustep.
  - destruct (dispatch op c (H, (a, u))) as [o [H' w']] eqn:E.
    destruct (dispatch_inv _ _ _ _ _ _ _ _ HI Hq E) as (HI' & Hr' & Hq'). simpl. split_and!; try done; lia.
  - pose proof (bridge_start_inv req H a HI Hr) as Hb.
    destruct (bridge_start req (H, a)) as [o [H' a']]. simpl. destruct Hb as (HI' & Hr' & Hq').
    split_and!; try done; lia.
Qed.

Lemma urun_inv (es : list uevent) (a : ast) (u : umem) :
  Z.of_nat (length es) < 2 ^ 32 - 2 ->
  uring_inv (fst (urun es (handler_new, (a, u)))).
Proof.
  intros Hn.
  assert (forall es w, Z.of_nat (length es) < 2 ^ 32 - 2 ->
    uring_inv (fst w) -> 0 < hu_next_req (fst w) -> 0 < hu_next_queue (fst w) ->
    hu_next_req (fst w) + Z.of_nat (length es) < 2 ^ 64 - 1 ->
    hu_next_queue (fst w) + Z.of_nat (length es) < 2 ^ 32 - 1 ->
    uring_inv (fst (urun es w))) as Hg.
  { clear. induction es as [|e es IH]; intros w Hn HI Hr0 Hq0 Hr Hq; [done|].
    cbn [length] in *. destruct (ustep_inv e w HI ltac:(lia) ltac:(lia)) as (HI' & Hr' & Hq').
    unfold urun. cbn [foldl]. apply IH; try lia. done. }
  apply Hg; simpl; try lia. apply handler_new_inv.
Qed.

(** C5. The handler's tables stay consistent under any interleaving of commands
    (well-formed or not) and incoming requests, for the first 2^32 - 2 events:
    pending request ids are distinct and every pending request's channel is
    still unanswered and its own; queue ids are distinct and no queue holds more
    than its limit; routes are distinct and sorted by decreasing length; and at
    most one executor runs, the one whose handle is held. *)
Theorem uring_tables_invariant (es : list uevent) (a : ast) (u : umem) :
  Z.of_nat (length es) < 2 ^ 32 - 2 ->
  uring_inv (fst (urun es (handler_new, (a, u)))).
Proof. apply urun_inv. Qed.

(** C11. Routing in a consistent table without a catch-all is longest-prefix
    match: the chosen queue belongs to a registered prefix of the path at least
    as long as every other registered prefix of it, and there is no answer
    exactly when no registered prefix matches. *)
Theorem route_longest_prefix (H : Handler) (path : bytes) :
  uring_inv H -> bs "/*" ∉ fst <$> hu_routes H ->
  match route path (hu_routes H) with
  | Some q => exists p, (p, q) ∈ hu_routes H /\ p `prefix_of` path /\
      forall p' q', (p', q') ∈ hu_routes H -> p' `prefix_of` path -> (length p' <= length p)%nat
  | None => forall p' q', (p', q') ∈ hu_routes H -> ~ p' `prefix_of` path
  end.
Proof.
  intros HI Hw.
  assert (forall r, r ∈ hu_routes H -> route_matches path r = true <-> fst r `prefix_of` path) as Hm.
  { intros r Hr. unfold route_matches. rewrite bool_decide_eq_false_2.
    - rewrite starts_with_spec. done.
    - intros He. apply Hw. rewrite <- He. by apply list_elem_of_fmap_2. }
  destruct (route path (hu_routes H)) as [q|] eqn:Er.
  - destruct (route_first path _ q (ui_sorted H HI) Er) as ([p q0] & Hr & Hq & Hmt & Hmax).
    simpl in Hq. subst q0. exists p. split; [done|]. split; [by apply (Hm (p, q))|].
    intros p' q' Hin Hp. destruct (Hmax (p', q') Hin) as [Hl|He].
    + by apply Hm.
    + exact Hl.
    + by injection He as -> ->.
  - intros p' q' Hin Hp. pose proof (route_none path _ Er (p', q') Hin) as Hf.
    apply (Hm (p', q')) in Hp; [|done]. congruence.
Qed.
Lemma position_has_id {A} id (l : list (Z * A)) i : position (has_id id) l = Some i ->
  exists x, l !! i = Some (id, x).
Proof.
  intros Hp. apply position_Some in Hp as ([j x] & Hi & He & _). unfold has_id in He. simpl in He.
  zify_bools. subst j. by exists x.
Qed.

Lemma removed_id {A} id (x : A) (l : list (Z * A)) i : NoDup (fst <$> l) -> l !! i = Some (id, x) ->
  id ∉ fst <$> remove_at i l.
Proof.
  intros Hn Hi Hin. rewrite <- (take_drop_middle _ _ _ Hi) in Hn.
  rewrite fmap_app, fmap_cons in Hn. apply NoDup_app in Hn as (_ & Hd & Hc).
  apply NoDup_cons in Hc as [Hc _]. unfold remove_at in Hin. rewrite fmap_app in Hin.
  apply elem_of_app in Hin as [Hin|Hin]; [|done]. apply (Hd id Hin). constructor.
Qed.

Lemma position_absent {A} id (l : list (Z * A)) : id ∉ fst <$> l -> position (has_id id) l = None.
Proof.
  intros Hn. apply position_None, Forall_forall. intros [j x] Hx. unfold has_id. simpl.
  apply Z.eqb_neq. intros ->. apply Hn. by apply (list_elem_of_fmap_2 fst l (id, x)).
Qed.

Lemma find_update_same id b qs q : find_queue id qs = Some q ->
  find_queue id (update_queue id b qs) = Some (mkQueue (q_id q) (q_max_pending q) b).
Proof.
  induction qs as [|[i q'] qs IH]; [done|]. cbn [find_queue update_queue].
  destruct (i =? id) eqn:E; cbn [find_queue]; rewrite E; [by intros [= <-]|done].
Qed.

Lemma find_update_other id j b qs : j <> id -> find_queue j (update_queue id b qs) = find_queue j qs.
Proof.
  intros Hne. induction qs as [|[i q] qs IH]; [done|]. cbn [update_queue].
  destruct (i =? id) eqn:E; cbn [find_queue]; [|by rewrite IH].
  apply Z.eqb_eq in E as ->. destruct (id =? j) eqn:E2; [|done]. apply Z.eqb_eq in E2. congruence.
Qed.

Context {KEok : KernelErrnoOk KE}.

(** A command that fails does not return 0. *)
Lemma errno_ret_nonzero e : e ∈ errno_table -> errno_ret (Error_new e) <> Ok 0.
Proof.
  intros He Heq. injection Heq as Heq. pose proof (Error_new_table e He) as Hn.
  pose proof (errno_in e He). unfold Error_new in Hn. simpl in Hn. lia.
Qed.

(** C10. A response reaches exactly the request it names, once: when
    SEND_RESPONSE succeeds, the bridge waiting on the channel of that request
    id, which had no answer before, now gets the status and body that were sent
    (the user's bytes, or nothing without a buffer); no other waiting request is affected,
    and sending again for the same id is [-ENOENT]. *)
Theorem send_response_once (c : bytes) (H H' : Handler) (a a' : ast) (u u' : umem) :
  uring_inv H ->
  cmd_send_response c (H, (a, u)) = (Ok 0, (H', (a', u'))) ->
  let p := read_cmd_send c in
  let body := if (0 <? sr_body_len p) && negb (sr_buf_addr p =? 0)
              then snd (copy_from_user (sr_buf_addr p) (sr_body_len p) u) else [] in
  exists ch,
    (sr_req_id p, ch) ∈ hu_pending H /\
    bridge_poll ch H = None /\
    bridge_poll ch H' = Some (mkResponse (mkStatus (sr_status_code p)) Http11 [] body) /\
    (forall ch', ch' <> ch -> bridge_poll ch' H' = bridge_poll ch' H) /\
    fst (cmd_send_response c (H', (a', u'))) = Ok (to_errno ENOENT).
Proof.
  intros HI. unfold cmd_send_response at 1. cbv zeta. set (p := read_cmd_send c).
  destruct (position _ _) as [i|] eqn:Ep.
  2: { intros He%(f_equal fst). exfalso. revert He. apply errno_ret_nonzero. unfold errno_table. set_solver. }
  destruct (position_has_id _ _ _ Ep) as [ch Hi]. rewrite Hi.
  assert (hu_chans H !! ch = Some ChEmpty) as Hopen.
  { pose proof (ui_pending_open H HI) as Ho. rewrite Forall_forall in Ho.
    apply (Ho (sr_req_id p, ch)). by eapply list_elem_of_lookup_2. }
  pose (body := if (0 <? sr_body_len p) && negb (sr_buf_addr p =? 0)
    then snd (copy_from_user (sr_buf_addr p) (sr_body_len p) u) else []).
  intros Hrun. assert (H' = chan_send ch (mkResponse (mkStatus (sr_status_code p)) Http11 headers_new body)
           (set_pending (remove_at i (hu_pending H)) H)) as ->.
  { revert Hrun. pose proof (errno_ret_nonzero sys_ENOMEM ltac:(unfold errno_table; set_solver)) as Hn1.
    pose proof (errno_ret_nonzero sys_EFAULT ltac:(unfold errno_table; set_solver)) as Hn2.
    unfold body. destruct (_ && _); [|by intros [= <- <- <-]].
    destruct (kv_with_capacity a) as [[x|e| | |] a1]; try by intros He%(f_equal fst).
    destruct (copy_from_user _ _ u) as [left data] eqn:Ec.
    destruct (left =? 0); [|by intros He%(f_equal fst)]. by intros [= <- <- <-]. }
  exists ch. split; [by eapply list_elem_of_lookup_2|].
  unfold bridge_poll. split; [by rewrite Hopen|]. split.
  { simpl. by rewrite list_lookup_insert_eq by (eapply lookup_lt_Some; exact Hopen). }
  split; [intros ch' Hne; simpl; by rewrite list_lookup_insert_ne|].
  unfold cmd_send_response. cbv zeta. fold p. cbn [hu_pending chan_send set_chans set_pending].
  rewrite position_absent; [done|]. eapply removed_id; [apply HI|done].
Qed.

(** Requests are received in the order they were enqueued, and a receive that
    succeeds takes exactly one: the user's buffer gets the head of the queue, cut
    to the buffer's length, and the rest stays in order; an empty queue is
    [-EAGAIN] and an unknown one [-ENOENT], with nothing changed. *)
Theorem recv_request_fifo (c : bytes) (H : Handler) (a : ast) (u : umem) :
  uring_inv H ->
  let p := read_cmd_recv c in
  match find_queue (rr_queue_id p) (hu_queues H) with
  | None => cmd_recv_request c (H, (a, u)) = (Ok (to_errno ENOENT), (H, (a, u)))
  | Some q =>
      match q_buffered q with
      | [] => cmd_recv_request c (H, (a, u)) = (Ok (to_errno EAGAIN), (H, (a, u)))
      | (_, data) :: rest =>
          exists H' u', snd (cmd_recv_request c (H, (a, u))) = (H', (a, u')) /\
            (q_buffered <$> find_queue (rr_queue_id p) (hu_queues H')) = Some rest /\
            (forall i, i <> rr_queue_id p -> find_queue i (hu_queues H') = find_queue i (hu_queues H)) /\
            u' = snd (copy_to_user (rr_buf_addr p) (take (Z.to_nat (rr_buf_len p)) data) u)
      end
  end.
Proof.
  intros HI. cbv zeta. unfold cmd_recv_request. set (p := read_cmd_recv c). cbv zeta.
  destruct (find_queue (rr_queue_id p) (hu_queues H)) as [q|] eqn:Ef; [|done].
  destruct (q_buffered q) as [|[i data] rest] eqn:Eb; [done|].
  set (H' := set_queues _ H).
  assert (take (Z.to_nat (Z.min (lenZ data) (rr_buf_len p))) data = take (Z.to_nat (rr_buf_len p)) data) as ->.
  { destruct (Z.min_spec (lenZ data) (rr_buf_len p)) as [[Hlt ->]|[Hge ->]]; [|done].
    rewrite !take_ge by (unfold lenZ in *; lia). done. }
  destruct (copy_to_user _ _ u) as [left u'] eqn:Ec.
  exists H', u'. split; [by destruct (left =? 0)|].
  split; [|split; [|done]].
  - subst H'. simpl. by rewrite (find_update_same _ _ _ q).
  - intros j Hj. subst H'. simpl. by apply find_update_other.
Qed.

(** A request that arrives while its queue is full is accepted but cannot be
    delivered: the bridge waits on a channel, the request id is pending, and no
    queue holds the request, so no RECV_REQUEST will hand it to userspace. *)
Theorem full_queue_strands_request (qid id : Z) (data : bytes) (ch : nat) (H : Handler) (a : ast) (q : RequestQueue) :
  uring_inv H -> find_queue qid (hu_queues H) = Some q ->
  lenZ (q_buffered q) = q_max_pending q ->
  hu_chans H !! ch = Some ChEmpty -> fst (grant a) = true ->
  let H' := fst (enqueue_serialized qid id data ch (H, a)) in
  hu_queues H' = hu_queues H /\ (id, ch) ∈ hu_pending H' /\ bridge_poll ch H' = None.
Proof.
  intros HI Hq Hfull Hch Hg. unfold enqueue_serialized, kv_push, kv_try.
  destruct (grant a) as [b a1]. simpl in Hg. subst b.
  cbn [hu_queues set_pending]. rewrite Hq.
  pose proof (ui_queues H HI) as Hqs. rewrite Forall_forall in Hqs.
  destruct (Hqs _ (find_queue_In _ _ _ Hq)) as [Hl _]. simpl in Hl. pose proof (lenZ_nonneg (q_buffered q)).
  rewrite wrap_small by lia. destruct (_ <? _) eqn:E; [blia|]. simpl.
  split; [done|]. split; [apply elem_of_app; right; constructor|].
  unfold bridge_poll. simpl. by rewrite Hch.
Qed.

End UringFacts.

(** The catch-all hides other prefixes: with ["/*"] registered before ["/a"],
    a request for ["/a"] goes to the catch-all's queue although ["/a"] is a
    registered prefix of the path; lengths are compared, and ["/*"] has the
    length of ["/a"]. *)
Theorem catch_all_shadows :
  let routes := sort_routes [(bs "/*", 1); (bs "/a", 2); (bs "/", 3)] in
  routes_sorted routes /\ route (bs "/a") routes = Some 1 /\ route (bs "/b") routes = Some 1.
Proof. split; [apply sort_routes_spec|]. by vm_compute. Qed.

(** ** Witnesses *)
Definition toy_umem : UserMem := {|
  umem := bytes;
  copy_to_user _ d u := (0, d);
  copy_from_user _ n u := (0, take (Z.to_nat n) (bs "hello"));
  user_load _ n u := Some (take (Z.to_nat n) (bs "/a/b")) |}.
Definition bool_alloc : VecAlloc := {| ast := unit; grant a := (true, a) |}.
Definition toy_start : @ServerStart bool_alloc := @Build_ServerStart bool_alloc (fun _ a => (Ok tt, a)).

Definition toy_request : Request :=
  mkRequest Post (bs "/a/b/c") Http11 [(bs "Host", bs "h"); (bs "X", [])] (bs "body").
(** CREATE_QUEUE with one slot, ADD_URL of ["/a"] to queue 1, two requests. *)
Definition toy_events : list uevent :=
  [EvCmd HTTP_CMD_CREATE_QUEUE (le_encode 4 1);
   EvCmd HTTP_CMD_ADD_URL (le_encode 4 1 ++ le_encode 4 2 ++ le_encode 8 5);
   EvRequest toy_request].
Definition toy_state : Handler :=
  fst (@urun linux_errno bool_alloc toy_umem toy_start toy_events (handler_new, (tt, []))).

Lemma toy_state_inv : uring_inv toy_state.
Proof. apply (@urun_inv linux_errno bool_alloc toy_umem toy_start toy_events tt []). vm_compute. reflexivity. Qed.

Lemma serialize_decode_roundtrip_witness :
  match @serialize_request linux_errno bool_alloc 7 toy_request tt with
  | (Ok d, _) =>
      decode_request d = Some (mkDecoded 7 Post Http11 (bs "/a/b/c") [(bs "Host", bs "h"); (bs "X", [])] (bs "body"))
  | (Err e, _) => e = @ENOMEM linux_errno
  | _ => False
  end.
Proof.
  apply (@serialize_decode_roundtrip linux_errno bool_alloc 7 toy_request tt); [lia|].
  split; [vm_compute; reflexivity|]. split; [|vm_compute; reflexivity].
  repeat constructor; vm_compute; reflexivity.
Defined.

Lemma uring_tables_invariant_witness : uring_inv toy_state.
Proof.
  apply (@uring_tables_invariant linux_errno bool_alloc toy_umem toy_start toy_events tt []).
  vm_compute. reflexivity.
Defined.

Lemma route_longest_prefix_witness :
  match route (bs "/a/x") (hu_routes toy_state) with
  | Some q => exists p, (p, q) ∈ hu_routes toy_state /\ p `prefix_of` (bs "/a/x") /\
      forall p' q', (p', q') ∈ hu_routes toy_state -> p' `prefix_of` (bs "/a/x") -> (length p' <= length p)%nat
  | None => forall p' q', (p', q') ∈ hu_routes toy_state -> ~ p' `prefix_of` (bs "/a/x")
  end.
Proof.
  apply (@route_longest_prefix toy_state (bs "/a/x")); [apply toy_state_inv|].
  apply (bool_decide_unpack _). vm_compute. exact I.
Defined.

Definition toy_send : bytes := le_encode 8 1 ++ le_encode 2 201 ++ le_encode 2 0 ++ le_encode 4 3 ++ le_encode 8 9.
Lemma send_response_once_witness :
  let o := @cmd_send_response linux_errno bool_alloc toy_umem toy_send (toy_state, (tt, [])) in
  let H' := fst (snd o) in
  exists ch,
    (1, ch) ∈ hu_pending toy_state /\
    bridge_poll ch toy_state = None /\
    bridge_poll ch H' = Some (mkResponse (mkStatus 201) Http11 [] (bs "hel")) /\
    (forall ch', ch' <> ch -> bridge_poll ch' H' = bridge_poll ch' toy_state) /\
    fst (@cmd_send_response linux_errno bool_alloc toy_umem toy_send (H', (tt, []))) = Ok (-2).
Proof.
  apply (@send_response_once linux_errno bool_alloc toy_umem linux_errno_ok toy_send toy_state
    (fst (snd (@cmd_send_response linux_errno bool_alloc toy_umem toy_send (toy_state, (tt, [])))))
    tt tt [] []).
  - apply toy_state_inv.
  - vm_compute. reflexivity.
Defined.

Definition toy_recv : bytes := le_encode 4 1 ++ le_encode 4 10 ++ le_encode 8 3.
Lemma recv_request_fifo_witness :
  let p := read_cmd_recv toy_recv in
  match find_queue (rr_queue_id p) (hu_queues toy_state) with
  | None => @cmd_recv_request linux_errno bool_alloc toy_umem toy_recv (toy_state, (tt, [])) = (Ok (-2), (toy_state, (tt, [])))
  | Some q =>
      match q_buffered q with
      | [] => @cmd_recv_request linux_errno bool_alloc toy_umem toy_recv (toy_state, (tt, [])) = (Ok (-11), (toy_state, (tt, [])))
      | (_, data) :: rest =>
          exists H' u', snd (@cmd_recv_request linux_errno bool_alloc toy_umem toy_recv (toy_state, (tt, []))) = (H', (tt, u')) /\
            (q_buffered <$> find_queue (rr_queue_id p) (hu_queues H')) = Some rest /\
            (forall i, i <> rr_queue_id p -> find_queue i (hu_queues H') = find_queue i (hu_queues toy_state)) /\
            u' = take (Z.to_nat (rr_buf_len p)) data
      end
  end.
Proof.
  apply (@recv_request_fifo linux_errno bool_alloc toy_umem toy_recv toy_state tt []). apply toy_state_inv.
Defined.

Lemma full_queue_strands_request_witness :
  let H' := fst (@enqueue_serialized bool_alloc 1 2 (bs "x") 1%nat
                   (set_chans (hu_chans toy_state ++ [ChEmpty]) toy_state, tt)) in
  hu_queues H' = hu_queues toy_state /\ (2, 1%nat) ∈ hu_pending H' /\ bridge_poll 1%nat H' = None.
Proof.
  apply (@full_queue_strands_request bool_alloc 1 2 (bs "x") 1%nat
    (set_chans (hu_chans toy_state ++ [ChEmpty]) toy_state) tt
    (mkQueue 1 1 [(1, request_bytes 1 toy_request)])).
  - apply new_chan_inv, toy_state_inv.
  - vm_compute. reflexivity.
  - reflexivity.
  - vm_compute. reflexivity.
  - reflexivity.
Defined.
