(* ===== verification/LeBytes.v ===== *)
(** * On-disk structures (rko-core/src/types/le.rs)

    [LE<T>] fields are little-endian integers kept in memory as they are on
    disk; [FromBytes] reinterprets a byte slice as a [#[repr(C)]] structure
    after a bounds and an alignment check.  A byte slice is its address and its
    bytes, because the alignment check looks at the address.  A structure is
    described by its field list, from which [repr_c] computes the offsets, the
    size and the alignment the way the C layout does. *)
From Stdlib Require Import ZArith Lia Bool.
From Stdlib.Strings Require Import Byte String.
From stdpp Require Import base list option numbers strings.
From S2P Require Import Prelude.

(** ** Little-endian integers

    The target's byte order decides how an integer sits in memory. *)
Inductive endian := Little | Big.

Definition to_memory (e : endian) (n : nat) (z : Z) : list byte :=
  match e with Little => le_encode n z | Big => be_encode n z end.
Definition of_memory (e : endian) (l : list byte) : Z :=
  match e with Little => le_decode l | Big => be_decode l end.

(** [uN::from_le] and [uN::to_le] on [n]-byte integers: a byte swap on a
    big-endian target, nothing on a little-endian one. *)
Definition swap_bytes (n : nat) (z : Z) : Z := be_decode (le_encode n z).
Definition from_le (e : endian) (n : nat) (z : Z) : Z :=
  match e with Little => z | Big => swap_bytes n z end.
Definition to_le (e : endian) (n : nat) (z : Z) : Z :=
  match e with Little => z | Big => swap_bytes n z end.

(** The wrapped integer of an [LE<T>], with [T] an unsigned integer of [n] bytes. *)
Record LE : Type := mkLE { le_raw : Z }.
Definition LE_new (e : endian) (n : nat) (val : Z) : LE := mkLE (to_le e n val).
Definition LE_value (e : endian) (n : nat) (x : LE) : Z := from_le e n (le_raw x).

(** ** Slices and [FromBytes] *)
Record bslice : Type := mkSlice { sl_addr : Z; sl_data : list byte }.

Class FromBytes (T : Type) := {
  fb_size : Z;
  fb_align : Z;
  fb_read : list byte -> T
}.
Arguments fb_size T {_}.
Arguments fb_align T {_}.

Class FromBytesOk (T : Type) {FB : FromBytes T} : Prop := {
  fb_size_pos : 0 < fb_size T < 2 ^ 63;
  fb_align_pos : 0 < fb_align T;
  fb_size_aligned : fb_size T mod fb_align T = 0
}.

Definition is_multiple_of (a b : Z) : bool := if b =? 0 then a =? 0 else a mod b =? 0.

(** The bytes [off .. off + n] of [l], without a bounds check. *)
Definition sub_bytes (l : list byte) (off n : Z) : list byte :=
  take (Z.to_nat n) (drop (Z.to_nat off) l).

Definition from_bytes {T} `{FromBytes T} (data : bslice) (offset : Z) : option T :=
  let size := fb_size T in
  let align := fb_align T in
  end_ ← u_checked_add 64 offset size;
  if end_ >? lenZ (sl_data data) then None
  else
    let ptr := wrap 64 (sl_addr data + offset) in
    if negb (is_multiple_of ptr align) then None
    else Some (fb_read (sub_bytes (sl_data data) offset size)).

Definition from_bytes_to_slice {T} `{FromBytes T} (data : bslice) : option (list T) :=
  let size := fb_size T in
  if (size =? 0) || negb (is_multiple_of (lenZ (sl_data data)) size) then None
  else
    let align := fb_align T in
    if negb (is_multiple_of (sl_addr data) align) then None
    else
      let count := lenZ (sl_data data) / size in
      Some ((fun i => fb_read (sub_bytes (sl_data data) (Z.of_nat i * size) size))
              <$> seq 0 (Z.to_nat count)).

(** [LE<u32>] as a [FromBytes] type on the target [e]. *)
Definition LE_u32_from_bytes (e : endian) : FromBytes LE := {|
  fb_size := 4;
  fb_align := 4;
  fb_read l := mkLE (of_memory e l) |}.

(** ** [#[repr(C)]] layouts

    The field types of the on-disk structures: little-endian or plain unsigned
    integers of 1, 2 or 4 bytes, and arrays of them. *)
Inductive fty := FInt (bytes : Z) | FArr (bytes count : Z).

Definition fty_size (t : fty) : Z :=
  match t with FInt b => b | FArr b c => b * c end.
Definition fty_align (t : fty) : Z :=
  match t with FInt b => b | FArr b _ => b end.

Definition align_up (z a : Z) : Z := (z + a - 1) / a * a.

(** The offset of each field and the end of the last one. *)
Fixpoint layout_from (pos : Z) (fs : list (string * fty)) : list (string * (Z * fty)) * Z :=
  match fs with
  | [] => ([], pos)
  | (f, t) :: r =>
      let off := align_up pos (fty_align t) in
      let '(l, e) := layout_from (off + fty_size t) r in
      ((f, (off, t)) :: l, e)
  end.

Definition struct_align (fs : list (string * fty)) : Z :=
  foldr Z.max 1 (fty_align ∘ snd <$> fs).
Definition struct_size (fs : list (string * fty)) : Z :=
  align_up (layout_from 0 fs).2 (struct_align fs).

Fixpoint assoc {A} (k : string) (l : list (string * A)) : option A :=
  match l with
  | [] => None
  | (k', v) :: r => if String.eqb k k' then Some v else assoc k r
  end.

Definition offset_of (fs : list (string * fty)) (f : string) : Z :=
  match assoc f (layout_from 0 fs).1 with Some (o, _) => o | None => 0 end.

(** The value of an integer field, as [.value()] returns it. *)
Definition field (fs : list (string * fty)) (f : string) (raw : list byte) : Z :=
  match assoc f (layout_from 0 fs).1 with
  | Some (o, t) => le_decode (sub_bytes raw o (fty_size t))
  | None => 0
  end.

(** The values of an array field. *)
Definition field_array (fs : list (string * fty)) (f : string) (raw : list byte) : list Z :=
  match assoc f (layout_from 0 fs).1 with
  | Some (o, FArr b c) =>
      (fun i => le_decode (sub_bytes raw (o + b * Z.of_nat i) b)) <$> seq 0 (Z.to_nat c)
  | _ => []
  end.

(** ** Lemmas *)

Lemma sub_bytes_length l off n : 0 <= off -> 0 <= n -> off + n <= lenZ l ->
  lenZ (sub_bytes l off n) = n.
Proof. intros. unfold sub_bytes, lenZ in *. rewrite length_take, length_drop. lia. Qed.

Lemma sub_bytes_all l : sub_bytes l 0 (lenZ l) = l.
Proof. unfold sub_bytes, lenZ. rewrite Nat2Z.id. simpl. rewrite drop_0. by rewrite firstn_all. Qed.

Lemma be_decode_range l : 0 <= be_decode l < 256 ^ lenZ l.
Proof.
  unfold be_decode. pose proof (le_decode_range (rev l)) as H.
  unfold lenZ in *. by rewrite length_rev in H.
Qed.

Lemma le_decode_be_encode n z : 0 <= z < 256 ^ Z.of_nat n -> be_decode (be_encode n z) = z.
Proof. intros. unfold be_decode, be_encode. rewrite rev_involutive. by apply le_decode_encode_id. Qed.

Lemma swap_bytes_of_memory l : swap_bytes (length l) (be_decode l) = le_decode l.
Proof.
  unfold swap_bytes, be_decode. rewrite <- (length_rev l), le_encode_decode, rev_involutive. done.
Qed.

Lemma swap_bytes_involutive n z : 0 <= z < 256 ^ Z.of_nat n -> swap_bytes n (swap_bytes n z) = z.
Proof.
  intros Hz. unfold swap_bytes at 2. rewrite <- (le_encode_length n z) at 1.
  rewrite swap_bytes_of_memory. by apply le_decode_encode_id.
Qed.

(** What a structure field loaded from disk evaluates to is the little-endian
    number in its bytes, on either target. *)
Lemma LE_value_of_memory e l : LE_value e (length l) (mkLE (of_memory e l)) = le_decode l.
Proof. destruct e; [done|]. apply swap_bytes_of_memory. Qed.

Lemma to_memory_to_le e n z : 0 <= z < 256 ^ Z.of_nat n -> to_memory e n (to_le e n z) = le_encode n z.
Proof.
  intros Hz. destruct e; [done|]. simpl. unfold be_encode.
  rewrite <- (rev_involutive (le_encode n z)) at 1. f_equal.
  unfold swap_bytes, be_decode.
  rewrite <- (le_encode_length n z) at 1. rewrite <- length_rev. apply le_encode_decode.
Qed.

Lemma is_multiple_of_spec a b : 0 < b -> is_multiple_of a b = true <-> a mod b = 0.
Proof. intros. unfold is_multiple_of. destruct (b =? 0) eqn:E; [blia|]. apply Z.eqb_eq. Qed.

Lemma from_bytes_spec {T} `{FromBytesOk T} data offset :
  0 <= offset < 2 ^ 64 ->
  from_bytes (T := T) data offset =
    if bool_decide (offset + fb_size T <= lenZ (sl_data data) /\ offset + fb_size T < 2 ^ 64 /\
                    wrap 64 (sl_addr data + offset) mod fb_align T = 0)
    then Some (fb_read (sub_bytes (sl_data data) offset (fb_size T)))
    else None.
Proof.
  intros Ho. unfold from_bytes, u_checked_add.
  destruct (offset + fb_size T <? 2 ^ 64) eqn:E1; cbn [mbind option_bind].
  2: { case_bool_decide; [blia|done]. }
  rewrite Z.gtb_ltb. destruct (lenZ (sl_data data) <? offset + fb_size T) eqn:E2.
  1: { case_bool_decide; [blia|done]. }
  destruct (is_multiple_of _ _) eqn:E3; cbn [negb].
  - apply is_multiple_of_spec in E3; [|apply fb_align_pos].
    rewrite bool_decide_eq_true_2; [done|]. blia.
  - rewrite bool_decide_eq_false_2; [done|]. intros (_ & _ & Hm).
    apply is_multiple_of_spec in Hm; [congruence|apply fb_align_pos].
Qed.

(** ** Properties *)

(** An [LE<T>] built from any value of [T] is stored as the value's
    little-endian bytes and [value] gives the value back, on little- and
    big-endian targets alike; reading the field from any bytes yields their
    little-endian number. *)
Theorem le_roundtrip (e : endian) (n : nat) (z : Z) (l : list byte) :
  0 <= z < 256 ^ Z.of_nat n ->
  LE_value e n (LE_new e n z) = z /\
  to_memory e n (le_raw (LE_new e n z)) = le_encode n z /\
  (length l = n -> LE_value e n (mkLE (of_memory e l)) = le_decode l).
Proof.
  intros Hz. split; [|split].
  - destruct e; [done|]. by apply swap_bytes_involutive.
  - by apply to_memory_to_le.
  - intros <-. apply LE_value_of_memory.
Qed.

Lemma le_roundtrip_witness :
  0 <= 61267 < 256 ^ Z.of_nat 2 /\
  LE_value Big 2 (LE_new Big 2 61267) = 61267.
Proof.
  split; [vm_compute; split; [discriminate|done]|].
  apply (proj1 (le_roundtrip Big 2 61267 [x53; xef] ltac:(vm_compute; split; [discriminate|done]))).
Defined.

(** [from_bytes] never reads outside the slice: it succeeds exactly when the
    whole structure lies inside the slice (no wrap-around of [offset + size])
    and the address is aligned, and then reads exactly the structure's bytes;
    [from_bytes_to_slice] succeeds exactly on aligned slices whose length is a
    multiple of the size, and yields the consecutive structures. *)
Theorem from_bytes_in_bounds {T} `{FromBytesOk T} (data : bslice) (offset : Z) :
  0 <= offset < 2 ^ 64 -> lenZ (sl_data data) <= isize_max ->
  (forall v, from_bytes (T := T) data offset = Some v <->
     offset + fb_size T <= lenZ (sl_data data) /\
     wrap 64 (sl_addr data + offset) mod fb_align T = 0 /\
     v = fb_read (sub_bytes (sl_data data) offset (fb_size T))) /\
  (forall vs, from_bytes_to_slice (T := T) data = Some vs ->
     lenZ vs * fb_size T = lenZ (sl_data data) /\
     forall i v, vs !! i = Some v <->
       (Z.of_nat i + 1) * fb_size T <= lenZ (sl_data data) /\
       v = fb_read (sub_bytes (sl_data data) (Z.of_nat i * fb_size T) (fb_size T))).
Proof.
  intros Ho Hl. pose proof (fb_size_pos (T := T)) as Hs. unfold isize_max in Hl. split.
  - intros v. rewrite from_bytes_spec by done. case_bool_decide as Hd.
    + split; [intros [= <-]; tauto|intros (_ & _ & ->); done].
    + split; [done|]. intros (H1 & H2 & _). exfalso. apply Hd. split_and!; [done|lia|done].
  - intros vs. unfold from_bytes_to_slice.
    destruct (fb_size T =? 0) eqn:E0; [blia|]. cbn [orb].
    destruct (is_multiple_of (lenZ (sl_data data)) (fb_size T)) eqn:Em; [|done]. cbn [negb].
    destruct (is_multiple_of (sl_addr data) _); [|done]. cbn [negb]. intros [= <-].
    apply is_multiple_of_spec in Em; [|lia].
    pose proof (lenZ_nonneg (sl_data data)) as Hn.
    assert (lenZ (sl_data data) = fb_size T * (lenZ (sl_data data) / fb_size T)) as Hd
      by (rewrite (Z_div_mod_eq_full (lenZ (sl_data data)) (fb_size T)) at 1; lia).
    assert (0 <= lenZ (sl_data data) / fb_size T) by (apply Z.div_pos; lia).
    split.
    + unfold lenZ at 1. rewrite length_fmap, length_seq. lia.
    + intros i v. rewrite list_lookup_fmap. split.
      * intros Hv. apply fmap_Some in Hv as (j & Hj & ->). apply lookup_seq in Hj as [-> Hlt].
        split; [nia|done].
      * intros [Hi ->]. rewrite lookup_seq_lt by nia. done.
Qed.

#[global] Instance LE_u32_from_bytes_ok e : @FromBytesOk LE (LE_u32_from_bytes e).
Proof. by constructor. Qed.

Lemma from_bytes_in_bounds_witness :
  @from_bytes LE (LE_u32_from_bytes Little) (mkSlice 4096 (le_encode 8 1)) 4 = Some (mkLE 0).
Proof.
  apply (from_bytes_in_bounds (T := LE) (H := LE_u32_from_bytes_ok Little)
           (mkSlice 4096 (le_encode 8 1)) 4); vm_compute; intuition discriminate.
Defined.
