(* ===== verification/Mapper.v ===== *)
(** * The block-device mapper (rko-core/src/fs/mapper.rs)

    [Mapper] reads a block device through its page cache.  The page cache is
    kernel code: [BlockCache] is the part of it the mapper calls and
    [BlockCacheOk] what it documents, namely that a folio that was read holds
    the device's pages from [folio_index] on and covers the requested page.
    Folios that are mapped and referenced are listed in the world, so that
    releasing them is part of every statement. *)
From Stdlib Require Import ZArith Lia Bool.
From Stdlib.Strings Require Import Byte String.
From stdpp Require Import base list option numbers.
From S2P Require Import Prelude Errors LeBytes.

Definition PAGE_SIZE : Z := 4096.

Class BlockCache := {
  bst : Type;
  (** [read_cache_folio(mapping, index, NULL, NULL)]: a pointer, an error
      pointer or null. *)
  read_cache_folio : Z -> Z -> bst -> Z * bst;
  (** The page index of the folio's first page and the folio's bytes. *)
  folio_index : Z -> Z;
  folio_mem : Z -> list byte;
  (** The address a byte offset of the folio is mapped at. *)
  kmap_local_folio : Z -> Z -> Z
}.

(** [disk m i] is page [i] of the device behind the mapping [m]. *)
Class BlockCacheOk (BC : BlockCache) (KP : KernelErrPtr) (disk : Z -> Z -> list byte) : Prop := {
  disk_page_len m i : lenZ (disk m i) = PAGE_SIZE;
  read_folio_ptr m i s : 0 <= i -> 0 <= (read_cache_folio m i s).1 < 2 ^ 64;
  read_folio_covers m i s f s' : 0 <= i -> read_cache_folio m i s = (f, s') ->
    rust_helper_IS_ERR f = false -> f <> 0 ->
    exists n : nat, folio_mem f = concat (disk m <$> seqZ (folio_index f) (Z.of_nat n)) /\
      folio_index f <= i < folio_index f + Z.of_nat n;
  kmap_page_aligned m i s f s' : 0 <= i -> read_cache_folio m i s = (f, s') ->
    rust_helper_IS_ERR f = false -> f <> 0 ->
    0 < kmap_local_folio f 0 < 2 ^ 64 - PAGE_SIZE /\ kmap_local_folio f 0 mod PAGE_SIZE = 0
}.

(** Every folio of the device's cache is a single page. *)
Class SinglePageFolios (BC : BlockCache) (KP : KernelErrPtr) : Prop :=
  single_page m i s f s' : 0 <= i -> read_cache_folio m i s = (f, s') ->
    rust_helper_IS_ERR f = false -> f <> 0 -> folio_index f = i.

(** No read fails. *)
Class BlockCacheLive (BC : BlockCache) (KP : KernelErrPtr) : Prop :=
  read_live m i s : 0 <= i < 2 ^ 51 ->
    rust_helper_IS_ERR (read_cache_folio m i s).1 = false /\ (read_cache_folio m i s).1 <> 0.

Record Mapper : Type := mkMapper { mapping : Z }.

Record MappedFolio : Type := mkMF {
  mf_folio : Z; mf_addr : Z; mf_offset_in_folio : Z; mf_len : Z }.

Record BoundedMapper : Type := mkBM { bm_mapper : Mapper; bm_offset : Z; bm_len : Z }.

Section Ops.
Context `{KE : KernelErrno, KP : KernelErrPtr, BC : BlockCache}.

(** The device, the folios held, and whatever else the caller works on. *)
Record World (X : Type) : Type := mkWorld { w_dev : bst; w_held : list Z; w_ext : X }.
Arguments mkWorld {X}.
Arguments w_dev {X}.
Arguments w_held {X}.
Arguments w_ext {X}.

Definition mf_data (mf : MappedFolio) : res Error bslice :=
  if mf_offset_in_folio mf + mf_len mf <=? lenZ (folio_mem (mf_folio mf))
  then Ok (mkSlice (mf_addr mf + mf_offset_in_folio mf)
             (sub_bytes (folio_mem (mf_folio mf)) (mf_offset_in_folio mf) (mf_len mf)))
  else Ub.

Definition mf_cap (mf : MappedFolio) (max_len : Z) : MappedFolio :=
  if max_len <? mf_len mf
  then mkMF (mf_folio mf) (mf_addr mf) (mf_offset_in_folio mf) max_len
  else mf.

Fixpoint release (f : Z) (l : list Z) : list Z :=
  match l with
  | [] => []
  | g :: t => if g =? f then t else g :: release f t
  end.

(** [Drop for MappedFolio]: unmap and put. *)
Definition mf_drop {X} (mf : MappedFolio) (w : World X) : World X :=
  mkWorld (w_dev w) (release (mf_folio mf) (w_held w)) (w_ext w).

(** A block that owns [mf]: it is dropped on every way out. *)
Definition scoped {X A} (mf : MappedFolio) (k : M (World X) Error A) : M (World X) Error A :=
  fun w => let '(r, w') := k w in (r, mf_drop mf w').

Definition mapped_folio {X} (m : Mapper) (offset : Z) : M (World X) Error MappedFolio :=
  fun w =>
    if offset <? 0 then (Err EINVAL, w)
    else
      let offset_u := wrap 64 offset in
      let page_index := offset_u / PAGE_SIZE in
      let offset_in_page := offset_u mod PAGE_SIZE in
      let '(folio, d) := read_cache_folio (mapping m) page_index (w_dev w) in
      if rust_helper_IS_ERR folio
      then (Err (Error_new (sext 32 (rust_helper_PTR_ERR folio))), mkWorld d (w_held w) (w_ext w))
      else if folio =? 0 then (Err EIO, mkWorld d (w_held w) (w_ext w))
      else
        let data := kmap_local_folio folio 0 in
        let len := PAGE_SIZE - offset_in_page in
        (Ok (mkMF folio data offset_in_page len), mkWorld d (folio :: w_held w) (w_ext w)).

Section ForEach.
Context {X U : Type} (m : Mapper) (cb : bslice -> M (World X) Error (option U)).

Fixpoint for_each_loop (fuel : nat) (next remain : Z) : M (World X) Error (option U) :=
  match fuel with
  | O => m_lift Pending
  | S fuel =>
      if 0 <? remain then
        mapped <-! mapped_folio m next ;;
        r <-! scoped mapped (
          d <-! m_lift (mf_data mapped) ;;
          let avail := Z.min (lenZ (sl_data d)) (wrap 64 remain) in
          s <-! m_lift (slice (sl_data d) 0 avail) ;;
          ret <-! cb (mkSlice (sl_addr d) s) ;;
          m_ret (ret, avail)) ;;
        match r with
        | (Some u, _) => m_ret (Some u)
        | (None, avail) => for_each_loop fuel (sext 64 (next + avail)) (sext 64 (remain - avail))
        end
      else m_ret None
  end.

(** The fuel counts pages: a range of [len] bytes touches at most
    [len / PAGE_SIZE + 2] of them. *)
Definition page_fuel (len : Z) : nat := (Z.to_nat (len / PAGE_SIZE) + 3)%nat.

Definition for_each_page (offset len : Z) : M (World X) Error (option U) :=
  if len <=? 0 then m_ret None else for_each_loop (page_fuel len) offset len.

End ForEach.

(** ** [BoundedMapper] *)
Definition bounded (m : Mapper) (offset len : Z) : BoundedMapper := mkBM m offset len.
Definition bm_is_empty (b : BoundedMapper) : bool := bm_len b <=? 0.

(** The prefix and what [self] becomes. *)
Definition split_at (b : BoundedMapper) (mid : Z) : BoundedMapper * BoundedMapper :=
  let mid := Z.max (Z.min mid (bm_len b)) 0 in
  (mkBM (bm_mapper b) (bm_offset b) mid,
   mkBM (bm_mapper b) (sext 64 (bm_offset b + mid)) (sext 64 (bm_len b - mid))).

Definition cap_len (b : BoundedMapper) (max_len : Z) : BoundedMapper :=
  if max_len <? bm_len b then mkBM (bm_mapper b) (bm_offset b) (Z.max max_len 0) else b.

Definition bm_mapped_folio {X} (b : BoundedMapper) (rel_offset : Z) : M (World X) Error MappedFolio :=
  if (rel_offset <? 0) || (bm_len b <=? rel_offset) then m_err EINVAL
  else
    let abs := sext 64 (bm_offset b + rel_offset) in
    mapped <-! mapped_folio (bm_mapper b) abs ;;
    let max_len := wrap 64 (bm_len b - rel_offset) in
    m_ret (mf_cap mapped max_len).

Definition bm_for_each_page {X U} (b : BoundedMapper)
    (cb : bslice -> M (World X) Error (option U)) : M (World X) Error (option U) :=
  for_each_page (bm_mapper b) cb (bm_offset b) (bm_len b).

End Ops.
Arguments World {_}.
Arguments mkWorld {_ X}.
Arguments w_dev {_ X}.
Arguments w_held {_ X}.
Arguments w_ext {_ X}.

(** ** The device as bytes *)
Section Disk.
Context (disk : Z -> Z -> list byte).

Definition byte_at (m : Mapper) (z : Z) : byte :=
  nth (Z.to_nat (z mod PAGE_SIZE)) (disk (mapping m) (z / PAGE_SIZE)) x00.

(** The [n] bytes of the device from [off] on. *)
Definition disk_range (m : Mapper) (off n : Z) : list byte := byte_at m <$> seqZ off n.

(** From [off] to the end of its page. *)
Definition disk_tail (m : Mapper) (off : Z) : list byte :=
  disk_range m off (PAGE_SIZE - off mod PAGE_SIZE).

Lemma disk_range_length m off n : 0 <= n -> lenZ (disk_range m off n) = n.
Proof. intros. unfold disk_range, lenZ. rewrite length_fmap, length_seqZ. lia. Qed.

Lemma disk_range_app m off a b : 0 <= a -> 0 <= b ->
  disk_range m off (a + b) = disk_range m off a ++ disk_range m (off + a) b.
Proof. intros. unfold disk_range. rewrite seqZ_app by lia. by rewrite fmap_app. Qed.

Lemma disk_range_take m off a n : 0 <= a <= n ->
  take (Z.to_nat a) (disk_range m off n) = disk_range m off a.
Proof.
  intros. replace n with (a + (n - a)) by lia. rewrite disk_range_app by lia.
  apply take_app_length'. pose proof (disk_range_length m off a ltac:(lia)) as Hl.
  unfold lenZ in Hl. lia.
Qed.

Lemma disk_range_drop m off a n : 0 <= a <= n ->
  drop (Z.to_nat a) (disk_range m off n) = disk_range m (off + a) (n - a).
Proof.
  intros. replace n with (a + (n - a)) at 1 by lia. rewrite disk_range_app by lia.
  apply drop_app_length'. pose proof (disk_range_length m off a ltac:(lia)) as Hl.
  unfold lenZ in Hl. lia.
Qed.

(** A part of a range is a range. *)
Lemma sub_bytes_disk_range m off n a b : 0 <= a -> 0 <= b -> a + b <= n ->
  sub_bytes (disk_range m off n) a b = disk_range m (off + a) b.
Proof. intros. unfold sub_bytes. rewrite disk_range_drop by lia. apply disk_range_take. lia. Qed.

Lemma disk_range_lookup m off n i : 0 <= i < n ->
  disk_range m off n !! Z.to_nat i = Some (byte_at m (off + i)).
Proof.
  intros. unfold disk_range. rewrite list_lookup_fmap, lookup_seqZ_lt by lia. simpl. do 2 f_equal. lia.
Qed.

(** A page cut at its offset is the device from there to the page's end. *)
Lemma disk_page_drop m off : 0 <= off -> lenZ (disk (mapping m) (off / PAGE_SIZE)) = PAGE_SIZE ->
  drop (Z.to_nat (off mod PAGE_SIZE)) (disk (mapping m) (off / PAGE_SIZE)) = disk_tail m off.
Proof.
  intros Ho Hl. unfold lenZ in Hl. pose proof (Z.mod_pos_bound off PAGE_SIZE ltac:(done)) as Hm.
  unfold disk_tail. apply list_eq_same_length with
    (n := Z.to_nat (PAGE_SIZE - off mod PAGE_SIZE)).
  - pose proof (disk_range_length m off (PAGE_SIZE - off mod PAGE_SIZE) ltac:(lia)) as H.
    unfold lenZ in H. lia.
  - rewrite length_drop. lia.
  - intros i x y Hi Hx Hy. rewrite lookup_drop in Hx.
    replace i with (Z.to_nat (Z.of_nat i)) in Hy by lia.
    rewrite disk_range_lookup in Hy by lia. injection Hy as <-. unfold byte_at.
    assert (off + Z.of_nat i = off mod PAGE_SIZE + Z.of_nat i + off / PAGE_SIZE * PAGE_SIZE) as He
      by (pose proof (Z_div_mod_eq_full off PAGE_SIZE); lia).
    rewrite He, Z.mod_add, Z.div_add by done.
    rewrite Z.mod_small, Z.div_small by lia. rewrite Z.add_0_l.
    symmetry. apply nth_lookup_Some.
    replace (Z.to_nat (off mod PAGE_SIZE + Z.of_nat i)) with (Z.to_nat (off mod PAGE_SIZE) + i)%nat by lia.
    done.
Qed.

End Disk.

Section Proofs.
Context `{KE : KernelErrno, KP : KernelErrPtr, BC : BlockCache} (disk : Z -> Z -> list byte).
Context {BCO : BlockCacheOk BC KP disk} {SP : SinglePageFolios BC KP}.

(** What a successful [mapped_folio] at [off] leaves the caller with. *)
Record page_read {X} (m : Mapper) (off : Z) (mf : MappedFolio) (w w' : World X) : Prop := {
  rd_held : w_held w' = mf_folio mf :: w_held w;
  rd_ext : w_ext w' = w_ext w;
  rd_data : mf_data mf = Ok (mkSlice (mf_addr mf + off mod PAGE_SIZE) (disk_tail disk m off));
  rd_addr : 0 < mf_addr mf < 2 ^ 64 - PAGE_SIZE /\ mf_addr mf mod PAGE_SIZE = 0;
  rd_off : mf_offset_in_folio mf = off mod PAGE_SIZE;
  rd_len : mf_len mf = PAGE_SIZE - off mod PAGE_SIZE
}.

(** Nothing but the device's state changed. *)
Definition untouched {X} (w w' : World X) : Prop := w_held w' = w_held w /\ w_ext w' = w_ext w.

#[global] Instance untouched_refl {X} : Reflexive (@untouched X).
Proof. by split. Qed.
#[global] Instance untouched_trans {X} : Transitive (@untouched X).
Proof. intros w1 w2 w3 [H1 H2] [H3 H4]. split; congruence. Qed.

Lemma mapped_folio_spec {X} (m : Mapper) off (w : World X) : 0 <= off < 2 ^ 63 ->
  (exists mf w', mapped_folio m off w = (Ok mf, w') /\ page_read m off mf w w') \/
  (exists e w', mapped_folio m off w = (Err e, w') /\ untouched w w').
Proof.
  intros Ho. unfold mapped_folio. destruct (off <? 0) eqn:E; [blia|].
  rewrite wrap_small by lia.
  destruct (read_cache_folio _ _ _) as [f d] eqn:Er.
  assert (0 <= off / PAGE_SIZE) as Hi by (apply Z.div_pos; [lia|done]).
  destruct (rust_helper_IS_ERR f) eqn:Ee; [right; do 2 eexists; split; [done|by split]|].
  destruct (f =? 0) eqn:E0; [right; do 2 eexists; split; [done|by split]|].
  apply Z.eqb_neq in E0. left. do 2 eexists. split; [done|].
  destruct (read_folio_covers _ _ _ _ _ Hi Er Ee E0) as (n & Hm & Hc).
  rewrite (single_page _ _ _ _ _ Hi Er Ee E0) in Hm, Hc.
  pose proof (disk_page_len (mapping m) (off / PAGE_SIZE)) as Hl.
  pose proof (Z.mod_pos_bound off PAGE_SIZE ltac:(done)) as Hmod.
  rewrite seqZ_cons in Hm by lia. cbn in Hm.
  constructor; cbn [w_held w_ext mf_folio mf_addr]; try done.
  - unfold mf_data; cbn [mf_offset_in_folio mf_len mf_addr mf_folio]. rewrite Hm.
    rewrite lenZ_app, Hl. destruct (_ <=? _) eqn:El;
      [|apply Z.leb_gt in El; pose proof (lenZ_nonneg (concat (disk (mapping m) <$> seqZ (Z.succ (off / PAGE_SIZE)) (Z.pred (Z.of_nat n))))); lia].
    do 2 f_equal. unfold sub_bytes, lenZ in *.
    rewrite drop_app_le, take_app_le by (rewrite ?length_drop; lia).
    rewrite take_ge by (rewrite length_drop; lia).
    apply disk_page_drop; [lia|done].
  - eapply kmap_page_aligned; eauto.
Qed.

Lemma mapped_folio_live {X} `{!BlockCacheLive BC KP} (m : Mapper) off (w : World X) : 0 <= off < 2 ^ 63 ->
  exists mf w', mapped_folio m off w = (Ok mf, w') /\ page_read m off mf w w'.
Proof.
  intros Ho. destruct (mapped_folio_spec m off w Ho) as [?|(e & w' & He & _)]; [done|exfalso].
  unfold mapped_folio in He. destruct (off <? 0) eqn:E; [blia|].
  rewrite wrap_small in He by lia.
  assert (0 <= off / PAGE_SIZE < 2 ^ 51) as Hi
    by (split; [apply Z.div_pos; [lia|done]|apply Z.div_lt_upper_bound; [done|unfold PAGE_SIZE; lia]]).
  pose proof (read_live (mapping m) _ (w_dev w) Hi) as [H1 H2].
  destruct (read_cache_folio _ _ _) as [f d]. cbn in H1, H2. rewrite H1 in He.
  by rewrite (proj2 (Z.eqb_neq f 0) H2) in He.
Qed.

(** A read succeeds, or the device is one whose reads can fail. *)
Lemma mapped_folio_io {X} (m : Mapper) off (w : World X) : 0 <= off < 2 ^ 63 ->
  (exists mf w', mapped_folio m off w = (Ok mf, w') /\ page_read m off mf w w') \/
  (exists e w', mapped_folio m off w = (Err e, w') /\ untouched w w' /\ ~ BlockCacheLive BC KP).
Proof.
  intros Ho. destruct (mapped_folio_spec m off w Ho) as [?|(e & w' & He & Hu)]; [by left|right].
  exists e, w'. split; [done|]. split; [done|]. intros HL.
  destruct (mapped_folio_live m off w Ho) as (mf & w2 & Hok & _). congruence.
Qed.

(** [e] is how a page of the device failed to be read. *)
Definition read_error (X : Type) (m : Mapper) (e : Error) : Prop :=
  exists off (w w' : World X), 0 <= off < 2 ^ 63 /\ mapped_folio m off w = (Err e, w').

(** The error of a failed read is never zero, so it cannot pass for success. *)
Lemma read_error_nonzero {KEO : KernelErrnoOk KE} {KPO : KernelErrPtrOk KP} X m e :
  read_error X m e -> to_errno e <> 0.
Proof.
  intros (off & w & w' & Ho & He). unfold mapped_folio in He. destruct (off <? 0) eqn:E; [blia|].
  rewrite wrap_small in He by lia.
  assert (0 <= off / PAGE_SIZE) as Hi by (apply Z.div_pos; [lia|done]).
  pose proof (read_folio_ptr (mapping m) _ (w_dev w) Hi) as Hp.
  destruct (read_cache_folio _ _ _) as [f d]. cbn [fst] in Hp. unfold to_errno.
  rewrite is_err_spec, ptr_err_spec in He by lia. unfold MAX_ERRNO in He.
  destruct (2 ^ 64 - 4095 <=? f) eqn:Ef; [|destruct (f =? 0); [|done]]; injection He as <- _.
  - assert (sext 64 f = f - 2 ^ 64) as ->.
    { transitivity (sext 64 (f - 2 ^ 64)); [|apply sext_neg; blia].
      assert (wrap 64 f = wrap 64 (f - 2 ^ 64)) as Hw; [|unfold sext; by rewrite Hw].
      unfold wrap. rewrite <- (Z.mod_add (f - 2 ^ 64) 1) by done. f_equal. lia. }
    rewrite sext_neg by blia. rewrite Error_new_pos by (unfold MAX_ERRNO; blia). blia.
  - pose proof (errno_in sys_EIO ltac:(unfold errno_table; do 5 right; left)).
    unfold EIO. rewrite Error_new_neg by done. lia.
Qed.

(** A structure read out of the mapped page. *)
Lemma from_bytes_disk {T} `{FromBytesOk T} {X} m off mf (w w' : World X) o :
  page_read m off mf w w' -> PAGE_SIZE mod fb_align T = 0 -> 0 <= off -> 0 <= o ->
  o + fb_size T <= PAGE_SIZE - off mod PAGE_SIZE -> (off + o) mod fb_align T = 0 ->
  from_bytes (T := T) (mkSlice (mf_addr mf + off mod PAGE_SIZE) (disk_tail disk m off)) o =
    Some (fb_read (disk_range disk m (off + o) (fb_size T))).
Proof.
  intros Hr Ha Hoff Ho Hs Hal. destruct (rd_addr _ _ _ _ _ Hr) as [Hrange Hpg].
  pose proof (Z.mod_pos_bound off PAGE_SIZE ltac:(done)) as Hm.
  pose proof (fb_size_pos (T := T)). pose proof (fb_align_pos (T := T)) as Hap.
  assert (PAGE_SIZE = 4096) as HP by done.
  assert (lenZ (disk_tail disk m off) = PAGE_SIZE - off mod PAGE_SIZE) as Hl
    by (apply disk_range_length; lia).
  rewrite from_bytes_spec by lia. cbn [sl_data sl_addr]. rewrite bool_decide_eq_true_2.
  - unfold disk_tail. by rewrite sub_bytes_disk_range by lia.
  - rewrite Hl. split; [lia|]. split; [lia|]. rewrite wrap_small by lia.
    apply Z.mod_divide in Hpg, Ha, Hal; [|lia..]. apply Z.mod_divide; [lia|].
    assert ((fb_align T | mf_addr mf)) by (etrans; [exact Ha|exact Hpg]).
    replace (mf_addr mf + off mod PAGE_SIZE + o) with
      (mf_addr mf + ((off + o) - off / PAGE_SIZE * PAGE_SIZE))
      by (pose proof (Z_div_mod_eq_full off PAGE_SIZE); lia).
    apply Z.divide_add_r; [done|]. apply Z.divide_sub_r; [done|]. by apply Z.divide_mul_r.
Qed.

(** A part of the device as an array of structures. *)
Lemma to_slice_range {T} `{FromBytesOk T} m a off c :
  0 <= c -> c mod fb_size T = 0 -> a mod fb_align T = 0 ->
  from_bytes_to_slice (T := T) (mkSlice a (disk_range disk m off c)) =
    Some ((fun i => fb_read (disk_range disk m (off + Z.of_nat i * fb_size T) (fb_size T)))
            <$> seq 0 (Z.to_nat (c / fb_size T))).
Proof.
  intros Hc Hs Ha. pose proof (fb_size_pos (T := T)) as Hsp. pose proof (fb_align_pos (T := T)) as Hap.
  unfold from_bytes_to_slice. cbn [sl_data sl_addr]. rewrite disk_range_length by lia.
  destruct (fb_size T =? 0) eqn:E0; [blia|]. cbn [orb].
  rewrite (proj2 (is_multiple_of_spec _ _ (proj1 Hsp)) Hs), (proj2 (is_multiple_of_spec _ _ Hap) Ha).
  cbn [negb]. f_equal. apply list_fmap_ext. intros i j Hij. apply lookup_seq in Hij as [-> Hi].
  f_equal. rewrite sub_bytes_disk_range; [done|lia|lia|].
  pose proof (Z.mul_div_le c (fb_size T) (proj1 Hsp)). nia.
Qed.

(** Offsets in a page, for sizes and alignments that divide the page. *)
Lemma page_offset_divide d off : 0 < d -> PAGE_SIZE mod d = 0 -> off mod d = 0 -> (off mod PAGE_SIZE) mod d = 0.
Proof.
  intros Hd Hp Ho. apply Z.mod_divide in Hp, Ho; [|lia..]. apply Z.mod_divide; [lia|].
  rewrite Z.mod_eq by done. apply Z.divide_sub_r; [done|]. by apply Z.divide_mul_l.
Qed.

(** The whole mapped page as an array of structures. *)
Lemma to_slice_disk {T} `{FromBytesOk T} {X} m off mf (w w' : World X) :
  page_read m off mf w w' -> PAGE_SIZE mod fb_align T = 0 -> PAGE_SIZE mod fb_size T = 0 -> 0 <= off ->
  off mod fb_size T = 0 -> off mod fb_align T = 0 ->
  from_bytes_to_slice (T := T) (mkSlice (mf_addr mf + off mod PAGE_SIZE) (disk_tail disk m off)) =
    Some ((fun i => fb_read (disk_range disk m (off + Z.of_nat i * fb_size T) (fb_size T)))
            <$> seq 0 (Z.to_nat ((PAGE_SIZE - off mod PAGE_SIZE) / fb_size T))).
Proof.
  intros Hr Ha Hps Hoff Hs Hal. destruct (rd_addr _ _ _ _ _ Hr) as [Hrange Hpg].
  pose proof (Z.mod_pos_bound off PAGE_SIZE ltac:(done)) as Hm.
  pose proof (fb_size_pos (T := T)) as Hsp. pose proof (fb_align_pos (T := T)) as Hap.
  pose proof (page_offset_divide _ _ (proj1 Hsp) Hps Hs) as Hd1.
  pose proof (page_offset_divide _ _ Hap Ha Hal) as Hd2.
  apply Z.mod_divide in Hd1, Hd2, Hpg, Ha, Hps; [|first [done|lia]..].
  apply to_slice_range; [lia| |]; apply Z.mod_divide; try lia.
  - by apply Z.divide_sub_r.
  - apply Z.divide_add_r; [|done]. etrans; [exact Ha|exact Hpg].
Qed.

Lemma release_head f l : release f (f :: l) = l.
Proof. cbn. by rewrite Z.eqb_refl. Qed.

(** Dropping what was just mapped restores the list of held folios. *)
Lemma scoped_eq {X A} m off mf (w w1 : World X) (k : M (World X) Error A) r w2 :
  page_read m off mf w w1 -> k w1 = (r, w2) -> w_held w2 = w_held w1 ->
  exists w3, scoped mf k w1 = (r, w3) /\ w_held w3 = w_held w /\ w_ext w3 = w_ext w2.
Proof.
  intros Hr Hk Hh. unfold scoped. rewrite Hk. eexists. split; [done|].
  unfold mf_drop; cbn [w_held w_ext]. rewrite Hh, (rd_held _ _ _ _ _ Hr), release_head. done.
Qed.

(** ** [for_each_page] *)

(** A callback that records what it is shown and decides by [f]. *)
Definition log_cb {U} (f : list byte -> option U) (d : bslice) :
    M (World (list (list byte))) Error (option U) :=
  fun w => (Ok (f (sl_data d)), mkWorld (w_dev w) (w_held w) (w_ext w ++ [sl_data d])).

Lemma disk_tail_take m off remain :
  0 <= off -> 0 < remain < 2 ^ 63 ->
  let avail := Z.min (lenZ (disk_tail disk m off)) (wrap 64 remain) in
  @slice Error _ (disk_tail disk m off) 0 avail = Ok (disk_range disk m off avail) /\
  avail = Z.min (PAGE_SIZE - off mod PAGE_SIZE) remain.
Proof.
  intros Ho Hr. pose proof (Z.mod_pos_bound off PAGE_SIZE ltac:(done)) as Hm.
  unfold disk_tail. rewrite disk_range_length by lia. rewrite wrap_small by lia. cbn zeta.
  split; [|done]. rewrite slice_ok by (rewrite ?disk_range_length; lia).
  rewrite Z.sub_0_r. rewrite drop_0. by rewrite disk_range_take by lia.
Qed.

(** *** The loop with any callback

    [I n x]: what holds of the caller's state after [n] bytes; [Q r x]: what is to
    hold at the end.  The callback is shown the next part of the range at an
    address that agrees with its device offset modulo the page size. *)
Section Rule.
Context {X U : Type} (m : Mapper) (cb : bslice -> M (World X) Error (option U)).
Context (off len : Z) (I : Z -> X -> Prop) (Q : res Error (option U) -> X -> Prop).
Hypothesis Hoff : 0 <= off.
Hypothesis Hlen : 0 <= len.
Hypothesis Hfit : off + len < 2 ^ 63.
Hypothesis cb_spec : forall n c a w1,
  0 <= n -> 0 < c -> n + c <= len -> c = Z.min (PAGE_SIZE - (off + n) mod PAGE_SIZE) (len - n) ->
  0 < a < 2 ^ 64 -> a mod PAGE_SIZE = (off + n) mod PAGE_SIZE -> I n (w_ext w1) ->
  exists r w2, cb (mkSlice a (disk_range disk m (off + n) c)) w1 = (r, w2) /\ w_held w2 = w_held w1 /\
    match r with Ok None => I (n + c) (w_ext w2) | _ => Q r (w_ext w2) end.
Hypothesis read_fails : forall n e x, 0 <= n < len -> I n x -> ~ BlockCacheLive BC KP ->
  read_error X m e -> Q (Err e) x.
Hypothesis at_end : forall x, I len x -> Q (Ok None) x.

(** One turn of the loop, with a read that succeeds. *)
Lemma for_each_turn_ok fuel n (w w1 : World X) mf :
  0 <= n < len -> I n (w_ext w) ->
  mapped_folio m (off + n) w = (Ok mf, w1) -> page_read m (off + n) mf w w1 ->
  let c := Z.min (PAGE_SIZE - (off + n) mod PAGE_SIZE) (len - n) in
  exists r w3, w_held w3 = w_held w /\
    match r with Ok None => I (n + c) (w_ext w3) | _ => Q r (w_ext w3) end /\
    for_each_loop m cb (S fuel) (off + n) (len - n) w =
      match r with
      | Ok None => for_each_loop m cb fuel (off + (n + c)) (len - (n + c)) w3
      | _ => (r, w3)
      end.
Proof.
  intros Hn HI Hmf Hrd c. assert (PAGE_SIZE = 4096) as HP by done.
  pose proof (Z.mod_pos_bound (off + n) PAGE_SIZE ltac:(done)) as Hm.
  destruct (disk_tail_take m (off + n) (len - n) ltac:(lia) ltac:(lia)) as [Hsl Hav]. fold c in Hav.
  destruct (rd_addr _ _ _ _ _ Hrd) as [Har Ham].
  set (a := mf_addr mf + (off + n) mod PAGE_SIZE).
  assert (a mod PAGE_SIZE = (off + n) mod PAGE_SIZE) as Hamod.
  { unfold a. rewrite Z.add_mod, Ham, Z.add_0_l, !Z.mod_mod by done. done. }
  destruct (cb_spec n c a w1) as (r & w2 & Hcb & Hh2 & Hr); try done; try (unfold a, c; lia).
  { by rewrite (rd_ext _ _ _ _ _ Hrd). }
  exists r. cbn [for_each_loop]. destruct (0 <? len - n) eqn:E0; [|blia].
  unfold m_bind at 1. rewrite Hmf. unfold m_bind at 1.
  match goal with |- context [scoped mf ?k w1] => set (body := k) end.
  assert (body w1 = (match r with Ok o => Ok (o, c) | Err e => Err e | Panic => Panic | Ub => Ub | Pending => Pending end, w2)) as Hb.
  { unfold body. rewrite (rd_data _ _ _ _ _ Hrd). unfold m_bind, m_lift, m_ret. cbn [sl_data sl_addr].
    rewrite Hsl, Hav. fold a. rewrite Hcb. by destruct r. }
  destruct (scoped_eq m (off + n) mf w w1 body _ w2 Hrd Hb Hh2) as (w3 & Hsc & Hh3 & He3).
  exists w3. rewrite Hsc, He3. split; [done|]. split; [done|].
  destruct r as [[u|]|e| | |]; try done. rewrite !sext_id by lia. f_equal; lia.
Qed.

Lemma for_each_turn fuel n (w : World X) :
  0 <= n < len -> I n (w_ext w) ->
  (exists r w', for_each_loop m cb (S fuel) (off + n) (len - n) w = (r, w') /\
     w_held w' = w_held w /\ Q r (w_ext w')) \/
  (exists c w2, c = Z.min (PAGE_SIZE - (off + n) mod PAGE_SIZE) (len - n) /\
     for_each_loop m cb (S fuel) (off + n) (len - n) w =
       for_each_loop m cb fuel (off + (n + c)) (len - (n + c)) w2 /\
     w_held w2 = w_held w /\ I (n + c) (w_ext w2)).
Proof.
  intros Hn HI.
  destruct (mapped_folio_io m (off + n) w ltac:(lia)) as [(mf & w1 & Hmf & Hrd)|(e & w1 & Hmf & [Hh He] & Hnl)].
  - destruct (for_each_turn_ok fuel n w w1 mf Hn HI Hmf Hrd) as (r & w3 & Hh & Hr & ->).
    destruct r as [[u|]|e| | |]; [left|right|left..]; eauto 10.
  - left. exists (Err e), w1. cbn [for_each_loop]. destruct (0 <? len - n) eqn:E0; [|blia].
    unfold m_bind at 1. rewrite Hmf, He. split; [done|]. split; [done|]. apply (read_fails n); try done.
    exists (off + n), w, w1. split; [lia|done].
Qed.

Lemma for_each_loop_rule fuel n (w : World X) :
  0 <= n <= len -> I n (w_ext w) -> (0 < fuel)%nat ->
  (n < len -> (off + n) mod PAGE_SIZE + (len - n) <= PAGE_SIZE * (Z.of_nat fuel - 1)) ->
  exists r w', for_each_loop m cb fuel (off + n) (len - n) w = (r, w') /\
    w_held w' = w_held w /\ Q r (w_ext w').
Proof.
  assert (PAGE_SIZE = 4096) as HP by done.
  revert n w. induction fuel as [|fuel IH]; intros n w Hn HI Hf0 Hf; [lia|].
  destruct (decide (n = len)) as [->|Hne].
  { exists (Ok None), w. cbn [for_each_loop]. rewrite Z.sub_diag. auto. }
  pose proof (Z.mod_pos_bound (off + n) PAGE_SIZE ltac:(done)) as Hm.
  destruct (for_each_turn fuel n w ltac:(lia) HI) as [?|(c & w2 & Hc & -> & Hh & HI2)]; [done|].
  destruct (IH (n + c) w2) as (r & w' & -> & Hh' & HQ); [lia|done|lia| |].
  - intros Hgt. replace (off + (n + c)) with (((off + n) / PAGE_SIZE + 1) * PAGE_SIZE)
      by (pose proof (Z_div_mod_eq_full (off + n) PAGE_SIZE); lia).
    rewrite Z.mod_mul by done. lia.
  - exists r, w'. split; [done|]. split; [congruence|done].
Qed.

Lemma for_each_rule (w : World X) :
  I 0 (w_ext w) ->
  exists r w', for_each_page m cb off len w = (r, w') /\ w_held w' = w_held w /\ Q r (w_ext w').
Proof.
  intros HI. unfold for_each_page. destruct (len <=? 0) eqn:E.
  - assert (len = 0) as Hz by blia. exists (Ok None), w. split; [done|]. split; [done|].
    apply at_end. by rewrite Hz.
  - destruct (for_each_loop_rule (page_fuel len) 0 w) as (r & w' & Hl & Hh & HQ); [lia|done| | |].
    + unfold page_fuel. lia.
    + intros _. unfold page_fuel. pose proof (Z.mod_pos_bound (off + 0) PAGE_SIZE ltac:(done)).
      pose proof (Z_div_mod_eq_full len PAGE_SIZE). pose proof (Z.mod_pos_bound len PAGE_SIZE ltac:(done)).
      assert (0 <= len / PAGE_SIZE) by (apply Z.div_pos; [lia|done]). unfold PAGE_SIZE in *. lia.
    + rewrite Z.add_0_r, Z.sub_0_r in Hl. eauto.
Qed.
End Rule.

(** ** Properties *)

(** C21. [for_each_page] shows its callback the bytes [offset, offset + len) of the
    device: in order, each page's part once, none outside the range.  It stops
    at the first chunk the callback answers, ends with [None] exactly after the
    whole range, reports a failed read after a proper prefix, always terminates
    and releases every folio it mapped. *)
Theorem for_each_page_covers {U} (f : list byte -> option U) m offset len (w : World (list (list byte))) :
  0 <= offset -> 0 <= len -> offset + len < 2 ^ 63 ->
  exists r w' log, for_each_page m (log_cb f) offset len w = (r, w') /\
    w_held w' = w_held w /\ w_ext w' = w_ext w ++ log /\
    match r with
    | Ok None => concat log = disk_range disk m offset len /\ Forall (fun d => f d = None) log
    | Ok (Some u) => exists l d, log = l ++ [d] /\ f d = Some u /\ Forall (fun d => f d = None) l /\
        concat log = disk_range disk m offset (lenZ (concat log)) /\ lenZ (concat log) <= len
    | Err _ => concat log = disk_range disk m offset (lenZ (concat log)) /\
        lenZ (concat log) < len /\ Forall (fun d => f d = None) log
    | _ => False
    end.
Proof.
  intros Ho Hl Hs.
  set (I := fun n x => exists log, x = w_ext w ++ log /\ concat log = disk_range disk m offset n /\
    Forall (fun d => f d = None) log).
  destruct (for_each_rule m (log_cb f) offset len I
    (fun r x => exists log, x = w_ext w ++ log /\ match r with
      | Ok None => concat log = disk_range disk m offset len /\ Forall (fun d => f d = None) log
      | Ok (Some u) => exists l d, log = l ++ [d] /\ f d = Some u /\ Forall (fun d => f d = None) l /\
          concat log = disk_range disk m offset (lenZ (concat log)) /\ lenZ (concat log) <= len
      | Err _ => concat log = disk_range disk m offset (lenZ (concat log)) /\
          lenZ (concat log) < len /\ Forall (fun d => f d = None) log
      | _ => False
      end) Ho Hl Hs) with (w := w) as (r & w' & Hf & Hh & log & He & HQ).
  - intros n c a w1 Hn Hc Hnc _ _ _ (log & He & Hcat & Hall). do 2 eexists. split; [reflexivity|].
    split; [done|]. cbn [w_ext sl_data]. set (d := disk_range disk m (offset + n) c).
    assert (concat (log ++ [d]) = disk_range disk m offset (n + c)) as Happ.
    { rewrite concat_app, Hcat, disk_range_app by lia. cbn. by rewrite app_nil_r. }
    destruct (f d) as [u|] eqn:Ef; exists (log ++ [d]); rewrite He, app_assoc; (split; [done|]).
    + exists log, d. rewrite Happ, disk_range_length by lia. split_and!; try done; lia.
    + split; [done|]. apply Forall_app. split; [done|]. by constructor.
  - intros n e x Hn (log & -> & Hcat & Hall) _ _. exists log. split; [done|].
    rewrite Hcat, disk_range_length by lia. split_and!; [done|lia|done].
  - intros x (log & -> & Hcat & Hall). exists log. done.
  - exists []. rewrite app_nil_r. done.
  - exists r, w', log. done.
Qed.

Lemma mf_cap_data {X} m off mf (w w' : World X) n : page_read m off mf w w' -> 0 <= n ->
  exists a, mf_data (mf_cap mf n) =
    Ok (mkSlice a (disk_range disk m off (Z.min (PAGE_SIZE - off mod PAGE_SIZE) n))).
Proof.
  intros Hr Hn. pose proof (Z.mod_pos_bound off PAGE_SIZE ltac:(done)) as Hm.
  pose proof (rd_data _ _ _ _ _ Hr) as Hd. pose proof (rd_len _ _ _ _ _ Hr) as Hlen.
  unfold mf_cap. destruct (n <? mf_len mf) eqn:E.
  - rewrite Z.min_r by blia. unfold mf_data in *. cbn [mf_folio mf_offset_in_folio mf_len mf_addr].
    destruct (mf_offset_in_folio mf + mf_len mf <=? _) eqn:E2; [|done].
    destruct (mf_offset_in_folio mf + n <=? _) eqn:E3; [|blia].
    eexists. f_equal. f_equal. injection Hd as _ Hd. unfold disk_tail in Hd.
    rewrite <- (disk_range_take disk m off n (PAGE_SIZE - off mod PAGE_SIZE)) by blia.
    rewrite <- Hd. unfold sub_bytes. rewrite take_take. f_equal. blia.
  - rewrite Z.min_l by blia. rewrite Hd. eauto.
Qed.

(** A [BoundedMapper] never exposes a byte outside its range: a relative
    offset outside it is [EINVAL], and what a successful read returns is a
    prefix of the range from that offset on, of at most one page; the folio is
    the only one taken.  [split_at] cuts the range in two adjacent parts and
    [cap_len] only shortens it. *)
Theorem bounded_mapper_in_range {X} m offset len rel mid (w : World X) :
  let b := bounded m offset len in
  0 <= offset -> 0 <= len -> offset + len < 2 ^ 63 ->
  match bm_mapped_folio b rel w with
  | (Ok mf, w') => 0 <= rel < len /\ w_held w' = mf_folio mf :: w_held w /\ exists a n,
      0 < n <= len - rel /\ n <= PAGE_SIZE /\
      mf_data mf = Ok (mkSlice a (disk_range disk m (offset + rel) n))
  | (Err e, w') => untouched w w' /\ (~ 0 <= rel < len -> e = EINVAL /\ w' = w)
  | _ => False
  end /\
  (let '(p, q) := split_at b mid in
   bm_offset p = offset /\ bm_offset q = offset + bm_len p /\
   0 <= bm_len p /\ 0 <= bm_len q /\ bm_len p + bm_len q = len) /\
  bm_offset (cap_len b mid) = offset /\ 0 <= bm_len (cap_len b mid) <= len.
Proof.
  intros b Ho Hl Hs. subst b. unfold bounded. split; [|split].
  - unfold bm_mapped_folio. cbn [bm_len bm_offset bm_mapper].
    destruct ((rel <? 0) || (len <=? rel)) eqn:E.
    { split; [done|]. intros _. done. }
    zify_bools. assert (PAGE_SIZE = 4096) as HP by done.
    rewrite (sext_id 64), wrap_small by lia. unfold m_bind.
    pose proof (Z.mod_pos_bound (offset + rel) PAGE_SIZE ltac:(done)) as Hm.
    destruct (mapped_folio_spec m (offset + rel) w ltac:(lia)) as [(mf & w1 & -> & Hrd)|(e & w1 & -> & Hu)].
    + cbn [m_ret]. destruct (mf_cap_data _ _ _ _ _ (len - rel) Hrd ltac:(lia)) as [a Ha].
      split; [lia|]. split; [|eexists _, _; split_and!; [| |..|exact Ha]; lia].
      pose proof (rd_held _ _ _ _ _ Hrd) as Hh. cbn. unfold mf_cap. by destruct (_ <? _).
    + split; [done|]. lia.
  - unfold split_at. cbn [bm_len bm_offset bm_mapper].
    rewrite !sext_id by lia. lia.
  - unfold cap_len. cbn [bm_len bm_offset bm_mapper]. destruct (mid <? len) eqn:E; cbn [bm_len bm_offset]; blia.
Qed.

End Proofs.

(** ** What the mapper does with errors and with large folios *)
Section Faults.
Context `{KE : KernelErrno, KP : KernelErrPtr, BC : BlockCache} {KPO : KernelErrPtrOk KP}.

(** A failed page-cache read does not reach the caller as the kernel's error:
    [Error::new] negates the already negative [PTR_ERR], so the [Error] holds a
    positive number, which [to_errno] returns to the VFS as if it were a success
    value. *)
Theorem mapped_folio_errno_positive {X} m offset (w : World X) (e : Z) d :
  0 <= offset < 2 ^ 63 -> 0 < e <= MAX_ERRNO ->
  read_cache_folio (mapping m) (offset / PAGE_SIZE) (w_dev w) = (2 ^ 64 - e, d) ->
  exists w', mapped_folio m offset w = (Err (mkError e), w') /\ to_errno (mkError e) = e.
Proof.
  unfold MAX_ERRNO. intros Ho He Hr. unfold mapped_folio. destruct (offset <? 0) eqn:E; [blia|].
  rewrite wrap_small by lia. rewrite Hr. rewrite is_err_spec by lia. unfold MAX_ERRNO.
  destruct (_ <=? _) eqn:El; [|blia]. eexists. split; [|done].
  rewrite ptr_err_spec by lia. do 2 f_equal.
  assert (sext 64 (2 ^ 64 - e) = - e) as ->.
  { transitivity (sext 64 (- e)); [|apply sext_neg; lia]. unfold sext, wrap.
    replace (2 ^ 64 - e) with (- e + 1 * 2 ^ 64) by lia. by rewrite Z.mod_add. }
  unfold Error_new. rewrite (sext_neg 32 (- e)) by lia. rewrite Z.opp_involutive. by rewrite sext_small by lia.
Qed.

(** When the cache holds the page in a folio of several pages, the mapper maps
    the folio's first page whatever page was asked for: the data returned for
    page [folio_index + k] is that of page [folio_index]. *)
Theorem large_folio_wrong_page {X} disk m offset (w : World X) mf w' :
  BlockCacheOk BC KP disk -> 0 <= offset < 2 ^ 63 -> mapped_folio m offset w = (Ok mf, w') ->
  exists k a, 0 <= k /\ offset / PAGE_SIZE = folio_index (mf_folio mf) + k /\
    mf_data mf = Ok (mkSlice a (drop (Z.to_nat (offset mod PAGE_SIZE))
                                  (disk (mapping m) (folio_index (mf_folio mf))))).
Proof.
  intros BCO Ho Hmf. unfold mapped_folio in Hmf. destruct (offset <? 0) eqn:E; [done|].
  rewrite wrap_small in Hmf by lia. destruct (read_cache_folio _ _ _) as [f d] eqn:Er.
  assert (0 <= offset / PAGE_SIZE) as Hi by (apply Z.div_pos; [lia|done]).
  destruct (rust_helper_IS_ERR f) eqn:Ee; [done|]. destruct (f =? 0) eqn:E0; [done|].
  apply Z.eqb_neq in E0. injection Hmf as <- <-. cbn [mf_folio].
  destruct (read_folio_covers _ _ _ _ _ Hi Er Ee E0) as (n & Hm & Hc).
  exists (offset / PAGE_SIZE - folio_index f). eexists. split; [lia|]. split; [lia|].
  pose proof (disk_page_len (mapping m) (folio_index f)) as Hl.
  pose proof (Z.mod_pos_bound offset PAGE_SIZE ltac:(done)) as Hmod.
  rewrite seqZ_cons in Hm by lia. cbn in Hm.
  unfold mf_data; cbn [mf_offset_in_folio mf_len mf_addr mf_folio]. rewrite Hm, lenZ_app, Hl.
  match goal with |- context [lenZ (concat ?x)] => pose proof (lenZ_nonneg (concat x)) end.
  destruct (_ <=? _) eqn:El; [|blia]. do 2 f_equal. unfold sub_bytes, lenZ in *.
  rewrite drop_app_le, take_app_le by (rewrite ?length_drop; lia).
  by rewrite take_ge by (rewrite length_drop; lia).
Qed.

End Faults.

(** ** A device backed by an image, for the witnesses

    The image gives the start of each page, the rest is zero.  Folios are single
    pages at page-aligned addresses; reads always succeed. *)
Definition image_page (img : Z -> list byte) (i : Z) : list byte := resize 4096 x00 (img i).

Definition one_page (l : list byte) (i : Z) : list byte := if i =? 0 then l else [].

Definition ram_cache (img : Z -> list byte) : BlockCache := {|
  bst := unit;
  read_cache_folio _ i s := (if i <? 2 ^ 51 then 4096 * (i + 16) else 0, s);
  folio_index f := f / 4096 - 16;
  folio_mem f := image_page img (f / 4096 - 16);
  kmap_local_folio f o := f + o |}.

Lemma ram_cache_addr i : 4096 * (i + 16) / 4096 - 16 = i.
Proof. rewrite Z.mul_comm, Z.div_mul by done. lia. Qed.

#[global] Instance ram_cache_ok img : BlockCacheOk (ram_cache img) linux_err_ptr (fun _ => image_page img).
Proof.
  constructor.
  - intros m i. unfold image_page, lenZ. rewrite length_resize. done.
  - intros m i s Hi. cbn. destruct (i <? 2 ^ 51) eqn:E; blia.
  - intros m i s f s' Hi Hr _ H0. cbn in *. destruct (i <? 2 ^ 51); simplify_eq.
    rewrite ram_cache_addr. exists 1%nat. split; [|lia].
    rewrite seqZ_cons by lia. cbn. by rewrite app_nil_r.
  - intros m i s f s' Hi Hr _ H0. cbn in *. destruct (i <? 2 ^ 51) eqn:E; simplify_eq.
    unfold PAGE_SIZE. split; [blia|]. rewrite Z.add_0_r, Z.mul_comm. by rewrite Z.mod_mul.
Qed.

#[global] Instance ram_cache_single img : SinglePageFolios (ram_cache img) linux_err_ptr.
Proof.
  intros m i s f s' Hi Hr _ H0. cbn in *. destruct (i <? 2 ^ 51); simplify_eq. apply ram_cache_addr.
Qed.

#[global] Instance ram_cache_live img : BlockCacheLive (ram_cache img) linux_err_ptr.
Proof.
  intros m i s Hi. cbn. unfold MAX_ERRNO. destruct (i <? 2 ^ 51) eqn:E; [|blia].
  split; [|lia]. apply Z.leb_gt. lia.
Qed.

(** A cache whose only folio is a pair of pages, and one whose reads fail. *)
Definition pair_cache (img : Z -> list byte) : BlockCache := {|
  bst := unit;
  read_cache_folio _ i s := (if i <? 2 then 65536 else 0, s);
  folio_index f := 0;
  folio_mem f := image_page img 0 ++ image_page img 1;
  kmap_local_folio f o := f + o |}.

Lemma pair_cache_ok img : BlockCacheOk (pair_cache img) linux_err_ptr (fun _ => image_page img).
Proof.
  constructor.
  - intros m i. unfold image_page, lenZ. rewrite length_resize. done.
  - intros m i s Hi. cbn. by destruct (i <? 2).
  - intros m i s f s' Hi Hr _ H0. cbn in *. destruct (i <? 2) eqn:E; simplify_eq.
    exists 2%nat. split; [|blia].
    change (image_page img 0 ++ image_page img 1 = image_page img 0 ++ image_page img 1 ++ []).
    by rewrite app_nil_r.
  - intros m i s f s' Hi Hr _ H0. cbn in *. by destruct (i <? 2); simplify_eq.
Qed.

Definition failing_cache : BlockCache := {|
  bst := unit;
  read_cache_folio _ i s := (2 ^ 64 - 5, s);
  folio_index f := 0;
  folio_mem f := [];
  kmap_local_folio f o := f + o |}.

Lemma for_each_page_covers_witness :
  exists r w' log,
    @for_each_page linux_errno linux_err_ptr (ram_cache (one_page [x61; x62; x63])) _ unit (mkMapper 0)
      (log_cb (fun _ => None)) 1 8192 (@mkWorld (ram_cache (one_page [x61; x62; x63])) _ tt [] []) = (r, w') /\
    w_held w' = [] /\ w_ext w' = log.
Proof.
  edestruct (@for_each_page_covers linux_errno linux_err_ptr (ram_cache (one_page [x61; x62; x63]))
    (fun _ => image_page (one_page [x61; x62; x63])) _ _ unit (fun _ => None) (mkMapper 0) 1 8192 (@mkWorld (ram_cache (one_page [x61; x62; x63])) _ tt [] []))
    as (r & w' & log & H1 & H2 & H3 & _); [lia|lia|lia|].
  exists r, w', log. exact (conj H1 (conj H2 H3)).
Defined.

Lemma bounded_mapper_in_range_witness :
  match @bm_mapped_folio linux_errno linux_err_ptr (ram_cache (one_page [x61; x62; x63])) unit
          (bounded (mkMapper 0) 1 2) 1 (@mkWorld (ram_cache (one_page [x61; x62; x63])) _ tt [] tt) with
  | (Ok mf, w') => w_held w' = [mf_folio mf]
  | _ => True
  end.
Proof.
  destruct (@bounded_mapper_in_range linux_errno linux_err_ptr (ram_cache (one_page [x61; x62; x63]))
    (fun _ => image_page (one_page [x61; x62; x63])) _ _ unit (mkMapper 0) 1 2 1 1 (@mkWorld (ram_cache (one_page [x61; x62; x63])) _ tt [] tt))
    as [H _]; [lia|lia|lia|].
  destruct (bm_mapped_folio _ _ _) as [[mf|e| | |] w']; try done. apply H.
Defined.

Lemma mapped_folio_errno_positive_witness :
  exists w', @mapped_folio linux_errno linux_err_ptr failing_cache unit (mkMapper 0) 1024 (@mkWorld failing_cache _ tt [] tt)
    = (Err (mkError 5), w') /\ to_errno (mkError 5) = 5.
Proof.
  apply (@mapped_folio_errno_positive linux_errno linux_err_ptr failing_cache linux_err_ptr_ok
    unit (mkMapper 0) 1024 (@mkWorld failing_cache _ tt [] tt) 5 tt); [lia|unfold MAX_ERRNO; lia|done].
Defined.

Lemma large_folio_wrong_page_witness :
  exists mf w' k a,
    @mapped_folio linux_errno linux_err_ptr (pair_cache (one_page [x61])) unit (mkMapper 0) 4096 (@mkWorld (pair_cache (one_page [x61])) _ tt [] tt)
      = (Ok mf, w') /\ 0 <= k /\ 4096 / PAGE_SIZE = 0 + k /\
    @mf_data (pair_cache (one_page [x61])) mf = Ok (mkSlice a (image_page (one_page [x61]) 0)).
Proof.
  eexists _, _.
  destruct (@large_folio_wrong_page linux_errno linux_err_ptr (pair_cache (one_page [x61])) unit
    (fun _ => image_page (one_page [x61])) (mkMapper 0) 4096 (@mkWorld (pair_cache (one_page [x61])) _ tt [] tt) _ _
    (pair_cache_ok _) ltac:(lia) eq_refl) as (k & a & H1 & H2 & H3).
  exists k, a. split; [reflexivity|]. split; [done|]. split; [done|]. exact H3.
Defined.
