(* ===== verification/Folio.v ===== *)
(** * Page-cache folios (rko-core/src/fs/folio.rs)

    A folio is its position in the file and its bytes.  [LockedFolio] writes
    through one page at a time: [kmap_local_folio] maps the page that contains an
    offset.  The closures' captured variables are the state [A] of [lf_for_each]. *)
From Stdlib Require Import ZArith Lia Bool.
From Stdlib.Strings Require Import Byte.
From stdpp Require Import base list option numbers.
From S2P Require Import Prelude Errors LeBytes Mapper.

Record Folio : Type := mkFolio { folio_pos : Z; folio_bytes : list byte }.

Definition folio_size (f : Folio) : Z := lenZ (folio_bytes f).

(** Storing [d] over the bytes from [off] on. *)
Definition overwrite (l : list byte) (off : Z) (d : list byte) : list byte :=
  take (Z.to_nat off) l ++ d ++ drop (Z.to_nat off + length d) l.

(** The guard of [Folio::map]: it exposes [fm_len] bytes at [fm_ptr]. *)
Record FolioMap : Type := mkFolioMap { fm_ptr : Z; fm_len : Z }.

Section Folio.
Context `{KE : KernelErrno}.

Definition folio_map (kmap : Z -> Z) (f : Folio) (offset : Z) : res Error FolioMap :=
  if folio_size f <=? offset then Err EINVAL
  else
    let ptr := kmap offset in
    if ptr =? 0 then Err ENOMEM
    else Ok (mkFolioMap ptr (Z.min PAGE_SIZE (folio_size f - offset))).

Section ForEach.
Context {A : Type} (cb : A -> list byte -> res Error (A * list byte)).

(** The [while remaining > 0] of [LockedFolio::for_each_page]. *)
Fixpoint lf_loop (fuel : nat) (next remaining : Z) (a : A) (data : list byte) : res Error (A * list byte) :=
  match fuel with
  | O => Pending
  | S fuel =>
      if 0 <? remaining then
        let page_offset := Z.land next (PAGE_SIZE - 1) in
        let usable := Z.min remaining (PAGE_SIZE - page_offset) in
        r <-? cb a (sub_bytes data next usable) ;;
        lf_loop fuel (next + usable) (remaining - usable) r.1 (overwrite data next r.2)
      else Ok (a, data)
  end.

(** Each turn but the first covers a whole page or ends the loop. *)
Definition lf_fuel (len : Z) : nat := (Z.to_nat (len / PAGE_SIZE) + 3)%nat.

Definition lf_for_each (f : Folio) (offset len : Z) (a : A) : res Error Folio :=
  end_ <-? ok_or (u_checked_add 64 offset len) ERANGE ;;
  if folio_size f <? end_ then Err EINVAL
  else
    r <-? lf_loop (lf_fuel len) offset len a (folio_bytes f) ;;
    Ok (mkFolio (folio_pos f) r.2).
End ForEach.

(** [write]: the closure copies from what remains of the data. *)
Definition lf_write (f : Folio) (offset : Z) (data : list byte) : res Error Folio :=
  lf_for_each (fun remaining s =>
      d <-? slice remaining 0 (lenZ s) ;;
      r <-? slice remaining (lenZ s) (lenZ remaining) ;;
      Ok (r, d)) f offset (lenZ data) data.

(** [zero_out]. *)
Definition lf_zero_out (f : Folio) (offset len : Z) : res Error Folio :=
  lf_for_each (fun _ s => Ok (tt, replicate (length s) x00)) f offset len tt.
End Folio.

(** ** Overwriting *)

Lemma overwrite_length l off d :
  0 <= off -> off + lenZ d <= lenZ l -> length (overwrite l off d) = length l.
Proof.
  unfold overwrite, lenZ. intros. rewrite !length_app, length_take, length_drop. lia.
Qed.

Lemma overwrite_nil l off : overwrite l off [] = l.
Proof. unfold overwrite. cbn. rewrite Nat.add_0_r. apply take_drop. Qed.

Lemma overwrite_lookup l off d i :
  0 <= off -> off + lenZ d <= lenZ l ->
  overwrite l off d !! i =
    if decide (off <= Z.of_nat i < off + lenZ d) then d !! (i - Z.to_nat off)%nat else l !! i.
Proof.
  unfold overwrite, lenZ. intros Ho Hl. case_decide as Hi.
  - rewrite lookup_app_r by (rewrite length_take; lia). rewrite length_take.
    rewrite lookup_app_l by lia. f_equal. lia.
  - destruct (decide (Z.of_nat i < off)).
    + rewrite lookup_app_l by (rewrite length_take; lia). apply lookup_take_lt. lia.
    + rewrite lookup_app_r by (rewrite length_take; lia). rewrite length_take.
      rewrite lookup_app_r by lia. rewrite lookup_drop. f_equal. lia.
Qed.

(** Two adjacent stores are one. *)
Lemma overwrite_app l off d e :
  0 <= off -> off + lenZ d + lenZ e <= lenZ l ->
  overwrite (overwrite l off d) (off + lenZ d) e = overwrite l off (d ++ e).
Proof.
  intros Ho Hl. pose proof (lenZ_nonneg d). pose proof (lenZ_nonneg e).
  apply list_eq. intros i.
  assert (Hlen : lenZ (overwrite l off d) = lenZ l) by (unfold lenZ; by rewrite overwrite_length by lia).
  rewrite overwrite_lookup by lia. rewrite (overwrite_lookup l off (d ++ e)) by (rewrite ?lenZ_app; lia).
  rewrite overwrite_lookup by lia. rewrite lenZ_app.
  repeat case_decide; try lia; try done.
  - rewrite lookup_app_r by (unfold lenZ in *; lia). f_equal. unfold lenZ in *. lia.
  - rewrite lookup_app_l by (unfold lenZ in *; lia). done.
Qed.

Lemma overwrite_zeros d n : lenZ d <= n ->
  overwrite (replicate (Z.to_nat n) x00) 0 d = d ++ replicate (Z.to_nat (n - lenZ d)) x00.
Proof.
  intros H. unfold overwrite. change (Z.to_nat 0) with O. rewrite drop_replicate, take_0, app_nil_l.
  do 2 f_equal. unfold lenZ in *. lia.
Qed.

Lemma overwrite_all l d : lenZ d = lenZ l -> overwrite l 0 d = d.
Proof.
  intros H. unfold overwrite. change (Z.to_nat 0) with O. rewrite take_0, app_nil_l, drop_ge; [by rewrite app_nil_r|].
  unfold lenZ in H. lia.
Qed.

Section Proofs.
Context `{KE : KernelErrno}.

Lemma land_page z : 0 <= z -> Z.land z (PAGE_SIZE - 1) = z mod PAGE_SIZE.
Proof. intros. change (PAGE_SIZE - 1) with (Z.ones 12). apply Z.land_ones. lia. Qed.

(** A closure that fills each window from [src], the [n]th byte of the range with
    the [n]th byte of [src]. *)
Definition fills {A} (cb : A -> list byte -> res Error (A * list byte)) (st : Z -> A -> Prop)
    (src : list byte) : Prop :=
  forall n a s, st n a -> 0 <= n -> n + lenZ s <= lenZ src ->
    exists a', cb a s = Ok (a', sub_bytes src n (lenZ s)) /\ st (n + lenZ s) a'.

Lemma sub_bytes_split l n c k : 0 <= n -> 0 <= c -> 0 <= k -> n + c + k <= lenZ l ->
  sub_bytes l n (c + k) = sub_bytes l n c ++ sub_bytes l (n + c) k.
Proof.
  unfold sub_bytes, lenZ. intros. rewrite Z2Nat.inj_add, <- take_take_drop, drop_drop by lia.
  by rewrite <- Z2Nat.inj_add by lia.
Qed.

Lemma lf_loop_fills {A} (cb : A -> list byte -> res Error (A * list byte)) st src off fuel n a data :
  fills cb st src -> st n a -> 0 <= off -> 0 <= n <= lenZ src -> off + lenZ src <= lenZ data ->
  (0 < fuel)%nat -> (n < lenZ src -> (off + n) mod PAGE_SIZE + (lenZ src - n) <= PAGE_SIZE * (Z.of_nat fuel - 1)) ->
  exists a', lf_loop cb fuel (off + n) (lenZ src - n) a data =
    Ok (a', overwrite data (off + n) (sub_bytes src n (lenZ src - n))).
Proof.
  intros Hcb. assert (PAGE_SIZE = 4096) as HP by done.
  revert n a data. induction fuel as [|fuel IH]; intros n a data Hst Ho Hn Hfit Hf0 Hf; [lia|].
  cbn [lf_loop]. destruct (0 <? lenZ src - n) eqn:E.
  2: { assert (n = lenZ src) as -> by blia. exists a. rewrite Z.sub_diag.
       unfold sub_bytes. cbn. by rewrite overwrite_nil. }
  pose proof (Z.mod_pos_bound (off + n) PAGE_SIZE ltac:(done)) as Hm.
  rewrite land_page by lia.
  set (c := Z.min (lenZ src - n) (PAGE_SIZE - (off + n) mod PAGE_SIZE)).
  assert (lenZ (sub_bytes data (off + n) c) = c) as Hc by (apply sub_bytes_length; unfold c; blia).
  destruct (Hcb n a (sub_bytes data (off + n) c) Hst ltac:(lia)) as (a' & Hca & Hst'); [unfold c in *; blia|].
  rewrite Hc in Hca, Hst'. unfold res_bind. rewrite Hca. cbn [fst snd].
  assert (lenZ (sub_bytes src n c) = c) as Hsc by (apply sub_bytes_length; unfold c; blia).
  assert (lenZ (overwrite data (off + n) (sub_bytes src n c)) = lenZ data) as Hlen
    by (unfold lenZ at 1; rewrite overwrite_length; [done|lia|rewrite Hsc; unfold c; blia]).
  replace (off + n + c) with (off + (n + c)) by lia.
  replace (lenZ src - n - c) with (lenZ src - (n + c)) by lia.
  destruct (IH (n + c) a' (overwrite data (off + n) (sub_bytes src n c)) Hst') as [b Hb];
    [lia|unfold c; blia|lia|unfold c; blia| |].
  - intros Hlt. unfold c in *. replace (off + (n + _)) with (((off + n) / PAGE_SIZE + 1) * PAGE_SIZE)
      by (pose proof (Z_div_mod_eq_full (off + n) PAGE_SIZE); blia).
    rewrite Z.mod_mul by done. blia.
  - exists b. rewrite Hb. do 2 f_equal.
    replace (off + (n + c)) with (off + n + lenZ (sub_bytes src n c)) by lia.
    assert (lenZ (sub_bytes src (n + c) (lenZ src - (n + c))) = lenZ src - (n + c)) as Hr
      by (apply sub_bytes_length; unfold c; blia).
    rewrite overwrite_app by (rewrite ?Hsc, ?Hr; lia).
    rewrite <- sub_bytes_split by (unfold c; blia). do 2 f_equal. lia.
Qed.

(** A range inside the folio is filled from the source, the rest kept. *)
Lemma lf_for_each_fills {A} (cb : A -> list byte -> res Error (A * list byte)) st src f off a :
  fills cb st src -> st 0 a -> 0 <= off -> off + lenZ src < 2 ^ 64 ->
  lf_for_each cb f off (lenZ src) a =
    if off + lenZ src <=? folio_size f
    then Ok (mkFolio (folio_pos f) (overwrite (folio_bytes f) off src)) else Err EINVAL.
Proof.
  intros Hcb Hst Ho H64. unfold lf_for_each, u_checked_add.
  destruct (off + lenZ src <? 2 ^ 64) eqn:E; [|blia]. cbn [ok_or].
  unfold res_bind at 1. cbv beta iota.
  destruct (folio_size f <? off + lenZ src) eqn:E2; destruct (off + lenZ src <=? folio_size f) eqn:E3;
    try blia; [done|].
  pose proof (lenZ_nonneg src).
  destruct (lf_loop_fills cb st src off (lf_fuel (lenZ src)) 0 a (folio_bytes f) Hcb Hst Ho) as [b Hb];
    [lia|unfold folio_size in *; blia|unfold lf_fuel; lia| |].
  - intros _. unfold lf_fuel. pose proof (Z.mod_pos_bound (off + 0) PAGE_SIZE ltac:(done)).
    pose proof (Z_div_mod_eq_full (lenZ src) PAGE_SIZE).
    pose proof (Z.mod_pos_bound (lenZ src) PAGE_SIZE ltac:(done)).
    assert (0 <= lenZ src / PAGE_SIZE) by (apply Z.div_pos; [lia|done]). unfold PAGE_SIZE in *. lia.
  - rewrite Z.add_0_r, Z.sub_0_r in Hb. unfold res_bind. rewrite Hb. by rewrite sub_bytes_all.
Qed.

(** [LockedFolio::write] stores exactly the given bytes at the offset and keeps
    every other byte of the folio, across page boundaries; a range that does not
    fit is [EINVAL]; the copy never indexes out of range and always ends. *)
Theorem folio_write_exact f off data :
  0 <= off -> off + lenZ data < 2 ^ 64 ->
  lf_write f off data =
    if off + lenZ data <=? folio_size f
    then Ok (mkFolio (folio_pos f) (overwrite (folio_bytes f) off data)) else Err EINVAL.
Proof.
  intros Ho H64. apply (lf_for_each_fills _ (fun n rem => rem = drop (Z.to_nat n) data)); try done.
  intros n rem s -> Hn Hs. pose proof (lenZ_nonneg s).
  assert (lenZ (drop (Z.to_nat n) data) = lenZ data - n) as Hl
    by (unfold lenZ in *; rewrite length_drop; lia).
  eexists. split.
  - rewrite slice_ok by lia. unfold res_bind at 1. cbv beta iota.
    rewrite slice_ok by lia. unfold res_bind. rewrite Z.sub_0_r, drop_0. reflexivity.
  - rewrite Hl, drop_drop, take_ge by (rewrite length_drop; unfold lenZ in *; lia).
    f_equal. lia.
Qed.

Lemma folio_zero_exact f off len :
  0 <= off -> 0 <= len -> off + len < 2 ^ 64 ->
  lf_zero_out f off len =
    if off + len <=? folio_size f
    then Ok (mkFolio (folio_pos f) (overwrite (folio_bytes f) off (replicate (Z.to_nat len) x00)))
    else Err EINVAL.
Proof.
  intros Ho Hl H64. assert (lenZ (replicate (Z.to_nat len) x00) = len) as Hr
    by (unfold lenZ; rewrite length_replicate; lia).
  unfold lf_zero_out. rewrite <- Hr at 1 2.
  apply (lf_for_each_fills _ (fun _ _ => True)); try done; [|by rewrite Hr].
  intros n [] s _ Hn Hs. exists tt. split; [|done]. do 2 f_equal.
  unfold sub_bytes, lenZ in *. rewrite length_replicate in Hs.
  rewrite drop_replicate, take_replicate. f_equal. lia.
Qed.

(** [Folio::map] at an offset inside a page: the guard's slice runs on past the page
    that [kmap_local_folio] mapped, whenever the folio does. *)
Theorem folio_map_past_page kmap f offset :
  0 <= offset -> kmap offset <> 0 -> 0 < offset mod PAGE_SIZE ->
  (offset / PAGE_SIZE + 2) * PAGE_SIZE <= folio_size f ->
  exists g, folio_map kmap f offset = Ok g /\ fm_ptr g = kmap offset /\
    (offset / PAGE_SIZE + 1) * PAGE_SIZE < offset + fm_len g.
Proof.
  intros Ho Hk Hm Hs. unfold folio_map.
  pose proof (Z_div_mod_eq_full offset PAGE_SIZE). pose proof (Z.mod_pos_bound offset PAGE_SIZE ltac:(done)).
  assert (PAGE_SIZE = 4096) by done.
  destruct (folio_size f <=? offset) eqn:E; [blia|]. destruct (kmap offset =? 0) eqn:E0; [blia|].
  eexists. split; [reflexivity|]. split; [done|]. cbn. lia.
Qed.
End Proofs.
