(* ===== verification/Vfs.v ===== *)
(** * The VFS layer (rko-core/src/fs: inode.rs, sb.rs, dentry.rs, dir.rs, vtable.rs)

    The wrappers a filesystem is written against: [NewINode] and its [init],
    [SuperBlock::iget], [Unhashed::splice_alias], [Root::try_new],
    [DirEmitter::emit] and the callbacks of [vtable.rs] that call the
    filesystem.  A [struct inode] is a function from its fields to their values,
    next to the per-inode data that [INodeWithData] puts in front of it; all
    inodes live in a store indexed by their address.  Kernel functions are the
    operations of [VfsKernel]; [VfsKernelOk] is what their documentation says. *)
From Stdlib Require Import ZArith Lia Bool.
From Stdlib.Strings Require Import Byte String.
From stdpp Require Import base list option numbers gmap.
From S2P Require Import Prelude Errors KVec LeBytes Mapper.

(** ** Data *)

(** The fields of [struct inode] the wrappers write or read. *)
Inductive ifield :=
| I_ino | I_sb | I_state | I_mode | I_size | I_blocks
| I_atime_sec | I_atime_nsec | I_mtime_sec | I_mtime_nsec | I_ctime_sec | I_ctime_nsec
| I_nlink | I_uid | I_gid | I_op | I_fop | I_aops | I_large_folios | I_nohighmem
| I_link | I_rdev.
#[global] Instance ifield_eq_dec : EqDecision ifield.
Proof. solve_decision. Defined.

Definition inode_fields : Type := ifield -> Z.

(** [<[f := v]> i] is [i] after the assignment [i.f = v]. *)
#[global] Instance inode_fields_insert : Insert ifield Z inode_fields :=
  fun f v i g => if decide (f = g) then v else i g.

(** [INodeWithData]: the per-inode value is uninitialised until [init]. *)
Record KInode (D : Type) : Type := mkKInode { k_data : option D; k_inode : inode_fields }.
Arguments mkKInode {D}.
Arguments k_data {D}.
Arguments k_inode {D}.

Record Time : Type := mkTime { secs : Z; nsecs : Z }.

Inductive INodeType :=
| Dir | Reg | Lnk (target : option bslice) | Chr (major minor : Z) | Blk (major minor : Z)
| Fifo | Sock.

Record INodeParams (D : Type) : Type := mkParams {
  p_mode : Z; p_typ : INodeType; p_size : Z; p_blocks : Z; p_nlink : Z; p_uid : Z; p_gid : Z;
  p_ctime : Time; p_mtime : Time; p_atime : Time; p_value : D }.
Arguments mkParams {D}.
Arguments p_mode {D}.
Arguments p_typ {D}.
Arguments p_size {D}.
Arguments p_blocks {D}.
Arguments p_nlink {D}.
Arguments p_uid {D}.
Arguments p_gid {D}.
Arguments p_ctime {D}.
Arguments p_mtime {D}.
Arguments p_atime {D}.
Arguments p_value {D}.

Definition S_IFDIR : Z := 0x4000.
Definition S_IFREG : Z := 0x8000.
Definition S_IFLNK : Z := 0xa000.
Definition S_IFCHR : Z := 0x2000.
Definition S_IFBLK : Z := 0x6000.
Definition S_IFIFO : Z := 0x1000.
Definition S_IFSOCK : Z := 0xc000.

Definition I_NEW : Z := 1.

(** The addresses of a filesystem's operation tables. *)
Record Tables : Type := mkTables {
  super_ops : Z; dir_inode_ops : Z; dir_file_ops : Z; reg_inode_ops : Z; reg_file_ops : Z;
  reg_aops : Z; symlink_inode_ops : Z; xattr_handlers : Z }.

Record NewINode : Type := mkNewINode {
  inner : Z; custom_iops : option Z; custom_fops : option Z; custom_aops : option Z }.

Inductive DirEntryType :=
| DT_Unknown | DT_Fifo | DT_Chr | DT_Dir | DT_Blk | DT_Reg | DT_Lnk | DT_Sock | DT_Wht.
#[global] Instance DirEntryType_eq_dec : EqDecision DirEntryType.
Proof. solve_decision. Defined.

Definition det_code (t : DirEntryType) : Z :=
  match t with
  | DT_Unknown => 0 | DT_Fifo => 1 | DT_Chr => 2 | DT_Dir => 4 | DT_Blk => 6
  | DT_Reg => 8 | DT_Lnk => 10 | DT_Sock => 12 | DT_Wht => 14
  end.

Definition det_from_u32 (v : Z) : option DirEntryType :=
  if v =? 0 then Some DT_Unknown else if v =? 1 then Some DT_Fifo else if v =? 2 then Some DT_Chr
  else if v =? 4 then Some DT_Dir else if v =? 6 then Some DT_Blk else if v =? 8 then Some DT_Reg
  else if v =? 10 then Some DT_Lnk else if v =? 12 then Some DT_Sock
  else if v =? 14 then Some DT_Wht else None.

Definition det_of_inode_type (t : INodeType) : DirEntryType :=
  match t with
  | Dir => DT_Dir | Reg => DT_Reg | Lnk _ => DT_Lnk | Chr _ _ => DT_Chr | Blk _ _ => DT_Blk
  | Fifo => DT_Fifo | Sock => DT_Sock
  end.

Definition det_try_from `{KernelErrno} (v : Z) : res Error DirEntryType :=
  ok_or (det_from_u32 v) EDOM.

Inductive Whence := SeekStart | SeekCurrent | SeekEnd | SeekData | SeekHole.
Definition whence_code (w : Whence) : Z :=
  match w with SeekStart => 0 | SeekCurrent => 1 | SeekEnd => 2 | SeekData => 3 | SeekHole => 4 end.
Definition whence_from_raw (v : Z) : option Whence :=
  if v =? 0 then Some SeekStart else if v =? 1 then Some SeekCurrent
  else if v =? 2 then Some SeekEnd else if v =? 3 then Some SeekData
  else if v =? 4 then Some SeekHole else None.

(** [Stat], what [statfs] reports. *)
Record Stat : Type := mkStat { st_magic : Z; st_namelen : Z; st_bsize : Z; st_blocks : Z; st_files : Z }.
(** [SuperParams], for [init_simple]. *)
Record SuperParams : Type := mkSuperParams { maxbytes : Z; blocksize_bits : Z; sp_magic : Z; time_gran : Z }.

(** What [dir_emit] is given. *)
Record dirent : Type := mkDirent { d_name : list byte; d_ino : Z; d_type : DirEntryType }.

(** ** The kernel *)
Class VfsKernel (D : Type) := {
  vst : Type;
  (** The inode cache. *)
  iget_locked : Z -> gmap Z (KInode D) * vst -> Z * (gmap Z (KInode D) * vst);
  iget_failed : Z -> gmap Z (KInode D) * vst -> gmap Z (KInode D) * vst;
  iput : Z -> gmap Z (KInode D) * vst -> gmap Z (KInode D) * vst;
  i_count : vst -> Z -> Z;
  (** Dentries. *)
  d_splice_alias : Z -> Z -> gmap Z (KInode D) * vst -> Z * (gmap Z (KInode D) * vst);
  d_make_root : Z -> gmap Z (KInode D) * vst -> Z * (gmap Z (KInode D) * vst);
  d_sb : Z -> Z;
  dentry_name : Z -> list byte;
  (** The reader of a directory: what it accepted so far. *)
  dir_emit : list byte -> Z -> Z -> vst -> bool * vst;
  emitted : vst -> list dirent;
  sb_min_blocksize : Z -> vst -> Z * vst;
  (** Inode helpers. *)
  set_nlink : Z -> inode_fields -> inode_fields;
  i_uid_write : Z -> inode_fields -> inode_fields;
  i_gid_write : Z -> inode_fields -> inode_fields;
  inode_set_fop : Z -> inode_fields -> inode_fields;
  inode_set_aops : Z -> inode_fields -> inode_fields;
  mapping_set_large_folios : inode_fields -> inode_fields;
  inode_nohighmem : inode_fields -> inode_fields;
  init_special_inode : Z -> Z -> inode_fields -> inode_fields;
  unlock_new_inode : inode_fields -> inode_fields;
  MKDEV : Z -> Z -> Z;
  RKO_MINORMASK : Z;
  simple_symlink_inode_operations : Z;
  page_symlink_inode_operations : Z
}.

(** The fields [init_special_inode] may set. *)
Definition special_field (f : ifield) : bool :=
  match f with I_mode | I_fop | I_rdev => true | _ => false end.

(** Documented behaviour: the inode helpers set the field they are named after,
    [unlock_new_inode] clears [I_NEW]; [iget_locked] returns null, the cached
    inode as it is, or a new one marked [I_NEW], and takes one reference;
    [iget_failed] and [iput] give one back; [dir_emit] hands the entry to the
    reader exactly when it returns true. *)
Class VfsKernelOk (D : Type) (VK : VfsKernel D) : Prop := {
  set_nlink_spec n i : forall f, set_nlink n i f = <[I_nlink := n]> i f;
  i_uid_write_spec n i : forall f, i_uid_write n i f = <[I_uid := n]> i f;
  i_gid_write_spec n i : forall f, i_gid_write n i f = <[I_gid := n]> i f;
  inode_set_fop_spec p i : forall f, inode_set_fop p i f = <[I_fop := p]> i f;
  inode_set_aops_spec p i : forall f, inode_set_aops p i f = <[I_aops := p]> i f;
  set_large_folios_spec i : forall f, mapping_set_large_folios i f = <[I_large_folios := 1]> i f;
  nohighmem_spec i : forall f, inode_nohighmem i f = <[I_nohighmem := 1]> i f;
  special_inode_spec m dev i : forall f, special_field f = false -> init_special_inode m dev i f = i f;
  special_inode_mode m dev i : init_special_inode m dev i I_mode = m;
  unlock_new_inode_spec i : forall f,
    unlock_new_inode i f = <[I_state := Z.land (i I_state) (Z.lnot I_NEW)]> i f;
  iget_locked_spec ino s st p s' st' : iget_locked ino (s, st) = (p, (s', st')) ->
    (p = 0 /\ s' = s /\ (forall q, i_count st' q = i_count st q)) \/
    (p <> 0 /\ (exists ki, s' = <[p := ki]> s /\ k_inode ki I_ino = ino /\
       (Z.land (k_inode ki I_state) I_NEW = 0 -> s !! p = Some ki)) /\
     (forall q, i_count st' q = i_count st q + (if q =? p then 1 else 0)));
  iget_failed_spec p s st s' st' : iget_failed p (s, st) = (s', st') ->
    delete p s' = delete p s /\ (forall q, i_count st' q = i_count st q - (if q =? p then 1 else 0));
  iput_spec p s st s' st' : iput p (s, st) = (s', st') ->
    delete p s' = delete p s /\ (forall q, i_count st' q = i_count st q - (if q =? p then 1 else 0));
  iget_emitted ino s : emitted (iget_locked ino s).2.2 = emitted s.2;
  dir_emit_spec name ino t st b st' : dir_emit name ino (det_code t) st = (b, st') ->
    emitted st' = emitted st ++ (if b then [mkDirent name ino t] else [])
}.

(** The fields of [struct super_block] in use; [S] is the filesystem's data. *)
Record SbGeom : Type := mkGeom { s_maxbytes : Z; s_blocksize : Z; s_blocksize_bits : Z; s_time_gran : Z }.
Record SbFields (S : Type) : Type := mkSb {
  s_ptr : Z; s_flags : Z; s_bdev : Z; s_bdev_mapping : Z; s_magic : Z; s_op : Z; s_xattr : Z;
  s_fs_info : option S; s_root : Z; s_geom : SbGeom }.
Arguments mkSb {S}.
Arguments s_ptr {S}.
Arguments s_flags {S}.
Arguments s_bdev {S}.
Arguments s_bdev_mapping {S}.
Arguments s_magic {S}.
Arguments s_op {S}.
Arguments s_xattr {S}.
Arguments s_fs_info {S}.
Arguments s_root {S}.
Arguments s_geom {S}.

Section Ops.
Context `{KE : KernelErrno, KP : KernelErrPtr, BC : BlockCache, VA : VecAlloc}.
Context {D S : Type} `{VK : VfsKernel D}.

(** What the filesystem code runs on, besides the device. *)
Record VW : Type := mkVW {
  v_inodes : gmap Z (KInode D); v_kern : vst; v_alloc : ast; v_sb : SbFields S;
  v_pos : Z (* [dir_context.pos] *) }.

Definition FM (A : Type) : Type := M (World VW) Error A.

Definition with_vw {A} (f : VW -> res Error A * VW) : FM A :=
  fun w => let '(r, v) := f (w_ext w) in (r, mkWorld (w_dev w) (w_held w) v).

(** A kernel function on the inode store and the kernel's own state. *)
Definition on_kern {A} (f : gmap Z (KInode D) * vst -> A * (gmap Z (KInode D) * vst)) : FM A :=
  with_vw (fun v => let '(a, (s, k)) := f (v_inodes v, v_kern v) in (Ok a, mkVW s k (v_alloc v) (v_sb v) (v_pos v))).

Definition on_kern_ (f : gmap Z (KInode D) * vst -> gmap Z (KInode D) * vst) : FM unit :=
  on_kern (fun s => (tt, f s)).

Definition on_vst {A} (f : vst -> A * vst) : FM A :=
  on_kern (fun '(s, k) => let '(a, k') := f k in (a, (s, k'))).

(** A vector call; [AllocError] converts to [ENOMEM]. *)
Definition with_kv {A} (m : M ast AllocError A) : FM A :=
  with_vw (fun v => let '(r, a) := m (v_alloc v) in
                    (map_err (fun _ => ENOMEM) r, mkVW (v_inodes v) (v_kern v) a (v_sb v) (v_pos v))).

(** Reading an inode through a reference; a dangling one is undefined. *)
Definition get_inode (p : Z) : FM (KInode D) :=
  with_vw (fun v => (match v_inodes v !! p with Some i => Ok i | None => Ub end, v)).
Definition put_inode (p : Z) (i : KInode D) : FM unit :=
  with_vw (fun v => (Ok tt, mkVW (<[p := i]> (v_inodes v)) (v_kern v) (v_alloc v) (v_sb v) (v_pos v))).

Definition get_sb : FM (SbFields S) := with_vw (fun v => (Ok (v_sb v), v)).
Definition put_sb (sb : SbFields S) : FM unit :=
  with_vw (fun v => (Ok tt, mkVW (v_inodes v) (v_kern v) (v_alloc v) sb (v_pos v))).

(** *** [INode] accessors *)
Definition inode_ino (p : Z) : FM Z := i <-! get_inode p ;; m_ret (k_inode i I_ino).
Definition inode_size (p : Z) : FM Z := i <-! get_inode p ;; m_ret (k_inode i I_size).
Definition inode_super_block (p : Z) : FM Z := i <-! get_inode p ;; m_ret (k_inode i I_sb).
(** Reading the per-inode value before it was written is undefined. *)
Definition inode_data (p : Z) : FM D :=
  i <-! get_inode p ;; m_lift (match k_data i with Some d => Ok d | None => Ub end).

(** [SuperBlock::sb_data]. *)
Definition sb_data : FM S :=
  sb <-! get_sb ;; m_lift (match s_fs_info sb with Some d => Ok d | None => Ub end).
Definition set_magic (magic : Z) : FM unit :=
  sb <-! get_sb ;;
  put_sb (mkSb (s_ptr sb) (s_flags sb) (s_bdev sb) (s_bdev_mapping sb) magic (s_op sb) (s_xattr sb)
            (s_fs_info sb) (s_root sb) (s_geom sb)).
Definition init_simple (p : SuperParams) : FM unit :=
  sb <-! get_sb ;;
  put_sb (mkSb (s_ptr sb) (s_flags sb) (s_bdev sb) (s_bdev_mapping sb) (sp_magic p) (s_op sb) (s_xattr sb)
            (s_fs_info sb) (s_root sb)
            (mkGeom (maxbytes p) (wrap 64 (Z.shiftl 1 (wrap 6 (blocksize_bits p)))) (blocksize_bits p) (time_gran p))).
Definition rdonly (sb : SbFields S) : bool := negb (Z.land (s_flags sb) 1 =? 0).
Definition min_blocksize (size : Z) : FM Z := on_vst (sb_min_blocksize size).

(** *** [NewINode] *)
Definition NewINode_new (inode : Z) : NewINode := mkNewINode inode None None None.
Definition set_iops (n : NewINode) (ops : Z) : NewINode :=
  mkNewINode (inner n) (Some ops) (custom_fops n) (custom_aops n).
Definition set_fops (n : NewINode) (ops : Z) : NewINode :=
  mkNewINode (inner n) (custom_iops n) (Some ops) (custom_aops n).
Definition set_aops (n : NewINode) (ops : Z) : NewINode :=
  mkNewINode (inner n) (custom_iops n) (custom_fops n) (Some ops).

Definition type_bits (t : INodeType) : Z :=
  match t with
  | Dir => S_IFDIR | Reg => S_IFREG | Lnk _ => S_IFLNK | Chr _ _ => S_IFCHR | Blk _ _ => S_IFBLK
  | Fifo => S_IFIFO | Sock => S_IFSOCK
  end.

(** The plain field assignments of [init] and its three id helpers. *)
Definition init_meta (p : INodeParams D) (i : inode_fields) : inode_fields :=
  let i := <[I_mode := Z.lor (Z.land (p_mode p) 0x1ff) (type_bits (p_typ p))]> i in
  let i := <[I_size := p_size p]> i in
  let i := <[I_blocks := p_blocks p]> i in
  let i := <[I_atime_sec := sext 64 (secs (p_atime p))]> i in
  let i := <[I_atime_nsec := nsecs (p_atime p)]> i in
  let i := <[I_mtime_sec := sext 64 (secs (p_mtime p))]> i in
  let i := <[I_mtime_nsec := nsecs (p_mtime p)]> i in
  let i := <[I_ctime_sec := sext 64 (secs (p_ctime p))]> i in
  let i := <[I_ctime_nsec := nsecs (p_ctime p)]> i in
  i_gid_write (p_gid p) (i_uid_write (p_uid p) (set_nlink (p_nlink p) i)).

(** The operation tables by type. *)
Definition init_ops (n : NewINode) (t : INodeType) (tb : Tables) (i : inode_fields) : inode_fields :=
  match t with
  | Dir =>
      let i := <[I_op := default (dir_inode_ops tb) (custom_iops n)]> i in
      inode_set_fop (default (dir_file_ops tb) (custom_fops n)) i
  | Reg =>
      let i := <[I_op := default (reg_inode_ops tb) (custom_iops n)]> i in
      let i := inode_set_fop (default (reg_file_ops tb) (custom_fops n)) i in
      let i := match custom_aops n with
               | Some aops => inode_set_aops aops i
               | None => inode_set_aops (reg_aops tb) i
               end in
      mapping_set_large_folios i
  | Lnk target =>
      let iops := match custom_iops n with
                  | Some o => o
                  | None => match target with
                            | Some _ => simple_symlink_inode_operations
                            | None => page_symlink_inode_operations
                            end
                  end in
      let i := <[I_op := iops]> i in
      let i := match target with None => inode_nohighmem i | Some _ => i end in
      match target with Some s => <[I_link := sl_addr s]> i | None => i end
  | Chr major minor =>
      init_special_inode S_IFCHR (MKDEV major (Z.land minor RKO_MINORMASK)) i
  | Blk major minor =>
      init_special_inode S_IFBLK (MKDEV major (Z.land minor RKO_MINORMASK)) i
  | Fifo => init_special_inode S_IFIFO 0 i
  | Sock => init_special_inode S_IFSOCK 0 i
  end.

Definition NewINode_init (n : NewINode) (p : INodeParams D) (tb : Tables) : FM Z :=
  i <-! get_inode (inner n) ;;
  let i' := unlock_new_inode (init_ops n (p_typ p) tb (init_meta p (k_inode i))) in
  _ <-! put_inode (inner n) (mkKInode (Some (p_value p)) i') ;;
  m_ret (inner n).

(** [Drop for NewINode]: [iget_failed], then the [ARef] field is dropped. *)
Definition NewINode_drop (n : NewINode) : FM unit :=
  _ <-! on_kern_ (iget_failed (inner n)) ;;
  on_kern_ (iput (inner n)).

(** A block that owns a [NewINode]: an early error drops it. *)
Definition or_drop {A} (n : NewINode) (k : FM A) : FM A :=
  fun w =>
    match k w with
    | (Err e, w') => let '(_, w'') := NewINode_drop n w' in (Err e, w'')
    | o => o
    end.

(** [SuperBlock::iget]: [inl] is a new inode, [inr] a cached one. *)
Definition sb_iget (ino : Z) : FM (NewINode + Z) :=
  inode <-! on_kern (iget_locked ino) ;;
  if inode =? 0 then m_err ENOMEM
  else
    i <-! get_inode inode ;;
    if negb (Z.land (k_inode i I_state) I_NEW =? 0) then m_ret (inl (NewINode_new inode))
    else m_ret (inr inode).

(** *** Dentries *)
Definition splice_alias (dentry : Z) (inode : option Z) : FM (option Z) :=
  inode_ptr <-! match inode with
                | Some p =>
                    sb <-! inode_super_block p ;;
                    if negb (d_sb dentry =? sb) then
                      _ <-! on_kern_ (iput p) ;; m_err EINVAL
                    else m_ret p
                | None => m_ret 0
                end ;;
  result <-! on_kern (d_splice_alias inode_ptr dentry) ;;
  if result =? 0 then m_ret None
  else if sext 64 result <? 0 then m_err (Error_new (sext 32 result))
  else m_ret (Some result).

Definition Root_try_new (inode : Z) : FM Z :=
  dentry <-! on_kern (d_make_root inode) ;;
  if dentry =? 0 then m_err ENOMEM else m_ret dentry.

(** *** [DirEmitter] *)
Definition emitter_pos : FM Z := with_vw (fun v => (Ok (v_pos v), v)).
Definition advance (n : Z) : FM unit :=
  with_vw (fun v => (Ok tt, mkVW (v_inodes v) (v_kern v) (v_alloc v) (v_sb v) (sext 64 (v_pos v + n)))).

Definition emit (pos_inc : Z) (name : list byte) (ino : Z) (etype : DirEntryType) : FM bool :=
  ok <-! on_vst (dir_emit name ino (det_code etype)) ;;
  if ok : bool then _ <-! advance pos_inc ;; m_ret true else m_ret false.

End Ops.
Arguments VW {_} D S {_}.
Arguments FM {_ _} {D S _} A.

(** ** The callbacks of vtable.rs

    [FileSystem] is the trait a filesystem implements. *)
Class FileSystem `{BC : BlockCache, VA : VecAlloc} (D S : Type) `{VK : VfsKernel D} := {
  fs_tables : Tables;
  fs_fill_super : FM (D := D) (S := S) S;
  fs_init_root : FM (D := D) (S := S) Z;
  fs_lookup : Z -> Z -> FM (D := D) (S := S) (option Z);
  fs_read_dir : Z -> FM (D := D) (S := S) unit
}.

Section Callbacks.
Context `{KE : KernelErrno, KP : KernelErrPtr, BC : BlockCache, VA : VecAlloc}.
Context {D S : Type} `{VK : VfsKernel D} {FS : FileSystem D S}.

(** Run [m] and return its error as a C integer. *)
Definition errno_of {A} (m : FM (D := D) (S := S) A) (k : A -> FM (D := D) (S := S) Z) : FM (D := D) (S := S) Z :=
  fun w =>
    match m w with
    | (Ok a, w') => k a w'
    | (Err e, w') => (Ok (to_errno e), w')
    | (Panic, w') => (Panic, w')
    | (Ub, w') => (Ub, w')
    | (Pending, w') => (Pending, w')
    end.

Definition set_ops_tables : FM (D := D) (S := S) unit :=
  sb <-! get_sb ;;
  put_sb (mkSb (s_ptr sb) (s_flags sb) (s_bdev sb) (s_bdev_mapping sb) (s_magic sb)
            (super_ops fs_tables) (xattr_handlers fs_tables) (s_fs_info sb) (s_root sb) (s_geom sb)).

Definition set_fs_info (d : option S) : FM (D := D) (S := S) unit :=
  sb <-! get_sb ;;
  put_sb (mkSb (s_ptr sb) (s_flags sb) (s_bdev sb) (s_bdev_mapping sb) (s_magic sb) (s_op sb)
            (s_xattr sb) d (s_root sb) (s_geom sb)).

Definition set_root (root : Z) : FM (D := D) (S := S) unit :=
  sb <-! get_sb ;;
  put_sb (mkSb (s_ptr sb) (s_flags sb) (s_bdev sb) (s_bdev_mapping sb) (s_magic sb) (s_op sb)
            (s_xattr sb) (s_fs_info sb) root (s_geom sb)).

Definition fill_super_callback : FM (D := D) (S := S) Z :=
  _ <-! set_ops_tables ;;
  errno_of fs_fill_super (fun data =>
    _ <-! set_fs_info (Some data) ;;
    errno_of fs_init_root (fun root =>
      _ <-! set_root root ;;
      m_ret 0)).

Definition lookup_trampoline (dir dentry : Z) : FM (D := D) (S := S) Z :=
  fun w =>
    match fs_lookup dir dentry w with
    | (Ok (Some p), w') => (Ok (to_err_ptr (inl p)), w')
    | (Ok None, w') => (Ok (to_err_ptr (inl 0)), w')
    | (Err e, w') => (Ok (to_err_ptr (inr e)), w')
    | (Panic, w') => (Panic, w')
    | (Ub, w') => (Ub, w')
    | (Pending, w') => (Pending, w')
    end.

Definition iterate_shared_trampoline (inode : Z) : FM (D := D) (S := S) Z :=
  fun w => let '(r, w') := fs_read_dir inode w in (from_result r, w').

(** [kill_block_super]/[kill_anon_super] is the kernel function [kill_super];
    the data that is dropped is returned. *)
Definition kill_sb_callback (kill_super : gmap Z (KInode D) * vst -> gmap Z (KInode D) * vst) :
    FM (D := D) (S := S) (option S) :=
  _ <-! on_kern_ kill_super ;;
  sb <-! get_sb ;;
  match s_fs_info sb with
  | Some d => _ <-! set_fs_info None ;; m_ret (Some d)
  | None => m_ret None
  end.

End Callbacks.

(** ** Lemmas *)
Section Proofs.
Context `{KE : KernelErrno, KP : KernelErrPtr, BC : BlockCache, VA : VecAlloc}.
Context {D S : Type} `{VK : VfsKernel D} {VKO : VfsKernelOk D VK}.
Implicit Types w : World (VW D S).

Lemma fields_insert f v (i : inode_fields) g : <[f := v]> i g = if decide (f = g) then v else i g.
Proof. done. Qed.

Lemma get_inode_ok p i w : v_inodes (w_ext w) !! p = Some i -> get_inode p w = (Ok i, w).
Proof. intros H. unfold get_inode, with_vw. rewrite H. by destruct w as [? ? []]. Qed.

Lemma on_kern_eq {A} (f : gmap Z (KInode D) * vst -> A * (gmap Z (KInode D) * vst)) w a s k :
  f (v_inodes (w_ext w), v_kern (w_ext w)) = (a, (s, k)) ->
  on_kern f w = (Ok a, mkWorld (w_dev w) (w_held w)
                  (mkVW s k (v_alloc (w_ext w)) (v_sb (w_ext w)) (v_pos (w_ext w)))).
Proof. intros H. unfold on_kern, with_vw. by rewrite H. Qed.

Lemma sb_data_ok w s : s_fs_info (v_sb (w_ext w)) = Some s -> sb_data w = (Ok s, w).
Proof.
  intros H. unfold sb_data, m_bind, get_sb, with_vw. cbn. destruct w as [? ? []]. cbn in *. by rewrite H.
Qed.

Lemma get_sb_ok w : get_sb w = (Ok (v_sb (w_ext w)), w).
Proof. by destruct w as [? ? []]. Qed.

(** A vector call succeeds or reports [ENOMEM]. *)
Lemma with_kv_cases {A} (x : A) w :
  exists w', w_held w' = w_held w /\ v_sb (w_ext w') = v_sb (w_ext w) /\
    (with_kv (kv_try x) w = (Ok x, w') \/ with_kv (kv_try x) w = (Err ENOMEM, w')).
Proof.
  unfold with_kv, with_vw. destruct (kv_try_cases x (v_alloc (w_ext w))) as (a & [->| ->]); cbn;
    eexists; (split; [|split; [|by eauto]]); done.
Qed.

Lemma min_blocksize_ok n w :
  exists b w', min_blocksize n w = (Ok b, w') /\ v_sb (w_ext w') = v_sb (w_ext w) /\ w_held w' = w_held w.
Proof.
  unfold min_blocksize, on_vst, on_kern, with_vw.
  destruct (sb_min_blocksize n (v_kern (w_ext w))) as [b k]. eauto.
Qed.

Lemma inode_data_ok w p d k : v_inodes (w_ext w) !! p = Some (mkKInode (Some d) k) ->
  inode_data p w = (Ok d, w).
Proof. intros H. unfold inode_data, m_bind. by rewrite (get_inode_ok _ _ _ H). Qed.

Lemma inode_size_ok w p d k : v_inodes (w_ext w) !! p = Some (mkKInode d k) ->
  inode_size p w = (Ok (k I_size), w).
Proof. intros H. unfold inode_size, m_bind. by rewrite (get_inode_ok _ _ _ H). Qed.

(** [sb_iget] leaves a new inode in the store. *)
Lemma sb_iget_new ino w n w1 : sb_iget ino w = (Ok (inl n), w1) ->
  exists ki, v_inodes (w_ext w1) !! inner n = Some ki.
Proof.
  unfold sb_iget, m_bind. destruct (iget_locked ino (v_inodes (w_ext w), v_kern (w_ext w))) as [p [s k]] eqn:Eg.
  rewrite (on_kern_eq _ _ _ _ _ Eg). destruct (p =? 0) eqn:E0; [done|].
  destruct (iget_locked_spec _ _ _ _ _ _ Eg) as [[-> _]|(_ & (ki & -> & _) & _)]; [done|].
  rewrite (get_inode_ok _ ki) by apply lookup_insert_eq.
  destruct (negb _); [|done]. intros [= <- <-]. exists ki. apply lookup_insert_eq.
Qed.

(** The metadata [init] writes. *)
Lemma init_meta_field (p : INodeParams D) i f :
  init_meta p i f =
    match f with
    | I_mode => Z.lor (Z.land (p_mode p) 0x1ff) (type_bits (p_typ p))
    | I_size => p_size p
    | I_blocks => p_blocks p
    | I_atime_sec => sext 64 (secs (p_atime p))
    | I_atime_nsec => nsecs (p_atime p)
    | I_mtime_sec => sext 64 (secs (p_mtime p))
    | I_mtime_nsec => nsecs (p_mtime p)
    | I_ctime_sec => sext 64 (secs (p_ctime p))
    | I_ctime_nsec => nsecs (p_ctime p)
    | I_nlink => p_nlink p
    | I_uid => p_uid p
    | I_gid => p_gid p
    | _ => i f
    end.
Proof.
  unfold init_meta. rewrite i_gid_write_spec, fields_insert.
  destruct f; try done; cbn [decide]; rewrite i_uid_write_spec, fields_insert; try done;
    rewrite set_nlink_spec, fields_insert; try done; rewrite !fields_insert; done.
Qed.

(** The fields [init_ops] leaves alone. *)
Definition ops_field (f : ifield) : bool :=
  match f with
  | I_mode | I_op | I_fop | I_aops | I_large_folios | I_nohighmem | I_link | I_rdev => true
  | _ => false
  end.

Lemma init_ops_other n t tb i f : ops_field f = false -> init_ops n t tb i f = i f.
Proof.
  intros Hf. unfold init_ops. destruct t as [| |[sl|]|? ?|? ?| |].
  - rewrite inode_set_fop_spec, !fields_insert. by destruct f.
  - rewrite set_large_folios_spec, fields_insert. destruct f; try done;
      destruct (custom_aops n); rewrite inode_set_aops_spec, fields_insert; cbn;
      rewrite inode_set_fop_spec, !fields_insert; done.
  - rewrite !fields_insert. by destruct f.
  - rewrite nohighmem_spec, !fields_insert. by destruct f.
  - apply special_inode_spec. by destruct f.
  - apply special_inode_spec. by destruct f.
  - apply special_inode_spec. by destruct f.
  - apply special_inode_spec. by destruct f.
Qed.

Lemma NewINode_init_eq n (p : INodeParams D) tb w i :
  v_inodes (w_ext w) !! inner n = Some i ->
  NewINode_init n p tb w =
    (Ok (inner n), mkWorld (w_dev w) (w_held w)
       (mkVW (<[inner n := mkKInode (Some (p_value p))
                 (unlock_new_inode (init_ops n (p_typ p) tb (init_meta p (k_inode i))))]> (v_inodes (w_ext w)))
          (v_kern (w_ext w)) (v_alloc (w_ext w)) (v_sb (w_ext w)) (v_pos (w_ext w)))).
Proof. intros H. unfold NewINode_init, m_bind. by rewrite (get_inode_ok _ _ _ H). Qed.

Lemma unlock_other i f : f <> I_state -> unlock_new_inode i f = i f.
Proof. intros. rewrite unlock_new_inode_spec, fields_insert. by rewrite decide_False. Qed.

Lemma unlock_clears i : Z.land (unlock_new_inode i I_state) I_NEW = 0.
Proof.
  rewrite unlock_new_inode_spec, fields_insert. cbn [decide].
  rewrite decide_True by done. rewrite <- Z.land_assoc.
  replace (Z.land (Z.lnot I_NEW) I_NEW) with 0 by done. apply Z.land_0_r.
Qed.

(** The operation tables and type-specific fields [init] sets. *)
Definition ops_set (n : NewINode) (t : INodeType) (tb : Tables) (old new : inode_fields) (perm : Z) : Prop :=
  match t with
  | Dir => new I_op = default (dir_inode_ops tb) (custom_iops n) /\
           new I_fop = default (dir_file_ops tb) (custom_fops n) /\
           new I_mode = Z.lor perm S_IFDIR
  | Reg => new I_op = default (reg_inode_ops tb) (custom_iops n) /\
           new I_fop = default (reg_file_ops tb) (custom_fops n) /\
           new I_aops = default (reg_aops tb) (custom_aops n) /\ new I_large_folios = 1 /\
           new I_mode = Z.lor perm S_IFREG
  | Lnk (Some s) => new I_op = default simple_symlink_inode_operations (custom_iops n) /\
           new I_link = sl_addr s /\ new I_mode = Z.lor perm S_IFLNK
  | Lnk None => new I_op = default page_symlink_inode_operations (custom_iops n) /\
           new I_nohighmem = 1 /\ new I_aops = old I_aops /\ new I_mode = Z.lor perm S_IFLNK
  | _ => new I_mode = type_bits t
  end.

Lemma init_ops_set n t tb i perm :
  i I_mode = Z.lor perm (type_bits t) ->
  ops_set n t tb i (unlock_new_inode (init_ops n t tb i)) perm.
Proof.
  intros Hm. unfold ops_set, init_ops.
  destruct t as [| |[sl|]|? ?|? ?| |]; rewrite ?unlock_new_inode_spec, ?fields_insert; cbn;
    try apply special_inode_mode.
  - rewrite !inode_set_fop_spec, !fields_insert. done.
  - rewrite !set_large_folios_spec, !fields_insert. cbn.
    destruct (custom_aops n); rewrite !inode_set_aops_spec, !fields_insert; cbn;
      rewrite !inode_set_fop_spec, !fields_insert; done.
  - destruct (custom_iops n); done.
  - rewrite !nohighmem_spec, !fields_insert. destruct (custom_iops n); done.
Qed.

(** ** Properties *)

(** [NewINode::init] writes the inode it was given and no other: the per-inode
    data, size, blocks, link count, owner and times are those of the
    parameters, the type and the operation tables follow the inode type with
    custom tables taking precedence, and the inode is unlocked. *)
Theorem new_inode_init n (p : INodeParams D) tb w i :
  v_inodes (w_ext w) !! inner n = Some i ->
  exists w' k, NewINode_init n p tb w = (Ok (inner n), w') /\
    v_inodes (w_ext w') = <[inner n := mkKInode (Some (p_value p)) k]> (v_inodes (w_ext w)) /\
    w_held w' = w_held w /\
    k I_size = p_size p /\ k I_blocks = p_blocks p /\ k I_nlink = p_nlink p /\
    k I_uid = p_uid p /\ k I_gid = p_gid p /\ k I_ino = k_inode i I_ino /\ k I_sb = k_inode i I_sb /\
    k I_mtime_sec = sext 64 (secs (p_mtime p)) /\ k I_mtime_nsec = nsecs (p_mtime p) /\
    k I_atime_sec = sext 64 (secs (p_atime p)) /\ k I_atime_nsec = nsecs (p_atime p) /\
    k I_ctime_sec = sext 64 (secs (p_ctime p)) /\ k I_ctime_nsec = nsecs (p_ctime p) /\
    Z.land (k I_state) I_NEW = 0 /\
    ops_set n (p_typ p) tb (init_meta p (k_inode i)) k (Z.land (p_mode p) 0x1ff).
Proof.
  intros Hi. rewrite (NewINode_init_eq _ _ _ _ _ Hi).
  eexists _, (unlock_new_inode (init_ops n (p_typ p) tb (init_meta p (k_inode i)))).
  split; [done|]. split; [done|]. split; [done|].
  do 13 (split; [by rewrite unlock_other, init_ops_other, init_meta_field by done|]).
  split; [apply unlock_clears|]. apply init_ops_set. by rewrite init_meta_field.
Qed.

(** Two settings do not survive [init].  The custom address-space operations of
    a page-based symlink are ignored, so its mapping keeps the operations it had;
    and the permission bits of a device, FIFO or socket are overwritten by
    [init_special_inode], which is passed the bare type. *)
Theorem init_drops_settings n (p : INodeParams D) tb w i :
  v_inodes (w_ext w) !! inner n = Some i ->
  exists w' k, NewINode_init n p tb w = (Ok (inner n), w') /\
    v_inodes (w_ext w') !! inner n = Some (mkKInode (Some (p_value p)) k) /\
    (p_typ p = Lnk None -> k I_aops = k_inode i I_aops) /\
    (match p_typ p with Chr _ _ | Blk _ _ | Fifo | Sock => k I_mode = type_bits (p_typ p) | _ => True end).
Proof.
  intros Hi. rewrite (NewINode_init_eq _ _ _ _ _ Hi).
  eexists _, (unlock_new_inode (init_ops n (p_typ p) tb (init_meta p (k_inode i)))).
  split; [done|]. split; [apply lookup_insert_eq|].
  pose proof (init_ops_set n (p_typ p) tb (init_meta p (k_inode i)) (Z.land (p_mode p) 0x1ff)) as H.
  rewrite init_meta_field in H. specialize (H eq_refl). split.
  - intros Ht. rewrite Ht in H |- *. destruct H as (_ & _ & H & _). rewrite H. by rewrite init_meta_field.
  - by destruct (p_typ p) as [| |[]| | | |].
Qed.

(** Dropping a [NewINode] releases its single reference twice: [iget_failed]
    gives it back and then the [ARef] field is dropped as well.  Looking up a
    new inode and failing to initialise it leaves the reference count one below
    where it started. *)
Theorem new_inode_drop_double_put ino w n w1 :
  sb_iget ino w = (Ok (inl n), w1) ->
  exists w2, NewINode_drop n w1 = (Ok tt, w2) /\
    i_count (v_kern (w_ext w2)) (inner n) = i_count (v_kern (w_ext w)) (inner n) - 1.
Proof.
  intros H. unfold sb_iget, m_bind in H.
  destruct (iget_locked ino (v_inodes (w_ext w), v_kern (w_ext w))) as [p [s k]] eqn:Eg.
  rewrite (on_kern_eq _ _ _ _ _ Eg) in H. destruct (p =? 0) eqn:E0; [done|].
  destruct (iget_locked_spec _ _ _ _ _ _ Eg) as [[-> _]|(Hp & (ki & -> & _) & Hc)]; [done|].
  rewrite (get_inode_ok _ ki) in H by apply lookup_insert_eq.
  destruct (negb _); [|done]. injection H as <- <-.
  unfold NewINode_drop, m_bind, on_kern_. cbn [inner NewINode_new].
  destruct (iget_failed p (<[p:=ki]> (v_inodes (w_ext w)), k)) as [s2 k2] eqn:E2.
  erewrite on_kern_eq; [|by cbn; rewrite E2].
  destruct (iput p (s2, k2)) as [s3 k3] eqn:E3.
  erewrite on_kern_eq; [|by cbn; rewrite E3]. eexists. split; [done|]. cbn.
  destruct (iput_spec _ _ _ _ _ E3) as [_ ->], (iget_failed_spec _ _ _ _ _ E2) as [_ ->].
  rewrite Hc, Z.eqb_refl. lia.
Qed.

(** [splice_alias] cannot return an existing alias: [d_splice_alias] returns a
    kernel address, which has its top bit set, and the code takes every such
    pointer for an error, losing the reference it owns. *)
Theorem splice_alias_rejects_alias dentry w p s k :
  d_splice_alias 0 dentry (v_inodes (w_ext w), v_kern (w_ext w)) = (p, (s, k)) ->
  2 ^ 63 <= p < 2 ^ 64 ->
  exists w', splice_alias dentry None w = (Err (Error_new (sext 32 p)), w').
Proof.
  intros Hd Hp. unfold splice_alias, m_bind. cbn [m_ret].
  unfold m_ret. rewrite (on_kern_eq _ _ _ _ _ Hd).
  destruct (p =? 0) eqn:E0; [blia|].
  assert (sext 64 p < 0) as Hn.
  { unfold sext. rewrite wrap_small by lia. destruct (_ <? _) eqn:E; blia. }
  destruct (sext 64 p <? 0) eqn:E; [|blia]. eexists. done.
Qed.

End Proofs.

Section Mount.
Context `{KE : KernelErrno, KP : KernelErrPtr, BC : BlockCache, VA : VecAlloc}.
Context {D S : Type} `{VK : VfsKernel D} {FS : FileSystem D S}.
Implicit Types w : World (VW D S).

(** A filesystem's mount code leaves [s_fs_info] to the callback. *)
Class FsInfoPreserved : Prop := {
  fill_super_fs_info w : s_fs_info (v_sb (w_ext (fs_fill_super w).2)) = s_fs_info (v_sb (w_ext w));
  init_root_fs_info w : s_fs_info (v_sb (w_ext (fs_init_root w).2)) = s_fs_info (v_sb (w_ext w))
}.

Lemma set_fs_info_eq d w : exists w', set_fs_info d w = (Ok tt, w') /\ s_fs_info (v_sb (w_ext w')) = d.
Proof. by eexists. Qed.

Lemma kill_sb_eq kill w : exists w', kill_sb_callback kill w = (Ok (s_fs_info (v_sb (w_ext w))), w') /\
  s_fs_info (v_sb (w_ext w')) = None.
Proof.
  unfold kill_sb_callback, m_bind, on_kern_.
  destruct (kill (v_inodes (w_ext w), v_kern (w_ext w))) as [s k] eqn:E.
  erewrite on_kern_eq; [|by rewrite E]. cbn.
  destruct (s_fs_info (v_sb (w_ext w))) as [d|] eqn:Ed; cbn; eexists; (split; [done|done]).
Qed.

(** Whatever the outcome of mounting, the per-superblock data that [fill_super]
    produced is handed to [Drop] exactly once, by [kill_sb]: also when
    [init_root] failed after the data was stored, and never when [fill_super]
    itself failed; a second [kill_sb] drops nothing. *)
Theorem mount_data_dropped_once {FI : FsInfoPreserved} kill w r w1 :
  s_fs_info (v_sb (w_ext w)) = None ->
  fill_super_callback w = (Ok r, w1) ->
  exists w0 d w2 w3, set_ops_tables w = (Ok tt, w0) /\
    kill_sb_callback kill w1 = (Ok d, w2) /\ kill_sb_callback kill w2 = (Ok None, w3) /\
    match (fs_fill_super w0).1 with Ok s => d = Some s | _ => d = None end.
Proof.
  intros Hn Hf. unfold fill_super_callback, m_bind at 1 in Hf.
  set (w0 := mkWorld (w_dev w) (w_held w) (mkVW (v_inodes (w_ext w)) (v_kern (w_ext w)) (v_alloc (w_ext w))
    (mkSb (s_ptr (v_sb (w_ext w))) (s_flags (v_sb (w_ext w))) (s_bdev (v_sb (w_ext w)))
       (s_bdev_mapping (v_sb (w_ext w))) (s_magic (v_sb (w_ext w))) (super_ops fs_tables)
       (xattr_handlers fs_tables) (s_fs_info (v_sb (w_ext w))) (s_root (v_sb (w_ext w))) (s_geom (v_sb (w_ext w)))) (v_pos (w_ext w)))).
  assert (set_ops_tables w = (Ok tt, w0)) as H0 by done. rewrite H0 in Hf.
  assert (s_fs_info (v_sb (w_ext w1)) = match (fs_fill_super w0).1 with Ok s => Some s | _ => None end) as Hi.
  { unfold errno_of at 1 in Hf. pose proof (fill_super_fs_info w0) as Hp.
    destruct (fs_fill_super w0) as [[s|e| | |] wf]; try done.
    - unfold m_bind at 1 in Hf. destruct (set_fs_info_eq (Some s) wf) as (ws & Hs & Hsi).
      rewrite Hs in Hf. unfold errno_of in Hf. pose proof (init_root_fs_info ws) as Hp2.
      destruct (fs_init_root ws) as [[root|e| | |] wr]; try done; cbn in Hf.
      + injection Hf as <- <-. cbn in Hp2 |- *. congruence.
      + injection Hf as <- <-. cbn in Hp2 |- *. congruence.
    - injection Hf as <- <-. cbn in Hp |- *. congruence. }
  destruct (kill_sb_eq kill w1) as (w2 & Hk & Hk2). destruct (kill_sb_eq kill w2) as (w3 & Hk3 & _).
  rewrite Hk2 in Hk3. exists w0, (s_fs_info (v_sb (w_ext w1))), w2, w3.
  split; [done|]. split; [done|]. split; [done|]. rewrite Hi.
  by destruct ((fs_fill_super w0).1).
Qed.

End Mount.

(** ** A kernel for the witnesses

    Inodes sit at an address computed from their number, the directory reader
    accepts a fixed number of entries, and only dentry 9 has an alias. *)
Record toy_vst : Type := mkToy { t_count : Z -> Z; t_room : nat; t_out : list dirent }.

Definition bump (p n : Z) (k : toy_vst) : toy_vst :=
  mkToy (fun q => t_count k q + (if q =? p then n else 0)) (t_room k) (t_out k).

Definition toy_new_inode {D} (ino : Z) : KInode D :=
  mkKInode None (fun f => match f with I_ino => ino | I_state => 1 | I_sb => 77 | _ => 0 end).

Definition toy_type (c : Z) : DirEntryType := default DT_Unknown (det_from_u32 c).

Definition toy_iget {D} (ino : Z) (sk : gmap Z (KInode D) * toy_vst) : Z * (gmap Z (KInode D) * toy_vst) :=
  let '(s, k) := sk in
  let p := 2 ^ 40 + ino in
  if p =? 0 then (0, (s, k))
  else
    let ki := match s !! p with
              | Some i => if k_inode i I_ino =? ino then i else toy_new_inode ino
              | None => toy_new_inode ino
              end in
    (p, (<[p := ki]> s, bump p 1 k)).

Definition toy_vfs (D : Type) : VfsKernel D := {|
  vst := toy_vst;
  iget_locked := toy_iget;
  iget_failed p sk := (delete p sk.1, bump p (-1) sk.2);
  iput p sk := (sk.1, bump p (-1) sk.2);
  i_count := t_count;
  d_splice_alias _ d sk := (if d =? 9 then 2 ^ 63 + 4096 else 0, sk);
  d_make_root p sk := (p + 1, sk);
  d_sb _ := 77;
  dentry_name d := if d =? 1 then bs "b" else bs "a";
  dir_emit name ino t k :=
    match t_room k with
    | O => (false, k)
    | Datatypes.S n => (true, mkToy (t_count k) n (t_out k ++ [mkDirent name ino (toy_type t)]))
    end;
  emitted := t_out;
  sb_min_blocksize n k := (n, k);
  set_nlink n i := <[I_nlink := n]> i;
  i_uid_write n i := <[I_uid := n]> i;
  i_gid_write n i := <[I_gid := n]> i;
  inode_set_fop n i := <[I_fop := n]> i;
  inode_set_aops n i := <[I_aops := n]> i;
  mapping_set_large_folios i := <[I_large_folios := 1]> i;
  inode_nohighmem i := <[I_nohighmem := 1]> i;
  init_special_inode m dev i := <[I_mode := m]> (<[I_rdev := dev]> i);
  unlock_new_inode i := <[I_state := Z.land (i I_state) (Z.lnot I_NEW)]> i;
  MKDEV a b := Z.lor (Z.shiftl a 20) b;
  RKO_MINORMASK := 2 ^ 20 - 1;
  simple_symlink_inode_operations := 501;
  page_symlink_inode_operations := 502 |}.

#[global] Instance toy_vfs_ok D : VfsKernelOk D (toy_vfs D).
Proof.
  constructor; cbn; try done.
  - intros m dev i f Hf. rewrite !fields_insert. by destruct f.
  - intros ino s k p s' k' H. unfold toy_iget in H.
    destruct (2 ^ 40 + ino =? 0) eqn:E; injection H as <- <- <-; [by left|right].
    split; [blia|]. split; [|done]. eexists. split; [done|].
    destruct (s !! (2 ^ 40 + ino)) as [i|]; [|done].
    destruct (k_inode i I_ino =? ino) eqn:Ei; [|done]. split; [blia|done].
  - intros p s k s' k' [= <- <-]. split; [apply delete_delete_eq|]. intros q. cbn. destruct (q =? p); lia.
  - intros p s k s' k' [= <- <-]. split; [done|]. intros q. cbn. destruct (q =? p); lia.
  - intros ino [s k]. unfold toy_iget. by destruct (_ =? 0).
  - intros name ino t k b k' H. destruct (t_room k); injection H as <- <-; cbn; [by rewrite app_nil_r|].
    unfold toy_type. by destruct t.
Qed.

Definition toy_sb {S} (d : option S) : SbFields S := mkSb 77 1 5 0 0 0 0 d 0 (mkGeom 0 0 0 0).

Definition toy_fs_world {D S} (img : Z -> list byte) (inodes : gmap Z (KInode D)) (room : nat) (d : option S) (pos : Z) :
    @World (ram_cache img) (@VW const_alloc D S (toy_vfs D)) :=
  @mkWorld (ram_cache img) _ tt [] (@mkVW const_alloc D S (toy_vfs D) inodes (mkToy (fun _ => 0) room []) true (toy_sb d) pos).

Definition toy_tables : Tables := mkTables 101 102 103 104 105 106 107 108.
Definition toy_params (t : INodeType) : INodeParams Z :=
  mkParams 0x1ed t 12 8 1 1000 100 (mkTime 1 0) (mkTime 2 0) (mkTime 3 0) 42.

Definition toy_inodes : gmap Z (KInode Z) := {[ 8 := toy_new_inode 11 ]}.

Lemma new_inode_init_witness :
  exists w' k, NewINode_init (VK := toy_vfs Z) (NewINode_new 8) (toy_params Reg) toy_tables
                 (toy_fs_world (S := unit) (one_page []) toy_inodes 0 None 0) = (Ok 8, w') /\
    k I_size = 12 /\ v_inodes (w_ext w') = <[8 := mkKInode (Some 42) k]> toy_inodes.
Proof.
  destruct (new_inode_init (VK := toy_vfs Z) (NewINode_new 8) (toy_params Reg) toy_tables
    (toy_fs_world (S := unit) (one_page []) toy_inodes 0 None 0) (toy_new_inode 11) eq_refl)
    as (w' & k & H1 & H2 & _ & H3 & _).
  exists w', k. exact (conj H1 (conj H3 H2)).
Defined.

Lemma init_drops_settings_witness :
  exists w' k, NewINode_init (VK := toy_vfs Z) (set_aops (NewINode_new 8) 900) (toy_params (Lnk None)) toy_tables
                 (toy_fs_world (S := unit) (one_page []) toy_inodes 0 None 0) = (Ok 8, w') /\ k I_aops = 0.
Proof.
  destruct (init_drops_settings (VK := toy_vfs Z) (set_aops (NewINode_new 8) 900) (toy_params (Lnk None)) toy_tables
    (toy_fs_world (S := unit) (one_page []) toy_inodes 0 None 0) (toy_new_inode 11) eq_refl) as (w' & k & H1 & _ & H2 & _).
  exists w', k. exact (conj H1 (H2 eq_refl)).
Defined.

Lemma new_inode_drop_double_put_witness :
  exists n w1 w2, sb_iget (KE := linux_errno) (VK := toy_vfs Z) 11 (toy_fs_world (S := unit) (one_page []) toy_inodes 0 None 0) = (Ok (inl n), w1) /\
    NewINode_drop n w1 = (Ok tt, w2) /\ i_count (v_kern (w_ext w2)) (inner n) = -1.
Proof.
  eexists _, _.
  destruct (new_inode_drop_double_put (KE := linux_errno) (VK := toy_vfs Z) 11 (toy_fs_world (S := unit) (one_page []) toy_inodes 0 None 0)
    _ _ eq_refl) as (w2 & H1 & H2).
  exists w2. split; [reflexivity|]. exact (conj H1 H2).
Defined.

Lemma splice_alias_rejects_alias_witness :
  exists w', splice_alias (KE := linux_errno) (VK := toy_vfs Z) 9 None (toy_fs_world (S := unit) (one_page []) toy_inodes 0 None 0)
    = (Err (Error_new (sext 32 (2 ^ 63 + 4096))), w').
Proof.
  eapply (splice_alias_rejects_alias (KE := linux_errno) (VK := toy_vfs Z) 9 (toy_fs_world (S := unit) (one_page []) toy_inodes 0 None 0)
    (2 ^ 63 + 4096)); [reflexivity|lia].
Defined.

(** A filesystem whose root cannot be created. *)
Definition rootless : @FileSystem (ram_cache (one_page [])) const_alloc Z Z (toy_vfs Z) := {|
  fs_tables := toy_tables;
  fs_fill_super := m_ret 7;
  fs_init_root := m_err (@EIO linux_errno);
  fs_lookup _ _ := m_ret None;
  fs_read_dir _ := m_ret tt |}.

Lemma mount_data_dropped_once_witness :
  exists r w1 d w2, fill_super_callback (FS := rootless) (toy_fs_world (one_page []) toy_inodes 0 None 0) = (Ok r, w1) /\
    kill_sb_callback (fun s => s) w1 = (Ok d, w2) /\ d = Some 7.
Proof.
  eexists _, _.
  destruct (mount_data_dropped_once (FS := rootless) (FI := @Build_FsInfoPreserved _ _ _ _ _ rootless
    (fun w => eq_refl) (fun w => eq_refl)) (fun s => s) (toy_fs_world (one_page []) toy_inodes 0 None 0) _ _ eq_refl eq_refl)
    as (w0 & d & w2 & w3 & _ & H2 & _ & H4).
  exists d, w2. split; [reflexivity|]. exact (conj H2 H4).
Defined.
