(* ===== verification/Emits.v ===== *)
(** * Directory listings

    What it means that entries were handed to the reader of a directory, for any
    filesystem: the kernel's view of what the reader has, and the position, which moves
    by the size of each entry's record. *)
From Stdlib Require Import ZArith Lia Bool.
From Stdlib.Strings Require Import Byte.
From stdpp Require Import base list option numbers gmap.
From S2P Require Import Prelude Errors KVec LeBytes Mapper Vfs.

Definition rec_sum (es : list (dirent * Z)) : Z := foldr (fun e n => e.2 + n) 0 es.

Lemma rec_sum_app a b : rec_sum (a ++ b) = rec_sum a + rec_sum b.
Proof. induction a as [|e a IH]; [done|]. unfold rec_sum in *. cbn. rewrite IH. lia. Qed.

Lemma rec_sum_nonneg (es : list (dirent * Z)) : Forall (fun e => 0 <= e.2) es -> 0 <= rec_sum es.
Proof. unfold rec_sum. induction 1; cbn; lia. Qed.

(** The reader accepts whatever it is given. *)
Class NeverFull {D : Type} {VK : VfsKernel D} : Prop :=
  never_full : forall name ino t st, (dir_emit name ino t st).1 = true.

Section Emits.
Context `{BC : BlockCache, VA : VecAlloc} {D S : Type} `{VK : VfsKernel D} {VKO : VfsKernelOk D VK}.
Implicit Types w : World (VW D S).

(** From [w] to [w'] the entries [es] were handed to the reader, its position
    moved by their records, and nothing else changed. *)
Record emits (es : list (dirent * Z)) (w w' : World (VW D S)) : Prop := {
  em_held : w_held w' = w_held w;
  em_inodes : v_inodes (w_ext w') = v_inodes (w_ext w);
  em_sb : v_sb (w_ext w') = v_sb (w_ext w);
  em_out : emitted (v_kern (w_ext w')) = emitted (v_kern (w_ext w)) ++ es.*1;
  em_pos : v_pos (w_ext w') = v_pos (w_ext w) + rec_sum es
}.

Lemma emits_refl w : emits [] w w.
Proof. constructor; try done; cbn; [by rewrite app_nil_r|lia]. Qed.

Lemma emits_trans a b w1 w2 w3 : emits a w1 w2 -> emits b w2 w3 -> emits (a ++ b) w1 w3.
Proof.
  intros [] []. constructor; try congruence.
  - rewrite fmap_app, app_assoc. congruence.
  - rewrite rec_sum_app. lia.
Qed.

Lemma emits_untouched w w' : untouched w w' -> emits [] w w'.
Proof. intros [H1 H2]. constructor; rewrite ?H2; try done; cbn; [by rewrite app_nil_r|lia]. Qed.

(** One call of [emit]. *)
Lemma emit_spec rec_len name ino t w :
  0 <= rec_len -> - 2 ^ 63 <= v_pos (w_ext w) -> v_pos (w_ext w) + rec_len < 2 ^ 63 ->
  exists b w', emit rec_len name ino t w = (Ok b, w') /\ (b = false -> ~ NeverFull (VK := VK)) /\
    emits (if b : bool then [(mkDirent name ino t, rec_len)] else []) w w'.
Proof.
  intros Hr Hp Hq. unfold emit, m_bind, on_vst.
  destruct (dir_emit name ino (det_code t) (v_kern (w_ext w))) as [b k] eqn:E.
  erewrite on_kern_eq; [|by rewrite E]. pose proof (dir_emit_spec _ _ _ _ _ _ E) as He.
  destruct b; (eexists _, _; split; [done|]; split); try done.
  - constructor; cbn; try done. rewrite sext_id by lia. lia.
  - intros _ Hnf. pose proof (never_full name ino (det_code t) (v_kern (w_ext w))) as Hf. by rewrite E in Hf.
  - constructor; cbn; try done. lia.
Qed.
End Emits.
