(* ===== verification/Keeps.v ===== *)
(** * The resource discipline of the filesystems

    [keeps m]: whatever the device and the kernel answer, after [m] the mapped
    folios are the ones that were mapped before and the per-superblock data is the
    same.  The property is proved of every operation of [Mapper] and [Vfs], closed
    under the ways the filesystems compose them, and automated by [keeps]. *)
From Stdlib Require Import ZArith Lia Bool.
From Stdlib.Strings Require Import Byte.
From stdpp Require Import base list option numbers gmap.
From S2P Require Import Prelude Errors KVec LeBytes Mapper Vfs.

Create HintDb keeps.

(** The part of the caller's state that must stay: the mounted data of [VW], also
    when a closure's captured variables [C] are added to it. *)
Class HasInfo (X : Type) := { info_type : Type; info : X -> info_type }.

#[global] Instance vw_info `{VA : VecAlloc} {D S : Type} `{VK : VfsKernel D} : HasInfo (VW D S) :=
  {| info v := s_fs_info (v_sb v) |}.
#[global] Instance captured_info {X C : Type} `{HI : HasInfo X} : HasInfo (X * C) :=
  {| info x := info x.1 |}.

Section Generic.
Context `{KE : KernelErrno, KP : KernelErrPtr, BC : BlockCache} {X : Type} {HI : HasInfo X}.
Implicit Types w : World X.

Definition kept w w' : Prop := w_held w' = w_held w /\ info (w_ext w') = info (w_ext w).
Definition keeps {A} (m : M (World X) Error A) : Prop := forall w, kept w (m w).2.

#[global] Instance kept_refl : Reflexive kept.
Proof. by split. Qed.
#[global] Instance kept_trans : Transitive kept.
Proof. intros w1 w2 w3 [] []. split; congruence. Qed.

Lemma keeps_ret {A} (a : A) : keeps (m_ret a).
Proof. by intros w. Qed.
Lemma keeps_err {A} e : keeps (A := A) (m_err e).
Proof. by intros w. Qed.
Lemma keeps_lift {A} (r : res Error A) : keeps (m_lift r).
Proof. by intros w. Qed.

Lemma keeps_bind {A B} (m : M (World X) Error A) (k : A -> M (World X) Error B) :
  keeps m -> (forall a, keeps (k a)) -> keeps (m_bind m k).
Proof.
  intros Hm Hk w. unfold m_bind. specialize (Hm w). destruct (m w) as [[a|e| | |] w']; try done.
  etrans; [exact Hm|apply Hk].
Qed.

(** A folio mapped for a scope is released at its end. *)
Lemma keeps_mapped {A} m off (k : MappedFolio -> M (World X) Error A) :
  (forall b, keeps (k b)) -> keeps (b <-! mapped_folio m off ;; scoped b (k b)).
Proof.
  intros Hk w. unfold m_bind, mapped_folio. destruct (off <? 0); [done|].
  destruct (read_cache_folio _ _ _) as [f d]. destruct (rust_helper_IS_ERR f); [done|].
  destruct (f =? 0); [done|]. unfold scoped.
  match goal with |- context [k ?b ?w1] => pose proof (Hk b w1) as [H1 H2]; destruct (k b w1) as [r w'] end.
  unfold kept, mf_drop in *. cbn [w_held w_ext mf_folio snd] in *. rewrite H1, release_head. done.
Qed.

Lemma keeps_mapped_bind {A B} m off (k : MappedFolio -> M (World X) Error A) (j : A -> M (World X) Error B) :
  (forall b, keeps (k b)) -> (forall a, keeps (j a)) ->
  keeps (b <-! mapped_folio m off ;; a <-! scoped b (k b) ;; j a).
Proof.
  intros Hk Hj w.
  assert ((b <-! mapped_folio m off ;; a <-! scoped b (k b) ;; j a) w =
          (a <-! (b <-! mapped_folio m off ;; scoped b (k b)) ;; j a) w) as ->.
  { unfold m_bind. by destruct (mapped_folio m off w) as [[b|e| | |] w1]. }
  apply keeps_bind; [by apply keeps_mapped|done].
Qed.

(** A page loop keeps what its callback keeps. *)
Lemma keeps_for_each {U} m (cb : bslice -> M (World X) Error (option U)) off len :
  (forall b, keeps (cb b)) -> keeps (for_each_page m cb off len).
Proof.
  intros Hcb. unfold for_each_page. destruct (len <=? 0); [apply keeps_ret|].
  generalize (page_fuel len). intros fuel. revert off len.
  induction fuel as [|fuel IH]; intros off len; cbn [for_each_loop]; [apply keeps_lift|].
  destruct (0 <? len); [|apply keeps_ret].
  apply keeps_mapped_bind.
  - intros b. apply keeps_bind; [apply keeps_lift|]. intros d. apply keeps_bind; [apply keeps_lift|].
    intros s. apply keeps_bind; [apply Hcb|]. intros r. apply keeps_ret.
  - intros [[u|] n]; [apply keeps_ret|apply IH].
Qed.
End Generic.

Section VfsKeeps.
Context `{KE : KernelErrno, KP : KernelErrPtr, BC : BlockCache, VA : VecAlloc}.
Context {D S : Type} `{VK : VfsKernel D}.

Abbreviation keeps := (keeps (X := VW D S)).

Lemma keeps_on_kern {A} (f : gmap Z (KInode D) * vst -> A * (gmap Z (KInode D) * vst)) : keeps (on_kern f).
Proof. intros w. unfold on_kern, with_vw. by destruct (f _) as [a [s k]]. Qed.
Lemma keeps_on_kern_ (f : gmap Z (KInode D) * vst -> gmap Z (KInode D) * vst) : keeps (on_kern_ f).
Proof. apply keeps_on_kern. Qed.
Lemma keeps_on_vst {A} (f : vst -> A * vst) : keeps (on_vst f).
Proof. apply keeps_on_kern. Qed.
Lemma keeps_with_kv {A} (m : M ast AllocError A) : keeps (with_kv m).
Proof. intros w. unfold with_kv, with_vw. by destruct (m _). Qed.
Lemma keeps_get_inode p : keeps (get_inode p).
Proof. by intros w. Qed.
Lemma keeps_put_inode p i : keeps (put_inode p i).
Proof. by intros w. Qed.
Lemma keeps_get_sb : keeps get_sb.
Proof. by intros w. Qed.
Lemma keeps_sb_data : keeps sb_data.
Proof. intros w. unfold sb_data, m_bind. cbn. done. Qed.
Lemma keeps_set_magic n : keeps (set_magic n).
Proof. by intros w. Qed.
Lemma keeps_emitter_pos : keeps emitter_pos.
Proof. by intros w. Qed.
Lemma keeps_advance n : keeps (advance n).
Proof. by intros w. Qed.

Lemma keeps_or_drop {A} n (k : FM A) : keeps k -> keeps (or_drop n k).
Proof.
  intros Hk w. unfold or_drop. specialize (Hk w). destruct (k w) as [[a|e| | |] w']; try done.
  assert (keeps (NewINode_drop n)) as Hd by (apply keeps_bind; intros; apply keeps_on_kern).
  specialize (Hd w'). destruct (NewINode_drop n w') as [r w'']. by etrans.
Qed.
End VfsKeeps.

#[export] Hint Resolve keeps_ret keeps_err keeps_lift keeps_on_kern keeps_on_kern_ keeps_on_vst keeps_with_kv
  keeps_get_inode keeps_put_inode keeps_get_sb keeps_sb_data keeps_set_magic keeps_emitter_pos
  keeps_advance keeps_or_drop : keeps.

(** Walk through a monadic body. *)
Ltac keeps_step :=
  match goal with
  | |- keeps (m_bind (mapped_folio _ _) (fun b => m_bind (scoped b _) _)) =>
      apply keeps_mapped_bind; intros
  | |- keeps (m_bind (mapped_folio _ _) (fun b => scoped b _)) => apply keeps_mapped; intros
  | |- keeps (for_each_page _ _ _ _) => apply keeps_for_each; intros
  | |- keeps (m_bind _ _) => apply keeps_bind; [|intros]
  | |- keeps (match ?x with _ => _ end) => destruct x
  | |- keeps (let '(_, _) := ?x in _) => destruct x
  end.
Ltac keeps := cbv zeta; repeat (keeps_step; cbv zeta); auto with keeps.

(** ** The operations of the VFS layer *)
Section Operations.
Context `{KE : KernelErrno, KP : KernelErrPtr, BC : BlockCache, VA : VecAlloc}.
Context {D S : Type} `{VK : VfsKernel D}.

Lemma inode_data_keeps p : keeps (X := VW D S) (inode_data p).
Proof. unfold inode_data. keeps. Qed.
Lemma inode_size_keeps p : keeps (X := VW D S) (inode_size p).
Proof. unfold inode_size. keeps. Qed.
Lemma min_blocksize_keeps n : keeps (X := VW D S) (min_blocksize n).
Proof. unfold min_blocksize. keeps. Qed.
Lemma NewINode_init_keeps n (p : INodeParams D) tb : keeps (X := VW D S) (NewINode_init n p tb).
Proof. unfold NewINode_init. keeps. Qed.
Lemma sb_iget_keeps n : keeps (X := VW D S) (sb_iget n).
Proof. unfold sb_iget. keeps. Qed.
Lemma Root_try_new_keeps n : keeps (X := VW D S) (Root_try_new n).
Proof. unfold Root_try_new. keeps. Qed.
Lemma splice_alias_keeps d i : keeps (X := VW D S) (splice_alias d i).
Proof. unfold splice_alias, inode_super_block. destruct i; keeps. Qed.
Lemma emit_keeps n name ino t : keeps (X := VW D S) (emit n name ino t).
Proof. unfold emit. keeps. Qed.
End Operations.

#[export] Hint Resolve inode_data_keeps inode_size_keeps min_blocksize_keeps NewINode_init_keeps
  sb_iget_keeps Root_try_new_keeps splice_alias_keeps emit_keeps : keeps.
