(* ===== verification/Boxes.v ===== *)
(** * Boxes and C strings (rko-core/src/alloc/kbox.rs, types/cstring.rs)

    [Box<T, Kmalloc>] owns one heap cell.  The heap maps the address of each live
    allocation to its value, [None] until it is written, and keeps the values whose
    destructor has run; where the kernel places an allocation, or that it refuses it,
    is the interface [Placement].
    [CString] is a box of bytes that crosses the language border as a bare pointer, so
    its length is found again by looking for the terminator. *)
From Stdlib Require Import ZArith Lia Bool.
From Stdlib.Strings Require Import Byte.
From stdpp Require Import base list option numbers gmap.
From S2P Require Import Prelude Errors KVec Folio.

Record Heap (V : Type) : Type := mkHeap { cells : gmap Z (option V); destroyed : list V }.
Arguments mkHeap {V}.
Arguments cells {V}.
Arguments destroyed {V}.

(** [krealloc_node_align_noprof(NULL, size, align, ...)]: [None] is the null pointer. *)
Class Placement (V : Type) := place : Heap V -> Z -> option Z.
(** The kernel returns memory that is not in use, above [ZERO_SIZE_PTR]. *)
Class PlacementOk (V : Type) (PL : Placement V) : Prop :=
  place_fresh h size p : place h size = Some p -> 16 < p /\ cells h !! p = None.

Section Box.
Context {V : Type} {PL : Placement V}.

Abbreviation HM := (M (Heap V) AllocError).

(** [Kmalloc::realloc] of a null pointer; a size of zero gives a dangling pointer, which
    all boxes of such a type share: the type has one value. *)
Definition box_alloc (size : Z) : HM Z := fun h =>
  if size =? 0 then (Ok 1, h)
  else match place h size with
       | Some p => (Ok p, mkHeap (<[p := None]> (cells h)) (destroyed h))
       | None => (Err AllocErr, h)
       end.

(** A store through the pointer, and a load. *)
Definition box_store {E} (p : Z) (v : V) : M (Heap V) E unit :=
  fun h => (Ok tt, mkHeap (<[p := Some v]> (cells h)) (destroyed h)).
Definition box_load {E} (p : Z) : M (Heap V) E V :=
  fun h => (match cells h !! p with Some (Some v) => Ok v | _ => Ub end, h).
(** [kfree], which ignores pointers up to [ZERO_SIZE_PTR]. *)
Definition box_free {E} (p : Z) : M (Heap V) E unit := fun h =>
  if p <=? 16 then (Ok tt, h)
  else match cells h !! p with
       | Some _ => (Ok tt, mkHeap (delete p (cells h)) (destroyed h))
       | None => (Ub, h)
       end.

Definition box_new (size : Z) (val : V) : HM Z :=
  ptr <-! box_alloc size ;;
  _ <-! box_store ptr val ;;
  m_ret ptr.

Definition box_into_inner (b : Z) : HM V :=
  val <-! box_load b ;;
  _ <-! box_free b ;;
  m_ret val.

(** [Drop for Box]: the destructor of the value, then [kfree]. *)
Definition box_drop (b : Z) : HM unit :=
  val <-! box_load b ;;
  _ <-! (fun h => (Ok tt, mkHeap (cells h) (val :: destroyed h))) ;;
  box_free b.

(** [Box::pin_init]: the initialiser writes the value in place, or fails; it may work on
    other state [X], and its error type has [AllocError] in it. *)
Definition box_pin_init {X E} (from : AllocError -> E) (size : Z) (init : Z -> M (X * Heap V) E unit) :
    M (X * Heap V) E Z :=
  ptr <-! on_snd (m_map_err from (box_alloc size)) ;;
  _ <-! init ptr ;;
  m_ret ptr.
End Box.

(** ** Byte boxes and C strings *)
Record ByteBox : Type := mkByteBox { bb_ptr : Z; bb_len : Z }.
Record CString : Type := mkCString { cs_buf : ByteBox }.

Section CStrings.
Context `{KE : KernelErrno} {PL : Placement (list byte)}.

Abbreviation HM := (M (Heap (list byte)) Error).

Definition is_nul (b : byte) : bool := bool_decide (b = x00).

(** [AllocError] becomes [ENOMEM] by [?]. *)
Definition enomem {A} (m : M (Heap (list byte)) AllocError A) : HM A := m_map_err (fun _ => ENOMEM) m.

(** [Box::new_zeroed_bytes]; [Layout::from_size_align] with alignment one refuses
    sizes above [isize::MAX]. *)
Definition new_zeroed_bytes (len : Z) : M (Heap (list byte)) AllocError ByteBox :=
  if isize_max <? len then m_err AllocErr
  else
    ptr <-! box_alloc len ;;
    _ <-! box_store ptr (replicate (Z.to_nat len) x00) ;;
    m_ret (mkByteBox ptr len).

(** [b[off..off + d.len()].copy_from_slice(d)] through [DerefMut]. *)
Definition copy_into {E} (b : ByteBox) (off : Z) (d : list byte) : M (Heap (list byte)) E unit :=
  buf <-! box_load (bb_ptr b) ;;
  _ <-! m_lift (slice buf off (off + lenZ d)) ;;
  box_store (bb_ptr b) (overwrite buf off d).

(** [Box::new_slice]. *)
Definition new_slice (data : list byte) : M (Heap (list byte)) AllocError ByteBox :=
  b <-! new_zeroed_bytes (lenZ data) ;;
  _ <-! copy_into b 0 data ;;
  m_ret b.

Definition cstring_try_from_slice (data : list byte) : HM CString :=
  if existsb is_nul data then m_err EINVAL
  else
    len <-! m_lift (ok_or (u_checked_add 64 (lenZ data) 1) ENOMEM) ;;
    buf <-! enomem (new_zeroed_bytes len) ;;
    _ <-! copy_into buf 0 data ;;
    _ <-! copy_into buf (lenZ data) [x00] ;;
    m_ret (mkCString buf).

(** [s] with its terminator. *)
Definition cstring_try_from_cstr (s : list byte) : HM CString :=
  buf <-! enomem (new_slice (s ++ [x00])) ;;
  m_ret (mkCString buf).

Definition cstring_len (c : CString) : Z := wrap 64 (bb_len (cs_buf c) - 1).

(** [as_cstr]: the bytes of the buffer without the terminator. *)
Definition as_cstr {E} (c : CString) : M (Heap (list byte)) E (list byte) :=
  buf <-! box_load (bb_ptr (cs_buf c)) ;;
  m_ret (take (Z.to_nat (bb_len (cs_buf c) - 1)) buf).

Definition into_foreign (c : CString) : Z := bb_ptr (cs_buf c).

(** [CStr::from_ptr]: scan for the terminator; without one the scan leaves the
    allocation. *)
Definition cstr_from_ptr {E} (p : Z) : M (Heap (list byte)) E (list byte) :=
  buf <-! box_load p ;;
  m_lift (match position is_nul buf with Some n => Ok (take n buf) | None => Ub end).

Definition from_foreign {E} (p : Z) : M (Heap (list byte)) E CString :=
  s <-! cstr_from_ptr p ;;
  m_ret (mkCString (mkByteBox p (lenZ s + 1))).

(** Dropping a [CString] drops its box. *)
Definition cstring_drop (c : CString) : M (Heap (list byte)) AllocError unit := box_drop (bb_ptr (cs_buf c)).
End CStrings.

(** ** Proofs *)
Section BoxProofs.
Context {V : Type} {PL : Placement V} {PO : PlacementOk V PL}.

Lemma box_alloc_cases size h : 0 < size ->
  (exists p, box_alloc size h = (Ok p, mkHeap (<[p := None]> (cells h)) (destroyed h)) /\ 16 < p /\ cells h !! p = None) \/
  box_alloc size h = (Err AllocErr, h).
Proof.
  intros Hs. unfold box_alloc. destruct (size =? 0) eqn:E; [blia|].
  destruct (place h size) as [p|] eqn:Ep; [left|by right].
  exists p. split; [done|]. exact (place_fresh _ _ _ Ep).
Qed.

Lemma box_load_ok {E} (h : Heap V) p v : cells h !! p = Some (Some v) -> @box_load V E p h = (Ok v, h).
Proof. intros H. unfold box_load. by rewrite H. Qed.

Lemma box_free_ok {E} (h : Heap V) p v : 16 < p -> cells h !! p = Some v ->
  @box_free V E p h = (Ok tt, mkHeap (delete p (cells h)) (destroyed h)).
Proof. intros Hp H. unfold box_free. destruct (p <=? 16) eqn:E'; [blia|]. by rewrite H. Qed.

Lemma box_drop_ok (h : Heap V) p v : 16 < p -> cells h !! p = Some (Some v) ->
  box_drop p h = (Ok tt, mkHeap (delete p (cells h)) (v :: destroyed h)).
Proof. intros Hp H. unfold box_drop, m_bind. rewrite (box_load_ok _ _ _ H). by rewrite (box_free_ok _ _ (Some v)). Qed.

Lemma box_into_inner_ok (h : Heap V) p v : 16 < p -> cells h !! p = Some (Some v) ->
  box_into_inner p h = (Ok v, mkHeap (delete p (cells h)) (destroyed h)).
Proof. intros Hp H. unfold box_into_inner, m_bind. rewrite (box_load_ok _ _ _ H). by rewrite (box_free_ok _ _ (Some v)). Qed.

(** A box owns its cell: it is created without touching another cell, dropping it
    runs the value's destructor exactly once and releases exactly that cell, and
    [into_inner] gives the value back and runs no destructor; an allocation that
    fails changes nothing. *)
Theorem box_owns_cell size val h : 0 < size ->
  match box_new size val h with
  | (Ok b, h') => cells h !! b = None /\ h' = mkHeap (<[b := Some val]> (cells h)) (destroyed h) /\
      box_drop b h' = (Ok tt, mkHeap (cells h) (val :: destroyed h)) /\ box_into_inner b h' = (Ok val, h)
  | (Err _, h') => h' = h
  | _ => False
  end.
Proof.
  intros Hs. unfold box_new, m_bind at 1.
  destruct (box_alloc_cases size h Hs) as [(p & -> & Hp & Hn)| ->]; [|done].
  unfold m_bind, box_store, m_ret. cbn [cells destroyed]. rewrite insert_insert_eq.
  split; [done|]. split; [done|].
  rewrite (box_drop_ok _ _ val), (box_into_inner_ok _ _ val) by (done || apply lookup_insert_eq). cbn [cells destroyed].
  rewrite delete_insert_id by done. by destruct h.
Qed.

(** When the initialiser given to [pin_init] fails, the memory it was to fill stays
    allocated: nothing owns it any more. *)
Theorem pin_init_leaks {X E} (from : AllocError -> E) size init p (x x' : X) h h' e : 0 < size -> place h size = Some p ->
  init p (x, mkHeap (<[p := None]> (cells h)) (destroyed h)) = (Err e, (x', h')) ->
  is_Some (cells h' !! p) ->
  exists h1, box_pin_init from size init (x, h) = (Err e, (x', h1)) /\ cells h !! p = None /\ is_Some (cells h1 !! p).
Proof.
  intros Hs Hp Hi Hc. exists h'. unfold box_pin_init, on_snd, m_map_err, m_bind, box_alloc.
  destruct (size =? 0) eqn:E0; [blia|]. rewrite Hp. cbn [map_err]. rewrite Hi. split; [done|]. split; [|done].
  by destruct (place_fresh _ _ _ Hp).
Qed.
End BoxProofs.

Section CStringProofs.
Context `{KE : KernelErrno} {PL : Placement (list byte)} {PO : PlacementOk (list byte) PL}.

(** The documented invariant: the buffer ends with the only NUL byte. *)
Definition cstring_inv (h : Heap (list byte)) (c : CString) (s : list byte) : Prop :=
  cells h !! bb_ptr (cs_buf c) = Some (Some (s ++ [x00])) /\ bb_len (cs_buf c) = lenZ s + 1 /\ x00 ∉ s /\
  16 < bb_ptr (cs_buf c).

Lemma existsb_nul l : existsb is_nul l = true <-> x00 ∈ l.
Proof.
  rewrite existsb_exists, list_elem_of_In. unfold is_nul. split.
  - intros (b & Hb & Heq%bool_decide_eq_true). by subst.
  - intros H. exists x00. split; [done|]. by apply bool_decide_eq_true.
Qed.

Lemma position_nul s l : x00 ∉ s -> position is_nul (s ++ x00 :: l) = Some (length s).
Proof.
  intros H. induction s as [|b s IH]; [done|]. cbn [app position]. apply not_elem_of_cons in H as [Hb Hs].
  unfold is_nul at 1. rewrite bool_decide_eq_false_2 by congruence. by rewrite IH.
Qed.

Lemma cstr_from_ptr_inv {E} h c s : cstring_inv h c s -> @cstr_from_ptr E (into_foreign c) h = (Ok s, h).
Proof.
  intros (Hc & _ & Hn & _). unfold cstr_from_ptr, m_bind, into_foreign. rewrite (box_load_ok _ _ _ Hc).
  unfold m_lift. by rewrite position_nul, take_app_length by done.
Qed.

Lemma from_foreign_inv {E} h c s : cstring_inv h c s -> @from_foreign E (into_foreign c) h = (Ok c, h).
Proof.
  intros Hc. unfold from_foreign, m_bind. rewrite (cstr_from_ptr_inv _ _ _ Hc). destruct Hc as (_ & Hl & _).
  unfold m_ret, into_foreign. rewrite <- Hl. by destruct c as [[]].
Qed.

Lemma as_cstr_inv {E} h c s : cstring_inv h c s -> @as_cstr E c h = (Ok s, h).
Proof.
  intros (Hc & Hl & _). unfold as_cstr, m_bind. rewrite (box_load_ok _ _ _ Hc), Hl. unfold m_ret.
  by rewrite take_app_length' by (unfold lenZ; lia).
Qed.

Lemma cstring_drop_inv h c s : cstring_inv h c s ->
  cstring_drop c h = (Ok tt, mkHeap (delete (into_foreign c) (cells h)) ((s ++ [x00]) :: destroyed h)).
Proof. intros (Hc & _ & _ & Hp). by apply box_drop_ok. Qed.

Lemma new_zeroed_bytes_cases len h : 0 < len <= isize_max ->
  (exists p, new_zeroed_bytes len h =
     (Ok (mkByteBox p len), mkHeap (<[p := Some (replicate (Z.to_nat len) x00)]> (cells h)) (destroyed h)) /\
     16 < p /\ cells h !! p = None) \/
  new_zeroed_bytes len h = (Err AllocErr, h).
Proof.
  intros Hl. assert (isize_max <? len = false) as E by blia.
  destruct (box_alloc_cases len h ltac:(lia)) as [(p & Ha & Hp & Hn)|Ha];
    [left; exists p; split; [|done]|right]; unfold new_zeroed_bytes; rewrite E; unfold m_bind at 1; rewrite Ha; [|done].
  unfold m_bind, box_store, m_ret. cbn. by rewrite insert_insert_eq.
Qed.

Lemma copy_into_ok {E} b off d buf h : cells h !! bb_ptr b = Some (Some buf) -> 0 <= off -> off + lenZ d <= lenZ buf ->
  @copy_into E b off d h = (Ok tt, mkHeap (<[bb_ptr b := Some (overwrite buf off d)]> (cells h)) (destroyed h)).
Proof.
  intros H Ho Hl. pose proof (lenZ_nonneg d). unfold copy_into, m_bind. rewrite (box_load_ok _ _ _ H).
  unfold m_lift. by rewrite slice_ok by lia.
Qed.

Lemma try_from_slice_spec data h : lenZ data < isize_max ->
  match cstring_try_from_slice data h with
  | (Ok c, h1) => cells h !! into_foreign c = None /\ cstring_inv h1 c data /\
      cells h1 = <[into_foreign c := Some (data ++ [x00])]> (cells h)
  | (Err e, h1) => h1 = h /\ e = (if bool_decide (x00 ∈ data) then EINVAL else ENOMEM)
  | _ => False
  end.
Proof.
  intros Hl. unfold isize_max in *. pose proof (lenZ_nonneg data). unfold cstring_try_from_slice.
  pose proof (existsb_nul data) as Hx. destruct (existsb is_nul data) eqn:En.
  { split; [done|]. rewrite bool_decide_eq_true_2; [done|]. by apply Hx. }
  assert (x00 ∉ data) as Hn by (intros Hd; by apply Hx in Hd).
  unfold m_bind at 1, m_lift at 1, u_checked_add. destruct (lenZ data + 1 <? 2 ^ 64) eqn:E; [|blia]. cbn [ok_or].
  unfold m_bind at 1, enomem, m_map_err.
  destruct (new_zeroed_bytes_cases (lenZ data + 1) h ltac:(unfold isize_max; lia)) as [(p & -> & Hp16 & Hp)| ->].
  2: { split; [done|]. by rewrite bool_decide_eq_false_2. }
  cbn [map_err]. set (zs := replicate _ x00).
  assert (lenZ zs = lenZ data + 1) as Hz by (unfold zs, lenZ; rewrite length_replicate; lia).
  unfold m_bind at 1. rewrite (copy_into_ok (mkByteBox p (lenZ data + 1)) 0 data zs) by (cbn; rewrite ?lookup_insert_eq; done || lia).
  unfold m_bind at 1. cbn [bb_ptr cells destroyed].
  assert (lenZ (overwrite zs 0 data) = lenZ zs) as Hz' by (unfold lenZ at 1; rewrite overwrite_length; unfold lenZ in *; lia).
  rewrite (copy_into_ok (mkByteBox p (lenZ data + 1)) (lenZ data) [x00] (overwrite zs 0 data));
    [|cbn; apply lookup_insert_eq|lia|change (lenZ [x00]) with 1; lia].
  cbn [m_ret bb_ptr cells destroyed]. rewrite !insert_insert_eq.
  assert (overwrite (overwrite zs 0 data) (lenZ data) [x00] = data ++ [x00]) as Hov.
  { rewrite <- (Z.add_0_l (lenZ data)) at 1. rewrite overwrite_app by (change (lenZ [x00]) with 1; lia).
    unfold overwrite. change (Z.to_nat 0) with O. rewrite take_0, app_nil_l, drop_ge, app_nil_r; [done|].
    rewrite length_app. unfold lenZ in *. cbn. lia. }
  rewrite Hov. set (c := mkCString (mkByteBox p (lenZ data + 1))). set (h1 := mkHeap _ _).
  assert (cstring_inv h1 c data) as Hc by (split; [apply lookup_insert_eq|done]).
  done.
Qed.

(** [CString::try_from_slice] copies the bytes and terminates them, or fails with
    [EINVAL] exactly for bytes that contain a NUL, or with [ENOMEM], leaving the heap
    as it was.  The string then survives the trip through a C pointer: [from_foreign]
    finds the same length again, and dropping what it returns frees exactly the
    allocation. *)
Theorem cstring_foreign_roundtrip data h : lenZ data < isize_max ->
  match cstring_try_from_slice data h with
  | (Ok c, h1) => x00 ∉ data /\ cells h !! into_foreign c = None /\
      cells h1 = <[into_foreign c := Some (data ++ [x00])]> (cells h) /\
      @as_cstr Error c h1 = (Ok data, h1) /\ @from_foreign Error (into_foreign c) h1 = (Ok c, h1) /\
      cells (cstring_drop c h1).2 = cells h
  | (Err e, h1) => h1 = h /\ e = (if bool_decide (x00 ∈ data) then EINVAL else ENOMEM)
  | _ => False
  end.
Proof.
  intros Hl. pose proof (try_from_slice_spec data h Hl) as Hs.
  destruct (cstring_try_from_slice data h) as [[c|e| | |] h1]; try done.
  destruct Hs as (Hn & Hc & Hh). split; [by apply Hc|]. split; [done|]. split; [done|]. split; [by apply as_cstr_inv|].
  split; [by eapply from_foreign_inv|]. rewrite (cstring_drop_inv _ _ _ Hc). cbn. rewrite Hh. by apply delete_insert_id.
Qed.
End CStringProofs.

(** Memory is handed out upwards; nothing above 2^20 bytes. *)
Definition bump_place {V} (h : Heap V) (size : Z) : option Z :=
  if 2 ^ 20 <? size then None else Some (17 + foldr Z.max 0 (elements (dom (cells h)))).

Lemma foldr_max_lt l z : z ∈ l -> z < 1 + foldr Z.max 0 l.
Proof. induction 1 as [x l|x y l _ IH]; cbn; lia. Qed.

Lemma foldr_max_nonneg l : 0 <= foldr Z.max 0 l.
Proof. induction l as [|z l IH]; cbn; lia. Qed.

#[global] Instance bump_place_ok V : PlacementOk V (@bump_place V).
Proof.
  intros h size p. unfold place, bump_place. destruct (2 ^ 20 <? size); [done|]. intros [= <-].
  pose proof (foldr_max_nonneg (elements (dom (cells h)))). split; [lia|].
  apply not_elem_of_dom. intros Hd. apply elem_of_elements, foldr_max_lt in Hd. lia.
Qed.

Lemma cstring_foreign_roundtrip_witness :
  match @cstring_try_from_slice linux_errno bump_place [x68; x69] (mkHeap ∅ []) with
  | (Ok c, h1) => @from_foreign Error (into_foreign c) h1 = (Ok c, h1)
  | _ => False
  end.
Proof.
  pose proof (@cstring_foreign_roundtrip linux_errno bump_place _ [x68; x69] (mkHeap ∅ []) eq_refl) as H.
  destruct (cstring_try_from_slice [x68; x69] (mkHeap ∅ [])) as [[c|e| | |] h1] eqn:E; try done.
  exact (proj1 (proj2 (proj2 (proj2 (proj2 H))))).
Defined.
