(* ===== verification/UserIo.v ===== *)
(** * User memory and I/O vectors (rko-core/src/user.rs, iov.rs)

    [Writer] and [Reader] are cursors over a user buffer; [IoVecIter] wraps the
    kernel's scatter-gather iterator.  The copies themselves are kernel functions:
    [UserCopy] and [IovIter] are what the code calls of them, with the user's memory and
    the bytes that went through the iterator as ghost views, and the [...Ok] classes
    what they document. *)
From Stdlib Require Import ZArith Lia Bool.
From Stdlib.Strings Require Import Byte.
From stdpp Require Import base list option numbers.
From S2P Require Import Prelude Errors Folio.

Class UserCopy := {
  ust : Type;
  umem : ust -> Z -> byte;
  (** [copy_to_user(to, from, n)] and [copy_from_user(to, from, n)]: the number of
      bytes not copied, and what they leave. *)
  uc_to : Z -> list byte -> ust -> Z * ust;
  uc_from : Z -> Z -> ust -> Z * list byte
}.

Definition user_range `{UC : UserCopy} (s : ust) (p n : Z) : list byte := umem s <$> seqZ p n.

(** Only the destination changes, and when nothing is left over it holds the data; a
    failed [copy_from_user] pads what it did not read. *)
Class UserCopyOk (UC : UserCopy) : Prop := {
  uc_to_outside p d s r s' z : uc_to p d s = (r, s') -> ~ p <= z < p + lenZ d -> umem s' z = umem s z;
  uc_to_done p d s s' : uc_to p d s = (0, s') -> user_range s' p (lenZ d) = d;
  uc_from_length p n s r d : 0 <= n -> uc_from p n s = (r, d) -> lenZ d = n;
  uc_from_done p n s d : 0 <= n -> uc_from p n s = (0, d) -> d = user_range s p n
}.

Record Writer : Type := mkWriter { wr_ptr : Z; wr_len : Z }.
Record Reader : Type := mkReader { rd_ptr : Z; rd_left : Z }.

Section Cursors.
Context `{KE : KernelErrno, UC : UserCopy}.

Definition writer_write (data : list byte) : M (Writer * ust) Error unit := fun '(w, s) =>
  let n := lenZ data in
  if wr_len w <? n then (Err EFAULT, (w, s))
  else
    let '(pending, s') := uc_to (wr_ptr w) data s in
    if negb (pending =? 0) then (Err EFAULT, (w, s'))
    else (Ok tt, (mkWriter (wrap 64 (wr_ptr w + n)) (wr_len w - n), s')).

(** [read] into [buf], which is part of the state. *)
Definition reader_read : M (list byte * (Reader * ust)) Error Z := fun '(buf, (r, s)) =>
  let n := Z.min (lenZ buf) (rd_left r) in
  if n =? 0 then (Ok 0, (buf, (r, s)))
  else
    let '(pending, d) := uc_from (rd_ptr r) n s in
    let buf' := overwrite buf 0 d in
    if negb (pending =? 0) then (Err EFAULT, (buf', (r, s)))
    else (Ok n, (buf', (mkReader (wrap 64 (rd_ptr r + n)) (rd_left r - n), s))).

(** A caller that writes several pieces and stops at the first error. *)
Fixpoint write_pieces (ds : list (list byte)) : M (Writer * ust) Error unit :=
  match ds with
  | [] => m_ret tt
  | d :: r => _ <-! writer_write d ;; write_pieces r
  end.

(** A caller that reads with buffers of the given sizes and stops at the first error;
    it keeps what each read put at the front of its buffer. *)
Fixpoint read_pieces (ns : list Z) : M (Reader * ust) Error (list byte) :=
  match ns with
  | [] => m_ret []
  | n :: r =>
      d <-! (fun '(rd, s) =>
               let '(res, (buf, w)) := reader_read (replicate (Z.to_nat n) x00, (rd, s)) in
               (k <-? res ;; Ok (take (Z.to_nat k) buf), w)) ;;
      rest <-! read_pieces r ;;
      m_ret (d ++ rest)
  end.
End Cursors.

(** ** Proofs about the cursors *)
Section CursorProofs.
Context `{KE : KernelErrno, UC : UserCopy} {UO : UserCopyOk UC}.

Lemma user_range_app s p n m : 0 <= n -> 0 <= m -> user_range s p (n + m) = user_range s p n ++ user_range s (p + n) m.
Proof. intros. unfold user_range. rewrite seqZ_app by lia. by rewrite fmap_app. Qed.

Lemma user_range_length s p n : 0 <= n -> lenZ (user_range s p n) = n.
Proof. intros. unfold user_range, lenZ. rewrite length_fmap, length_seqZ. lia. Qed.

Lemma user_range_ext s s' p n : (forall z, p <= z < p + n -> umem s' z = umem s z) ->
  user_range s' p n = user_range s p n.
Proof.
  intros H. unfold user_range. apply list_fmap_ext. intros i z Hz. apply H.
  apply list_elem_of_lookup_2, elem_of_seqZ in Hz. lia.
Qed.

Lemma writer_eta w : mkWriter (wr_ptr w + 0) (wr_len w - 0) = w.
Proof. rewrite Z.add_0_r, Z.sub_0_r. by destruct w. Qed.
Lemma reader_eta r : mkReader (rd_ptr r + 0) (rd_left r - 0) = r.
Proof. rewrite Z.add_0_r, Z.sub_0_r. by destruct r. Qed.

(** What one [write] does, when the buffer does not wrap around. *)
Lemma writer_write_spec d w s : 0 <= wr_ptr w -> wr_ptr w + wr_len w < 2 ^ 64 ->
  exists r w' s', writer_write d (w, s) = (r, (w', s')) /\
    (forall z, ~ wr_ptr w <= z < wr_ptr w + wr_len w -> umem s' z = umem s z) /\
    (forall z, z < wr_ptr w -> umem s' z = umem s z) /\
    match r with
    | Ok _ => lenZ d <= wr_len w /\ w' = mkWriter (wr_ptr w + lenZ d) (wr_len w - lenZ d) /\
        user_range s' (wr_ptr w) (lenZ d) = d
    | Err e => e = EFAULT /\ w' = w
    | _ => False
    end.
Proof.
  intros Hp Hl. pose proof (lenZ_nonneg d). unfold writer_write.
  destruct (wr_len w <? lenZ d) eqn:E; [do 3 eexists; done|].
  destruct (uc_to (wr_ptr w) d s) as [pending s'] eqn:Ec.
  assert (forall z, ~ wr_ptr w <= z < wr_ptr w + lenZ d -> umem s' z = umem s z) as Hout
    by (intros z; by apply (uc_to_outside _ _ _ _ _ _ Ec)).
  destruct (pending =? 0) eqn:E0; cbn [negb].
  - apply Z.eqb_eq in E0 as ->. do 3 eexists. split; [reflexivity|]. split; [|split]; [intros z Hz; apply Hout; blia..|].
    split; [blia|]. split; [by rewrite wrap_small by blia|]. by eapply uc_to_done.
  - do 3 eexists. split; [reflexivity|]. split; [|split]; [intros z Hz; apply Hout; blia..|]. done.
Qed.

(** C20. A [Writer] fills the user's buffer without gaps and never leaves it: after any
    sequence of writes, up to the first that fails, the buffer begins with their
    concatenation, the cursor is behind it, and no byte outside the buffer has changed.
    A write fails with [EFAULT] only, and then the cursor has not moved. *)
Theorem writer_fills ds w s : 0 <= wr_ptr w -> 0 <= wr_len w -> wr_ptr w + wr_len w < 2 ^ 64 ->
  exists r w' s' k, write_pieces ds (w, s) = (r, (w', s')) /\
    let d := concat (take k ds) in
    lenZ d <= wr_len w /\ w' = mkWriter (wr_ptr w + lenZ d) (wr_len w - lenZ d) /\
    user_range s' (wr_ptr w) (lenZ d) = d /\
    (forall z, ~ wr_ptr w <= z < wr_ptr w + wr_len w -> umem s' z = umem s z) /\
    match r with
    | Ok _ => k = length ds
    | Err e => e = EFAULT /\ (k < length ds)%nat
    | _ => False
    end.
Proof.
  revert w s. induction ds as [|d ds IH]; intros w s Hp Hl Hw.
  { exists (Ok tt), w, s, 0%nat. split; [done|]. cbn zeta. cbn [take concat]. rewrite lenZ_nil, writer_eta. done. }
  cbn [write_pieces]. unfold m_bind.
  destruct (writer_write_spec d w s Hp Hw) as (r & w1 & s1 & -> & Hout & _ & Hr).
  destruct r as [[]|e| | |]; try done.
  2: { destruct Hr as [-> ->]. exists (Err EFAULT), w, s1, 0%nat. split; [done|]. cbn zeta. cbn [take concat].
       rewrite lenZ_nil, writer_eta. split_and!; try done. cbn. lia. }
  destruct Hr as (Hd & -> & Hrange). pose proof (lenZ_nonneg d).
  destruct (IH (mkWriter (wr_ptr w + lenZ d) (wr_len w - lenZ d)) s1) as (r & w' & s' & k & -> & H1 & H2 & H3 & H4 & H5);
    cbn [wr_ptr wr_len] in *; [lia..|].
  exists r, w', s', (S k). split; [done|]. cbn zeta. cbn [take concat]. rewrite lenZ_app.
  pose proof (lenZ_nonneg (concat (take k ds))). split_and!.
  - lia.
  - rewrite H2. f_equal; lia.
  - rewrite user_range_app by lia. rewrite H3. f_equal. rewrite <- Hrange at 2. apply user_range_ext.
    intros z Hz. apply H4. lia.
  - intros z Hz. rewrite H4 by lia. by apply Hout.
  - destruct r as [|e| | |]; cbn; [lia| |done..]. split; [tauto|lia].
Qed.

(** A [Reader] delivers the user's buffer in order: the pieces of any sequence of reads
    are consecutive, together at most the buffer, and a read fails with [EFAULT]
    only. *)
Theorem reader_delivers ns r s : Forall (Z.le 0) ns -> 0 <= rd_ptr r -> 0 <= rd_left r -> rd_ptr r + rd_left r < 2 ^ 64 ->
  match read_pieces ns (r, s) with
  | (Ok d, (r', s')) => s' = s /\ lenZ d <= rd_left r /\ d = user_range s (rd_ptr r) (lenZ d) /\
      r' = mkReader (rd_ptr r + lenZ d) (rd_left r - lenZ d)
  | (Err e, (_, s')) => e = EFAULT /\ s' = s
  | _ => False
  end.
Proof.
  intros Hns. revert r. induction Hns as [|n ns Hn Hns IH]; intros r Hp Hl Hw.
  { cbn [read_pieces m_ret]. rewrite lenZ_nil, reader_eta. done. }
  cbn [read_pieces]. unfold m_bind at 1, reader_read.
  assert (lenZ (replicate (Z.to_nat n) x00) = n) as Hrep by (unfold lenZ; rewrite length_replicate; lia).
  rewrite Hrep. set (k := Z.min n (rd_left r)).
  assert (0 <= k <= rd_left r) as Hk by (unfold k; lia).
  assert (exists o, (let '(res, (buf, w)) := if k =? 0 then (Ok 0, (replicate (Z.to_nat n) x00, (r, s))) else _ in
    (k <-? res ;; Ok (take (Z.to_nat k) buf), w)) = o /\ match o with
    | (Ok d, (r', s')) => s' = s /\ lenZ d = k /\ d = user_range s (rd_ptr r) k /\ r' = mkReader (rd_ptr r + k) (rd_left r - k)
    | (Err e, (_, s')) => e = EFAULT /\ s' = s
    | _ => False end) as (o & -> & Ho).
  { eexists. split; [reflexivity|]. destruct (k =? 0) eqn:E0.
    - apply Z.eqb_eq in E0. rewrite E0, reader_eta. done.
    - destruct (uc_from (rd_ptr r) k s) as [pending d] eqn:Ec.
      pose proof (uc_from_length _ _ _ _ _ (proj1 Hk) Ec) as Hd.
      destruct (pending =? 0) eqn:Ep; cbn [negb]; [|done]. apply Z.eqb_eq in Ep as ->.
      pose proof (uc_from_done _ _ _ _ (proj1 Hk) Ec) as Hdd. cbn.
      unfold overwrite. change (Z.to_nat 0) with O. rewrite take_0, app_nil_l, take_app_length' by (unfold lenZ in Hd; lia).
      split_and!; try done. by rewrite wrap_small by lia. }
  destruct o as [[d|e| | |] [r1 s1]]; try done. destruct Ho as (-> & Hd & Hdd & ->). unfold m_bind.
  specialize (IH (mkReader (rd_ptr r + k) (rd_left r - k))). cbn [rd_ptr rd_left] in IH.
  specialize (IH ltac:(lia) ltac:(lia) ltac:(lia)).
  destruct (read_pieces ns _) as [[rest|e| | |] [r2 s2]]; try done.
  destruct IH as (-> & H1 & H2 & ->). cbn. rewrite lenZ_app, Hd. pose proof (lenZ_nonneg rest).
  split; [done|]. split; [unfold k in *; lia|]. split; [|f_equal; lia].
  rewrite user_range_app by lia. by rewrite <- Hdd, <- H2.
Qed.
End CursorProofs.

(** ** I/O vectors *)
Class IovIter := {
  ist : Type;
  (** [count], the bytes delivered to the destination, and the bytes the source still
      holds. *)
  it_count : ist -> Z;
  it_out : ist -> list byte;
  it_src : ist -> list byte;
  (** [_copy_to_iter] and [_copy_from_iter]: how many bytes went through. *)
  copy_to_iter : list byte -> ist -> Z * ist;
  copy_from_iter : Z -> ist -> list byte * ist
}.

Class IovIterOk (II : IovIter) : Prop := {
  it_count_range s : 0 <= it_count s < 2 ^ 63;
  copy_to_iter_spec d s c s' : lenZ d <= it_count s -> copy_to_iter d s = (c, s') ->
    0 <= c <= lenZ d /\ it_out s' = it_out s ++ take (Z.to_nat c) d /\ it_count s' = it_count s - c;
  copy_from_iter_spec n s d s' : 0 <= n <= it_count s -> copy_from_iter n s = (d, s') ->
    lenZ d <= n /\ it_src s = d ++ it_src s' /\ it_count s' = it_count s - lenZ d
}.

Section Iov.
Context `{KE : KernelErrno, II : IovIter}.

Definition iov_write (data : list byte) : M ist Error Z := fun s =>
  let n := Z.min (lenZ data) (it_count s) in
  if n =? 0 then (Ok 0, s)
  else
    let '(copied, s') := copy_to_iter (take (Z.to_nat n) data) s in
    if (copied =? 0) && (0 <? n) then (Err EFAULT, s') else (Ok copied, s').

Definition iov_write_all (data : list byte) : M ist Error unit :=
  written <-! iov_write data ;;
  if negb (written =? lenZ data) then m_err EFAULT else m_ret tt.

(** The bytes at the front of [buf] that were read. *)
Definition iov_read (buf : list byte) : M ist Error (list byte) := fun s =>
  let n := Z.min (lenZ buf) (it_count s) in
  if n =? 0 then (Ok [], s)
  else
    let '(d, s') := copy_from_iter n s in
    if (lenZ d =? 0) && (0 <? n) then (Err EFAULT, s') else (Ok d, s').
End Iov.

Section IovProofs.
Context `{KE : KernelErrno, II : IovIter} {IO : IovIterOk II}.

(** [write] delivers a prefix of the data, as long as it says; [write_all] succeeds only
    when all of it was delivered, and its error is [EFAULT]. *)
Lemma iov_write_spec data s :
  exists r s' k, iov_write data s = (r, s') /\ it_out s' = it_out s ++ take (Z.to_nat k) data /\
    it_count s' = it_count s - k /\ 0 <= k <= Z.min (lenZ data) (it_count s) /\
    match r with
    | Ok n => n = k /\ (n = 0 -> data = [] \/ it_count s = 0)
    | Err e => e = EFAULT /\ k = 0
    | _ => False
    end.
Proof.
  pose proof (it_count_range s). pose proof (lenZ_nonneg data). unfold iov_write.
  set (n := Z.min (lenZ data) (it_count s)).
  assert (0 <= n <= lenZ data /\ n <= it_count s) as Hn0 by (unfold n; lia). destruct (n =? 0) eqn:E0.
  { exists (Ok 0), s, 0. cbn. rewrite app_nil_r. split_and!; try done; try (unfold n; lia).
    intros _. unfold n in E0. apply Z.eqb_eq in E0. destruct (decide (it_count s = 0)); [by right|left].
    apply lenZ_0. lia. }
  apply Z.eqb_neq in E0.
  assert (lenZ (take (Z.to_nat n) data) = n) as Hn 
    by (unfold lenZ at 1; rewrite length_take; unfold lenZ in Hn0; lia).
  destruct (copy_to_iter (take (Z.to_nat n) data) s) as [c s'] eqn:Ec.
  destruct (copy_to_iter_spec (take (Z.to_nat n) data) s c s') as (Hc & Ho & Hk); [lia|done|]. rewrite Hn in Hc.
  assert (it_out s' = it_out s ++ take (Z.to_nat c) data) as Ho'.
  { rewrite Ho, take_take. do 2 f_equal. lia. }
  destruct (0 <? n) eqn:En; [|unfold n in *; blia]. rewrite andb_true_r.
  destruct (c =? 0) eqn:E.
  - apply Z.eqb_eq in E. exists (Err EFAULT), s', c. split_and!; try done; unfold n in *; lia.
  - apply Z.eqb_neq in E. exists (Ok c), s', c. split_and!; try done; unfold n in *; lia.
Qed.

Lemma iov_write_all_spec data s :
  exists r s' k, iov_write_all data s = (r, s') /\ it_out s' = it_out s ++ take k data /\
    match r with Ok _ => take k data = data | Err e => e = EFAULT | _ => False end.
Proof.
  unfold iov_write_all, m_bind. destruct (iov_write_spec data s) as (r & s' & k & -> & Ho & _ & Hk & Hr).
  destruct r as [n|e| | |]; try done; [|destruct Hr as [-> _]; by exists (Err EFAULT), s', (Z.to_nat k)].
  destruct Hr as [-> _]. destruct (k =? lenZ data) eqn:E; cbn [negb].
  - apply Z.eqb_eq in E. exists (Ok tt), s', (Z.to_nat k). split; [done|]. split; [done|].
    apply take_ge. unfold lenZ in E. lia.
  - by exists (Err EFAULT), s', (Z.to_nat k).
Qed.
End IovProofs.

(** ** User memory that faults from an address on *)
Definition flat_user (limit : Z) : UserCopy := {|
  ust := Z -> byte;
  umem s := s;
  uc_to p d s := if p + lenZ d <=? limit
    then (0, fun z => if (p <=? z) && (z <? p + lenZ d) then nth (Z.to_nat (z - p)) d x00 else s z)
    else (lenZ d, s);
  uc_from p n s := if p + n <=? limit then (0, s <$> seqZ p n) else (n, replicate (Z.to_nat n) x00) |}.

Lemma flat_user_ok limit : UserCopyOk (flat_user limit).
Proof.
  constructor; cbn.
  - intros p d s r s' z. destruct (_ <=? _); intros [= <- <-]; [|done].
    intros Hz. destruct ((p <=? z) && (z <? p + lenZ d)) eqn:E; [|done]. zify_bools. lia.
  - intros p d s s'. destruct (p + lenZ d <=? limit) eqn:E; [intros [= <-]|intros [= He <-]; by apply lenZ_0 in He as ->].
    unfold user_range. cbn. apply list_eq_same_length with (n := length d);
      [done|rewrite length_fmap, length_seqZ; unfold lenZ; lia|].
    intros i x y Hi Hx Hy. rewrite list_lookup_fmap, lookup_seqZ_lt in Hx by (unfold lenZ; lia). cbn in Hx.
    injection Hx as <-. destruct (p <=? p + Z.of_nat i) eqn:E1; [|blia].
    destruct (p + Z.of_nat i <? p + lenZ d) eqn:E2; [|unfold lenZ in *; blia]. cbn [andb].
    replace (Z.to_nat (p + Z.of_nat i - p)) with i by lia. by apply nth_lookup_Some.
  - intros p n s r d Hn. destruct (_ <=? _); intros [= <- <-]; unfold lenZ; rewrite ?length_fmap, ?length_seqZ, ?length_replicate; lia.
  - intros p n s d Hn. destruct (_ <=? _); [by intros [= <-]|]. intros [= Hz <-]. subst n. done.
Qed.

Lemma writer_fills_witness :
  exists r w' s' k, @write_pieces linux_errno (flat_user 1000) [[x01; x02]; [x03]] (mkWriter 100 8, fun _ => x00) = (r, (w', s')) /\
    @user_range (flat_user 1000) s' 100 (lenZ (concat (take k [[x01; x02]; [x03]]))) = concat (take k [[x01; x02]; [x03]]).
Proof.
  destruct (@writer_fills linux_errno (flat_user 1000) (flat_user_ok 1000) [[x01; x02]; [x03]] (mkWriter 100 8) (fun _ => x00))
    as (r & w' & s' & k & H1 & _ & _ & H2 & _); [cbn; lia..|].
  exists r, w', s', k. exact (conj H1 H2).
Defined.

(** An iterator with room for a page. *)
Definition page_iter : IovIter := {|
  ist := list byte;
  it_count s := Z.max 0 (4096 - lenZ s);
  it_out s := s;
  it_src _ := [];
  copy_to_iter d s := (lenZ d, s ++ d);
  copy_from_iter _ s := ([], s) |}.

Lemma page_iter_ok : IovIterOk page_iter.
Proof.
  constructor; cbn.
  - intros s. pose proof (lenZ_nonneg s). lia.
  - intros d s c s' Hd [= <- <-]. pose proof (lenZ_nonneg d). rewrite lenZ_app. split; [lia|].
    split; [|lia]. by rewrite take_ge by (unfold lenZ; lia).
  - intros n s d s' Hn [= <- <-]. rewrite lenZ_nil. split_and!; try done; lia.
Qed.
