(* ===== verification/Callbacks.v ===== *)
(** * The C callbacks of a filesystem (rko-core/src/fs/vtable.rs)

    The trampolines the kernel calls beside those of [Vfs]: reading a page into the
    page cache, extended attributes, [statfs], symlink targets, seeking and reading, and
    which of them [Tables::new] installs.  [FsOps] has the optional methods of the traits
    [FileSystem], [inode::Operations] and [file::Operations] with their [HAS_...]
    constants.  Kernel functions are [PageCacheOps] and the parameters of the section. *)
From Stdlib Require Import ZArith Lia Bool.
From Stdlib.Strings Require Import Byte.
From stdpp Require Import base list option numbers gmap.
From S2P Require Import Prelude Errors KVec LeBytes Mapper Folio Vfs Keeps Boxes UserIo.

(** A folio of the page cache with its two flags. *)
Record PcFolio : Type := mkPc { pc_folio : Folio; pc_locked : bool; pc_uptodate : bool }.

(** [folio_end_read] marks the folio up to date on success and unlocks it. *)
Class PageCacheOps := folio_end_read : bool -> PcFolio -> PcFolio.
Class PageCacheOk (PC : PageCacheOps) : Prop :=
  folio_end_read_spec ok f :
    folio_end_read ok f = mkPc (pc_folio f) false (pc_uptodate f || ok).

Inductive GetLinkResult := LinkOwned (s : CString) | LinkBorrowed (p : Z).

(** The kernel's [struct kstatfs], [struct delayed_call] and [struct kiocb]. *)
Record Kstatfs : Type := mkKstatfs { f_type : Z; f_bsize : Z; f_blocks : Z; f_files : Z; f_namelen : Z }.
Inductive delayed_call := NoCall | DropCString (p : Z).
Record Kiocb : Type := mkKiocb { ki_filp : Z; ki_pos : Z }.

Class FsOps `{BC : BlockCache, VA : VecAlloc} (D S : Type) `{VK : VfsKernel D} `{UC : UserCopy, II : IovIter} := {
  op_read_folio : Z -> Folio -> FM (D := D) (S := S) Folio;
  has_statfs : bool;
  op_statfs : Z -> FM (D := D) (S := S) Stat;
  has_read_xattr : bool;
  op_read_xattr : Z -> Z -> list byte -> list byte -> FM (D := D) (S := S) (Z * list byte);
  has_get_link : bool;
  op_get_link : option Z -> Z -> M (World (VW D S) * Heap (list byte)) Error GetLinkResult;
  has_seek : bool;
  op_seek : Z -> Z -> Whence -> FM (D := D) (S := S) Z;
  has_read : bool;
  op_read : Z -> M (World (VW D S) * (Z * (Writer * ust))) Error Z;
  has_read_iter : bool;
  op_read_iter : Z -> Z -> M (World (VW D S) * ist) Error Z
}.

(** The functions of the operation tables. *)
Inductive llseek_fn := GenericLlseek | SeekTrampoline.
Inductive read_fn := FileReadTrampoline.
Inductive read_iter_fn := GenericReadIter | CustomReadIter.
Inductive statfs_fn := SimpleStatfs | StatfsTrampoline.

Record RegTables : Type := mkRegTables {
  t_statfs : statfs_fn;
  t_llseek : llseek_fn;
  t_read : option read_fn;
  t_read_iter : option read_iter_fn;
  t_get_link : bool;
  t_xattr_get : bool }.

Section Trampolines.
Context `{KE : KernelErrno, KP : KernelErrPtr, BC : BlockCache, VA : VecAlloc, UC : UserCopy, II : IovIter}.
Context {D S : Type} `{VK : VfsKernel D} {FO : FsOps D S} {PC : PageCacheOps}.
(** [file_inode], and the kernel's own seek. *)
Context (file_inode : Z -> Z) (generic_file_llseek : Z -> Z -> Z -> FM (D := D) (S := S) Z).

Abbreviation FM := (FM (D := D) (S := S)).

(** The function pointers that depend on what the filesystem implements. *)
Definition Tables_new : RegTables := {|
  t_statfs := if has_statfs then StatfsTrampoline else SimpleStatfs;
  t_llseek := if has_seek then SeekTrampoline else GenericLlseek;
  t_read := if has_read_iter then None else if has_read then Some FileReadTrampoline else None;
  t_read_iter := if has_read_iter then Some CustomReadIter else if has_read then None else Some GenericReadIter;
  t_get_link := has_get_link;
  t_xattr_get := has_read_xattr |}.

(** The folio after the call; what a folio holds whose read failed is not defined. *)
Definition read_folio_trampoline (file host : Z) (folio : PcFolio) : FM (Z * PcFolio) :=
  let inode := if negb (file =? 0) then file_inode file else host in
  fun w =>
    match op_read_folio inode (pc_folio folio) w with
    | (Ok f, w') => (Ok (0, folio_end_read true (mkPc f (pc_locked folio) (pc_uptodate folio))), w')
    | (Err e, w') =>
        let ret := to_errno e in
        (Ok (ret, folio_end_read (ret =? 0) folio), w')
    | (Panic, w') => (Panic, w')
    | (Ub, w') => (Ub, w')
    | (Pending, w') => (Pending, w')
    end.

(** The value and the buffer after the call. *)
Definition xattr_get_trampoline (dentry inode : Z) (name : list byte) (buffer : Z) (mem : list byte) :
    FM (Z * list byte) :=
  let size := lenZ mem in
  let call := fun buf w =>
    match op_read_xattr dentry inode name buf w with
    | (Ok (n, buf'), w') => (Ok (sext 32 n, buf'), w')
    | (Err e, w') => (Ok (to_errno e, buf), w')
    | (Panic, w') => (Panic, w')
    | (Ub, w') => (Ub, w')
    | (Pending, w') => (Pending, w')
    end in
  if (buffer =? 0) || (size =? 0) then r <-! call [] ;; m_ret (r.1, mem) else call mem.

Definition statfs_trampoline (dentry : Z) (buf : Kstatfs) : FM (Z * Kstatfs) := fun w =>
  match op_statfs dentry w with
  | (Ok s, w') =>
      (Ok (0, mkKstatfs (sext 64 (st_magic s)) (st_bsize s) (st_blocks s) (st_files s) (st_namelen s)), w')
  | (Err e, w') => (Ok (to_errno e, buf), w')
  | (Panic, w') => (Panic, w')
  | (Ub, w') => (Ub, w')
  | (Pending, w') => (Pending, w')
  end.

(** The pointer returned to the VFS and the call it makes when it is done. *)
Definition get_link_trampoline (dentry inode : Z) (dc : delayed_call) :
    M (World (VW D S) * Heap (list byte)) Error (Z * delayed_call) := fun w =>
  let d := if dentry =? 0 then None else Some dentry in
  match op_get_link d inode w with
  | (Err e, w') => (Ok (to_err_ptr (inr e), dc), w')
  | (Ok (LinkBorrowed p), w') => (Ok (p, dc), w')
  | (Ok (LinkOwned s), w') => (Ok (into_foreign s, DropCString (into_foreign s)), w')
  | (Panic, w') => (Panic, w')
  | (Ub, w') => (Ub, w')
  | (Pending, w') => (Pending, w')
  end.

(** [drop_cstring], run by the kernel through the delayed call. *)
Definition do_delayed_call (dc : delayed_call) : M (Heap (list byte)) AllocError unit :=
  match dc with
  | NoCall => m_ret tt
  | DropCString p => c <-! from_foreign p ;; cstring_drop c
  end.

Definition seek_trampoline (file offset whence : Z) : FM Z :=
  match whence_from_raw whence with
  | None => m_ret (to_errno EINVAL)
  | Some wh => fun w =>
      match op_seek file offset wh w with
      | (Ok pos, w') => (Ok pos, w')
      | (Err e, w') =>
          let errno := to_errno e in
          if errno =? to_errno EINVAL then generic_file_llseek file offset whence w' else (Ok errno, w')
      | (Panic, w') => (Panic, w')
      | (Ub, w') => (Ub, w')
      | (Pending, w') => (Pending, w')
      end
  end.

(** The file position [*offset] and the writer are part of the state. *)
Definition file_read_trampoline (file buf len : Z) : M (World (VW D S) * (Z * ust)) Error Z :=
  fun '(w, (off, u)) =>
    let '(r, (w', (off', (_, u')))) := op_read file (w, (off, (mkWriter buf len, u))) in
    (match r with
     | Ok n => Ok (sext 64 n)
     | Err e => Ok (to_errno e)
     | Panic => Panic | Ub => Ub | Pending => Pending
     end, (w', (off', u'))).

Definition custom_read_iter_trampoline : M (World (VW D S) * (Kiocb * ist)) Error Z :=
  fun '(w, (iocb, it)) =>
    let '(r, (w', it')) := op_read_iter (ki_filp iocb) (ki_pos iocb) (w, it) in
    match r with
    | Ok n => (Ok (sext 64 n), (w', (mkKiocb (ki_filp iocb) (sext 64 (ki_pos iocb + sext 64 n)), it')))
    | Err e => (Ok (to_errno e), (w', (iocb, it')))
    | Panic => (Panic, (w', (iocb, it'))) | Ub => (Ub, (w', (iocb, it'))) | Pending => (Pending, (w', (iocb, it')))
    end.
End Trampolines.

(** ** Properties *)
Section Proofs.
Context `{KE : KernelErrno, KP : KernelErrPtr, BC : BlockCache, VA : VecAlloc, UC : UserCopy, II : IovIter}.
Context {D S : Type} `{VK : VfsKernel D} {FO : FsOps D S} {PC : PageCacheOps} {PO : PageCacheOk PC}.
Context (file_inode : Z -> Z) (generic_file_llseek : Z -> Z -> Z -> FM (D := D) (S := S) Z).

(** The two ways to read a regular file exclude each other, and one is always there. *)
Lemma tables_one_reader :
  let t := Tables_new (FO := FO) in
  match t_read t, t_read_iter t with
  | Some _, None => has_read = true /\ has_read_iter = false
  | None, Some CustomReadIter => has_read_iter = true
  | None, Some GenericReadIter => has_read = false /\ has_read_iter = false
  | _, _ => False
  end.
Proof. unfold Tables_new. cbn. by destruct has_read_iter, has_read. Qed.

(** Whatever [read_folio] answers, the folio comes back unlocked; it is up to date
    exactly when the call returned zero or it was before, and then it holds what the
    filesystem put there. *)
Theorem read_folio_unlocks file host folio w r folio' w' :
  read_folio_trampoline file_inode file host folio w = (Ok (r, folio'), w') ->
  pc_locked folio' = false /\ pc_uptodate folio' = pc_uptodate folio || (r =? 0) /\
  match (op_read_folio (if file =? 0 then host else file_inode file) (pc_folio folio) w).1 with
  | Ok f => r = 0 /\ pc_folio folio' = f
  | Err e => r = to_errno e
  | _ => False
  end.
Proof.
  unfold read_folio_trampoline.
  assert ((if negb (file =? 0) then file_inode file else host) = (if file =? 0 then host else file_inode file)) as ->
    by by destruct (file =? 0).
  destruct (op_read_folio _ _ w) as [[f|e| | |] wf]; try done; intros [= <- <- <-];
    rewrite folio_end_read_spec; cbn; [|done]. by rewrite orb_true_r.
Qed.

(** A seek the filesystem declines with [EINVAL] is the kernel's own; any other answer
    is returned, an unknown [whence] is [EINVAL]. *)
Lemma seek_falls_back file offset whence w :
  seek_trampoline generic_file_llseek file offset whence w =
    match whence_from_raw whence with
    | None => (Ok (to_errno EINVAL), w)
    | Some wh =>
        match op_seek file offset wh w with
        | (Ok pos, w') => (Ok pos, w')
        | (Err e, w') => if decide (e = EINVAL) then generic_file_llseek file offset whence w' else (Ok (to_errno e), w')
        | (Panic, w') => (Panic, w') | (Ub, w') => (Ub, w') | (Pending, w') => (Pending, w')
        end
    end.
Proof.
  unfold seek_trampoline. destruct (whence_from_raw whence) as [wh|]; [|done].
  destruct (op_seek file offset wh w) as [[p|e| | |] w']; try done.
  case_decide as He; [subst; by rewrite Z.eqb_refl|].
  destruct (to_errno e =? to_errno EINVAL) eqn:E; [|done]. apply Z.eqb_eq in E.
  exfalso. apply He. unfold to_errno in E. destruct e as [z], EINVAL as [z']. cbn in E. congruence.
Qed.

(** A symlink target handed over as a [CString] is readable at the pointer the VFS
    gets, and the delayed call the VFS makes afterwards frees exactly that string. *)
Theorem get_link_owned_freed dentry inode dc w h w' h' p c s :
  op_get_link (if dentry =? 0 then None else Some dentry) inode (w, h) = (Ok (LinkOwned c), (w', h')) ->
  cstring_inv h' c s -> p = into_foreign c ->
  get_link_trampoline dentry inode dc (w, h) = (Ok (p, DropCString p), (w', h')) /\
  @cstr_from_ptr Error p h' = (Ok s, h') /\
  do_delayed_call (DropCString p) h' = (Ok tt, mkHeap (delete p (cells h')) ((s ++ [x00]) :: destroyed h')).
Proof.
  intros Hop Hc ->. unfold get_link_trampoline. rewrite Hop. split; [done|]. split.
  - by eapply cstr_from_ptr_inv.
  - cbn [do_delayed_call]. unfold m_bind. rewrite (from_foreign_inv _ _ _ Hc).
    by rewrite (cstring_drop_inv _ _ _ Hc).
Qed.
End Proofs.
