(* ===== verification/Ext2.v ===== *)
(** * The read-only ext2 filesystem (samples/ext2)

    The on-disk structures of [defs.rs] and the filesystem of [ext2.rs], one
    definition per function: mounting ([fill_super], [check_descriptors]), inode
    loading ([iget]), block mapping ([offsets], [offset_to_block], [begin]) and
    directories ([lookup], [read_dir]).  Block-device reads go through [Mapper],
    inodes and dentries through [Vfs].  Arithmetic is at the source's widths. *)
From Stdlib Require Import ZArith Lia Bool.
From Stdlib.Strings Require Import Byte String.
From stdpp Require Import base list option numbers gmap strings.
From S2P Require Import Prelude Errors KVec LeBytes Mapper Vfs.

(** ** defs.rs *)
Definition EXT2_SUPER_MAGIC : Z := 0xEF53.
Definition EXT2_MAX_BLOCK_LOG_SIZE : Z := 16.
Definition EXT2_GOOD_OLD_REV : Z := 0.
Definition EXT2_DYNAMIC_REV : Z := 1.
Definition EXT2_GOOD_OLD_INODE_SIZE : Z := 128.
Definition EXT2_ROOT_INO : Z := 2.
Definition EXT2_GOOD_OLD_FIRST_INO : Z := 11.
Definition EXT2_FEATURE_INCOMPAT_FILETYPE : Z := 2.
Definition EXT2_NDIR_BLOCKS : Z := 12.
Definition EXT2_IND_BLOCK : Z := EXT2_NDIR_BLOCKS.
Definition EXT2_DIND_BLOCK : Z := EXT2_IND_BLOCK + 1.
Definition EXT2_TIND_BLOCK : Z := EXT2_DIND_BLOCK + 1.
Definition EXT2_N_BLOCKS : Z := EXT2_TIND_BLOCK + 1.
Definition FT_REG_FILE : Z := 1.
Definition FT_DIR : Z := 2.
Definition FT_CHRDEV : Z := 3.
Definition FT_BLKDEV : Z := 4.
Definition FT_FIFO : Z := 5.
Definition FT_SOCK : Z := 6.
Definition FT_SYMLINK : Z := 7.

Definition Super_fields : list (string * fty) :=
  [("inodes_count", FInt 4); ("blocks_count", FInt 4); ("r_blocks_count", FInt 4);
   ("free_blocks_count", FInt 4); ("free_inodes_count", FInt 4); ("first_data_block", FInt 4);
   ("log_block_size", FInt 4); ("log_frag_size", FInt 4); ("blocks_per_group", FInt 4);
   ("frags_per_group", FInt 4); ("inodes_per_group", FInt 4); ("mtime", FInt 4); ("wtime", FInt 4);
   ("mnt_count", FInt 2); ("max_mnt_count", FInt 2); ("magic", FInt 2); ("state", FInt 2);
   ("errors", FInt 2); ("minor_rev_level", FInt 2); ("lastcheck", FInt 4); ("checkinterval", FInt 4);
   ("creator_os", FInt 4); ("rev_level", FInt 4); ("def_resuid", FInt 2); ("def_resgid", FInt 2);
   ("first_ino", FInt 4); ("inode_size", FInt 2); ("block_group_nr", FInt 2);
   ("feature_compat", FInt 4); ("feature_incompat", FInt 4); ("feature_ro_compat", FInt 4);
   ("uuid", FArr 1 16); ("volume_name", FArr 1 16); ("last_mounted", FArr 1 64);
   ("algorithm_usage_bitmap", FInt 4); ("prealloc_blocks", FInt 1); ("prealloc_dir_blocks", FInt 1);
   ("_padding1", FInt 2); ("journal_uuid", FArr 1 16); ("journal_inum", FInt 4); ("journal_dev", FInt 4);
   ("last_orphan", FInt 4); ("hash_seed", FArr 4 4); ("def_hash_version", FInt 1);
   ("_reserved_char_pad", FInt 1); ("_reserved_word_pad", FInt 2); ("default_mount_opts", FInt 4);
   ("first_meta_bg", FInt 4); ("_reserved", FArr 4 190)]%string.

Definition Group_fields : list (string * fty) :=
  [("block_bitmap", FInt 4); ("inode_bitmap", FInt 4); ("inode_table", FInt 4);
   ("free_blocks_count", FInt 2); ("free_inodes_count", FInt 2); ("used_dirs_count", FInt 2);
   ("_pad", FInt 2); ("_reserved", FArr 4 3)]%string.

Definition DInode_fields : list (string * fty) :=
  [("mode", FInt 2); ("uid", FInt 2); ("size", FInt 4); ("atime", FInt 4); ("ctime", FInt 4);
   ("mtime", FInt 4); ("dtime", FInt 4); ("gid", FInt 2); ("links_count", FInt 2); ("blocks", FInt 4);
   ("flags", FInt 4); ("reserved1", FInt 4); ("block", FArr 4 15); ("generation", FInt 4);
   ("file_acl", FInt 4); ("dir_acl", FInt 4); ("faddr", FInt 4); ("frag", FInt 1); ("fsize", FInt 1);
   ("pad1", FInt 2); ("uid_high", FInt 2); ("gid_high", FInt 2); ("reserved2", FInt 4)]%string.

Definition DirEntry_fields : list (string * fty) :=
  [("inode", FInt 4); ("rec_len", FInt 2); ("name_len", FInt 1); ("file_type", FInt 1)]%string.

(** A structure is its bytes; [sf s "f"] is [s.f.value()]. *)
Record Super : Type := mkSuper { super_raw : list byte }.
Record Group : Type := mkGroup { group_raw : list byte }.
Record DInode : Type := mkDInode { dinode_raw : list byte }.
Record DirEntry : Type := mkDirEntry { dirent_raw : list byte }.

Definition sf (s : Super) (f : string) : Z := field Super_fields f (super_raw s).
Definition gf (g : Group) (f : string) : Z := field Group_fields f (group_raw g).
Definition nf (i : DInode) (f : string) : Z := field DInode_fields f (dinode_raw i).
Definition df (d : DirEntry) (f : string) : Z := field DirEntry_fields f (dirent_raw d).
Definition n_blocks (i : DInode) : list Z := field_array DInode_fields "block" (dinode_raw i).

#[global] Instance Super_from_bytes : FromBytes Super := {|
  fb_size := struct_size Super_fields; fb_align := struct_align Super_fields; fb_read := mkSuper |}.
#[global] Instance Group_from_bytes : FromBytes Group := {|
  fb_size := struct_size Group_fields; fb_align := struct_align Group_fields; fb_read := mkGroup |}.
#[global] Instance DInode_from_bytes : FromBytes DInode := {|
  fb_size := struct_size DInode_fields; fb_align := struct_align DInode_fields; fb_read := mkDInode |}.
#[global] Instance DirEntry_from_bytes : FromBytes DirEntry := {|
  fb_size := struct_size DirEntry_fields; fb_align := struct_align DirEntry_fields; fb_read := mkDirEntry |}.

(** [LE<u32>] read together with its [value()] ([LE_value_of_memory]). *)
Definition u32_le : FromBytes Z := {| fb_size := 4; fb_align := 4; fb_read := le_decode |}.

(** ** ext2.rs *)
Definition SB_OFFSET : Z := 1024.

(** [INodeData]: the cached block pointers. *)
Record INodeData : Type := mkINodeData { data_blocks : list Z }.

Record Ext2Fs : Type := mkExt2Fs {
  e_mapper : Mapper; block_size : Z; has_file_type : bool; inodes_per_block : Z;
  inodes_per_group : Z; inode_count : Z; e_inode_size : Z; first_ino : Z; groups : list Group }.

(** *** Block mapping *)

(** [u64::trailing_zeros]. *)
Fixpoint ctz (p : positive) : Z :=
  match p with xO q => 1 + ctz q | _ => 0 end.
Definition trailing_zeros (z : Z) : Z :=
  match z with Zpos p => ctz p | _ => 64 end.

Definition offsets (bsize block : Z) : option (list Z) :=
  let ptrs := bsize / 4 in
  let ptr_mask := wrap 64 (ptrs - 1) in
  let ptr_bits := trailing_zeros ptrs in
  if block <? EXT2_NDIR_BLOCKS then Some [wrap 32 block]
  else
    let block := block - EXT2_NDIR_BLOCKS in
    if block <? ptrs then Some [EXT2_IND_BLOCK; wrap 32 block]
    else
      let block := block - ptrs in
      if block <? wrap 64 (Z.shiftl 1 (wrap 6 (2 * ptr_bits)))
      then Some [EXT2_DIND_BLOCK; wrap 32 (Z.shiftr block (wrap 6 ptr_bits)); wrap 32 (Z.land block ptr_mask)]
      else
        let block := wrap 64 (block - wrap 64 (ptrs * ptrs)) in
        if block <? wrap 64 (wrap 64 (ptrs * ptrs) * ptrs)
        then Some [EXT2_TIND_BLOCK; wrap 32 (Z.shiftr block (wrap 6 (2 * ptr_bits)));
                   wrap 32 (Z.land (Z.shiftr block (wrap 6 ptr_bits)) ptr_mask);
                   wrap 32 (Z.land block ptr_mask)]
        else None.

Definition is_power_of_two (z : Z) : bool := (0 <? z) && (Z.land z (z - 1) =? 0).

(** ** fs/iomap.rs: the mapping [begin] fills in *)
Inductive MapType := Hole | DelAlloc | Mapped | Unwritten | Inline.
Record Map : Type := mkMap {
  map_type : MapType; map_offset : Z; map_length : Z; map_flags : Z; map_addr : Z; map_bdev : Z }.
Definition MERGED : Z := 8.

Definition set_type (t : MapType) (m : Map) : Map :=
  mkMap t (map_offset m) (map_length m) (map_flags m) (map_addr m) (map_bdev m).
Definition set_offset (v : Z) (m : Map) : Map :=
  mkMap (map_type m) v (map_length m) (map_flags m) (map_addr m) (map_bdev m).
Definition set_length (v : Z) (m : Map) : Map :=
  mkMap (map_type m) (map_offset m) v (map_flags m) (map_addr m) (map_bdev m).
Definition set_flags (v : Z) (m : Map) : Map :=
  mkMap (map_type m) (map_offset m) (map_length m) v (map_addr m) (map_bdev m).
Definition set_addr (v : Z) (m : Map) : Map :=
  mkMap (map_type m) (map_offset m) (map_length m) (map_flags m) v (map_bdev m).
Definition set_bdev (v : Z) (m : Map) : Map :=
  mkMap (map_type m) (map_offset m) (map_length m) (map_flags m) (map_addr m) v.

Section Ext2.
Context `{KE : KernelErrno, KP : KernelErrPtr, BC : BlockCache, VA : VecAlloc}.
Context `{VK : VfsKernel INodeData}.
(** The addresses of the filesystem's static tables. *)
Context (TABLES : Tables) (IOMAP_AOPS : Z).

Abbreviation FM := (@FM BC VA INodeData Ext2Fs VK).

(** Walk the indirect blocks named by the remaining indices. *)
Fixpoint indirect (s : Ext2Fs) (ix : list Z) (boffset : Z) : FM Z :=
  match ix with
  | [] => m_ret boffset
  | i :: r =>
      b <-! mapped_folio (e_mapper s) (sext 64 (boffset * block_size s)) ;;
      v <-! scoped b (
        d <-! m_lift (mf_data b) ;;
        table <-! m_lift (ok_or (@from_bytes_to_slice Z u32_le d) EIO) ;;
        m_lift (index table i)) ;;
      indirect s r v
  end.

Definition offset_to_block (inode : Z) (block : Z) : FM Z :=
  s <-! sb_data ;;
  idata <-! inode_data inode ;;
  boffsets <-! m_lift (ok_or (offsets (block_size s) (wrap 64 block)) EIO) ;;
  i0 <-! m_lift (index boffsets 0) ;;
  boffset <-! m_lift (index (data_blocks idata) i0) ;;
  indirect s (tail boffsets) boffset.

(** *** Mounting *)
Fixpoint check_descriptors_from (s : Super) (n i : Z) (gs : list Group) : res Error unit :=
  match gs with
  | [] => Ok tt
  | g :: r =>
      let first := wrap 32 (wrap 32 (wrap 32 i * sf s "blocks_per_group") + sf s "first_data_block") in
      let last := if i =? n - 1 then sf s "blocks_count"
                  else wrap 32 (wrap 32 (first + sf s "blocks_per_group") - 1) in
      if (gf g "block_bitmap" <? first) || (last <? gf g "block_bitmap") then Err EINVAL
      else if (gf g "inode_bitmap" <? first) || (last <? gf g "inode_bitmap") then Err EINVAL
      else if (gf g "inode_table" <? first) || (last <? gf g "inode_table") then Err EINVAL
      else check_descriptors_from s n (i + 1) r
  end.

Definition check_descriptors (s : Super) (gs : list Group) : res Error unit :=
  check_descriptors_from s (lenZ gs) 0 gs.

(** The inner [for g in slice] of [fill_super]. *)
Fixpoint push_groups (slice gs : list Group) (remain : Z) : FM (list Group * Z) :=
  match slice with
  | [] => m_ret (gs, remain)
  | g :: r =>
      gs' <-! with_kv (kv_push gs g) ;;
      let remain := wrap 32 (remain - 1) in
      if remain =? 0 then m_ret (gs', remain) else push_groups r gs' remain
  end.

Fixpoint read_groups (fuel : nat) (mapper : Mapper) (gd_offset remain : Z) (gs : list Group) : FM (list Group) :=
  match fuel with
  | O => m_lift Pending
  | S fuel =>
      if 0 <? remain then
        b <-! mapped_folio mapper gd_offset ;;
        r <-! scoped b (
          d <-! m_lift (mf_data b) ;;
          slice <-! m_lift (ok_or (@from_bytes_to_slice Group _ d) EIO) ;;
          gr <-! push_groups slice gs remain ;;
          m_ret (gr, sext 64 (gd_offset + lenZ (sl_data d)))) ;;
        let '((gs', remain'), gd_offset') := r in
        read_groups fuel mapper gd_offset' remain' gs'
      else m_ret gs
  end.

(** The feature flags of a dynamic-revision superblock: [has_file_type]. *)
Definition check_features (s : Super) (ro : bool) : res Error bool :=
  if EXT2_DYNAMIC_REV <=? sf s "rev_level" then
    let features := sf s "feature_incompat" in
    if negb (Z.land features (2 ^ 32 - 1 - EXT2_FEATURE_INCOMPAT_FILETYPE) =? 0) then Err EINVAL
    else if negb ro && negb (sf s "feature_ro_compat" =? 0) then Err EINVAL
    else Ok (negb (Z.land features EXT2_FEATURE_INCOMPAT_FILETYPE =? 0))
  else Ok false.

(** [inode_size] and [first_ino]. *)
Definition inode_geometry (s : Super) (bsize : Z) : res Error (Z * Z) :=
  if sf s "rev_level" =? EXT2_GOOD_OLD_REV then Ok (EXT2_GOOD_OLD_INODE_SIZE, EXT2_GOOD_OLD_FIRST_INO)
  else
    let sz := sf s "inode_size" in
    if (sz <? EXT2_GOOD_OLD_INODE_SIZE) || negb (is_power_of_two sz) || (bsize <? sz) then Err EINVAL
    else Ok (sz, sf s "first_ino").

(** Everything after the superblock was mapped. *)
Definition fill_super_from (mapper : Mapper) (s : Super) (ro : bool) : FM Ext2Fs :=
  if negb (sf s "magic" =? EXT2_SUPER_MAGIC) then m_err EINVAL
  else
    has_ft <-! m_lift (check_features s ro) ;;
    let block_size_bits := sf s "log_block_size" in
    if EXT2_MAX_BLOCK_LOG_SIZE - 10 <? block_size_bits then m_err EINVAL
    else
      let bsize := wrap 32 (Z.shiftl 1024 block_size_bits) in
      bs' <-! min_blocksize bsize ;;
      if negb (bs' =? bsize) then m_err ENXIO
      else
        geo <-! m_lift (inode_geometry s bsize) ;;
        let '(isize, fino) := geo in
        let icount := sf s "inodes_count" in
        let ipg := sf s "inodes_per_group" in
        ipb <-! m_lift (u_div bsize isize) ;;
        if (ipg =? 0) || (ipb =? 0) then m_err EINVAL
        else
          let bpg := sf s "blocks_per_group" in
          let bcount := sf s "blocks_count" in
          q <-! m_lift (u_div (wrap 32 (wrap 32 (bcount - sf s "first_data_block") - 1)) bpg) ;;
          let group_count := wrap 32 (q + 1) in
          _ <-! with_kv (kv_try tt) ;;
          let gd_offset := (SB_OFFSET / bsize + 1) * bsize in
          gs <-! read_groups (Z.to_nat group_count + 1) mapper gd_offset group_count [] ;;
          _ <-! m_lift (check_descriptors s gs) ;;
          _ <-! set_magic (sf s "magic") ;;
          with_kv (kv_try (mkExt2Fs mapper bsize has_ft ipb ipg icount isize fino gs)).

Definition fill_super : FM Ext2Fs :=
  b0 <-! min_blocksize 4096 ;;
  if b0 =? 0 then m_err EINVAL
  else
    sb <-! get_sb ;;
    let mapper := mkMapper (s_bdev_mapping sb) in
    mapped <-! mapped_folio mapper SB_OFFSET ;;
    scoped mapped (
      d <-! m_lift (mf_data mapped) ;;
      s <-! m_lift (ok_or (@from_bytes Super _ d 0) EIO) ;;
      fill_super_from mapper s (rdonly sb)).

(** *** Inodes *)
Definition decode_dev (block : list Z) : res Error (Z * Z) :=
  v <-? index block 0 ;;
  if negb (v =? 0) then Ok (Z.land (Z.shiftr v 8) 255, Z.land v 255)
  else
    v <-? index block 1 ;;
    Ok (Z.shiftr (Z.land v 0xfff00) 8, Z.lor (Z.land v 0xff) (Z.land (Z.shiftr v 12) 0xfff00)).

(** The [match s_ifmt] of [iget]: the inode with its tables, its type, its size. *)
Definition inode_kind (s : Ext2Fs) (d : bslice) (off_in_block : Z) (i : DInode) (n : NewINode) :
    res Error (NewINode * INodeType * Z) :=
  let s_ifmt := Z.land (nf i "mode") 0xF000 in
  let size := nf i "size" in
  if s_ifmt =? S_IFREG then
    let size := Z.lor size (sext 64 (Z.shiftl (nf i "dir_acl") 32)) in
    Ok (set_fops (set_aops n IOMAP_AOPS) (reg_file_ops TABLES), Reg, size)
  else if s_ifmt =? S_IFDIR then
    Ok (set_aops (set_fops (set_iops n (dir_inode_ops TABLES)) (dir_file_ops TABLES)) IOMAP_AOPS, Dir, size)
  else if s_ifmt =? S_IFLNK then
    if nf i "blocks" =? 0 then
      let start := off_in_block * e_inode_size s + offset_of DInode_fields "block" in
      let name_len := wrap 64 size in
      if (lenZ (sl_data d) <? start + name_len) || (name_len =? 0) then Err EIO
      else Ok (n, Lnk (Some (mkSlice (sl_addr d + start) (sub_bytes (sl_data d) start name_len))), size)
    else Ok (set_aops n IOMAP_AOPS, Lnk None, size)
  else if s_ifmt =? S_IFSOCK then Ok (n, Sock, size)
  else if s_ifmt =? S_IFIFO then Ok (n, Fifo, size)
  else if s_ifmt =? S_IFCHR then
    dev <-? decode_dev (n_blocks i) ;; Ok (n, Chr dev.1 dev.2, size)
  else if s_ifmt =? S_IFBLK then
    dev <-? decode_dev (n_blocks i) ;; Ok (n, Blk dev.1 dev.2, size)
  else Err ENOENT.

Definition inode_params (i : DInode) (typ : INodeType) (size : Z) : INodeParams INodeData :=
  mkParams (Z.land (nf i "mode") 0xfff) typ size (nf i "blocks") (nf i "links_count")
    (Z.lor (nf i "uid") (Z.shiftl (nf i "uid_high") 16))
    (Z.lor (nf i "gid") (Z.shiftl (nf i "gid_high") 16))
    (mkTime (nf i "ctime") 0) (mkTime (nf i "mtime") 0) (mkTime (nf i "atime") 0)
    (mkINodeData (n_blocks i)).

(** Reading the on-disk inode and initialising [n] from it. *)
Definition load_inode (s : Ext2Fs) (group offset : Z) (n : NewINode) : FM Z :=
  g <-! m_lift (index (groups s) group) ;;
  oq <-! m_lift (u_div offset (inodes_per_block s)) ;;
  let inode_block := gf g "inode_table" + oq in
  off_in_block <-! m_lift (u_rem offset (inodes_per_block s)) ;;
  b <-! mapped_folio (e_mapper s) (sext 64 (inode_block * block_size s)) ;;
  scoped b (
    d <-! m_lift (mf_data b) ;;
    i <-! m_lift (ok_or (@from_bytes DInode _ d (off_in_block * e_inode_size s)) EIO) ;;
    if (nf i "links_count" =? 0) && ((nf i "mode" =? 0) || negb (nf i "dtime" =? 0)) then m_err ESTALE
    else
      r <-! m_lift (inode_kind s d off_in_block i n) ;;
      let '(n', typ, size) := r in
      NewINode_init n' (inode_params i typ size) TABLES).

Definition iget (ino : Z) : FM Z :=
  s <-! sb_data ;;
  if (negb (ino =? EXT2_ROOT_INO) && (ino <? first_ino s)) || (inode_count s <? ino) then m_err ENOENT
  else
    group <-! m_lift (u_div (wrap 32 (ino - 1)) (inodes_per_group s)) ;;
    offset <-! m_lift (u_rem (wrap 32 (ino - 1)) (inodes_per_group s)) ;;
    if lenZ (groups s) <=? group then m_err ENOENT
    else
      r <-! sb_iget ino ;;
      match r with
      | inr cached => m_ret cached
      | inl n => or_drop n (load_inode s group offset n)
      end.

Definition init_root : FM Z :=
  inode <-! iget EXT2_ROOT_INO ;;
  Root_try_new inode.

(** *** Directories *)

(** Signed division truncates; a zero divisor panics. *)
Definition i_div {E} (a b : Z) : res E Z := if b =? 0 then Panic else Ok (Z.quot a b).

(** The directory block at [pos], [None] for a hole. *)
Definition dir_block (s : Ext2Fs) (inode pos : Z) : FM (option MappedFolio) :=
  block_idx <-! m_lift (i_div pos (block_size s)) ;;
  boffset <-! offset_to_block inode block_idx ;;
  if boffset =? 0 then m_ret None
  else b <-! mapped_folio (e_mapper s) (sext 64 (boffset * block_size s)) ;; m_ret (Some b).

Definition size_of_DirEntry : Z := struct_size DirEntry_fields.
Definition walk_limit (d : bslice) : Z := Z.max 0 (lenZ (sl_data d) - size_of_DirEntry).

(** The inner loop of [lookup]: the inode number of the first entry with the name. *)
Fixpoint lookup_block (fuel : nat) (d : bslice) (name : list byte) (off : Z) : res Error (option Z) :=
  match fuel with
  | O => Pending
  | S fuel =>
      if off <? walk_limit d then
        de <-? ok_or (@from_bytes DirEntry _ d off) EIO ;;
        let rec_len := df de "rec_len" in
        if (rec_len =? 0) || (lenZ (sl_data d) <? off + rec_len) then Ok None
        else
          let name_start := off + size_of_DirEntry in
          let name_len := df de "name_len" in
          if lenZ (sl_data d) <? name_start + name_len then Ok None
          else
            nm <-? slice (sl_data d) name_start (name_start + name_len) ;;
            let ino := df de "inode" in
            if negb (ino =? 0) && bool_decide (nm = name) then Ok (Some ino)
            else lookup_block fuel d name (off + rec_len)
      else Ok None
  end.

(** An entry takes at least one byte, so a block is left after its length. *)
Definition walk_fuel (d : bslice) : nat := S (length (sl_data d)).

Fixpoint lookup_loop (fuel : nat) (s : Ext2Fs) (parent dentry dir_size pos : Z) : FM (option Z) :=
  match fuel with
  | O => m_lift Pending
  | S fuel =>
      if pos <? dir_size then
        ob <-! dir_block s parent pos ;;
        match ob with
        | None => lookup_loop fuel s parent dentry dir_size (sext 64 (pos + block_size s))
        | Some b =>
            r <-! scoped b (
              d <-! m_lift (mf_data b) ;;
              o <-! m_lift (lookup_block (walk_fuel d) d (dentry_name dentry) 0) ;;
              match o with
              | Some ino =>
                  found <-! iget ino ;;
                  res <-! splice_alias dentry (Some found) ;;
                  m_ret (Some res)
              | None => m_ret None
              end) ;;
            match r with
            | Some res => m_ret res
            | None => lookup_loop fuel s parent dentry dir_size (sext 64 (pos + block_size s))
            end
        end
      else splice_alias dentry None
  end.

(** The directory has at most this many blocks from position 0 on. *)
Definition dir_fuel (s : Ext2Fs) (dir_size : Z) : nat := (Z.to_nat (dir_size / block_size s) + 3)%nat.

Definition lookup (parent dentry : Z) : FM (option Z) :=
  s <-! sb_data ;;
  dir_size <-! inode_size parent ;;
  lookup_loop (dir_fuel s dir_size) s parent dentry dir_size 0.

Definition entry_type (s : Ext2Fs) (file_type : Z) : DirEntryType :=
  if negb (has_file_type s) then DT_Unknown
  else if file_type =? FT_REG_FILE then DT_Reg
  else if file_type =? FT_DIR then DT_Dir
  else if file_type =? FT_SYMLINK then DT_Lnk
  else if file_type =? FT_CHRDEV then DT_Chr
  else if file_type =? FT_BLKDEV then DT_Blk
  else if file_type =? FT_FIFO then DT_Fifo
  else if file_type =? FT_SOCK then DT_Sock
  else DT_Unknown.

(** The inner loop of [read_dir]: [false] when the reader is full. *)
Fixpoint emit_block (fuel : nat) (s : Ext2Fs) (d : bslice) (off : Z) : FM bool :=
  match fuel with
  | O => m_lift Pending
  | S fuel =>
      if off <? walk_limit d then
        de <-! m_lift (ok_or (@from_bytes DirEntry _ d off) EIO) ;;
        let rec_len := df de "rec_len" in
        if (rec_len =? 0) || (lenZ (sl_data d) <? off + rec_len) then m_ret true
        else
          let name_start := off + size_of_DirEntry in
          let name_len := df de "name_len" in
          let ino := df de "inode" in
          let off := off + rec_len in
          if (ino =? 0) || (lenZ (sl_data d) <? name_start + name_len) then emit_block fuel s d off
          else
            name <-! m_lift (slice (sl_data d) name_start (name_start + name_len)) ;;
            more <-! emit rec_len name ino (entry_type s (df de "file_type")) ;;
            if negb more then m_ret false else emit_block fuel s d off
      else m_ret true
  end.

Fixpoint read_dir_loop (fuel : nat) (s : Ext2Fs) (inode dir_size pos : Z) : FM unit :=
  match fuel with
  | O => m_lift Pending
  | S fuel =>
      if pos <? dir_size then
        ob <-! dir_block s inode pos ;;
        match ob with
        | None => read_dir_loop fuel s inode dir_size (sext 64 (pos + block_size s))
        | Some b =>
            let block_start := sext 64 (Z.quot pos (block_size s) * block_size s) in
            more <-! scoped b (
              d <-! m_lift (mf_data b) ;;
              let off := if block_start <? pos then wrap 64 (pos - block_start) else 0 in
              emit_block (walk_fuel d) s d off) ;;
            if negb more then m_ret tt
            else read_dir_loop fuel s inode dir_size (sext 64 (block_start + block_size s))
        end
      else m_ret tt
  end.

Definition read_dir (inode : Z) : FM unit :=
  s <-! sb_data ;;
  dir_size <-! inode_size inode ;;
  pos <-! emitter_pos ;;
  read_dir_loop (dir_fuel s dir_size) s inode dir_size pos.

(** *** [iomap::Operations::begin] *)
Definition begin (inode pos length : Z) (map : Map) : FM Map :=
  size <-! inode_size inode ;;
  if size <=? pos then
    m_ret (set_type Hole (set_flags MERGED (set_length (wrap 64 length) (set_offset pos map))))
  else
    sb <-! get_sb ;;
    s <-! sb_data ;;
    block <-! m_lift (i_div pos (block_size s)) ;;
    boffset <-! offset_to_block inode block ;;
    m_ret (set_addr (wrap 64 (boffset * block_size s))
            (set_bdev (s_bdev sb)
              (set_type Mapped
                (set_flags MERGED
                  (set_length (block_size s) (set_offset (sext 64 (block * block_size s)) map)))))).

(** The filesystem as the VFS sees it. *)
Definition ext2_fs : FileSystem INodeData Ext2Fs := {|
  fs_tables := TABLES;
  fs_fill_super := fill_super;
  fs_init_root := init_root;
  fs_lookup := lookup;
  fs_read_dir := read_dir |}.

End Ext2.
