(* ===== verification/Ext2Blocks.v ===== *)
(** * ext2: block mapping

    What [offsets] and [offset_to_block] compute, against the on-disk format:
    the block numbers of a file are enumerated by the direct, indirect, double
    and triple indirect trees ([path_block] reads a path back), and the pointer
    of a block is found by following its path through the device ([bmap]). *)
From Stdlib Require Import ZArith Lia Bool.
From Stdlib.Strings Require Import Byte String.
From stdpp Require Import base list option numbers gmap.
From S2P Require Import Prelude Errors KVec LeBytes Mapper Vfs Ext2.

(** The block sizes a superblock can declare. *)
Definition block_sizes : list Z := [1024; 2048; 4096; 8192; 16384; 32768; 65536].

(** The number of blocks the pointer trees of an inode can name. *)
Definition max_blocks (ptrs : Z) : Z := 12 + ptrs + ptrs * ptrs + ptrs * ptrs * ptrs.

(** The file block a path of indices leads to. *)
Definition path_block (ptrs : Z) (path : list Z) : Z :=
  match path with
  | [i] => i
  | [_; a] => 12 + a
  | [_; a; b] => 12 + ptrs + (a * ptrs + b)
  | [_; a; b; c] => 12 + ptrs + ptrs * ptrs + ((a * ptrs + b) * ptrs + c)
  | _ => 0
  end.

(** The root of a path is a slot of the inode, the rest are slots of a table. *)
Definition valid_path (ptrs : Z) (path : list Z) : Prop :=
  match path with
  | [i] => 0 <= i < EXT2_NDIR_BLOCKS
  | [r; a] => r = EXT2_IND_BLOCK /\ 0 <= a < ptrs
  | [r; a; b] => r = EXT2_DIND_BLOCK /\ 0 <= a < ptrs /\ 0 <= b < ptrs
  | [r; a; b; c] => r = EXT2_TIND_BLOCK /\ 0 <= a < ptrs /\ 0 <= b < ptrs /\ 0 <= c < ptrs
  | _ => False
  end.

(** [offsets] at a block size with [2 ^ m] pointers per block. *)
Definition offsets_at (m block : Z) : option (list Z) :=
  let p := 2 ^ m in
  if block <? 12 then Some [block]
  else if block - 12 <? p then Some [12; block - 12]
  else if block - 12 - p <? p * p then Some [13; (block - 12 - p) / p; (block - 12 - p) mod p]
  else let b := block - 12 - p - p * p in
    if b <? p * p * p then Some [14; b / (p * p); b / p mod p; b mod p]
    else None.

Lemma block_sizes_pow bsize : bsize ∈ block_sizes ->
  exists m, 8 <= m <= 14 /\ bsize / 4 = 2 ^ m /\ trailing_zeros (bsize / 4) = m.
Proof.
  unfold block_sizes. rewrite !list_elem_of_In. cbn [In].
  intros [<-|[<-|[<-|[<-|[<-|[<-|[<-|[]]]]]]]];
    [exists 8|exists 9|exists 10|exists 11|exists 12|exists 13|exists 14]; split_and!; try done; lia.
Qed.

Lemma offsets_eq bsize m block :
  8 <= m <= 14 -> bsize / 4 = 2 ^ m -> trailing_zeros (bsize / 4) = m -> 0 <= block < 2 ^ 64 ->
  offsets bsize block = offsets_at m block.
Proof.
  intros Hm Hp Ht Hb. unfold offsets, offsets_at. rewrite Ht, Hp.
  assert (2 ^ 8 <= 2 ^ m) as Hlo by (apply Z.pow_le_mono_r; lia).
  assert (2 ^ m <= 2 ^ 14) as Hhi by (apply Z.pow_le_mono_r; lia).
  assert (2 ^ (2 * m) = 2 ^ m * 2 ^ m) as Hpp by (rewrite <- Z.pow_add_r by lia; f_equal; lia).
  rewrite !(wrap_small 6) by lia.
  replace (2 ^ m - 1) with (Z.ones m) by (rewrite Z.ones_equiv; lia).
  rewrite (wrap_small 64 (Z.ones m)) by (rewrite Z.ones_equiv; lia).
  rewrite !Z.land_ones, !Z.shiftr_div_pow2, Z.shiftl_1_l, Hpp by lia.
  set (p := 2 ^ m) in *. change (2 ^ 8) with 256 in Hlo. change (2 ^ 14) with 16384 in Hhi.
  unfold EXT2_NDIR_BLOCKS, EXT2_TIND_BLOCK, EXT2_DIND_BLOCK, EXT2_IND_BLOCK, EXT2_NDIR_BLOCKS.
  cbn [Z.add Pos.add Pos.succ].
  rewrite (wrap_small 64 (p * p)), (wrap_small 64 (p * p * p)) by nia.
  destruct (block <? 12) eqn:E1; [rewrite wrap_small by blia; done|].
  destruct (block - 12 <? p) eqn:E2; [rewrite wrap_small by blia; done|].
  destruct (block - 12 - p <? p * p) eqn:E3.
  - zify_bools. rewrite !(wrap_small 32); [done|..].
    + pose proof (Z.mod_pos_bound (block - 12 - p) p ltac:(lia)). lia.
    + split; [apply Z.div_pos; lia|]. apply Z.div_lt_upper_bound; nia.
  - zify_bools. rewrite (wrap_small 64 (block - 12 - p - p * p)) by nia.
    destruct (block - 12 - p - p * p <? p * p * p) eqn:E4; [|done]. zify_bools.
    set (b := block - 12 - p - p * p) in *.
    rewrite !(wrap_small 32); [done|..].
    + pose proof (Z.mod_pos_bound b p ltac:(lia)). lia.
    + pose proof (Z.mod_pos_bound (b / p) p ltac:(lia)). lia.
    + split; [apply Z.div_pos; nia|]. apply Z.div_lt_upper_bound; nia.
Qed.

(** A path names its block, stays inside its tables, and exists exactly below
    [max_blocks]. *)
Lemma offsets_at_spec m block : 0 <= m -> 0 <= block ->
  match offsets_at m block with
  | Some path => path_block (2 ^ m) path = block /\ valid_path (2 ^ m) path /\ block < max_blocks (2 ^ m)
  | None => max_blocks (2 ^ m) <= block
  end.
Proof.
  intros Hm Hb. unfold offsets_at, max_blocks.
  assert (0 < 2 ^ m) as Hp by (apply Z.pow_pos_nonneg; lia). set (p := 2 ^ m) in *.
  destruct (block <? 12) eqn:E1; zify_bools; [cbn; unfold EXT2_NDIR_BLOCKS; nia|].
  destruct (block - 12 <? p) eqn:E2; zify_bools; [cbn; unfold EXT2_IND_BLOCK, EXT2_NDIR_BLOCKS; nia|].
  destruct (block - 12 - p <? p * p) eqn:E3; zify_bools.
  - set (b := block - 12 - p) in *. pose proof (Z_div_mod_eq_full b p) as Hd.
    pose proof (Z.mod_pos_bound b p Hp) as Hr.
    assert (0 <= b / p < p) by (split; [apply Z.div_pos; lia|apply Z.div_lt_upper_bound; lia]).
    cbn [path_block valid_path]. split; [lia|]. split; [done|nia].
  - set (b := block - 12 - p - p * p) in *.
    destruct (b <? p * p * p) eqn:E4; zify_bools; [|lia].
    pose proof (Z_div_mod_eq_full b p) as Hd. pose proof (Z.mod_pos_bound b p Hp) as Hr.
    pose proof (Z_div_mod_eq_full (b / p) p) as Hd2. pose proof (Z.mod_pos_bound (b / p) p Hp) as Hr2.
    rewrite <- (Z.div_div b p p) by lia.
    assert (0 <= b / p < p * p) by (split; [apply Z.div_pos; lia|apply Z.div_lt_upper_bound; lia]).
    assert (0 <= b / p / p < p) by (split; [apply Z.div_pos; lia|apply Z.div_lt_upper_bound; lia]).
    cbn [path_block valid_path]. split; [nia|]. split; [done|lia].
Qed.

Lemma offsets_spec bsize block : bsize ∈ block_sizes -> 0 <= block < 2 ^ 64 ->
  match offsets bsize block with
  | Some path => path_block (bsize / 4) path = block /\ valid_path (bsize / 4) path /\
                 block < max_blocks (bsize / 4)
  | None => max_blocks (bsize / 4) <= block
  end.
Proof.
  intros Hb Hr. destruct (block_sizes_pow bsize Hb) as (m & Hm & Hp & Ht).
  rewrite (offsets_eq bsize m) by done. rewrite Hp. apply offsets_at_spec; lia.
Qed.

(** C17. The indirect-block arithmetic is exact at every block size: [offsets]
    yields a path for precisely the block numbers the pointer trees can hold,
    the path leads back to the block (so no two blocks share one), its first
    index is the right slot of the inode and every other index is inside its
    table. *)
Theorem offsets_exact bsize b1 b2 : bsize ∈ block_sizes -> 0 <= b1 < 2 ^ 64 -> 0 <= b2 < 2 ^ 64 ->
  (forall path, offsets bsize b1 = Some path ->
     path_block (bsize / 4) path = b1 /\ valid_path (bsize / 4) path) /\
  (is_Some (offsets bsize b1) <-> b1 < max_blocks (bsize / 4)) /\
  (is_Some (offsets bsize b1) -> offsets bsize b1 = offsets bsize b2 -> b1 = b2).
Proof.
  intros Hb H1 H2. pose proof (offsets_spec bsize b1 Hb H1) as S1.
  pose proof (offsets_spec bsize b2 Hb H2) as S2. split; [|split].
  - intros path E. rewrite E in S1. tauto.
  - destruct (offsets bsize b1) as [path|].
    + split; [intros _; tauto|intros _; by eexists].
    + split; [by intros [? ?]|lia].
  - intros [path E] E2. rewrite <- E2, E in S2. rewrite E in S1. destruct S1, S2. congruence.
Qed.

Lemma offsets_exact_witness :
  offsets 4096 1049611 = offsets 4096 1049611 /\ is_Some (offsets 4096 1049611).
Proof.
  split; [done|].
  apply (offsets_exact 4096 1049611 0); [|lia|lia|vm_compute; done].
  unfold block_sizes. apply list_elem_of_In. cbn. tauto.
Defined.

(** ** Following a path through the device *)

#[global] Instance u32_le_ok : @FromBytesOk Z u32_le.
Proof. by constructor. Qed.

(** The block sizes whose blocks fit a page. *)
Definition page_block_sizes : list Z := [1024; 2048; 4096].

Lemma page_block_size_cases b : b ∈ page_block_sizes -> b = 1024 \/ b = 2048 \/ b = 4096.
Proof. unfold page_block_sizes. rewrite !list_elem_of_In. cbn. intros [<-|[<-|[<-|[]]]]; auto. Qed.

Lemma page_block_size_any b : b ∈ page_block_sizes -> b ∈ block_sizes.
Proof. intros [->|[->| ->]]%page_block_size_cases; unfold block_sizes; apply list_elem_of_In; cbn; tauto. Qed.

(** A block does not cross its page. *)
Lemma block_in_page b n : b ∈ page_block_sizes -> 0 <= n ->
  (n * b) mod PAGE_SIZE + b <= PAGE_SIZE /\ (n * b) mod 1024 = 0 /\ 0 <= n * b.
Proof.
  unfold PAGE_SIZE. intros [->|[->| ->]]%page_block_size_cases Hn;
    Z.to_euclidean_division_equations; lia.
Qed.

Section Bmap.
Context `{KE : KernelErrno, KP : KernelErrPtr, BC : BlockCache, VA : VecAlloc}.
Context `{VK : VfsKernel INodeData} (disk : Z -> Z -> list byte).
Context {BCO : BlockCacheOk BC KP disk} {SP : SinglePageFolios BC KP}.
Implicit Types w : World (VW INodeData Ext2Fs).

(** Entry [i] of the table in block [boffset]. *)
Definition table_entry (s : Ext2Fs) (boffset i : Z) : Z :=
  le_decode (disk_range disk (e_mapper s) (boffset * block_size s + i * 4) 4).

Definition bmap_walk (s : Ext2Fs) (path : list Z) (boffset : Z) : Z :=
  foldl (table_entry s) boffset path.

(** The disk block of file block [block] according to the pointers on disk. *)
Definition bmap (s : Ext2Fs) (blocks : list Z) (block : Z) : option Z :=
  match offsets (block_size s) block with
  | Some (i0 :: r) => bmap_walk s r <$> blocks !! Z.to_nat i0
  | _ => None
  end.

Lemma table_entry_range s b i : 0 <= table_entry s b i < 2 ^ 32.
Proof.
  unfold table_entry. pose proof (le_decode_range (disk_range disk (e_mapper s) (b * block_size s + i * 4) 4)) as H.
  by rewrite disk_range_length in H by lia.
Qed.

(** The outcome [r] is [Ok v], unless the device can fail. *)
Definition io_result {A} (r : res Error A) (v : A) : Prop :=
  r = Ok v \/ exists e, r = Err e /\ ~ BlockCacheLive BC KP.

Lemma index_fmap_seq {A} (f : nat -> A) n i : 0 <= i < Z.of_nat n ->
  @index Error A (f <$> seq 0 n) i = Ok (f (Z.to_nat i)).
Proof.
  intros Hi. unfold index. destruct (0 <=? i) eqn:E; [|blia].
  rewrite list_lookup_fmap, lookup_seq_lt by lia. done.
Qed.

Lemma indirect_spec s path : block_size s ∈ page_block_sizes ->
  Forall (fun i => 0 <= i < block_size s / 4) path ->
  forall boffset w, 0 <= boffset < 2 ^ 32 ->
  exists r w', indirect s path boffset w = (r, w') /\ untouched w w' /\ io_result r (bmap_walk s path boffset).
Proof.
  intros Hb Hp. induction Hp as [|i path Hi Hp IH]; intros boffset w Hbo.
  { exists (Ok boffset), w. split; [done|]. split; [done|]. by left. }
  cbn [indirect]. destruct (block_in_page _ boffset Hb ltac:(lia)) as (Hin & Hal & H0).
  assert (block_size s <= 4096) as Hle by (apply page_block_size_cases in Hb; lia).
  rewrite sext_id by nia. unfold m_bind at 1.
  destruct (mapped_folio_io disk (e_mapper s) (boffset * block_size s) w ltac:(nia))
    as [(mf & w1 & -> & Hrd)|(e & w1 & -> & Hu & Hlv)].
  2: { exists (Err e), w1. split; [done|]. split; [done|]. right. eauto. }
  unfold m_bind at 1.
  match goal with |- context [scoped mf ?k w1] =>
    destruct (scoped_eq disk (e_mapper s) (boffset * block_size s) mf w w1 k (Ok (table_entry s boffset i)) w1)
      as (w2 & -> & Hh & He); [done| |done|] end.
  { rewrite (rd_data _ _ _ _ _ _ Hrd). unfold m_bind, m_lift. cbn [sl_data].
    rewrite (to_slice_disk (T := Z) disk _ _ _ _ _ Hrd) by
      (cbn; first [done | lia | Z.to_euclidean_division_equations; lia]).
    cbn [ok_or]. rewrite index_fmap_seq; [|cbn [fb_size u32_le]; Z.to_euclidean_division_equations; lia].
    cbn [fb_size fb_read u32_le]. rewrite Z2Nat.id by lia. done. }
  destruct (IH (table_entry s boffset i) w2 (table_entry_range _ _ _)) as (r & w' & Hr & Hu & Hio).
  exists r, w'. split; [done|]. split; [|done].
  etrans; [|exact Hu]. split; [done|]. by rewrite He, (rd_ext _ _ _ _ _ _ Hrd).
Qed.

(** What the filesystem code relies on: the mounted data and the inode exist,
    and the inode's pointers are 32-bit.  A block is at most a page: mounting accepts
    up to 64 KiB by itself and leaves it to the kernel's [sb_min_blocksize], which
    refuses blocks that are larger than a page. *)
Record mounted (w : World (VW INodeData Ext2Fs)) (s : Ext2Fs) (inode : Z) (blocks : list Z) (size : Z) : Prop := {
  mt_data : s_fs_info (v_sb (w_ext w)) = Some s;
  mt_inode : exists k, v_inodes (w_ext w) !! inode = Some (mkKInode (Some (mkINodeData blocks)) k) /\ k I_size = size;
  mt_block_size : block_size s ∈ page_block_sizes;
  mt_blocks : length blocks = 15%nat;
  mt_ptrs : Forall (fun p => 0 <= p < 2 ^ 32) blocks
}.

Lemma mounted_untouched w w' s inode blocks size :
  mounted w s inode blocks size -> untouched w w' -> mounted w' s inode blocks size.
Proof. intros [H1 H2 H3 H4 H5] [_ He]. constructor; try done; by rewrite He. Qed.

Lemma offset_to_block_spec w s inode blocks size block :
  mounted w s inode blocks size -> 0 <= block < 2 ^ 63 ->
  exists r w', offset_to_block inode block w = (r, w') /\ untouched w w' /\
    match bmap s blocks block with
    | Some v => io_result r v /\ 0 <= v < 2 ^ 32
    | None => r = Err EIO /\ max_blocks (block_size s / 4) <= block
    end.
Proof.
  intros [Hd (k & Hi & Hs) Hb Hlen Hptr] Hr. unfold offset_to_block, m_bind at 1.
  rewrite (sb_data_ok _ _ Hd). unfold m_bind at 1. rewrite (inode_data_ok _ _ _ _ Hi).
  rewrite wrap_small by lia. unfold bmap.
  pose proof (offsets_spec (block_size s) block (page_block_size_any _ Hb) ltac:(lia)) as Ho.
  destruct (offsets (block_size s) block) as [path|] eqn:Eo.
  2: { exists (Err EIO), w. done. }
  destruct Ho as (_ & Hv & _).
  assert (exists i0 r, path = i0 :: r /\ 0 <= i0 < 15 /\ Forall (fun i => 0 <= i < block_size s / 4) r)
    as (i0 & rest & -> & Hi0 & Hrest).
  { unfold valid_path, EXT2_TIND_BLOCK, EXT2_DIND_BLOCK, EXT2_IND_BLOCK, EXT2_NDIR_BLOCKS in Hv.
    destruct path as [|i0 [|a [|b [|c [|]]]]]; try done;
      do 2 eexists; (split; [reflexivity|]); (split; [lia|]); repeat (constructor; [lia|]); constructor. }
  destruct (lookup_lt_is_Some_2 blocks (Z.to_nat i0) ltac:(lia)) as [b0 Hb0].
  pose proof (Forall_lookup_1 _ _ _ _ Hptr Hb0) as Hb0r.
  assert (@index Error Z (i0 :: rest) 0 = Ok i0) as Hx0 by done.
  assert (@index Error Z blocks i0 = Ok b0) as Hx1
    by (unfold index; destruct (0 <=? i0) eqn:E0; [by rewrite Hb0|blia]).
  unfold m_bind, m_lift, ok_or. rewrite Hx0. cbn [data_blocks tail]. rewrite Hx1, Hb0.
  destruct (indirect_spec s rest Hb Hrest b0 w Hb0r) as (r & w' & -> & Hu & Hio).
  exists r, w'. split; [done|]. split; [done|]. cbn. split; [done|].
  clear -Hb0r. revert b0 Hb0r. induction rest as [|i rest IH]; intros b0 Hb0r; [done|].
  cbn. apply IH, table_entry_range.
Qed.

End Bmap.

Section BlockProperties.
Context `{KE : KernelErrno, KP : KernelErrPtr, BC : BlockCache, VA : VecAlloc}.
Context `{VK : VfsKernel INodeData} (disk : Z -> Z -> list byte).
Context {BCO : BlockCacheOk BC KP disk} {SP : SinglePageFolios BC KP}.
Implicit Types w : World (VW INodeData Ext2Fs).

(** C18. [offset_to_block] follows the pointers on disk: on a device that answers,
    it returns the block number that the inode's tree stores for the file block
    (0 for a hole), [EIO] exactly past the last representable block, and an
    error of the device otherwise; it never panics, and every folio it mapped
    has been released. *)
Theorem offset_to_block_correct w s inode blocks size block :
  mounted w s inode blocks size -> 0 <= block < 2 ^ 63 ->
  exists r w', offset_to_block inode block w = (r, w') /\ w_held w' = w_held w /\ w_ext w' = w_ext w /\
    match bmap disk s blocks block with
    | Some v => r = Ok v \/ (exists e, r = Err e /\ ~ BlockCacheLive BC KP)
    | None => r = Err EIO /\ max_blocks (block_size s / 4) <= block
    end.
Proof.
  intros Hm Hb. destruct (offset_to_block_spec disk w s inode blocks size block Hm Hb)
    as (r & w' & H1 & [H2 H3] & H4).
  exists r, w'. split; [done|]. split; [done|]. split; [done|].
  destruct (bmap disk s blocks block); [apply H4|done].
Qed.

Lemma begin_spec w s inode blocks size pos len map :
  mounted w s inode blocks size -> 0 <= pos < 2 ^ 62 -> pos < size ->
  exists r w', begin inode pos len map w = (r, w') /\ untouched w w' /\
    match bmap disk s blocks (pos / block_size s) with
    | Some v => io_result r (mkMap Mapped (pos / block_size s * block_size s) (block_size s) MERGED
                               (v * block_size s) (s_bdev (v_sb (w_ext w))))
    | None => r = Err EIO
    end.
Proof.
  intros Hm Hp Hsz. pose proof (page_block_size_cases _ (mt_block_size _ _ _ _ _ Hm)) as Hbs.
  destruct (mt_inode _ _ _ _ _ Hm) as (k & Hi & Hk).
  assert (0 <= pos / block_size s <= pos) as Hq.
  { split; [apply Z.div_pos; lia|]. apply Z.div_le_upper_bound; [lia|]. nia. }
  assert (pos / block_size s * block_size s <= pos) as Hq2 by (rewrite Z.mul_comm; apply Z.mul_div_le; lia).
  unfold begin, m_bind at 1. rewrite (inode_size_ok _ _ _ _ Hi), Hk.
  destruct (size <=? pos) eqn:E; [blia|].
  unfold m_bind at 1. assert (get_sb (D := INodeData) w = (Ok (v_sb (w_ext w)), w)) as -> by (by destruct w as [? ? []]).
  unfold m_bind at 1. rewrite (sb_data_ok _ _ (mt_data _ _ _ _ _ Hm)).
  unfold m_bind at 1, m_lift, i_div. destruct (block_size s =? 0) eqn:E0; [blia|].
  rewrite Z.quot_div_nonneg by lia. unfold m_bind.
  destruct (offset_to_block_spec disk w s inode blocks size (pos / block_size s) Hm ltac:(lia))
    as (r & w' & -> & Hu & Hr).
  destruct (bmap disk s blocks (pos / block_size s)) as [v|].
  - destruct Hr as [[->|(e & -> & Hl)] Hv].
    + eexists _, w'. split; [done|]. split; [done|]. left.
      unfold set_addr, set_bdev, set_type, set_flags, set_length, set_offset. cbn.
      rewrite sext_id, wrap_small by nia. done.
    + exists (Err e), w'. split; [done|]. split; [done|]. right. eauto.
  - destruct Hr as [-> _]. exists (Err EIO), w'. done.
Qed.

(** [begin] answers a file position below the size with the single block that
    contains it, at the device address the block tree gives, and a position at
    or past the size with a hole; it reads nothing else and keeps nothing. *)
Theorem begin_maps_block w s inode blocks size pos len map :
  mounted w s inode blocks size -> 0 <= pos < 2 ^ 62 -> 0 <= len < 2 ^ 63 -> BlockCacheLive BC KP ->
  exists r w', begin inode pos len map w = (r, w') /\ w_held w' = w_held w /\ w_ext w' = w_ext w /\
    if bool_decide (size <= pos)
    then exists mp, r = Ok mp /\ map_type mp = Hole /\ map_offset mp = pos /\ map_length mp = len
    else match bmap disk s blocks (pos / block_size s) with
         | Some v => exists mp, r = Ok mp /\ map_type mp = Mapped /\
             map_offset mp <= pos < map_offset mp + map_length mp /\
             map_addr mp + (pos - map_offset mp) = v * block_size s + pos mod block_size s
         | None => r = Err EIO
         end.
Proof.
  intros Hm Hp Hl HL. case_bool_decide as Hsz.
  - destruct (mt_inode _ _ _ _ _ Hm) as (k & Hi & Hk).
    unfold begin, m_bind at 1. rewrite (inode_size_ok _ _ _ _ Hi), Hk.
    destruct (size <=? pos) eqn:E; [|blia]. eexists _, w. split; [done|]. split; [done|]. split; [done|].
    eexists. split; [done|]. cbn. rewrite wrap_small by lia. done.
  - destruct (begin_spec w s inode blocks size pos len map Hm Hp ltac:(lia)) as (r & w' & H1 & [H2 H3] & H4).
    exists r, w'. split; [done|]. split; [done|]. split; [done|].
    destruct (bmap disk s blocks (pos / block_size s)) as [v|]; [|done].
    destruct H4 as [->|(e & _ & Hn)]; [|done]. eexists. split; [done|]. cbn.
    pose proof (page_block_size_cases _ (mt_block_size _ _ _ _ _ Hm)).
    pose proof (Z_div_mod_eq_full pos (block_size s)).
    pose proof (Z.mod_pos_bound pos (block_size s) ltac:(lia)). split; [done|]. lia.
Qed.

(** A hole in a file is reported as mapped data: for a block whose pointer is 0
    [begin] answers [Mapped] at device address 0, so reading the hole returns
    the device's first block (boot block or superblock) instead of zeros. *)
Theorem begin_maps_hole_to_block_zero w s inode blocks size pos len map :
  mounted w s inode blocks size -> 0 <= pos < 2 ^ 62 -> pos < size -> BlockCacheLive BC KP ->
  bmap disk s blocks (pos / block_size s) = Some 0 ->
  exists mp w', begin inode pos len map w = (Ok mp, w') /\ map_type mp = Mapped /\ map_addr mp = 0.
Proof.
  intros Hm Hp Hsz HL Hz.
  destruct (begin_spec w s inode blocks size pos len map Hm Hp Hsz) as (r & w' & H1 & _ & H4).
  rewrite Hz in H4. destruct H4 as [->|(e & _ & Hn)]; [|done]. by do 2 eexists.
Qed.

End BlockProperties.
