(* ===== verification/Ext2Dir.v ===== *)
(** * ext2: directories

    [dir_walk] is the chain of records in a directory block, whatever its bytes
    are; [lookup] and [read_dir] are proved against it: which entries they find,
    emit or skip, that they end on any block contents and never index out of
    the block, and how the reader's position moves. *)
From Stdlib Require Import ZArith Lia Bool.
From Stdlib.Strings Require Import Byte String.
From stdpp Require Import base list option numbers gmap.
From S2P Require Import Prelude Errors KVec LeBytes Mapper Vfs Emits Ext2 Ext2Blocks.

#[global] Instance DirEntry_from_bytes_ok : FromBytesOk DirEntry.
Proof. by constructor. Qed.

Lemma DirEntry_size : size_of_DirEntry = 8.
Proof. done. Qed.

(** ** The records of a block *)

(** The records from [off] on, with their offsets; [false] when the chain ends
    in a record that cannot be read. *)
Fixpoint dir_walk (fuel : nat) (d : bslice) (off : Z) : list (Z * DirEntry) * bool :=
  match fuel with
  | O => ([], false)
  | S fuel =>
      if off <? walk_limit d then
        match @from_bytes DirEntry _ d off with
        | None => ([], false)
        | Some de =>
            if (df de "rec_len" =? 0) || (lenZ (sl_data d) <? off + df de "rec_len") then ([], true)
            else let '(l, ok) := dir_walk fuel d (off + df de "rec_len") in ((off, de) :: l, ok)
        end
      else ([], true)
  end.

Definition rec_name (d : bslice) (r : Z * DirEntry) : list byte :=
  sub_bytes (sl_data d) (r.1 + size_of_DirEntry) (df r.2 "name_len").

(** The name lies inside the block. *)
Definition rec_fits (d : bslice) (r : Z * DirEntry) : bool :=
  r.1 + size_of_DirEntry + df r.2 "name_len" <=? lenZ (sl_data d).

(** The record is in use. *)
Definition rec_live (d : bslice) (r : Z * DirEntry) : bool :=
  negb (df r.2 "inode" =? 0) && rec_fits d r.

Lemma df_nonneg de f : 0 <= df de f.
Proof.
  unfold df, field. destruct (assoc f _) as [[o t]|]; [|done].
  apply le_decode_range.
Qed.

(** [lookup]'s answer on the records of a block. *)
Fixpoint find_name (d : bslice) (name : list byte) (l : list (Z * DirEntry)) (ok : bool) `{KernelErrno} :
    res Error (option Z) :=
  match l with
  | [] => if ok then Ok None else Err EIO
  | r :: t =>
      if negb (rec_fits d r) then Ok None
      else if negb (df r.2 "inode" =? 0) && bool_decide (rec_name d r = name) then Ok (Some (df r.2 "inode"))
      else find_name d name t ok
  end.

Lemma lookup_block_walk `{KernelErrno} d name fuel off :
  0 <= off <= lenZ (sl_data d) -> lenZ (sl_data d) - off < Z.of_nat fuel ->
  lookup_block fuel d name off = let '(l, ok) := dir_walk fuel d off in find_name d name l ok.
Proof.
  revert off. induction fuel as [|fuel IH]; intros off Ho Hf; [lia|].
  cbn [lookup_block dir_walk]. destruct (off <? walk_limit d) eqn:El; [|done].
  destruct (@from_bytes DirEntry _ d off) as [de|]; cbn [ok_or res_bind]; [|done].
  destruct ((df de "rec_len" =? 0) || (lenZ (sl_data d) <? off + df de "rec_len")) eqn:Er; [done|].
  pose proof (df_nonneg de "rec_len"). pose proof (df_nonneg de "name_len") as Hn. zify_bools.
  specialize (IH (off + df de "rec_len") ltac:(lia) ltac:(lia)).
  destruct (dir_walk fuel d (off + df de "rec_len")) as [l ok]. cbn [find_name].
  unfold rec_fits at 1. cbn [fst snd]. rewrite Z.leb_antisym, negb_involutive.
  destruct (lenZ (sl_data d) <? off + size_of_DirEntry + df de "name_len") eqn:Ef; [done|].
  rewrite DirEntry_size in *. zify_bools.
  rewrite slice_ok by lia. cbn [res_bind]. unfold rec_name, sub_bytes. cbn [fst snd].
  rewrite DirEntry_size. replace (off + 8 + df de "name_len" - (off + 8)) with (df de "name_len") by lia.
  destruct (_ && _); [done|]. exact IH.
Qed.

(** A walk depends on the address only through its alignment. *)
Lemma dir_walk_addr fuel a b data off :
  0 <= off -> 0 <= a -> a + lenZ data < 2 ^ 64 -> 0 <= b -> b + lenZ data < 2 ^ 64 -> a mod 4 = b mod 4 ->
  dir_walk fuel (mkSlice a data) off = dir_walk fuel (mkSlice b data) off.
Proof.
  intros Ho Ha Ha' Hb Hb' Hm. revert off Ho. induction fuel as [|fuel IH]; intros off Ho; [done|].
  cbn [dir_walk]. unfold walk_limit; cbn [sl_data].
  destruct (off <? Z.max 0 (lenZ data - size_of_DirEntry)) eqn:El; [|done].
  rewrite DirEntry_size in El. pose proof (lenZ_nonneg data).
  assert (@from_bytes DirEntry _ (mkSlice a data) off = @from_bytes DirEntry _ (mkSlice b data) off) as ->.
  { rewrite !from_bytes_spec by blia. cbn [sl_data sl_addr]. rewrite !wrap_small by blia.
    change (fb_align DirEntry) with 4.
    assert ((a + off) mod 4 = (b + off) mod 4) as ->; [|done].
    rewrite (Z.add_mod a), (Z.add_mod b), Hm by done. done. }
  destruct (from_bytes _ off) as [de|]; [|done].
  destruct (_ || _); [done|]. pose proof (df_nonneg de "rec_len"). by rewrite IH by lia.
Qed.

(** The directory data in a block: the bytes of the block, at an address that is aligned
    like the device offset.  The code takes the rest of the block's page instead, which is
    the same for blocks of a page; [Ext2Image.read_dir_reads_past_block] shows smaller ones. *)
Definition block_slice (disk : Z -> Z -> list byte) (s : Ext2Fs) (b : Z) : bslice :=
  mkSlice ((b * block_size s) mod PAGE_SIZE) (disk_range disk (e_mapper s) (b * block_size s) (block_size s)).

Lemma block_slice_page disk s b : block_size s = PAGE_SIZE ->
  sl_data (block_slice disk s b) = disk_tail disk (e_mapper s) (b * block_size s).
Proof. intros Hp. unfold block_slice, disk_tail. cbn [sl_data]. rewrite Hp, Z.mod_mul by done. done. Qed.

Definition block_walk (disk : Z -> Z -> list byte) (s : Ext2Fs) (b : Z) : list (Z * DirEntry) * bool :=
  let d := block_slice disk s b in dir_walk (walk_fuel d) d 0.

(** A directory block without a broken record. *)
Definition block_wf (disk : Z -> Z -> list byte) (s : Ext2Fs) (b : Z) : Prop :=
  (block_walk disk s b).2 = true /\ Forall (fun r => rec_fits (block_slice disk s b) r = true) (block_walk disk s b).1.

(** The first record in use with that name. *)
Definition block_find (disk : Z -> Z -> list byte) (s : Ext2Fs) (name : list byte) (b : Z) : option Z :=
  let d := block_slice disk s b in
  (fun r => df r.2.2 "inode") <$>
    list_find (fun r : Z * DirEntry => df r.2 "inode" <> 0 /\ rec_name d r = name) (block_walk disk s b).1.

Lemma find_name_wf `{KernelErrno} d name l :
  Forall (fun r => rec_fits d r = true) l ->
  find_name d name l true =
    Ok ((fun r => df r.2.2 "inode") <$>
          list_find (fun r : Z * DirEntry => df r.2 "inode" <> 0 /\ rec_name d r = name) l).
Proof.
  induction 1 as [|r l Hr Hl IH]; [done|]. cbn [find_name]. rewrite Hr. cbn [negb]. rewrite IH.
  cbn [list_find]. destruct (decide (df r.2 "inode" <> 0 /\ rec_name d r = name)) as [[H1 H2]|Hn].
  - rewrite bool_decide_eq_true_2 by done. destruct (df r.2 "inode" =? 0) eqn:E; [blia|]. done.
  - assert (negb (df r.2 "inode" =? 0) && bool_decide (rec_name d r = name) = false) as ->.
    { destruct (df r.2 "inode" =? 0) eqn:E; [done|]. cbn [negb andb]. apply bool_decide_eq_false_2.
      intros Hname. apply Hn. split; [blia|done]. }
    f_equal. destruct (list_find _ l) as [[i x]|]; done.
Qed.

(** ** The directory as a sequence of blocks *)
Definition dir_blocks (s : Ext2Fs) (size : Z) : Z := (size + block_size s - 1) / block_size s.

Lemma dir_blocks_lt s size n : 0 < block_size s ->
  n * block_size s < size <-> n < dir_blocks s size.
Proof.
  intros Hb. unfold dir_blocks. split; intros H.
  - apply Z.lt_le_trans with (n + 1); [lia|]. apply Z.div_le_lower_bound; lia.
  - pose proof (Z.mul_div_le (size + block_size s - 1) (block_size s) Hb). nia.
Qed.

(** The first entry with the name in the blocks [idxs] of the directory. *)
Fixpoint dir_find (disk : Z -> Z -> list byte) (s : Ext2Fs) (blocks : list Z) (name : list byte) (idxs : list Z) : option Z :=
  match idxs with
  | [] => None
  | i :: r =>
      match bmap disk s blocks i with
      | Some b => match (if b =? 0 then None else block_find disk s name b) with
                  | Some ino => Some ino
                  | None => dir_find disk s blocks name r
                  end
      | None => None
      end
  end.

(** Every block of the directory can be mapped, and is a hole or well formed. *)
Definition dir_wf (disk : Z -> Z -> list byte) (s : Ext2Fs) (blocks : list Z) (size : Z) : Prop :=
  forall i, 0 <= i < dir_blocks s size -> exists b, bmap disk s blocks i = Some b /\ (b = 0 \/ block_wf disk s b).

Section Lookup.
Context `{KE : KernelErrno, KP : KernelErrPtr, BC : BlockCache, VA : VecAlloc}.
Context `{VK : VfsKernel INodeData} (disk : Z -> Z -> list byte).
Context {BCO : BlockCacheOk BC KP disk} {SP : SinglePageFolios BC KP} {BL : BlockCacheLive BC KP}.
Context (TABLES : Tables) (IOMAP_AOPS : Z).
Implicit Types w : World (VW INodeData Ext2Fs).

(** Mapping the directory block at [n * block_size]. *)
Lemma dir_block_spec w s inode blocks size n b :
  mounted w s inode blocks size -> 0 <= n -> n * block_size s < 2 ^ 62 -> bmap disk s blocks n = Some b ->
  if b =? 0 then exists w', dir_block s inode (n * block_size s) w = (Ok None, w') /\ untouched w w'
  else exists mf w', dir_block s inode (n * block_size s) w = (Ok (Some mf), w') /\
         page_read disk (e_mapper s) (b * block_size s) mf w w'.
Proof.
  intros Hm Hn Hlt Hb. pose proof (page_block_size_cases _ (mt_block_size _ _ _ _ _ Hm)) as Hbs.
  destruct (offset_to_block_spec disk w s inode blocks size n Hm ltac:(nia)) as (r & w1 & Ho & Hu & Hr).
  rewrite Hb in Hr. destruct Hr as [[->|(e & _ & Hl)] Hv]; [|done].
  assert (dir_block s inode (n * block_size s) w =
    (if b =? 0 then m_ret None
     else mf <-! mapped_folio (e_mapper s) (sext 64 (b * block_size s)) ;; m_ret (Some mf)) w1) as ->.
  { unfold dir_block, m_bind at 1, m_lift, i_div. destruct (block_size s =? 0) eqn:E0; [blia|].
    rewrite Z.quot_mul by lia. unfold m_bind at 1. by rewrite Ho. }
  destruct (b =? 0) eqn:Eb; [by exists w1|].
  unfold m_bind. rewrite sext_id by nia.
  destruct (mapped_folio_live disk (e_mapper s) (b * block_size s) w1 ltac:(nia)) as (mf & w2 & -> & Hrd).
  exists mf, w2. split; [done|]. destruct Hu as [Hu1 Hu2], Hrd. constructor; try done; congruence.
Qed.

(** The slice of a mapped directory block. *)
Lemma block_slice_walk s b mf w w' off : block_size s = PAGE_SIZE -> block_size s ∈ page_block_sizes -> 0 <= b -> 0 <= off ->
  page_read disk (e_mapper s) (b * block_size s) mf w w' ->
  exists d, mf_data mf = Ok d /\ sl_data d = sl_data (block_slice disk s b) /\
    forall fuel, dir_walk fuel d off = dir_walk fuel (block_slice disk s b) off.
Proof.
  intros Hpg Hb Hb0 Ho Hrd. destruct (rd_addr _ _ _ _ _ _ Hrd) as [Hr Hal].
  eexists. split; [apply (rd_data _ _ _ _ _ _ Hrd)|]. split; [by rewrite block_slice_page|]. intros fuel.
  destruct (block_in_page _ b Hb Hb0) as (Hin & _ & Hnn).
  pose proof (page_block_size_cases _ Hb). pose proof (Z.mod_pos_bound (b * block_size s) PAGE_SIZE ltac:(done)) as Hm.
  assert (lenZ (disk_tail disk (e_mapper s) (b * block_size s)) = PAGE_SIZE - (b * block_size s) mod PAGE_SIZE) as Hl
    by (apply disk_range_length; lia).
  pose proof (block_slice_page disk s b Hpg) as Hsl. unfold block_slice in *. cbn [sl_data] in Hsl. rewrite Hsl.
  clear Hsl Hpg. unfold PAGE_SIZE in *.
  apply dir_walk_addr; [done|lia|lia|lia|lia|].
  rewrite Z.add_mod by done. replace (mf_addr mf mod 4) with 0; [by rewrite Z.add_0_l, Z.mod_mod|].
  symmetry. Z.to_euclidean_division_equations. lia.
Qed.

Lemma lookup_block_wf s b d name : block_wf disk s b ->
  sl_data d = sl_data (block_slice disk s b) ->
  (forall fuel, dir_walk fuel d 0 = dir_walk fuel (block_slice disk s b) 0) ->
  lookup_block (walk_fuel d) d name 0 = Ok (block_find disk s name b).
Proof.
  intros [Hok Hfit] Hd Hw. pose proof (lenZ_nonneg (sl_data d)).
  rewrite lookup_block_walk by (unfold walk_fuel, lenZ in *; lia).
  unfold block_walk in *. unfold walk_fuel in *. rewrite Hd, Hw. unfold block_find, block_walk, walk_fuel.
  destruct (dir_walk _ (block_slice disk s b) 0) as [l ok]. cbn [fst snd] in *. subst ok.
  assert (forall r, rec_fits d r = rec_fits (block_slice disk s b) r) as Hf
    by (intros r; unfold rec_fits; by rewrite Hd).
  assert (forall r, rec_name d r = rec_name (block_slice disk s b) r) as Hn
    by (intros r; unfold rec_name; by rewrite Hd).
  rewrite find_name_wf by (eapply Forall_impl; [exact Hfit|]; intros r; by rewrite Hf).
  f_equal. f_equal. apply list_find_ext. intros r. by rewrite Hn.
Qed.

(** [lookup] once the entry was found in the block [mf]. *)
Definition lookup_found (dentry ino : Z) : FM (option Z) :=
  found <-! iget TABLES IOMAP_AOPS ino ;; splice_alias dentry (Some found).

(** One block of the directory. *)
Lemma lookup_step s inode blocks size dentry fuel w n b :
  mounted w s inode blocks size -> block_size s = PAGE_SIZE -> 0 <= n -> size < 2 ^ 62 -> n * block_size s < size ->
  bmap disk s blocks n = Some b -> (b = 0 \/ block_wf disk s b) ->
  (exists w1, untouched w w1 /\ (if b =? 0 then None else block_find disk s (dentry_name dentry) b) = None /\
     lookup_loop TABLES IOMAP_AOPS (S fuel) s inode dentry size (n * block_size s) w =
     lookup_loop TABLES IOMAP_AOPS fuel s inode dentry size ((n + 1) * block_size s) w1) \/
  (exists ino mf w1, w_held w1 = mf_folio mf :: w_held w /\ w_ext w1 = w_ext w /\
     (if b =? 0 then None else block_find disk s (dentry_name dentry) b) = Some ino /\
     lookup_loop TABLES IOMAP_AOPS (S fuel) s inode dentry size (n * block_size s) w =
     scoped mf (lookup_found dentry ino) w1).
Proof.
  intros Hm Hpg Hn Hsz Hlt Hb Hbw. pose proof (page_block_size_cases _ (mt_block_size _ _ _ _ _ Hm)) as Hbs.
  pose proof (dir_block_spec w s inode blocks size n b Hm Hn ltac:(lia) Hb) as Hdb.
  assert (sext 64 (n * block_size s + block_size s) = (n + 1) * block_size s) as Hnext
    by (rewrite sext_id by lia; lia).
  destruct (b =? 0) eqn:Eb.
  { destruct Hdb as (w1 & Hdb & Hu). left. exists w1. split; [done|]. split; [done|].
    cbn [lookup_loop]. destruct (_ <? size) eqn:E; [|blia]. unfold m_bind at 1. by rewrite Hdb, Hnext. }
  destruct Hdb as (mf & w1 & Hdb & Hrd). destruct Hbw as [->|Hbw]; [done|].
  assert (0 <= b) as Hb0.
  { destruct (offset_to_block_spec disk w s inode blocks size n Hm ltac:(nia)) as (? & ? & _ & _ & Hv).
    rewrite Hb in Hv. lia. }
  destruct (block_slice_walk s b mf w w1 0 Hpg (mt_block_size _ _ _ _ _ Hm) Hb0 ltac:(done) Hrd) as (d & Hd & Hsl & Hw).
  pose proof (lookup_block_wf s b d (dentry_name dentry) Hbw Hsl Hw) as Hlk.
  destruct (block_find disk s (dentry_name dentry) b) as [ino|].
  - right. exists ino, mf, w1. split; [apply (rd_held _ _ _ _ _ _ Hrd)|]. split; [apply (rd_ext _ _ _ _ _ _ Hrd)|].
    split; [done|]. cbn [lookup_loop]. destruct (_ <? size) eqn:E; [|blia]. unfold m_bind at 1. rewrite Hdb, Hd.
    unfold lookup_found, scoped, m_bind, m_ret, m_lift. rewrite Hlk.
    destruct (iget TABLES IOMAP_AOPS ino w1) as [[f|e| | |] w2]; try done.
    destruct (splice_alias dentry (Some f) w2) as [[f'|e| | |] w3]; done.
  - left. exists (mf_drop mf w1). split; [|split; [done|]].
    + unfold mf_drop. split; cbn; [|apply (rd_ext _ _ _ _ _ _ Hrd)].
      rewrite (rd_held _ _ _ _ _ _ Hrd). by rewrite release_head.
    + cbn [lookup_loop]. destruct (_ <? size) eqn:E; [|blia]. unfold m_bind at 1. rewrite Hdb, Hd.
      unfold scoped, m_bind, m_ret, m_lift. by rewrite Hlk, Hnext.
Qed.

Lemma lookup_loop_spec s inode blocks size dentry fuel w n k :
  mounted w s inode blocks size -> block_size s = PAGE_SIZE -> 0 <= n -> size < 2 ^ 62 -> dir_wf disk s blocks size ->
  Z.of_nat k = Z.max 0 (dir_blocks s size - n) -> (k < fuel)%nat ->
  match dir_find disk s blocks (dentry_name dentry) (seqZ n (Z.of_nat k)) with
  | None => exists w1, untouched w w1 /\
      lookup_loop TABLES IOMAP_AOPS fuel s inode dentry size (n * block_size s) w = splice_alias dentry None w1
  | Some ino => exists mf w1, w_held w1 = mf_folio mf :: w_held w /\ w_ext w1 = w_ext w /\
      lookup_loop TABLES IOMAP_AOPS fuel s inode dentry size (n * block_size s) w =
        scoped mf (lookup_found dentry ino) w1
  end.
Proof.
  revert fuel w n. induction k as [|k IH]; intros fuel w n Hm Hpg Hn Hsz Hwf Hk Hf; (destruct fuel as [|fuel]; [lia|]);
    pose proof (page_block_size_cases _ (mt_block_size _ _ _ _ _ Hm)) as Hbs;
    pose proof (dir_blocks_lt s size n ltac:(lia)) as Hlt.
  { cbn [Z.of_nat]. exists w. split; [done|]. cbn [lookup_loop].
    destruct (n * block_size s <? size) eqn:E; [|done]. blia. }
  rewrite seqZ_cons by lia. cbn [dir_find]. destruct (Hwf n ltac:(lia)) as (b & Hb & Hbw).
  replace (Z.pred (Z.of_nat (S k))) with (Z.of_nat k) by lia. replace (Z.succ n) with (n + 1) by lia.
  rewrite Hb. destruct (lookup_step s inode blocks size dentry fuel w n b Hm Hpg Hn Hsz ltac:(lia) Hb Hbw)
    as [(w1 & Hu & -> & ->)|(ino & mf & w1 & H1 & H2 & -> & H3)].
  - specialize (IH fuel w1 (n + 1) (mounted_untouched _ _ _ _ _ _ Hm Hu) Hpg ltac:(lia) Hsz Hwf ltac:(lia) ltac:(lia)).
    destruct (dir_find _ _ _ _ _) as [ino|].
    + destruct IH as (mf & w2 & H1 & H2 & H3), Hu as [Hu1 Hu2]. exists mf, w2. by rewrite <- Hu1, <- Hu2.
    + destruct IH as (w2 & H1 & H3). exists w2. split; [by etrans|done].
  - by exists mf, w1.
Qed.

(** C14. On a filesystem with blocks of a page, 4 KiB, [lookup] finds exactly what is in the
    directory: over all blocks in order, holes skipped, it loads the inode of the first entry in use whose name is
    the one asked for (and attaches it to the dentry), and attaches a negative
    dentry when there is none. The search always ends, and leaves nothing
    mapped but the block of the entry it found, until that is done with.  (With
    blocks of 1 or 2 KiB the code searches the rest of the block's page too.) *)
Theorem lookup_finds_entry w s parent dentry blocks size :
  mounted w s parent blocks size -> block_size s = PAGE_SIZE -> 0 <= size < 2 ^ 62 -> dir_wf disk s blocks size ->
  match dir_find disk s blocks (dentry_name dentry) (seqZ 0 (dir_blocks s size)) with
  | Some ino => exists mf w1, w_held w1 = mf_folio mf :: w_held w /\ w_ext w1 = w_ext w /\
      lookup TABLES IOMAP_AOPS parent dentry w = scoped mf (lookup_found dentry ino) w1
  | None => exists w1, untouched w w1 /\
      lookup TABLES IOMAP_AOPS parent dentry w = splice_alias dentry None w1
  end.
Proof.
  intros Hm Hpg Hsz Hwf. pose proof (page_block_size_cases _ (mt_block_size _ _ _ _ _ Hm)) as Hbs.
  destruct (mt_inode _ _ _ _ _ Hm) as (k & Hi & Hk).
  assert (lookup TABLES IOMAP_AOPS parent dentry w =
    lookup_loop TABLES IOMAP_AOPS (dir_fuel s size) s parent dentry size (0 * block_size s) w) as ->.
  { unfold lookup, m_bind. rewrite (sb_data_ok _ _ (mt_data _ _ _ _ _ Hm)), (inode_size_ok _ _ _ _ Hi), Hk. done. }
  assert (0 <= dir_blocks s size <= size / block_size s + 1) as Hn.
  { unfold dir_blocks. split; [apply Z.div_pos; lia|].
    rewrite <- Z.div_add by lia. apply Z.div_le_mono; lia. }
  pose proof (lookup_loop_spec s parent blocks size dentry (dir_fuel s size) w 0 (Z.to_nat (dir_blocks s size))
    Hm Hpg ltac:(lia) ltac:(lia) Hwf ltac:(lia) ltac:(unfold dir_fuel; lia)) as H.
  rewrite Z2Nat.id in H by lia. exact H.
Qed.

End Lookup.

(** Searching a directory block is total on arbitrary bytes: whatever a
    corrupt block contains, the walk ends within the block, no index is out of
    range, and the answer is "not found", an entry whose record and name lie
    inside the block, or [EIO] for a misaligned record. *)
Theorem lookup_block_total `{KernelErrno} d name :
  match lookup_block (walk_fuel d) d name 0 with
  | Ok None => True
  | Ok (Some ino) => exists r, r ∈ (dir_walk (walk_fuel d) d 0).1 /\ rec_live d r = true /\
      rec_name d r = name /\ df r.2 "inode" = ino
  | Err e => e = EIO
  | _ => False
  end.
Proof.
  rewrite lookup_block_walk by (unfold walk_fuel, lenZ; lia).
  destruct (dir_walk (walk_fuel d) d 0) as [l ok]. cbn [fst].
  induction l as [|r l IH]; cbn [find_name]; [by destruct ok|].
  destruct (rec_fits d r) eqn:Ef; cbn [negb]; [|done].
  destruct (negb (df r.2 "inode" =? 0) && bool_decide (rec_name d r = name)) eqn:Em.
  - apply andb_true_iff in Em as [E1 E2]. apply bool_decide_eq_true in E2.
    exists r. split; [left|]. unfold rec_live. rewrite E1, Ef. done.
  - destruct (find_name d name l ok) as [[ino|]|e| | |]; try done.
    destruct IH as (r' & H1 & H2). exists r'. split; [by right|done].
Qed.

(** ** Reading a directory *)

(** The entries [read_dir] lists, with the length of their records. *)
Definition rec_entry (s : Ext2Fs) (d : bslice) (r : Z * DirEntry) : dirent * Z :=
  (mkDirent (rec_name d r) (df r.2 "inode") (entry_type s (df r.2 "file_type")), df r.2 "rec_len").

Definition block_entries (s : Ext2Fs) (d : bslice) (l : list (Z * DirEntry)) : list (dirent * Z) :=
  rec_entry s d <$> List.filter (rec_live d) l.

Lemma block_entries_data s d d' l : sl_data d = sl_data d' -> block_entries s d l = block_entries s d' l.
Proof.
  intros Hd. unfold block_entries. induction l as [|r l IH]; [done|]. cbn [List.filter].
  assert (rec_live d r = rec_live d' r) as -> by (unfold rec_live, rec_fits; by rewrite Hd).
  assert (rec_entry s d r = rec_entry s d' r) as He by (unfold rec_entry, rec_name; by rewrite Hd).
  destruct (rec_live d' r); [|done]. rewrite !fmap_cons, IH, He. done.
Qed.

Fixpoint dir_listing (disk : Z -> Z -> list byte) (s : Ext2Fs) (blocks : list Z) (idxs : list Z) : list (dirent * Z) :=
  match idxs with
  | [] => []
  | i :: r =>
      match bmap disk s blocks i with
      | Some b => (if b =? 0 then [] else block_entries s (block_slice disk s b) (block_walk disk s b).1)
                  ++ dir_listing disk s blocks r
      | None => []
      end
  end.

Section ReadDir.
Context `{KE : KernelErrno, KP : KernelErrPtr, BC : BlockCache, VA : VecAlloc}.
Context `{VK : VfsKernel INodeData} {VKO : VfsKernelOk INodeData VK}.
Implicit Types w : World (VW INodeData Ext2Fs).

Lemma emit_block_spec s d fuel off w :
  0 <= off <= lenZ (sl_data d) -> lenZ (sl_data d) - off < Z.of_nat fuel ->
  - 2 ^ 63 <= v_pos (w_ext w) -> v_pos (w_ext w) + (lenZ (sl_data d) - off) < 2 ^ 63 ->
  let es := block_entries s d (dir_walk fuel d off).1 in
  exists r w' k, emit_block fuel s d off w = (r, w') /\ emits (take k es) w w' /\
    match r with
    | Ok true => k = length es /\ (dir_walk fuel d off).2 = true
    | Ok false => (k < length es)%nat /\ ~ NeverFull
    | Err e => e = EIO /\ (dir_walk fuel d off).2 = false /\ k = length es
    | _ => False
    end.
Proof.
  revert off w. induction fuel as [|fuel IH]; intros off w Ho Hf Hp Hq; [lia|].
  cbn [emit_block dir_walk]. destruct (off <? walk_limit d) eqn:El.
  2: { exists (Ok true), w, 0%nat. split; [done|]. split; [apply emits_refl|done]. }
  unfold m_bind at 1, m_lift at 1. destruct (@from_bytes DirEntry _ d off) as [de|]; cbn [ok_or].
  2: { exists (Err EIO), w, 0%nat. split; [done|]. split; [apply emits_refl|done]. }
  destruct ((df de "rec_len" =? 0) || (lenZ (sl_data d) <? off + df de "rec_len")) eqn:Er.
  1: { exists (Ok true), w, 0%nat. split; [done|]. split; [apply emits_refl|done]. }
  pose proof (df_nonneg de "rec_len") as Hr0. pose proof (df_nonneg de "name_len") as Hn. zify_bools.
  specialize (IH (off + df de "rec_len")).
  destruct (dir_walk fuel d (off + df de "rec_len")) as [l ok]. cbn [fst snd] in *.
  unfold block_entries. cbn [List.filter].
  assert (rec_live d (off, de) =
    negb ((df de "inode" =? 0) || (lenZ (sl_data d) <? off + size_of_DirEntry + df de "name_len"))) as ->.
  { unfold rec_live, rec_fits. cbn [fst snd]. by rewrite negb_orb, Z.leb_antisym. }
  destruct ((df de "inode" =? 0) || (lenZ (sl_data d) <? off + size_of_DirEntry + df de "name_len")) eqn:Es;
    cbn [negb].
  { apply IH; lia. }
  rewrite DirEntry_size in *. zify_bools. unfold m_bind at 1, m_lift at 1. rewrite slice_ok by lia.
  replace (off + 8 + df de "name_len" - (off + 8)) with (df de "name_len") by lia.
  set (nm := take _ _). unfold m_bind.
  destruct (emit_spec (df de "rec_len") nm (df de "inode") (entry_type s (df de "file_type")) w
    ltac:(lia) ltac:(lia) ltac:(lia)) as (b & w1 & He & Hnf & Hem).
  rewrite He. rewrite fmap_cons. fold (block_entries s d l). destruct b; cbn [negb].
  - assert (rec_entry s d (off, de) = (mkDirent nm (df de "inode") (entry_type s (df de "file_type")), df de "rec_len"))
      as -> by done.
    pose proof (em_pos _ _ _ Hem) as Hpos. unfold rec_sum in Hpos. cbn [foldr snd] in Hpos.
    destruct (IH w1 ltac:(lia) ltac:(lia) ltac:(lia) ltac:(lia)) as (r & w' & k & Hr1 & Hr2 & Hr3).
    exists r, w', (S k). split; [done|]. split; [exact (emits_trans _ _ _ _ _ Hem Hr2)|].
    cbn [length]. destruct r as [[]|e| | |]; try done.
    + destruct Hr3 as [-> ?]. done.
    + destruct Hr3 as [? ?]. split; [lia|done].
    + destruct Hr3 as (? & ? & ->). done.
  - exists (Ok false), w1, 0%nat. split; [done|]. split; [exact Hem|]. cbn [length]. split; [lia|].
    by apply Hnf.
Qed.

Context (disk : Z -> Z -> list byte).
Context {BCO : BlockCacheOk BC KP disk} {SP : SinglePageFolios BC KP} {BL : BlockCacheLive BC KP}.

Lemma mounted_emits es w w' s inode blocks size :
  mounted w s inode blocks size -> emits es w w' -> mounted w' s inode blocks size.
Proof. intros [H1 H2 H3 H4 H5] [E1 E2 E3 E4 E5]. constructor; try done; congruence || (by rewrite E2). Qed.

(** One block of the directory. *)
Lemma read_dir_step s inode blocks size fuel w n b :
  mounted w s inode blocks size -> block_size s = PAGE_SIZE -> 0 <= n -> size < 2 ^ 62 -> n * block_size s < size ->
  bmap disk s blocks n = Some b -> (b = 0 \/ block_wf disk s b) ->
  0 <= v_pos (w_ext w) < 2 ^ 62 ->
  let es := if b =? 0 then [] else block_entries s (block_slice disk s b) (block_walk disk s b).1 in
  (exists w1, emits es w w1 /\
     read_dir_loop (S fuel) s inode size (n * block_size s) w =
     read_dir_loop fuel s inode size ((n + 1) * block_size s) w1) \/
  (exists k w1, (k < length es)%nat /\ emits (take k es) w w1 /\ ~ NeverFull /\
     read_dir_loop (S fuel) s inode size (n * block_size s) w = (Ok tt, w1)).
Proof.
  intros Hm Hpg Hn Hsz Hlt Hb Hbw Hp. pose proof (page_block_size_cases _ (mt_block_size _ _ _ _ _ Hm)) as Hbs.
  pose proof (dir_block_spec disk w s inode blocks size n b Hm Hn ltac:(lia) Hb) as Hdb.
  assert (sext 64 (n * block_size s + block_size s) = (n + 1) * block_size s) as Hnext
    by (rewrite sext_id by lia; lia).
  assert (sext 64 (n * block_size s ÷ block_size s * block_size s) = n * block_size s) as Hst
    by (rewrite Z.quot_mul by lia; apply sext_id; lia).
  destruct (b =? 0) eqn:Eb.
  { destruct Hdb as (w1 & Hdb & Hu). left. exists w1. split; [by apply emits_untouched|].
    cbn [read_dir_loop]. destruct (_ <? size) eqn:E; [|blia]. unfold m_bind at 1. by rewrite Hdb, Hnext. }
  destruct Hdb as (mf & w1 & Hdb & Hrd). destruct Hbw as [->|Hbw]; [done|].
  assert (0 <= b) as Hb0.
  { destruct (offset_to_block_spec disk w s inode blocks size n Hm ltac:(nia)) as (? & ? & _ & _ & Hv).
    rewrite Hb in Hv. lia. }
  destruct (block_slice_walk disk s b mf w w1 0 Hpg (mt_block_size _ _ _ _ _ Hm) Hb0 ltac:(done) Hrd) as (d & Hd & Hsl & Hw).
  assert (lenZ (sl_data d) <= 4096) as Hlen.
  { rewrite Hsl. cbn [block_slice sl_data]. rewrite disk_range_length; unfold PAGE_SIZE in *; lia. }
  pose proof (lenZ_nonneg (sl_data d)) as Hl0. pose proof (rd_ext _ _ _ _ _ _ Hrd) as Hext.
  destruct (emit_block_spec s d (walk_fuel d) 0 w1 ltac:(lia) ltac:(unfold walk_fuel, lenZ in *; lia)
    ltac:(rewrite Hext; lia) ltac:(rewrite Hext; lia)) as (r & w2 & k & Hr1 & Hr2 & Hr3).
  assert (dir_walk (walk_fuel d) d 0 = block_walk disk s b) as Hbk
    by (unfold block_walk, walk_fuel; by rewrite Hsl, Hw).
  rewrite Hbk, (block_entries_data s d _ _ Hsl) in Hr2, Hr3. destruct Hbw as [Hok _].
  assert (emits (take k (block_entries s (block_slice disk s b) (block_walk disk s b).1)) w (mf_drop mf w2)) as Hem.
  { destruct Hr2 as [Hheld ? ? ? ?]. constructor; cbn; rewrite ?Hext in *; try done.
    rewrite Hheld, (rd_held _ _ _ _ _ _ Hrd). by rewrite release_head. }
  assert (read_dir_loop (S fuel) s inode size (n * block_size s) w =
    match r with
    | Ok true => read_dir_loop fuel s inode size ((n + 1) * block_size s) (mf_drop mf w2)
    | Ok false => (Ok tt, mf_drop mf w2)
    | Err e => (Err e, mf_drop mf w2)
    | Panic => (Panic, mf_drop mf w2) | Ub => (Ub, mf_drop mf w2) | Pending => (Pending, mf_drop mf w2)
    end) as Heq.
  { cbn [read_dir_loop]. destruct (_ <? size) eqn:E; [|blia]. unfold m_bind at 1. rewrite Hdb, Hst, Hnext, Hd.
    rewrite Z.ltb_irrefl. unfold scoped, m_bind, m_lift, m_ret. rewrite Hr1.
    by destruct r as [[]|e| | |]. }
  destruct r as [[]|e| | |]; try done.
  - left. exists (mf_drop mf w2). destruct Hr3 as [-> _]. rewrite firstn_all in Hem. done.
  - right. exists k, (mf_drop mf w2). destruct Hr3. done.
  - destruct Hr3 as (_ & Hno & _). congruence.
Qed.

Lemma block_entries_nonneg s d l : Forall (fun e : dirent * Z => 0 <= e.2) (block_entries s d l).
Proof. apply Forall_fmap, Forall_true. intros r. apply df_nonneg. Qed.

Lemma dir_listing_nonneg s blocks idxs : 0 <= rec_sum (dir_listing disk s blocks idxs).
Proof.
  apply rec_sum_nonneg. induction idxs as [|i idxs IH]; cbn [dir_listing]; [constructor|].
  destruct (bmap disk s blocks i) as [b|]; [|constructor]. apply Forall_app. split; [|done].
  destruct (b =? 0); [constructor|apply block_entries_nonneg].
Qed.

Lemma read_dir_loop_spec s inode blocks size fuel w n k :
  mounted w s inode blocks size -> block_size s = PAGE_SIZE -> 0 <= n -> size < 2 ^ 62 -> dir_wf disk s blocks size ->
  Z.of_nat k = Z.max 0 (dir_blocks s size - n) -> (k < fuel)%nat ->
  let es := dir_listing disk s blocks (seqZ n (Z.of_nat k)) in
  0 <= v_pos (w_ext w) -> v_pos (w_ext w) + rec_sum es < 2 ^ 62 ->
  exists j w', read_dir_loop fuel s inode size (n * block_size s) w = (Ok tt, w') /\
    emits (take j es) w w' /\ (NeverFull -> (length es <= j)%nat).
Proof.
  revert fuel w n. induction k as [|k IH]; intros fuel w n Hm Hpg Hn Hsz Hwf Hk Hf es Hp Hs; (destruct fuel as [|fuel]; [lia|]);
    pose proof (page_block_size_cases _ (mt_block_size _ _ _ _ _ Hm)) as Hbs;
    pose proof (dir_blocks_lt s size n ltac:(lia)) as Hlt.
  { exists 0%nat, w. cbn [read_dir_loop]. destruct (n * block_size s <? size) eqn:E; [blia|].
    split; [done|]. split; [apply emits_refl|]. intros _. change (0 <= 0)%nat. lia. }
  destruct (Hwf n ltac:(lia)) as (b & Hb & Hbw).
  set (es1 := if b =? 0 then [] else block_entries s (block_slice disk s b) (block_walk disk s b).1) in *.
  assert (es = es1 ++ dir_listing disk s blocks (seqZ (n + 1) (Z.of_nat k))) as Hes.
  { subst es. rewrite seqZ_cons by lia. cbn [dir_listing]. rewrite Hb.
    replace (Z.pred (Z.of_nat (S k))) with (Z.of_nat k) by lia. replace (Z.succ n) with (n + 1) by lia. done. }
  assert (0 <= rec_sum es1) as H0.
  { apply rec_sum_nonneg. subst es1. destruct (b =? 0); [constructor|apply block_entries_nonneg]. }
  rewrite Hes in Hs |- *. rewrite rec_sum_app in Hs.
  pose proof (dir_listing_nonneg s blocks (seqZ (n + 1) (Z.of_nat k))) as Hd1.
  pose proof (read_dir_step s inode blocks size fuel w n b Hm Hpg Hn Hsz ltac:(lia) Hb Hbw ltac:(lia)) as Hst.
  cbv zeta in Hst. fold es1 in Hst. destruct Hst as [(w1 & He & ->)|(j & w1 & Hj & He & Hnf & ->)].
  - pose proof (em_pos _ _ _ He) as Hpos.
    destruct (IH fuel w1 (n + 1) (mounted_emits _ _ _ _ _ _ _ Hm He) Hpg ltac:(lia) Hsz Hwf ltac:(lia) ltac:(lia)
      ltac:(lia) ltac:(lia)) as (j & w' & Hr & He2 & Hfull).
    exists (length es1 + j)%nat, w'. split; [done|]. split.
    + rewrite take_app_add. exact (emits_trans _ _ _ _ _ He He2).
    + intros HN. rewrite length_app. specialize (Hfull HN). lia.
  - exists j, w1. split; [done|]. split; [|done]. rewrite take_app_le by lia. done.
Qed.

(** C15. On a filesystem with blocks of a page, 4 KiB, reading a directory from its start hands the reader the directory's
    entries in order: names, inode numbers and types of every record in use of
    every block, holes and unused records left out; all of them unless the
    reader says it is full, and then exactly those it accepted.  The reader's
    position has moved by the records of the entries it accepted.  Reading
    always ends and releases every block.  (With blocks of 1 or 2 KiB the code lists
    the rest of the block's page too: [read_dir_reads_past_block].) *)
Theorem read_dir_lists w s inode blocks size :
  mounted w s inode blocks size -> block_size s = PAGE_SIZE -> 0 <= size < 2 ^ 62 -> dir_wf disk s blocks size ->
  v_pos (w_ext w) = 0 ->
  let es := dir_listing disk s blocks (seqZ 0 (dir_blocks s size)) in
  rec_sum es < 2 ^ 62 ->
  exists k w', read_dir inode w = (Ok tt, w') /\ w_held w' = w_held w /\
    emitted (v_kern (w_ext w')) = emitted (v_kern (w_ext w)) ++ (take k es).*1 /\
    v_pos (w_ext w') = rec_sum (take k es) /\ (NeverFull -> take k es = es).
Proof.
  intros Hm Hpg Hsz Hwf Hp es Hs. pose proof (page_block_size_cases _ (mt_block_size _ _ _ _ _ Hm)) as Hbs.
  destruct (mt_inode _ _ _ _ _ Hm) as (k & Hi & Hk).
  assert (read_dir inode w = read_dir_loop (dir_fuel s size) s inode size (0 * block_size s) w) as ->.
  { unfold read_dir, m_bind. rewrite (sb_data_ok _ _ (mt_data _ _ _ _ _ Hm)), (inode_size_ok _ _ _ _ Hi), Hk.
    unfold emitter_pos, with_vw. destruct w as [? ? []]. cbn in *. by rewrite Hp. }
  assert (0 <= dir_blocks s size <= size / block_size s + 1) as Hn.
  { unfold dir_blocks. split; [apply Z.div_pos; lia|].
    rewrite <- Z.div_add by lia. apply Z.div_le_mono; lia. }
  destruct (read_dir_loop_spec s inode blocks size (dir_fuel s size) w 0 (Z.to_nat (dir_blocks s size))
    Hm Hpg ltac:(lia) ltac:(lia) Hwf ltac:(lia) ltac:(unfold dir_fuel; lia)) as (j & w' & Hr & He & Hfull).
  { lia. }
  { rewrite Z2Nat.id by lia. fold es. lia. }
  rewrite Z2Nat.id in He, Hfull by lia. fold es in He, Hfull.
  exists j, w'. split; [done|]. split; [apply (em_held _ _ _ He)|]. split; [apply (em_out _ _ _ He)|].
  split; [rewrite (em_pos _ _ _ He), Hp; lia|]. intros HN. apply take_ge. auto.
Qed.

End ReadDir.
