(* ===== verification/Ext2Mount.v ===== *)
(** * ext2: resources, mounting and inode loading

    First the resource discipline of the whole filesystem: no operation keeps a
    folio or touches the per-superblock data, on any path and for any device
    ([keeps]).  Then what a successful mount guarantees ([fill_super]) and what
    [iget] puts in an inode. *)
From Stdlib Require Import ZArith Lia Bool.
From Stdlib.Strings Require Import Byte String.
From stdpp Require Import base list option numbers gmap.
From S2P Require Import Prelude Errors KVec LeBytes Mapper Vfs Emits Keeps Ext2 Ext2Blocks Ext2Dir.

Section Ext2Keeps.
Context `{KE : KernelErrno, KP : KernelErrPtr, BC : BlockCache, VA : VecAlloc}.
Context `{VK : VfsKernel INodeData} (TABLES : Tables) (IOMAP_AOPS : Z).

Lemma indirect_keeps s ix b : keeps (indirect s ix b).
Proof. revert b. induction ix as [|i r IH]; intros b; cbn [indirect]; keeps. Qed.

#[local] Hint Resolve indirect_keeps : keeps.

Lemma offset_to_block_keeps i b : keeps (offset_to_block i b).
Proof. unfold offset_to_block. keeps. Qed.
#[local] Hint Resolve offset_to_block_keeps : keeps.

Lemma begin_keeps i p l m : keeps (begin i p l m).
Proof. unfold begin. keeps. Qed.

Lemma push_groups_keeps sl gs n : keeps (push_groups sl gs n).
Proof. revert gs n. induction sl as [|g r IH]; intros gs n; cbn [push_groups]; keeps. Qed.
#[local] Hint Resolve push_groups_keeps : keeps.

Lemma read_groups_keeps fuel m o n gs : keeps (read_groups fuel m o n gs).
Proof.
  revert o n gs. induction fuel as [|fuel IH]; intros o n gs; cbn [read_groups]; [keeps|].
  destruct (0 <? n); [|keeps]. apply keeps_mapped_bind; intros; keeps.
Qed.
#[local] Hint Resolve read_groups_keeps : keeps.

Lemma fill_super_from_keeps m s ro : keeps (fill_super_from m s ro).
Proof. unfold fill_super_from. keeps. Qed.
#[local] Hint Resolve fill_super_from_keeps : keeps.

Lemma fill_super_keeps : keeps fill_super.
Proof. unfold fill_super. keeps. Qed.

Lemma load_inode_keeps s g o n : keeps (load_inode TABLES IOMAP_AOPS s g o n).
Proof. unfold load_inode. keeps. Qed.
#[local] Hint Resolve load_inode_keeps : keeps.

Lemma iget_keeps n : keeps (iget TABLES IOMAP_AOPS n).
Proof. unfold iget. keeps. Qed.
#[local] Hint Resolve iget_keeps : keeps.

Lemma init_root_keeps : keeps (init_root TABLES IOMAP_AOPS).
Proof. unfold init_root. keeps. Qed.

(** A mapped directory block that the caller releases. *)
Lemma keeps_dir_block {A C} s inode pos (k0 : FM A) (k : MappedFolio -> FM C) (j : C -> FM A) :
  keeps k0 -> (forall b, keeps (k b)) -> (forall a, keeps (j a)) ->
  keeps (ob <-! dir_block s inode pos ;;
         match ob with None => k0 | Some b => a <-! scoped b (k b) ;; j a end).
Proof.
  intros H0 Hk Hj w.
  assert (forall off, keeps (b <-! mapped_folio (e_mapper s) off ;; a <-! scoped b (k b) ;; j a)) as Hm
    by (intros; by apply keeps_mapped_bind).
  unfold dir_block, m_bind at 1 2, m_lift. destruct (i_div pos (block_size s)) as [idx|e| | |]; try done.
  unfold m_bind at 1. pose proof (offset_to_block_keeps inode idx w) as Ho.
  destruct (offset_to_block inode idx w) as [[b|e| | |] w1]; try done.
  etrans; [exact Ho|]. destruct (b =? 0); [apply H0|].
  specialize (Hm (sext 64 (b * block_size s)) w1). unfold m_bind at 1 2 in Hm. unfold m_bind at 1.
  destruct (mapped_folio (e_mapper s) (sext 64 (b * block_size s)) w1) as [[mf|e| | |] w2]; exact Hm.
Qed.

Lemma lookup_loop_keeps fuel s p d sz pos : keeps (lookup_loop TABLES IOMAP_AOPS fuel s p d sz pos).
Proof.
  revert pos. induction fuel as [|fuel IH]; intros pos; cbn [lookup_loop]; [keeps|].
  destruct (pos <? sz); [|keeps]. apply keeps_dir_block; intros; keeps.
Qed.

Lemma lookup_keeps p d : keeps (lookup TABLES IOMAP_AOPS p d).
Proof. unfold lookup. keeps. apply lookup_loop_keeps. Qed.

Lemma emit_block_keeps fuel s d off : keeps (emit_block fuel s d off).
Proof. revert off. induction fuel as [|fuel IH]; intros off; cbn [emit_block]; keeps. Qed.
#[local] Hint Resolve emit_block_keeps : keeps.

Lemma read_dir_loop_keeps fuel s i sz pos : keeps (read_dir_loop fuel s i sz pos).
Proof.
  revert pos. induction fuel as [|fuel IH]; intros pos; cbn [read_dir_loop]; [keeps|].
  destruct (pos <? sz); [|keeps]. apply keeps_dir_block; intros; keeps.
Qed.

Lemma read_dir_keeps i : keeps (read_dir i).
Proof. unfold read_dir. keeps. apply read_dir_loop_keeps. Qed.

(** C16. No operation of the filesystem leaks a page-cache folio or disturbs the
    mounted data, on any path: whatever the device and the kernel answer
    (failed reads, corrupt structures, refused allocations), after mounting,
    loading an inode, creating the root, looking up a name, reading a directory
    or mapping a file block the folios held are those held before. *)
Theorem ext2_releases_folios w ino parent dentry inode pos len map :
  kept w (fill_super w).2 /\ kept w (iget TABLES IOMAP_AOPS ino w).2 /\
  kept w (init_root TABLES IOMAP_AOPS w).2 /\ kept w (lookup TABLES IOMAP_AOPS parent dentry w).2 /\
  kept w (read_dir inode w).2 /\ kept w (begin inode pos len map w).2.
Proof.
  split_and!; [apply fill_super_keeps|apply iget_keeps|apply init_root_keeps|apply lookup_keeps|
               apply read_dir_keeps|apply begin_keeps].
Qed.

(** The mount callback's contract holds for ext2. *)
Lemma ext2_fs_info : FsInfoPreserved (FS := ext2_fs TABLES IOMAP_AOPS).
Proof. constructor; intros w; [apply fill_super_keeps|apply init_root_keeps]. Qed.

End Ext2Keeps.

(** ** Mounting *)
#[global] Instance Super_from_bytes_ok : FromBytesOk Super.
Proof. by constructor. Qed.
#[global] Instance Group_from_bytes_ok : FromBytesOk Group.
Proof. by constructor. Qed.
#[global] Instance DInode_from_bytes_ok : FromBytesOk DInode.
Proof. by constructor. Qed.

(** The sizes of the on-disk structures. *)
Lemma ext2_struct_sizes :
  struct_size Super_fields = 1024 /\ struct_size Group_fields = 32 /\
  struct_size DInode_fields = 128 /\ struct_size DirEntry_fields = 8.
Proof. done. Qed.

Lemma sf_nonneg s f : 0 <= sf s f.
Proof. unfold sf, field. destruct (assoc f _) as [[o t]|]; [|done]. apply le_decode_range. Qed.
Lemma sf_u32 s f o : assoc f (layout_from 0 Super_fields).1 = Some (o, FInt 4) -> 0 <= sf s f < 2 ^ 32.
Proof.
  intros Ha. unfold sf, field. rewrite Ha. pose proof (le_decode_range (sub_bytes (super_raw s) o (fty_size (FInt 4)))) as [H0 H1].
  split; [done|]. eapply Z.lt_le_trans; [exact H1|]. change (2 ^ 32) with (256 ^ 4). apply Z.pow_le_mono_r; [lia|].
  unfold sub_bytes, lenZ. rewrite length_take. cbn. lia.
Qed.

(** The number of block groups the superblock implies, as computed. *)
Definition group_count (s : Super) : Z :=
  wrap 32 (wrap 32 (wrap 32 (sf s "blocks_count" - sf s "first_data_block") - 1) / sf s "blocks_per_group" + 1).

(** The blocks of a filesystem are numbered from 0 to [blocks_count - 1], and group [i] is
    the [blocks_per_group] blocks from its first one on, the last group what is left.  What
    mounting checks of a block that the descriptor of group [i] points to: it is in the
    group, where the last group is taken to reach one block too far. *)
Definition first_block (s : Super) (i : Z) : Z := sf s "first_data_block" + i * sf s "blocks_per_group".
Definition checked_block (s : Super) (n i b : Z) : Prop :=
  first_block s i <= b /\ if decide (i = n - 1) then b <= sf s "blocks_count" else b < first_block s (i + 1).
Definition in_group (s : Super) (n i : Z) (g : Group) : Prop :=
  checked_block s n i (gf g "block_bitmap") /\ checked_block s n i (gf g "inode_bitmap") /\
  checked_block s n i (gf g "inode_table").

(** The arithmetic of the check does not wrap in a filesystem that has a block. *)
Lemma group_bounds s i : sf s "first_data_block" < sf s "blocks_count" -> 0 < sf s "blocks_per_group" ->
  0 <= i < group_count s ->
  wrap 32 (wrap 32 (wrap 32 i * sf s "blocks_per_group") + sf s "first_data_block") = first_block s i /\
  (i <> group_count s - 1 ->
   wrap 32 (wrap 32 (first_block s i + sf s "blocks_per_group") - 1) = first_block s (i + 1) - 1).
Proof.
  pose proof (sf_u32 s "first_data_block" _ eq_refl) as Hf. pose proof (sf_u32 s "blocks_count" _ eq_refl) as Hc.
  pose proof (sf_u32 s "blocks_per_group" _ eq_refl) as Hb.
  unfold first_block, group_count. set (fd := sf s "first_data_block") in *. set (bc := sf s "blocks_count") in *.
  set (bpg := sf s "blocks_per_group") in *. intros Hlt Hpos.
  rewrite (wrap_small 32 (bc - fd)), (wrap_small 32 (bc - fd - 1)) by lia.
  assert (0 <= (bc - fd - 1) / bpg <= bc - fd - 1) as Hq.
  { split; [apply Z.div_pos; lia|]. apply Z.div_le_upper_bound; [lia|]. nia. }
  pose proof (Z.mul_div_le (bc - fd - 1) bpg Hpos) as Hm. set (q := (bc - fd - 1) / bpg) in *. clearbody q.
  rewrite (wrap_small 32 (q + 1)) by lia. intros Hi.
  assert (0 <= i * bpg /\ i * bpg <= bc - fd - 1) as Him by nia.
  rewrite (wrap_small 32 i) by lia. rewrite (wrap_small 32 (i * bpg)) by lia. rewrite (wrap_small 32 (i * bpg + fd)) by lia. split; [lia|].
  intros Hne. assert ((i + 1) * bpg <= bc - fd - 1) by nia.
  rewrite (wrap_small 32 (fd + i * bpg + bpg)) by lia. rewrite wrap_small by lia. lia.
Qed.

Lemma check_descriptors_from_sound `{KernelErrno} s n i gs :
  sf s "first_data_block" < sf s "blocks_count" -> 0 < sf s "blocks_per_group" -> n = group_count s ->
  0 <= i -> i + lenZ gs <= n -> check_descriptors_from s n i gs = Ok tt ->
  forall j g, gs !! j = Some g -> in_group s n (i + Z.of_nat j) g.
Proof.
  intros Hlt Hpos Hn. revert i. induction gs as [|g gs IH]; intros i Hi Hl Hc j g' Hj; [done|].
  rewrite lenZ_cons in Hl. pose proof (lenZ_nonneg gs). cbn [check_descriptors_from] in Hc.
  destruct (group_bounds s i Hlt Hpos ltac:(lia)) as [Hf Hla]. rewrite Hf in Hc. cbv zeta in Hc.
  repeat match type of Hc with
  | (if ?c then Err _ else _) = _ => destruct c eqn:?; [done|]
  end.
  destruct j as [|j]; cbn in Hj.
  - injection Hj as <-. rewrite Z.add_0_r. unfold in_group, checked_block. destruct (decide (i = n - 1)) as [He|He].
    + rewrite (proj2 (Z.eqb_eq i (n - 1)) He) in *. blia.
    + rewrite (proj2 (Z.eqb_neq i (n - 1)) He) in *. rewrite Hla in * by lia. blia.
  - replace (i + Z.of_nat (S j)) with (i + 1 + Z.of_nat j) by lia. eapply IH; eauto; lia.
Qed.

Lemma check_descriptors_total `{KernelErrno} s n i gs :
  match check_descriptors_from s n i gs with Ok _ => True | Err e => e = EINVAL | _ => False end.
Proof.
  revert i. induction gs as [|g gs IH]; intros i; [done|]. cbn [check_descriptors_from].
  repeat (destruct (_ || _); [done|]). apply IH.
Qed.

Section MountProofs.
Context `{KE : KernelErrno, KP : KernelErrPtr, BC : BlockCache, VA : VecAlloc}.
Context `{VK : VfsKernel INodeData} (disk : Z -> Z -> list byte).
Context {BCO : BlockCacheOk BC KP disk} {SP : SinglePageFolios BC KP}.
Implicit Types w : World (VW INodeData Ext2Fs).

Lemma push_groups_spec sl gs remain w : 0 < remain < 2 ^ 32 ->
  exists r w', push_groups sl gs remain w = (r, w') /\
    (r = Ok (gs ++ take (Z.to_nat remain) sl, Z.max 0 (remain - lenZ sl)) \/ r = Err ENOMEM).
Proof.
  revert gs remain w. induction sl as [|g sl IH]; intros gs remain w Hr.
  { exists (Ok (gs, remain)), w. split; [done|]. left. rewrite take_nil, app_nil_r. change (lenZ []) with 0. do 2 f_equal. lia. }
  cbn [push_groups]. unfold m_bind, kv_push.
  destruct (with_kv_cases (gs ++ [g]) w) as (w1 & _ & _ & [->| ->]); [|by eexists _, _; split; [done|right]].
  rewrite wrap_small by lia. pose proof (lenZ_nonneg sl). rewrite lenZ_cons.
  destruct (remain - 1 =? 0) eqn:E.
  - assert (remain = 1) as -> by blia. eexists _, w1. split; [done|]. left. change (take (Z.to_nat 1) (g :: sl)) with [g]. do 2 f_equal. lia.
  - zify_bools. destruct (IH (gs ++ [g]) (remain - 1) w1 ltac:(lia)) as (r & w2 & -> & Hor).
    exists r, w2. split; [done|]. destruct Hor as [->| ->]; [left|by right].
    replace (Z.to_nat remain) with (S (Z.to_nat (remain - 1))) by lia. cbn [take].
    rewrite <- app_assoc. do 2 f_equal. lia.
Qed.

(** The [k] descriptors on disk from [gd0] on. *)
Definition descriptors (m : Mapper) (gd0 : Z) (k : nat) : list Group :=
  (fun i => mkGroup (disk_range disk m (gd0 + 32 * Z.of_nat i) 32)) <$> seq 0 k.

Lemma descriptors_app m gd0 k n L : (k <= n)%nat ->
  descriptors m gd0 k ++
    take (n - k) ((fun i => mkGroup (disk_range disk m (gd0 + 32 * Z.of_nat k + Z.of_nat i * 32) 32)) <$> seq 0 L) =
  descriptors m gd0 (k + Nat.min (n - k) L).
Proof.
  intros Hk. unfold descriptors. rewrite seq_app, fmap_app. f_equal.
  rewrite <- fmap_take, take_seq. cbn [Nat.add].
  apply list_eq. intros i. rewrite !list_lookup_fmap.
  destruct (decide (i < Nat.min (n - k) L)%nat) as [Hi|Hi].
  - rewrite !lookup_seq_lt by lia. cbn. do 3 f_equal. lia.
  - rewrite !lookup_seq_ge by lia. done.
Qed.

Lemma read_groups_spec fuel m gd0 (n k : nat) w off :
  0 <= gd0 <= 2 ^ 20 -> gd0 mod 1024 = 0 -> Z.of_nat n < 2 ^ 32 -> (k <= n)%nat -> (n - k < fuel)%nat ->
  ((k < n)%nat -> off = gd0 + 32 * Z.of_nat k /\ off mod 1024 = 0) ->
  exists r w', read_groups fuel m off (Z.of_nat (n - k)) (descriptors m gd0 k) w = (r, w') /\
    (r = Ok (descriptors m gd0 n) \/ exists e, r = Err e).
Proof.
  intros Hg0 Hg Hn. revert k w off. induction fuel as [|fuel IH]; intros k w off Hk Hf Hoff; [lia|].
  cbn [read_groups]. destruct (decide (k = n)) as [->|Hne].
  { rewrite Nat.sub_diag. exists (Ok (descriptors m gd0 n)), w. split; [done|]. by left. }
  destruct (Hoff ltac:(lia)) as [-> Ho]. set (off := gd0 + 32 * Z.of_nat k) in *.
  destruct (0 <? Z.of_nat (n - k)) eqn:E0; [|blia].
  destruct (mapped_folio_spec disk m off w ltac:(lia)) as [(mf & w1 & Hmf & Hrd)|(e & w1 & Hmf & _)].
  2: { exists (Err e), w1. unfold m_bind at 1. rewrite Hmf. eauto. }
  pose proof (Z.mod_pos_bound off PAGE_SIZE ltac:(done)) as Hm.
  set (L := Z.to_nat ((PAGE_SIZE - off mod PAGE_SIZE) / 32)).
  assert (32 * Z.of_nat L = PAGE_SIZE - off mod PAGE_SIZE /\ 0 < Z.of_nat L) as [HL HL0].
  { subst L. unfold PAGE_SIZE in *. Z.to_euclidean_division_equations. lia. }
  assert (lenZ (disk_tail disk m off) = PAGE_SIZE - off mod PAGE_SIZE) as Hlen
    by (apply disk_range_length; lia).
  unfold m_bind at 1. rewrite Hmf, (rd_data _ _ _ _ _ _ Hrd).
  unfold m_bind at 1, scoped, m_bind at 1, m_lift at 1. cbn [sl_data].
  assert (off mod 32 = 0 /\ off mod 4 = 0) as [H32 H4] by (Z.to_euclidean_division_equations; lia).
  rewrite (to_slice_disk (T := Group) disk _ _ _ _ _ Hrd) by first [done|lia|exact H32|exact H4].
  unfold m_bind at 1, m_lift at 1. cbn [ok_or].
  change (fb_size Group) with 32. change (@fb_read Group _) with mkGroup. fold L.
  set (sl := (fun i => mkGroup (disk_range disk m (off + Z.of_nat i * 32) 32)) <$> seq 0 L).
  destruct (push_groups_spec sl (descriptors m gd0 k) (Z.of_nat (n - k)) w1 ltac:(lia)) as (r & w2 & Hp & Hor).
  unfold m_bind at 1. rewrite Hp. destruct Hor as [->| ->].
  2: { eexists _, _. split; [done|]. right. eauto. }
  cbn [m_ret]. unfold m_ret. rewrite Nat2Z.id. subst sl.
  pose proof (descriptors_app m gd0 k n L ltac:(lia)) as Happ. fold off in Happ. rewrite Happ, Hlen.
  unfold lenZ. rewrite length_fmap, length_seq. rewrite sext_id by (unfold PAGE_SIZE in *; lia).
  replace (Z.max 0 (Z.of_nat (n - k) - Z.of_nat L)) with (Z.of_nat (n - (k + Nat.min (n - k) L))) by lia.
  apply IH; [lia|lia|]. intros Hlt. split; [lia|].
  replace (off + (PAGE_SIZE - off mod PAGE_SIZE)) with ((off / PAGE_SIZE + 1) * PAGE_SIZE)
    by (pose proof (Z_div_mod_eq_full off PAGE_SIZE); lia).
  unfold PAGE_SIZE. Z.to_euclidean_division_equations. lia.
Qed.

(** What mounting establishes. *)
Record fs_valid (m : Mapper) (s : Super) (fs : Ext2Fs) : Prop := {
  fv_magic : sf s "magic" = EXT2_SUPER_MAGIC;
  fv_mapper : e_mapper fs = m;
  fv_block_size : block_size fs = 1024 * 2 ^ sf s "log_block_size" /\ block_size fs ∈ block_sizes;
  fv_inode_size : 128 <= e_inode_size fs <= block_size fs /\ is_power_of_two (e_inode_size fs) = true;
  fv_inodes : inodes_per_block fs = block_size fs / e_inode_size fs /\ 0 < inodes_per_block fs /\
              0 < inodes_per_group fs;
  fv_features : sf s "rev_level" <> 0 -> Z.land (sf s "feature_incompat") (2 ^ 32 - 3) = 0;
  fv_groups : groups fs = descriptors m ((1024 / block_size fs + 1) * block_size fs) (Z.to_nat (group_count s));
  fv_in_group : sf s "first_data_block" < sf s "blocks_count" ->
    forall i g, groups fs !! i = Some g -> in_group s (lenZ (groups fs)) (Z.of_nat i) g
}.

Lemma block_size_of_bits b : 0 <= b <= 6 ->
  wrap 32 (Z.shiftl 1024 b) = 1024 * 2 ^ b /\ 1024 * 2 ^ b ∈ block_sizes /\
  0 <= (1024 / (1024 * 2 ^ b) + 1) * (1024 * 2 ^ b) <= 2 ^ 20 /\
  (1024 / (1024 * 2 ^ b) + 1) * (1024 * 2 ^ b) mod 1024 = 0.
Proof.
  intros Hb. assert (b = 0 \/ b = 1 \/ b = 2 \/ b = 3 \/ b = 4 \/ b = 5 \/ b = 6) as Hc by lia.
  destruct Hc as [->|[->|[->|[->|[->|[->| ->]]]]]]; (split; [done|]); (split; [|done]);
    unfold block_sizes; apply list_elem_of_In; cbn; tauto.
Qed.

Lemma inode_geometry_spec s bs : bs ∈ block_sizes ->
  match inode_geometry s bs with
  | Ok (isize, _) => 128 <= isize <= bs /\ is_power_of_two isize = true
  | Err e => e = EINVAL
  | _ => False
  end.
Proof.
  intros Hb. assert (1024 <= bs) as Hle.
  { unfold block_sizes in Hb. rewrite !list_elem_of_In in Hb. cbn in Hb. lia. }
  unfold inode_geometry, EXT2_GOOD_OLD_INODE_SIZE. destruct (_ =? _); [split; [lia|done]|].
  destruct (sf s "inode_size" <? 128) eqn:E1; [done|].
  destruct (is_power_of_two (sf s "inode_size")) eqn:E2; [|done].
  destruct (bs <? sf s "inode_size") eqn:E3; [done|]. cbn [negb orb]. split; [blia|done].
Qed.

Lemma check_features_spec s ro :
  match check_features s ro with
  | Ok _ => sf s "rev_level" <> 0 -> Z.land (sf s "feature_incompat") (2 ^ 32 - 3) = 0
  | Err e => e = EINVAL
  | _ => False
  end.
Proof.
  unfold check_features, EXT2_DYNAMIC_REV, EXT2_FEATURE_INCOMPAT_FILETYPE.
  pose proof (sf_nonneg s "rev_level") as Hn.
  destruct (1 <=? sf s "rev_level") eqn:E; [|intros; blia].
  change (2 ^ 32 - 1 - 2) with (2 ^ 32 - 3).
  destruct (Z.land (sf s "feature_incompat") (2 ^ 32 - 3) =? 0) eqn:E1; cbn [negb]; [|done].
  destruct (negb ro && _); [done|]. intros _. blia.
Qed.

Lemma fill_super_from_spec m s ro w :
  match fill_super_from m s ro w with
  | (Ok fs, _) => fs_valid m s fs
  | (Err _, _) => True
  | (Panic, _) => sf s "blocks_per_group" = 0
  | _ => False
  end.
Proof.
  unfold fill_super_from. destruct (sf s "magic" =? EXT2_SUPER_MAGIC) eqn:Emag; cbn [negb]; [|done].
  unfold m_bind at 1, m_lift at 1. pose proof (check_features_spec s ro) as Hfeat.
  destruct (check_features s ro) as [ft|e| | |]; try done.
  pose proof (sf_nonneg s "log_block_size") as Hlog. unfold EXT2_MAX_BLOCK_LOG_SIZE.
  destruct (16 - 10 <? sf s "log_block_size") eqn:El; [done|].
  destruct (block_size_of_bits (sf s "log_block_size") ltac:(blia)) as (Hbs & Hin & Hgd & Hgd2).
  rewrite Hbs. set (bs := 1024 * 2 ^ sf s "log_block_size") in *. unfold SB_OFFSET.
  unfold m_bind at 1. destruct (min_blocksize_ok bs w) as (b' & w1 & -> & _).
  destruct (negb (b' =? bs)); [done|].
  unfold m_bind at 1, m_lift at 1. pose proof (inode_geometry_spec s bs Hin) as Hgeo.
  destruct (inode_geometry s bs) as [[isize fino]|e| | |]; try done. destruct Hgeo as [Hi1 Hi2].
  unfold m_bind at 1, m_lift at 1, u_div at 1. destruct (isize =? 0) eqn:Ez; [blia|].
  destruct ((sf s "inodes_per_group" =? 0) || (bs / isize =? 0)) eqn:Eipg; [done|].
  unfold m_bind at 1, m_lift at 1, u_div at 1. destruct (sf s "blocks_per_group" =? 0) eqn:Ebpg; [blia|].
  fold (group_count s). unfold m_bind at 1.
  destruct (with_kv_cases tt w1) as (w2 & _ & _ & [->| ->]); [|done].
  set (gd := (1024 / bs + 1) * bs) in *.
  pose proof (wrap_range 32 (wrap 32 (wrap 32 (sf s "blocks_count" - sf s "first_data_block") - 1) /
    sf s "blocks_per_group" + 1) ltac:(lia)) as Hgc. fold (group_count s) in Hgc.
  destruct (read_groups_spec (Z.to_nat (group_count s) + 1) m gd (Z.to_nat (group_count s)) 0 w2 gd Hgd Hgd2
    ltac:(lia) ltac:(lia) ltac:(lia) ltac:(intros; split; [lia|done])) as (r & w3 & Hrg & Hor).
  rewrite Nat.sub_0_r, Z2Nat.id in Hrg by lia. change (descriptors m gd 0) with (@nil Group) in Hrg.
  unfold m_bind at 1. rewrite Hrg. destruct Hor as [->|[e ->]]; [|done].
  unfold m_bind at 1, m_lift at 1, check_descriptors.
  pose proof (check_descriptors_total s (lenZ (descriptors m gd (Z.to_nat (group_count s)))) 0
    (descriptors m gd (Z.to_nat (group_count s)))) as Hct.
  destruct (check_descriptors_from _ _ _ _) as [[]|e| | |] eqn:Ec; try done.
  unfold m_bind at 1. destruct (set_magic (sf s "magic") w3) as [rm w4] eqn:Em.
  assert (rm = Ok tt) as -> by (unfold set_magic, m_bind in Em; cbn in Em; congruence).
  match goal with |- context [with_kv (kv_try ?x) w4] => destruct (with_kv_cases x w4) as (w5 & _ & _ & [->| ->]) end; [|done].
  pose proof (sf_nonneg s "inodes_per_group"). zify_bools.
  assert (0 < bs / isize) by (pose proof (Z.div_pos bs isize ltac:(lia) ltac:(lia)); lia).
  constructor; cbn [e_mapper block_size e_inode_size inodes_per_block inodes_per_group groups]; try done.
  - split; [done|]. lia.
  - assert (lenZ (descriptors m gd (Z.to_nat (group_count s))) = group_count s) as Hlen.
    { unfold descriptors, lenZ. rewrite length_fmap, length_seq. lia. }
    intros Hfd i g Hg. pose proof (sf_nonneg s "blocks_per_group").
    eapply (check_descriptors_from_sound s _ 0); [exact Hfd|blia|exact Hlen|lia| |exact Ec|exact Hg]. lia.
Qed.

(** The superblock on the device. *)
Definition disk_super (m : Mapper) : Super := mkSuper (disk_range disk m SB_OFFSET 1024).

Lemma fill_super_outcome w :
  let m := mkMapper (s_bdev_mapping (v_sb (w_ext w))) in
  match fill_super w with
  | (Ok fs, w') => fs_valid m (disk_super m) fs
  | (Err _, w') => True
  | (Panic, _) => sf (disk_super m) "blocks_per_group" = 0
  | _ => False
  end.
Proof.
  intros m. unfold fill_super, m_bind at 1.
  destruct (min_blocksize_ok 4096 w) as (b0 & w0 & -> & Hsb & _).
  destruct (b0 =? 0); [done|]. unfold m_bind at 1.
  rewrite get_sb_ok, Hsb.
  fold m. unfold m_bind at 1.
  destruct (mapped_folio_spec disk m SB_OFFSET w0 ltac:(unfold SB_OFFSET; lia))
    as [(mf & w1 & -> & Hrd)|(e & w1 & -> & _)]; [|done].
  unfold scoped, m_bind, m_lift. rewrite (rd_data _ _ _ _ _ _ Hrd).
  assert (@from_bytes Super _ (mkSlice (mf_addr mf + SB_OFFSET mod PAGE_SIZE) (disk_tail disk m SB_OFFSET)) 0 =
    Some (disk_super m)) as ->.
  { etrans; [apply (from_bytes_disk (T := Super) disk m SB_OFFSET mf w0 w1 0 Hrd); by vm_compute|].
    unfold disk_super. rewrite Z.add_0_r. by replace (fb_size Super) with 1024 by by vm_compute. }
  cbn [ok_or].
  pose proof (fill_super_from_spec m (disk_super m) (rdonly (v_sb (w_ext w))) w1) as Hs.
  by destruct (fill_super_from m (disk_super m) (rdonly (v_sb (w_ext w))) w1) as [[fs|e| | |] w2].
Qed.

(** C13. A mount that succeeds has validated what the rest of the filesystem
    relies on: the magic number, a block size of 1 KiB to 64 KiB and a power-of-two
    inode size of 128 bytes up to a block, non-zero inodes per block and per
    group, no unknown incompatible feature, and one descriptor per block group,
    read from the descriptor table on the device.  In a filesystem that has a block
    at all ([first_data_block < blocks_count], which is not checked) the bitmaps
    and the inode table of every group but the last lie inside their group; those
    of the last one lie behind its start and at most one block past the end of the
    filesystem, because the check compares with [blocks_count] itself
    ([last_group_check_off_by_one]).  On every device the mount ends with a result or an
    error; the only panic is a zero [blocks_per_group]. *)
Theorem fill_super_validates w :
  let m := mkMapper (s_bdev_mapping (v_sb (w_ext w))) in
  match fill_super w with
  | (Ok fs, w') => fs_valid m (disk_super m) fs /\ w_held w' = w_held w
  | (Err _, w') => w_held w' = w_held w
  | (Panic, _) => sf (disk_super m) "blocks_per_group" = 0
  | _ => False
  end.
Proof.
  intros m. pose proof (fill_super_keeps w) as [Hheld _]. pose proof (fill_super_outcome w) as Ho.
  by destruct (fill_super w) as [[fs|e| | |] w'].
Qed.

End MountProofs.

(** The check of the last group lets a bitmap behind the end of the filesystem pass: a group
    of blocks 1 to 99 whose block bitmap is block 100 of 100. *)
Definition off_by_one_super : Super :=
  mkSuper (replicate 4 x00 ++ le_encode 4 100 ++ replicate 12 x00 ++ le_encode 4 1 ++ replicate 8 x00 ++ le_encode 4 8192).
Definition off_by_one_group : Group := mkGroup (le_encode 4 100 ++ le_encode 4 3 ++ le_encode 4 4).
Theorem last_group_check_off_by_one `{KernelErrno} :
  sf off_by_one_super "blocks_count" = 100 /\ sf off_by_one_super "first_data_block" = 1 /\
  group_count off_by_one_super = 1 /\ gf off_by_one_group "block_bitmap" = 100 /\
  check_descriptors off_by_one_super [off_by_one_group] = Ok tt.
Proof. by vm_compute. Qed.

(** ** Loading inodes *)

(** Where inode [offset] of the group [g] is on the device. *)
Definition inode_addr (s : Ext2Fs) (g : Group) (offset : Z) : Z :=
  (gf g "inode_table" + offset / inodes_per_block s) * block_size s +
  offset mod inodes_per_block s * e_inode_size s.

(** The geometry [fill_super] establishes, for blocks that fit a page. *)
Record geometry (s : Ext2Fs) : Prop := {
  ge_block_size : block_size s ∈ page_block_sizes;
  ge_inode_size : 128 <= e_inode_size s <= block_size s /\ e_inode_size s mod 4 = 0;
  ge_per_block : inodes_per_block s = block_size s / e_inode_size s;
  ge_per_group : 0 < inodes_per_group s
}.

Lemma gf_range g f n : assoc f (layout_from 0 Group_fields).1 = Some n -> fty_size n.2 = 4 -> 0 <= gf g f < 2 ^ 32.
Proof.
  intros Ha Hn. unfold gf, field. rewrite Ha. destruct n as [o t]. cbn in Hn.
  pose proof (le_decode_range (sub_bytes (group_raw g) o (fty_size t))) as [H1 H2]. split; [done|].
  eapply Z.lt_le_trans; [exact H2|]. change (2 ^ 32) with (256 ^ 4). apply Z.pow_le_mono_r; [lia|].
  rewrite Hn. unfold sub_bytes, lenZ. rewrite length_take. lia.
Qed.

Lemma inode_table_range g : 0 <= gf g "inode_table" < 2 ^ 32.
Proof. by eapply gf_range. Qed.

Section InodeProofs.
Context `{KE : KernelErrno, KP : KernelErrPtr, BC : BlockCache, VA : VecAlloc}.
Context `{VK : VfsKernel INodeData} {VKO : VfsKernelOk INodeData VK} (disk : Z -> Z -> list byte).
Context {BCO : BlockCacheOk BC KP disk} {SP : SinglePageFolios BC KP} {BL : BlockCacheLive BC KP}.
Context (TABLES : Tables) (IOMAP_AOPS : Z).
Implicit Types w : World (VW INodeData Ext2Fs).

Definition disk_inode (s : Ext2Fs) (g : Group) (offset : Z) : DInode :=
  mkDInode (disk_range disk (e_mapper s) (inode_addr s g offset) 128).

Definition stale (i : DInode) : bool :=
  (nf i "links_count" =? 0) && ((nf i "mode" =? 0) || negb (nf i "dtime" =? 0)).

(** The inode [n] after it was initialised from the on-disk inode [i]. *)
Record loaded (i : DInode) (typ : INodeType) (size : Z) (p : Z) (w' : World (VW INodeData Ext2Fs)) : Prop := {
  ld_inode : exists k, v_inodes (w_ext w') !! p = Some (mkKInode (Some (mkINodeData (n_blocks i))) k) /\
    k I_size = size /\ k I_blocks = nf i "blocks" /\ k I_nlink = nf i "links_count" /\
    k I_uid = Z.lor (nf i "uid") (Z.shiftl (nf i "uid_high") 16) /\
    k I_gid = Z.lor (nf i "gid") (Z.shiftl (nf i "gid_high") 16) /\
    k I_mtime_sec = sext 64 (nf i "mtime") /\ Z.land (k I_state) I_NEW = 0 /\
    (match typ with Dir | Reg | Lnk _ =>
       k I_mode = Z.lor (Z.land (Z.land (nf i "mode") 0xfff) 0x1ff) (type_bits typ)
     | _ => k I_mode = type_bits typ end)
}.

Lemma init_loaded n i typ size w ki :
  v_inodes (w_ext w) !! inner n = Some ki ->
  exists w', NewINode_init n (inode_params i typ size) TABLES w = (Ok (inner n), w') /\
    loaded i typ size (inner n) w'.
Proof.
  intros Hi. rewrite (NewINode_init_eq _ _ _ _ _ Hi). eexists. split; [done|].
  constructor. eexists. split; [apply lookup_insert_eq|]. cbn [p_typ inode_params].
  do 6 (split; [by rewrite unlock_other, init_ops_other, init_meta_field by done|]).
  split; [apply unlock_clears|].
  pose proof (init_ops_set n typ TABLES (init_meta (inode_params i typ size) (k_inode ki))
    (Z.land (Z.land (nf i "mode") 0xfff) 0x1ff)) as Ho.
  rewrite init_meta_field in Ho. specialize (Ho eq_refl).
  destruct typ as [| |[]| | | |]; cbn [ops_set] in Ho; tauto.
Qed.

Lemma inode_kind_inner s d o i n n' typ size :
  inode_kind TABLES IOMAP_AOPS s d o i n = Ok (n', typ, size) -> inner n' = inner n.
Proof.
  unfold inode_kind, res_bind. intros H.
  repeat match type of H with
  | (if ?c then _ else _) = _ => destruct c
  | match ?x with _ => _ end = _ => destruct x
  end; simplify_eq; done.
Qed.

(** The type of an inode is a type or an error: the block array has 15 slots. *)
Lemma inode_kind_total s d o i n :
  match inode_kind TABLES IOMAP_AOPS s d o i n with Ok _ | Err _ => True | _ => False end.
Proof.
  assert (exists a b l, n_blocks i = a :: b :: l) as (a & b & l & Hn) by (do 3 eexists; reflexivity).
  assert (@index Error Z (a :: b :: l) 0 = Ok a /\ @index Error Z (a :: b :: l) 1 = Ok b) as [H0 H1] by done.
  unfold inode_kind, decode_dev, res_bind. rewrite Hn, H0, H1.
  repeat match goal with |- context [if ?c then _ else _] => destruct c end; done.
Qed.

Lemma load_inode_spec s g group offset n w ki :
  geometry s -> groups s !! Z.to_nat group = Some g -> 0 <= group -> 0 <= offset < 2 ^ 32 ->
  v_inodes (w_ext w) !! inner n = Some ki ->
  let i := disk_inode s g offset in
  exists r w' d, load_inode TABLES IOMAP_AOPS s group offset n w = (r, w') /\
    sl_data d = disk_tail disk (e_mapper s) ((gf g "inode_table" + offset / inodes_per_block s) * block_size s) /\
    if stale i then r = Err ESTALE
    else match inode_kind TABLES IOMAP_AOPS s d (offset mod inodes_per_block s) i n with
         | Ok (_, typ, size) => r = Ok (inner n) /\ loaded i typ size (inner n) w'
         | Err e => r = Err e
         | _ => False
         end.
Proof.
  intros [Hbs [Hisz Hal] Hpb Hpg] Hg Hg0 Ho Hi i.
  pose proof (page_block_size_cases _ Hbs) as Hc. pose proof (inode_table_range g) as Hit.
  assert (0 < inodes_per_block s) as Hipb by (rewrite Hpb; apply Z.div_str_pos; lia).
  pose proof (Z.mod_pos_bound offset (inodes_per_block s) Hipb) as Hr.
  assert (0 <= offset / inodes_per_block s < 2 ^ 32) as Hq.
  { split; [apply Z.div_pos; lia|]. apply Z.div_lt_upper_bound; nia. }
  assert (inodes_per_block s * e_inode_size s <= block_size s) as Hfit
    by (rewrite Hpb, Z.mul_comm; apply Z.mul_div_le; lia).
  set (blk := gf g "inode_table" + offset / inodes_per_block s) in *.
  destruct (block_in_page _ blk Hbs ltac:(lia)) as (Hin & Hal2 & Hnn).
  set (o := offset mod inodes_per_block s * e_inode_size s) in *.
  assert (0 <= o /\ o + 128 <= block_size s) as [Ho0 Ho1] by nia.
  assert (o mod 4 = 0) as Ho4
    by (subst o; rewrite Z.mul_mod, Hal, Z.mul_0_r by done; done).
  destruct (mapped_folio_live disk (e_mapper s) (blk * block_size s) w ltac:(nia)) as (mf & w1 & Hmf & Hrd).
  set (d := mkSlice (mf_addr mf + (blk * block_size s) mod PAGE_SIZE) (disk_tail disk (e_mapper s) (blk * block_size s))).
  assert (@from_bytes DInode _ d o = Some i) as Hfb.
  { etrans; [apply (from_bytes_disk (T := DInode) disk (e_mapper s) (blk * block_size s) mf w w1 o Hrd)|].
    - done.
    - lia.
    - lia.
    - change (fb_size DInode) with 128. lia.
    - change (fb_align DInode) with 4. rewrite Z.add_mod, Ho4, Z.add_0_r, Z.mod_mod by done.
      Z.to_euclidean_division_equations. lia.
    - done. }
  assert (load_inode TABLES IOMAP_AOPS s group offset n w =
    (let '(r, w2) := (if stale i then m_err ESTALE
      else r <-! m_lift (inode_kind TABLES IOMAP_AOPS s d (offset mod inodes_per_block s) i n) ;;
           let '(n', typ, size) := r in NewINode_init n' (inode_params i typ size) TABLES) w1 in
     (r, mf_drop mf w2))) as ->.
  { unfold load_inode, m_bind at 1, m_lift at 1, index. destruct (0 <=? group) eqn:E; [|blia]. rewrite Hg.
    unfold m_bind at 1, m_lift at 1, u_div. destruct (inodes_per_block s =? 0) eqn:E0; [blia|].
    unfold m_bind at 1, m_lift at 1, u_rem. rewrite E0. fold blk. rewrite sext_id by nia.
    unfold m_bind at 1. rewrite Hmf. unfold scoped. unfold m_bind at 1, m_lift at 1.
    rewrite (rd_data _ _ _ _ _ _ Hrd). fold d. unfold m_bind at 1, m_lift at 1. fold o. rewrite Hfb. done. }
  destruct (stale i); [by eexists _, _, d|].
  pose proof (inode_kind_total s d (offset mod inodes_per_block s) i n) as Htot.
  unfold m_bind, m_lift. destruct (inode_kind TABLES IOMAP_AOPS s d (offset mod inodes_per_block s) i n)
    as [[[n' typ] size]|e| | |] eqn:Ek; try done; [|by (eexists _, _, d; rewrite Ek)].
  rewrite <- (inode_kind_inner _ _ _ _ _ _ _ _ Ek) in Hi.
  assert (v_inodes (w_ext w1) !! inner n' = Some ki) as Hi1 by (by rewrite (rd_ext _ _ _ _ _ _ Hrd)).
  destruct (init_loaded n' i typ size w1 ki Hi1) as (w2 & Hin2 & Hld).
  rewrite Hin2. eexists _, _, d. split; [done|]. split; [done|]. rewrite Ek.
  rewrite <- (inode_kind_inner _ _ _ _ _ _ _ _ Ek). split; [done|].
  destruct Hld as [(k & Hk)]. constructor. exists k. exact Hk.
Qed.

End InodeProofs.

Section InodeProperties.
Context `{KE : KernelErrno, KP : KernelErrPtr, BC : BlockCache, VA : VecAlloc}.
Context `{VK : VfsKernel INodeData} {VKO : VfsKernelOk INodeData VK} (disk : Z -> Z -> list byte).
Context {BCO : BlockCacheOk BC KP disk} {SP : SinglePageFolios BC KP} {BL : BlockCacheLive BC KP}.
Context (TABLES : Tables) (IOMAP_AOPS : Z).
Implicit Types w : World (VW INodeData Ext2Fs).

(** [iget] gives every valid inode number its on-disk inode: a cached inode is
    returned as it is; a new one is filled from the inode at the number's slot
    in its group's inode table (size, blocks, links, owner with the high halves,
    times, type and permissions, block pointers) and unlocked; a deleted inode
    is [ESTALE], an unknown type [ENOENT]. Reserved and out-of-range numbers are
    [ENOENT] without touching anything. *)
Theorem iget_loads_inode w s ino :
  s_fs_info (v_sb (w_ext w)) = Some s -> geometry s -> 1 <= ino < 2 ^ 32 ->
  if bool_decide ((ino <> EXT2_ROOT_INO /\ ino < first_ino s) \/ inode_count s < ino)
  then iget TABLES IOMAP_AOPS ino w = (Err ENOENT, w)
  else match groups s !! Z.to_nat ((ino - 1) / inodes_per_group s) with
  | None => iget TABLES IOMAP_AOPS ino w = (Err ENOENT, w)
  | Some g =>
      let offset := (ino - 1) mod inodes_per_group s in
      let i := disk_inode disk s g offset in
      match sb_iget ino w with
      | (Ok (inr cached), w1) => iget TABLES IOMAP_AOPS ino w = (Ok cached, w1)
      | (Ok (inl n), w1) => exists r w' d, iget TABLES IOMAP_AOPS ino w = (r, w') /\
          sl_data d = disk_tail disk (e_mapper s) ((gf g "inode_table" + offset / inodes_per_block s) * block_size s) /\
          if stale i then r = Err ESTALE
          else match inode_kind TABLES IOMAP_AOPS s d (offset mod inodes_per_block s) i n with
               | Ok (_, typ, size) => r = Ok (inner n) /\ loaded i typ size (inner n) w'
               | Err e => r = Err e
               | _ => False
               end
      | (Err e, w1) => iget TABLES IOMAP_AOPS ino w = (Err e, w1)
      | _ => True
      end
  end.
Proof.
  intros Hd Hgeo Hino. pose proof (ge_per_group _ Hgeo) as Hipg.
  assert (0 <= (ino - 1) / inodes_per_group s) as Hq by (apply Z.div_pos; lia).
  pose proof (Z.mod_pos_bound (ino - 1) (inodes_per_group s) Hipg) as Hm.
  pose proof (Z.mod_le (ino - 1) (inodes_per_group s) ltac:(lia) Hipg) as Hmle.
  assert (iget TABLES IOMAP_AOPS ino w =
    (if (negb (ino =? EXT2_ROOT_INO) && (ino <? first_ino s)) || (inode_count s <? ino) then m_err ENOENT
     else if lenZ (groups s) <=? (ino - 1) / inodes_per_group s then m_err ENOENT
     else r <-! sb_iget ino ;;
          match r with
          | inr cached => m_ret cached
          | inl n => or_drop n (load_inode TABLES IOMAP_AOPS s ((ino - 1) / inodes_per_group s)
                                  ((ino - 1) mod inodes_per_group s) n)
          end) w) as ->.
  { unfold iget, m_bind at 1. rewrite (sb_data_ok _ _ Hd). destruct (_ || _); [done|].
    rewrite wrap_small by lia. unfold m_bind at 1 2, m_lift, u_div, u_rem.
    destruct (inodes_per_group s =? 0) eqn:E; [blia|]. done. }
  assert ((negb (ino =? EXT2_ROOT_INO) && (ino <? first_ino s)) || (inode_count s <? ino) =
    bool_decide ((ino <> EXT2_ROOT_INO /\ ino < first_ino s) \/ inode_count s < ino)) as ->.
  { apply eq_true_iff_eq. rewrite bool_decide_eq_true, orb_true_iff, andb_true_iff, negb_true_iff,
      Z.eqb_neq, !Z.ltb_lt. tauto. }
  case_bool_decide as Hc; [done|].
  destruct (groups s !! Z.to_nat ((ino - 1) / inodes_per_group s)) as [g|] eqn:Eg.
  2: { apply lookup_ge_None in Eg. destruct (_ <=? _) eqn:E; [done|]. unfold lenZ in E. blia. }
  pose proof (lookup_lt_Some _ _ _ Eg) as Hlt.
  destruct (lenZ (groups s) <=? _) eqn:E; [unfold lenZ in E; blia|].
  unfold m_bind. destruct (sb_iget ino w) as [[[n|cached]|e| | |] w1] eqn:Es; try done.
  destruct (sb_iget_new _ _ _ _ Es) as [ki Hki].
  destruct (load_inode_spec disk TABLES IOMAP_AOPS s g _ ((ino - 1) mod inodes_per_group s) n w1 ki
    Hgeo Eg Hq ltac:(lia) Hki) as (r & w' & d & Hl & Hd' & Hres).
  unfold or_drop. rewrite Hl. set (off := (ino - 1) mod inodes_per_group s) in *.
  destruct (stale (disk_inode disk s g off)); [subst r; destruct (NewINode_drop n w'); by eexists _, _, d|].
  destruct (inode_kind TABLES IOMAP_AOPS s d (off mod inodes_per_block s) (disk_inode disk s g off) n)
    as [[[n' typ] size]|e| | |] eqn:Ek; try done.
  - destruct Hres as [-> Hld]. eexists _, _, d. rewrite Ek. done.
  - subst r. destruct (NewINode_drop n w'). eexists _, _, d. rewrite Ek. done.
Qed.

End InodeProperties.
