(* ===== verification/Ext2Image.v ===== *)
(** * ext2: a concrete filesystem image

    A six-block image (superblock, group descriptors, bitmaps, inode table, one
    directory block) on which the ext2 definitions are run: the hypotheses of
    the ext2 properties hold on it, and three defects show on variations of
    it. *)
From Stdlib Require Import ZArith Lia Bool.
From Stdlib.Strings Require Import Byte String.
From stdpp Require Import base list option numbers gmap.
From S2P Require Import Prelude Errors KVec LeBytes Mapper Vfs Emits Ext2 Ext2Blocks Ext2Dir Ext2Mount.

Definition u32s (l : list Z) : list byte := concat (le_encode 4 <$> l).
Definition u16s (l : list Z) : list byte := concat (le_encode 2 <$> l).

(** The superblock up to [feature_ro_compat]. *)
Definition image_super (log_block_size blocks_per_group : Z) : list byte :=
  u32s [32; 6; 0; 0; 0; 0; log_block_size; 0; blocks_per_group; 0; 32; 0; 0] ++
  u16s [0; 0; 0xEF53; 0; 0; 0] ++ u32s [0; 0; 0; 1] ++ u16s [0; 0] ++ u32s [11] ++ u16s [128; 0] ++ u32s [0; 2; 0].

Definition image_group : list byte := u32s [2; 3; 4] ++ u16s [0; 0; 1; 0] ++ u32s [0; 0; 0].

(** An inode with one data block. *)
Definition image_inode (mode size links block : Z) : list byte :=
  u16s [mode; 0] ++ u32s [size; 0; 0; 0; 0] ++ u16s [0; links] ++ u32s [8; 0; 0] ++
  u32s [block; 0; 0; 0; 0; 0; 0; 0; 0; 0; 0; 0; 0; 0; 0] ++ u32s [0; 0; 0; 0] ++ u16s [0; 0; 0; 0] ++ u32s [0].

Definition record (ino rec_len : Z) (name : string) (type : Z) : list byte :=
  resize (Z.to_nat rec_len) x00
    (le_encode 4 ino ++ le_encode 2 rec_len ++ [z2b (lenZ (bs name)); z2b type] ++ bs name).

(** Root directory: a record that is not in use, then "a" and "b". *)
Definition image_dir : list byte := record 0 12 "x" 1 ++ record 11 12 "a" 1 ++ record 12 4072 "b" 1.

Definition image (blocks_per_group : Z) (i : Z) : list byte :=
  if i =? 0 then replicate 1024 x00 ++ image_super 2 blocks_per_group
  else if i =? 1 then image_group
  else if i =? 4 then image_inode 0 0 0 0 ++ image_inode 0x41ed 4096 2 5
  else if i =? 5 then image_dir
  else [].

Definition img : Z -> list byte := image 32768.
Definition img_disk : Z -> Z -> list byte := fun _ => image_page img.

Definition img_fs : Ext2Fs :=
  mkExt2Fs (mkMapper 0) 4096 true 32 32 32 128 11 [mkGroup (resize 32 x00 image_group)].

(** The root directory as [iget] leaves it, and a file with a hole in front. *)
Definition root_ptr : Z := 8.
Definition root_blocks : list Z := [5; 0; 0; 0; 0; 0; 0; 0; 0; 0; 0; 0; 0; 0; 0].
Definition img_inode (size : Z) (blocks : list Z) : KInode INodeData :=
  mkKInode (Some (mkINodeData blocks)) (fun f => match f with I_size => size | I_sb => 77 | _ => 0 end).
Definition img_inodes : gmap Z (KInode INodeData) :=
  <[9 := img_inode 8192 [0; 5; 0; 0; 0; 0; 0; 0; 0; 0; 0; 0; 0; 0; 0]]> {[ root_ptr := img_inode 4096 root_blocks ]}.

Definition img_world (room : nat) (pos : Z) := toy_fs_world img img_inodes room (Some img_fs) pos.

(** The kernel and the device the image runs on. *)
#[local] Existing Instance linux_errno.
#[local] Existing Instance linux_err_ptr.

(** Mounting the image yields [img_fs]. *)
Example image_mounts :
  (@fill_super linux_errno linux_err_ptr (ram_cache img) const_alloc (toy_vfs INodeData)
     (toy_fs_world img ∅ 0 None 0)).1 = Ok img_fs.
Proof. vm_compute. reflexivity. Qed.

(** ** Defects *)

(** Mounting an image whose superblock says zero blocks per group panics: the
    field is used as a divisor before it is checked. *)
Theorem mount_zero_blocks_per_group_panics :
  (@fill_super linux_errno linux_err_ptr (ram_cache (image 0)) const_alloc (toy_vfs INodeData)
     (toy_fs_world (image 0) ∅ 0 None 0)).1 = Panic.
Proof. vm_compute. reflexivity. Qed.

(** Reading the directory at the position a previous read left. *)
Definition read_at (im : Z -> list byte) (fs : Ext2Fs) (inodes : gmap Z (KInode INodeData)) (room : nat) (pos : Z) :
    res Error unit * (list dirent * Z) :=
  let '(r, w) := @read_dir linux_errno linux_err_ptr (ram_cache im) const_alloc (toy_vfs INodeData)
                   root_ptr (toy_fs_world im inodes room (Some fs) pos) in
  (r, (@emitted _ (toy_vfs INodeData) (v_kern (w_ext w)), v_pos (w_ext w))).

(** An unused record does not advance the reader's position.  On a directory
    that starts with an unused record, a reader that takes one entry per call is
    given "a", and when it continues from the position it was left at it is
    given "a" again. *)
Theorem read_dir_repeats_entry :
  read_at img img_fs img_inodes 1 0 = (Ok tt, ([mkDirent (bs "a") 11 DT_Reg], 12)) /\
  read_at img img_fs img_inodes 1 12 = (Ok tt, ([mkDirent (bs "a") 11 DT_Reg], 24)).
Proof. split; vm_compute; reflexivity. Qed.

(** With 1 KiB blocks: the directory's only block holds "a"; the next block of
    the same page belongs to something else. *)
Definition small_dir : list byte := record 11 1024 "a" 1 ++ record 12 1024 "b" 1.
Definition small_img (i : Z) : list byte := if i =? 5 then small_dir else img i.
Definition small_fs : Ext2Fs :=
  mkExt2Fs (mkMapper 0) 1024 true 8 32 32 128 11 [mkGroup (resize 32 x00 image_group)].
Definition small_inodes : gmap Z (KInode INodeData) :=
  {[ root_ptr := img_inode 1024 (20 :: replicate 14 0) ]}.

(** With blocks smaller than a page a directory is read past its block: the
    loop runs to the end of the mapped page, so the listing of a one-block
    directory also contains what the following block happens to hold. *)
Theorem read_dir_reads_past_block :
  bmap (fun _ => image_page small_img) small_fs (20 :: replicate 14 0) 0 = Some 20 /\
  dir_blocks small_fs 1024 = 1 /\
  (read_at small_img small_fs small_inodes 9 0).2.1 =
    [mkDirent (bs "a") 11 DT_Reg; mkDirent (bs "b") 12 DT_Reg].
Proof. split_and!; vm_compute; reflexivity. Qed.

(** ** Witnesses *)

Lemma img_mounted : mounted (img_world 9 0) img_fs root_ptr root_blocks 4096.
Proof.
  constructor; [done|eexists; split; [vm_compute; reflexivity|done]|..].
  - unfold page_block_sizes. apply list_elem_of_In. cbn. tauto.
  - done.
  - unfold root_blocks. repeat constructor; lia.
Qed.

Lemma img_mounted_hole :
  mounted (img_world 9 0) img_fs 9 [0; 5; 0; 0; 0; 0; 0; 0; 0; 0; 0; 0; 0; 0; 0] 8192.
Proof.
  constructor; [done|eexists; split; [vm_compute; reflexivity|done]|..].
  - unfold page_block_sizes. apply list_elem_of_In. cbn. tauto.
  - done.
  - repeat constructor; lia.
Qed.

Lemma img_geometry : geometry img_fs.
Proof.
  constructor; [|vm_compute; intuition discriminate|done|done].
  unfold page_block_sizes. apply list_elem_of_In. cbn. tauto.
Qed.

Lemma img_dir_wf : dir_wf img_disk img_fs root_blocks 4096.
Proof.
  intros i Hi. assert (i = 0) as -> by (change (dir_blocks img_fs 4096) with 1 in Hi; lia).
  exists 5. split; [done|]. right. split; [vm_compute; reflexivity|].
  apply (bool_decide_unpack _). vm_compute. exact I.
Qed.

Lemma offset_to_block_correct_witness :
  exists r w', @offset_to_block linux_errno linux_err_ptr (ram_cache img) const_alloc (toy_vfs INodeData)
    root_ptr 0 (img_world 9 0) = (r, w') /\ w_held w' = [].
Proof.
  destruct (@offset_to_block_correct linux_errno linux_err_ptr (ram_cache img) const_alloc (toy_vfs INodeData)
    img_disk _ _ (img_world 9 0) img_fs root_ptr root_blocks 4096 0 img_mounted ltac:(lia)) as (r & w' & H1 & H2 & _).
  exists r, w'. exact (conj H1 H2).
Defined.

Definition empty_map : Map := mkMap Hole 0 0 0 0 0.

Lemma begin_maps_block_witness :
  exists r w', @begin linux_errno linux_err_ptr (ram_cache img) const_alloc (toy_vfs INodeData)
    root_ptr 100 4096 empty_map (img_world 9 0) = (r, w') /\ w_held w' = [].
Proof.
  destruct (@begin_maps_block linux_errno linux_err_ptr (ram_cache img) const_alloc (toy_vfs INodeData)
    img_disk _ _ (img_world 9 0) img_fs root_ptr root_blocks 4096 100 4096 empty_map img_mounted ltac:(lia) ltac:(lia) _)
    as (r & w' & H1 & H2 & _).
  exists r, w'. exact (conj H1 H2).
Defined.

Lemma begin_maps_hole_to_block_zero_witness :
  exists mp w', @begin linux_errno linux_err_ptr (ram_cache img) const_alloc (toy_vfs INodeData)
    9 100 4096 empty_map (img_world 9 0) = (Ok mp, w') /\ map_type mp = Mapped /\ map_addr mp = 0.
Proof.
  apply (@begin_maps_hole_to_block_zero linux_errno linux_err_ptr (ram_cache img) const_alloc (toy_vfs INodeData)
    img_disk _ _ (img_world 9 0) img_fs 9 [0; 5; 0; 0; 0; 0; 0; 0; 0; 0; 0; 0; 0; 0; 0] 8192 100 4096 empty_map
    img_mounted_hole ltac:(lia) ltac:(lia) _ eq_refl).
Defined.

Lemma lookup_finds_entry_witness :
  exists mf w1, w_held w1 = [mf_folio mf] /\
    @lookup linux_errno linux_err_ptr (ram_cache img) const_alloc (toy_vfs INodeData) toy_tables 500
      root_ptr 1 (img_world 9 0) = scoped mf (lookup_found toy_tables 500 1 12) w1.
Proof.
  pose proof (@lookup_finds_entry linux_errno linux_err_ptr (ram_cache img) const_alloc (toy_vfs INodeData)
    img_disk _ _ _ toy_tables 500 (img_world 9 0) img_fs root_ptr 1 root_blocks 4096
    img_mounted eq_refl ltac:(lia) img_dir_wf) as H.
  assert (dir_find img_disk img_fs root_blocks (@dentry_name _ (toy_vfs INodeData) 1)
    (seqZ 0 (dir_blocks img_fs 4096)) = Some 12) as E by (vm_compute; reflexivity).
  rewrite E in H. destruct H as (mf & w1 & H1 & _ & H2). exists mf, w1. exact (conj H1 H2).
Defined.

Lemma read_dir_lists_witness :
  exists w', @read_dir linux_errno linux_err_ptr (ram_cache img) const_alloc (toy_vfs INodeData)
    root_ptr (img_world 9 0) = (Ok tt, w') /\ w_held w' = [].
Proof.
  destruct (@read_dir_lists linux_errno linux_err_ptr (ram_cache img) const_alloc (toy_vfs INodeData) _
    img_disk _ _ _ (img_world 9 0) img_fs root_ptr root_blocks 4096 img_mounted eq_refl ltac:(lia) img_dir_wf eq_refl)
    as (k & w' & H1 & H2 & _); [vm_compute; reflexivity|].
  exists w'. exact (conj H1 H2).
Defined.

Lemma fill_super_validates_witness :
  match @fill_super linux_errno linux_err_ptr (ram_cache img) const_alloc (toy_vfs INodeData)
          (toy_fs_world img ∅ 0 None 0) with
  | (Ok fs, w') => w_held w' = [] /\ block_size fs = 1024 * 2 ^ sf (disk_super img_disk (e_mapper fs)) "log_block_size"
  | _ => False
  end.
Proof.
  pose proof (@fill_super_validates linux_errno linux_err_ptr (ram_cache img) const_alloc (toy_vfs INodeData)
    img_disk _ _ (toy_fs_world img ∅ 0 None 0)) as H. cbv zeta in H.
  assert (match fst (@fill_super linux_errno linux_err_ptr (ram_cache img) const_alloc (toy_vfs INodeData)
          (toy_fs_world img ∅ 0 None 0)) with Ok _ => true | _ => false end = true) as Hok by (vm_compute; reflexivity).
  destruct (fill_super _) as [[fs|e| | |] w']; cbn [fst] in Hok; try discriminate.
  destruct H as [[] Hh]. split; [exact Hh|]. rewrite fv_mapper. apply fv_block_size.
Defined.

Lemma iget_loads_inode_witness :
  match sb_iget (KE := linux_errno) (VK := toy_vfs INodeData) 2 (img_world 9 0) with
  | (Ok (inl n), w1) => exists r w', @iget linux_errno linux_err_ptr (ram_cache img) const_alloc
      (toy_vfs INodeData) toy_tables 500 2 (img_world 9 0) = (r, w')
  | _ => True
  end.
Proof.
  pose proof (@iget_loads_inode linux_errno linux_err_ptr (ram_cache img) const_alloc (toy_vfs INodeData) _
    img_disk _ _ _ toy_tables 500 (img_world 9 0) img_fs 2 eq_refl img_geometry ltac:(lia)) as H.
  rewrite bool_decide_eq_false_2 in H by (vm_compute; intuition discriminate).
  change (groups img_fs !! Z.to_nat ((2 - 1) / inodes_per_group img_fs)) with
    (Some (mkGroup (resize 32 x00 image_group))) in H. cbv zeta iota beta in H.
  destruct (sb_iget 2 (img_world 9 0)) as [[[n|c]|e| | |] w1]; try exact I.
  destruct H as (r & w' & d & H1 & _). exists r, w'. exact H1.
Defined.

(** The inode of the root directory, as [iget] answers. *)
Example image_root_inode :
  (@iget linux_errno linux_err_ptr (ram_cache img) const_alloc (toy_vfs INodeData) toy_tables 500
     2 (toy_fs_world img ∅ 0 (Some img_fs) 0)).1 = Ok (2 ^ 40 + 2).
Proof. vm_compute. reflexivity. Qed.
