(* ===== verification/Iomap.v ===== *)
(** * File data through iomap (rko-core/src/fs/iomap.rs)

    The kernel reads the pages of an ext2 file by itself: [ro_aops] installs its iomap code
    with the callbacks [iomap_begin_trampoline] and [iomap_end_trampoline], which say where a
    range of the file lies on the device.  [IomapKernel] is that code and [IomapKernelOk]
    what it documents; [ext2_read_page] composes it with ext2's block mapping. *)
From Stdlib Require Import ZArith Lia Bool.
From Stdlib.Strings Require Import Byte.
From stdpp Require Import base list option numbers gmap.
From S2P Require Import Prelude Errors KVec LeBytes Mapper Vfs Emits Ext2 Ext2Blocks Ext2Dir Ext2Mount Ext2Image.

(** [struct iomap_ops], for a kernel in state [W]. *)
Record iomap_ops (W : Type) : Type := mkIomapOps {
  io_begin : Z -> Z -> Z -> Z -> Map -> Map -> M W Error (Z * (Map * Map));
  io_end : option (Z -> Z -> Z -> Z -> Z -> Map -> M W Error Z) }.
Arguments mkIomapOps {W}.
Arguments io_begin {W}.
Arguments io_end {W}.

(** [iomap_bio_read_folio]: the bytes of the folio of [n] bytes at [pos] of the inode, or
    [None] when it could not be read. *)
Class IomapKernel (W : Type) :=
  iomap_bio_read_folio : iomap_ops W -> Z -> Z -> Z -> W -> option (list byte) * W.

(** The byte at [x] according to a mapping. *)
Definition mapping_byte (dev : Z -> Z -> byte) (m : Map) (x : Z) : byte :=
  match map_type m with
  | Mapped => dev (map_bdev m) (map_addr m + (x - map_offset m))
  | _ => x00
  end.

(** What [iomap_begin] has to answer for a position [q] of the range that ends at [stop]:
    success, with a mapping that contains [q] and that gives the contents of the file
    below [limit]. *)
Definition begin_answers {W} (dev : Z -> Z -> byte) (content : Z -> byte) (limit stop q : Z) (I : W -> Prop)
    (o : res Error (Z * (Map * Map)) * W) : Prop :=
  exists m sm w', o = (Ok (0, (m, sm)), w') /\ I w' /\ map_offset m <= q < map_offset m + map_length m /\
    forall x, q <= x < map_offset m + map_length m -> x < stop -> x < limit -> mapping_byte dev m x = content x.

(** Documented, for a device whose reads succeed: the kernel asks for the mapping of each
    part of the range and reads that part from where the mapping says. *)
Class IomapKernelOk {W} (IK : IomapKernel W) (dev : Z -> Z -> byte) : Prop :=
  iomap_read_spec ops inode pos n w (I : W -> Prop) content limit :
    0 <= pos -> 0 <= n -> io_end ops = None -> I w ->
    (forall q len flags map srcmap w, I w -> pos <= q -> 0 < len -> q + len <= pos + n ->
       begin_answers dev content limit (pos + n) q I (io_begin ops inode q len flags map srcmap w)) ->
    exists d w', iomap_bio_read_folio ops inode pos n w = (Some d, w') /\ I w' /\ lenZ d = n /\
      forall x, pos <= x < pos + n -> x < limit -> d !! Z.to_nat (x - pos) = Some (content x).

(** ** The callbacks *)

(** The trait [iomap::Operations]. *)
Class IomapOperations (W : Type) := {
  op_begin : Z -> Z -> Z -> Z -> Map -> Map -> M W Error (Map * Map);
  has_end : bool;
  op_end : Z -> Z -> Z -> Z -> Z -> Map -> M W Error unit }.

Section Callbacks.
Context {W : Type} {IO : IomapOperations W} {IK : IomapKernel W}.

(** [from_result] around [T::begin]; the kernel looks at the maps only on success. *)
Definition iomap_begin_trampoline (inode pos length flags : Z) (map srcmap : Map) : M W Error (Z * (Map * Map)) := fun w =>
  match op_begin inode pos length flags map srcmap w with
  | (Ok ms, w') => (Ok (0, ms), w')
  | (Err e, w') => (Ok (to_errno e, (map, srcmap)), w')
  | (Panic, w') => (Panic, w')
  | (Ub, w') => (Ub, w')
  | (Pending, w') => (Pending, w')
  end.

Definition iomap_end_trampoline (inode pos length written flags : Z) (map : Map) : M W Error Z := fun w =>
  let '(r, w') := op_end inode pos length written flags map w in (from_result r, w').

(** [iomap_ops]: a filesystem without an [end] installs none. *)
Definition iomap_ops_for : iomap_ops W :=
  mkIomapOps iomap_begin_trampoline (if has_end then Some iomap_end_trampoline else None).

(** [iomap_aops_read_folio], the [read_folio] of [ro_aops]: the result is always zero, the
    folio carries the outcome. *)
Definition iomap_aops_read_folio (inode pos n : Z) (w : W) : (Z * option (list byte)) * W :=
  let ops := iomap_ops_for in
  let '(d, w') := iomap_bio_read_folio ops inode pos n w in ((0, d), w').
End Callbacks.

(** ** ext2 *)
Section Ext2Pages.
Context `{KE : KernelErrno, KP : KernelErrPtr, BC : BlockCache, VA : VecAlloc}.
Context `{VK : VfsKernel INodeData} (disk : Z -> Z -> list byte).

#[global] Instance ext2_iomap : IomapOperations (World (VW INodeData Ext2Fs)) := {|
  op_begin inode pos length flags map srcmap :=
    m <-! begin inode pos length map ;; m_ret (m, srcmap);
  has_end := false;
  op_end _ _ _ _ _ _ := m_ret tt |}.

Definition device_byte (m : Mapper) (a : Z) : byte :=
  default x00 (disk (mapping m) (a / PAGE_SIZE) !! Z.to_nat (a mod PAGE_SIZE)).

(** Byte [x] of a file: in the device block that the pointers lead to, zero in a hole. *)
Definition file_byte (s : Ext2Fs) (blocks : list Z) (x : Z) : byte :=
  match bmap disk s blocks (x / block_size s) with
  | Some v => if v =? 0 then x00 else device_byte (e_mapper s) (v * block_size s + x mod block_size s)
  | None => x00
  end.

Context {BCO : BlockCacheOk BC KP disk} {SP : SinglePageFolios BC KP} {BL : BlockCacheLive BC KP}.
Context {IK : IomapKernel (World (VW INodeData Ext2Fs))} {dev : Z -> Z -> byte} {IKO : IomapKernelOk IK dev}.

(** The block of a position is the block of the next positions of the block. *)
Lemma same_block b q x : 0 < b -> 0 <= q -> q <= x < q / b * b + b -> x / b = q / b /\ x - q / b * b = x mod b.
Proof.
  intros Hb Hq Hx. assert (q / b * b <= q) by (rewrite Z.mul_comm; apply Z.mul_div_le; lia).
  assert (x / b = q / b) as He by (symmetry; apply (Z.div_unique_pos x b (q / b) (x - q / b * b)); lia).
  split; [done|]. rewrite <- He. pose proof (Z_div_mod_eq_full x b). lia.
Qed.

(** ext2's callback answers as the kernel expects, at every position of a range without
    holes. *)
Lemma ext2_begin_answers w w0 s inode blocks size pos n q len flags map srcmap :
  mounted w s inode blocks size -> untouched w0 w -> (forall a, dev (s_bdev (v_sb (w_ext w0))) a = device_byte (e_mapper s) a) ->
  0 <= pos -> pos + n < 2 ^ 62 -> (forall x, pos <= x < pos + n -> x < size -> exists v, bmap disk s blocks (x / block_size s) = Some v /\ v <> 0) ->
  pos <= q -> 0 < len -> q + len <= pos + n ->
  begin_answers dev (file_byte s blocks) size (pos + n) q (fun w' => mounted w' s inode blocks size /\ untouched w0 w')
    (iomap_begin_trampoline inode q len flags map srcmap w).
Proof.
  intros Hm Hu Hdev Hpos Hn Hmap Hq Hlen Hend. unfold iomap_begin_trampoline, begin_answers. cbn [op_begin ext2_iomap]. unfold m_bind.
  destruct (decide (size <= q)) as [Hsz|Hsz].
  - destruct (mt_inode _ _ _ _ _ Hm) as (k & Hi & Hk). unfold begin, m_bind at 1. rewrite (inode_size_ok _ _ _ _ Hi), Hk.
    destruct (size <=? q) eqn:E; [|blia]. cbn [m_ret]. do 3 eexists. split; [reflexivity|]. split; [done|]. cbn.
    rewrite wrap_small by lia. split; [lia|]. intros; lia.
  - destruct (begin_spec disk w s inode blocks size q len map Hm ltac:(lia) ltac:(lia)) as (r & w' & -> & Hu' & Hr).
    destruct (Hmap q ltac:(lia) ltac:(lia)) as (v & Hv & Hv0). rewrite Hv in Hr.
    destruct Hr as [->|(e & _ & HL)]; [|by destruct HL]. cbn [m_ret]. do 3 eexists. split; [reflexivity|].
    pose proof (page_block_size_cases _ (mt_block_size _ _ _ _ _ Hm)) as Hb.
    split; [split; [by eapply mounted_untouched|by etrans]|]. cbn [map_offset map_length].
    assert (q / block_size s * block_size s <= q) by (rewrite Z.mul_comm; apply Z.mul_div_le; lia).
    pose proof (Z.mod_pos_bound q (block_size s) ltac:(lia)). pose proof (Z_div_mod_eq_full q (block_size s)). split; [lia|].
    intros x Hx _ Hxs. destruct (same_block (block_size s) q x ltac:(lia) ltac:(lia) Hx) as [Hx1 Hx2].
    unfold mapping_byte, file_byte. cbn [map_type map_bdev map_addr map_offset]. rewrite Hx1, Hv, Hx2.
    destruct (v =? 0) eqn:E; [blia|]. destruct Hu as [_ ->]. apply Hdev.
Qed.

(** C38. Reading a page of an ext2 file through the kernel's [read_folio] delivers the file:
    on a mounted filesystem, with a device that does not fail, every byte of the page below
    the file's size is the byte of the device block that the inode's direct and indirect
    pointers lead to, for every page whose blocks are allocated, and the mounted state is
    unchanged.  (Holes are the defect [begin_maps_hole_to_block_zero].) *)
Theorem ext2_read_page w s inode blocks size pos n :
  mounted w s inode blocks size -> (forall a, dev (s_bdev (v_sb (w_ext w))) a = device_byte (e_mapper s) a) ->
  0 <= pos -> 0 <= n -> pos + n < 2 ^ 62 ->
  (forall x, pos <= x < pos + n -> x < size -> exists v, bmap disk s blocks (x / block_size s) = Some v /\ v <> 0) ->
  exists d w', iomap_aops_read_folio inode pos n w = ((0, Some d), w') /\ lenZ d = n /\ w_held w' = w_held w /\
    w_ext w' = w_ext w /\ forall x, pos <= x < pos + n -> x < size -> d !! Z.to_nat (x - pos) = Some (file_byte s blocks x).
Proof.
  intros Hm Hdev Hpos Hn Hmax Hmap. unfold iomap_aops_read_folio.
  destruct (iomap_read_spec iomap_ops_for inode pos n w (fun w' => mounted w' s inode blocks size /\ untouched w w')
    (file_byte s blocks) size) as (d & w' & -> & [_ [H1 H2]] & Hd & Hc); [done|done|done|by split|..].
  - intros q len flags map srcmap w1 [Hm1 Hu1] Hq Hl He. by eapply ext2_begin_answers.
  - by exists d, w'.
Qed.
End Ext2Pages.

(** ** A kernel that asks for one byte at a time *)
Section ToyKernel.
Context {W : Type} (dev : Z -> Z -> byte).

Definition map_zeroed : Map := mkMap Hole 0 0 0 0 0.

Fixpoint toy_read (ops : iomap_ops W) (inode pos : Z) (n : nat) (w : W) : option (list byte) * W :=
  match n with
  | O => (Some [], w)
  | S n' =>
      match io_begin ops inode pos 1 0 map_zeroed map_zeroed w with
      | (Ok (r, (m, _)), w1) =>
          if r =? 0 then let '(d, w2) := toy_read ops inode (pos + 1) n' w1 in (cons (mapping_byte dev m pos) <$> d, w2)
          else (None, w1)
      | (_, w1) => (None, w1)
      end
  end.

Definition toy_iomap : IomapKernel W := fun ops inode pos n => toy_read ops inode pos (Z.to_nat n).

#[global] Instance toy_iomap_ok : IomapKernelOk toy_iomap dev.
Proof.
  intros ops inode pos n w I content limit Hp Hn _ Hw Hb. unfold iomap_bio_read_folio, toy_iomap.
  remember (Z.to_nat n) as k eqn:Hk. revert pos n Hp Hn Hk w Hw Hb. induction k as [|k IH]; intros pos n Hp Hn Hk w Hw Hb; cbn [toy_read].
  - exists [], w. split; [done|]. split; [done|]. split; [rewrite lenZ_nil; lia|]. intros; lia.
  - destruct (Hb pos 1 0 map_zeroed map_zeroed w Hw ltac:(lia) ltac:(lia) ltac:(lia)) as (m & sm & w1 & -> & Hw1 & Hc & Hm).
    cbn [Z.eqb].
    destruct (IH (pos + 1) (n - 1) ltac:(lia) ltac:(lia) ltac:(lia) w1 Hw1) as (d & w2 & -> & Hw2 & Hd & Hx).
    { intros q len fl mp smp w3 Hw3 Hq Hl He. replace (pos + 1 + (n - 1)) with (pos + n) by lia. apply Hb; [done|lia..]. }
    exists (mapping_byte dev m pos :: d), w2. split; [done|]. split; [done|]. split; [rewrite lenZ_cons; lia|].
    intros x Hxr Hxl. destruct (decide (x = pos)) as [->|Hne].
    + rewrite Z.sub_diag. change (Z.to_nat 0) with O. cbn. f_equal. apply Hm; lia.
    + replace (Z.to_nat (x - pos)) with (S (Z.to_nat (x - (pos + 1)))) by lia. cbn. apply Hx; lia.
Qed.
End ToyKernel.

(** The root directory of the image, read as a file. *)
Lemma ext2_read_page_witness :
  exists d w', @iomap_aops_read_folio _
      (@ext2_iomap linux_errno linux_err_ptr (ram_cache img) const_alloc (toy_vfs INodeData))
      (toy_iomap (fun _ => device_byte img_disk (mkMapper 0))) root_ptr 0 4096 (img_world 9 0) = ((0, Some d), w') /\
    d !! 20%nat = Some x61.
Proof.
  destruct (@ext2_read_page linux_errno linux_err_ptr (ram_cache img) const_alloc (toy_vfs INodeData) img_disk _ _ _
    (toy_iomap (fun _ => device_byte img_disk (mkMapper 0))) (fun _ => device_byte img_disk (mkMapper 0)) _
    (img_world 9 0) img_fs root_ptr root_blocks 4096 0 4096 img_mounted (fun a => eq_refl) ltac:(lia) ltac:(lia) ltac:(lia))
    as (d & w' & H & _ & _ & _ & Hd).
  { intros x Hx _. exists 5. change (block_size img_fs) with 4096. assert (x / 4096 = 0) as -> by (apply Z.div_small; lia). split; [vm_compute; reflexivity|lia]. }
  exists d, w'. split; [exact H|]. specialize (Hd 20 ltac:(lia) ltac:(lia)). change (Z.to_nat (20 - 0)) with 20%nat in Hd.
  rewrite Hd. vm_compute. reflexivity.
Defined.
