(* ===== verification/Tarfs.v ===== *)
(** * The read-only tar filesystem (samples/tarfs)

    A tar archive with an index: the last sector holds a header that names the inode
    table; inodes and directory entries are fixed-size records, names and file data
    are byte ranges of the device.  One definition per function of [tarfs.rs], over
    [Mapper], [Vfs] and [Folio].  Variables that a closure captures by mutable
    reference are an extra state of [for_each_page], added by [capture]. *)
From Stdlib Require Import ZArith Lia Bool.
From Stdlib.Strings Require Import Byte String.
From stdpp Require Import base list option numbers gmap strings.
From S2P Require Import Prelude Errors KVec LeBytes Mapper Vfs Folio Boxes UserIo Callbacks.

(** ** defs.rs *)
Definition OPAQUE : Z := 1.

Definition TInode_fields : list (string * fty) :=
  [("mode", FInt 2); ("flags", FInt 1); ("hmtime", FInt 1); ("owner", FInt 4); ("group", FInt 4);
   ("lmtime", FInt 4); ("size", FInt 8); ("offset", FInt 8)]%string.
Definition TDirEntry_fields : list (string * fty) :=
  [("ino", FInt 8); ("name_offset", FInt 8); ("name_len", FInt 8); ("etype", FInt 1);
   ("_padding", FArr 1 7)]%string.
Definition Header_fields : list (string * fty) :=
  [("inode_table_offset", FInt 8); ("inode_count", FInt 8)]%string.

(** A structure is its bytes; [tif i "f"] is [i.f.value()]. *)
Record TInode : Type := mkTInode { tinode_raw : list byte }.
Record TDirEntry : Type := mkTDirEntry { tdirent_raw : list byte }.
Record Header : Type := mkHeader { header_raw : list byte }.

Definition tif (i : TInode) (f : string) : Z := field TInode_fields f (tinode_raw i).
Definition tdf (d : TDirEntry) (f : string) : Z := field TDirEntry_fields f (tdirent_raw d).
Definition hf (h : Header) (f : string) : Z := field Header_fields f (header_raw h).

#[global] Instance TInode_from_bytes : FromBytes TInode := {|
  fb_size := struct_size TInode_fields; fb_align := struct_align TInode_fields; fb_read := mkTInode |}.
#[global] Instance TDirEntry_from_bytes : FromBytes TDirEntry := {|
  fb_size := struct_size TDirEntry_fields; fb_align := struct_align TDirEntry_fields; fb_read := mkTDirEntry |}.
#[global] Instance Header_from_bytes : FromBytes Header := {|
  fb_size := struct_size Header_fields; fb_align := struct_align Header_fields; fb_read := mkHeader |}.

(** ** tarfs.rs *)
Definition SECTOR_SIZE : Z := 512.
Definition TARFS_BSIZE_BITS : Z := 12.
Definition TARFS_BSIZE : Z := Z.shiftl 1 TARFS_BSIZE_BITS.
Definition TARFS_MAGIC : Z := 0x54415246.
Definition S_IFMT : Z := 0xF000.

Record TarFsData : Type := mkTarFs {
  t_data_size : Z; t_inode_table_offset : Z; t_inode_count : Z; t_mapper : Mapper }.

Record TInodeData : Type := mkTID { ti_offset : Z; ti_flags : Z }.

Definition size_of_TInode : Z := struct_size TInode_fields.
Definition size_of_TDirEntry : Z := struct_size TDirEntry_fields.

(** [u64::div_ceil]. *)
Definition div_ceil (a b : Z) : Z := (a + b - 1) / b.

(** ** Captured variables *)
Section Capture.
Context `{BC : BlockCache} {X C : Type}.

Definition capture {A} (c : C) (m : M (World (X * C)) Error A) : M (World X) Error (A * C) :=
  fun w =>
    let '(r, w') := m (mkWorld (w_dev w) (w_held w) (w_ext w, c)) in
    (match r with
     | Ok a => Ok (a, (w_ext w').2)
     | Err e => Err e | Panic => Panic | Ub => Ub | Pending => Pending
     end, mkWorld (w_dev w') (w_held w') (w_ext w').1).

Definition captured : M (World (X * C)) Error C := fun w => (Ok (w_ext w).2, w).
Definition set_captured (c : C) : M (World (X * C)) Error unit :=
  fun w => (Ok tt, mkWorld (w_dev w) (w_held w) ((w_ext w).1, c)).
End Capture.

Section Tarfs.
Context `{KE : KernelErrno, KP : KernelErrPtr, BC : BlockCache, VA : VecAlloc}.
Context `{VK : VfsKernel TInodeData}.
(** The filesystem's tables, and the size of a block device in sectors. *)
Context (TABLES : Tables) (bdev_nr_sectors : Z -> Z).

Abbreviation FM := (@FM BC VA TInodeData TarFsData VK).

(** *** Inodes *)

(** The [match mode & S_IFMT]. *)
Definition tar_type (mode doffset : Z) : res Error INodeType :=
  let t := Z.land mode S_IFMT in
  if t =? S_IFREG then Ok Reg
  else if t =? S_IFDIR then Ok Dir
  else if t =? S_IFLNK then Ok (Lnk None)
  else if t =? S_IFSOCK then Ok Sock
  else if t =? S_IFIFO then Ok Fifo
  else if t =? S_IFCHR then Ok (Chr (wrap 32 (Z.shiftr doffset 32)) (wrap 32 doffset))
  else if t =? S_IFBLK then Ok (Blk (wrap 32 (Z.shiftr doffset 32)) (wrap 32 doffset))
  else Err ENOENT.

Definition tar_secs (i : TInode) : Z :=
  Z.lor (tif i "lmtime") (Z.shiftl (Z.land (tif i "hmtime") 0xf) 32).

Definition tar_params (i : TInode) (typ : INodeType) : INodeParams TInodeData :=
  let ts := mkTime (tar_secs i) 0 in
  mkParams (Z.land (tif i "mode") 0x1ff) typ (sext 64 (tif i "size"))
    (div_ceil (tif i "size") TARFS_BSIZE) 1 (tif i "owner") (tif i "group") ts ts ts
    (mkTID (tif i "offset") (tif i "flags")).

Definition tar_load (data : TarFsData) (ino : Z) (n : NewINode) : FM Z :=
  let offset := wrap 64 (t_inode_table_offset data + wrap 64 (wrap 64 (ino - 1) * size_of_TInode)) in
  mapped <-! mapped_folio (t_mapper data) (sext 64 offset) ;;
  scoped mapped (
    d <-! m_lift (mf_data mapped) ;;
    i <-! m_lift (ok_or (@from_bytes TInode _ d 0) EIO) ;;
    typ <-! m_lift (tar_type (tif i "mode") (tif i "offset")) ;;
    NewINode_init n (tar_params i typ) TABLES).

Definition tar_iget (ino : Z) : FM Z :=
  data <-! sb_data ;;
  if (ino =? 0) || (t_inode_count data <? ino) then m_err ENOENT
  else
    r <-! sb_iget ino ;;
    match r with
    | inr cached => m_ret cached
    | inl n => or_drop n (tar_load data ino n)
    end.

(** *** Mounting *)
Definition tar_fill_super : FM TarFsData :=
  sb <-! get_sb ;;
  let scount := bdev_nr_sectors (s_bdev sb) in
  if scount <? TARFS_BSIZE / SECTOR_SIZE then m_err ENXIO
  else
    b <-! min_blocksize SECTOR_SIZE ;;
    if negb (b =? SECTOR_SIZE) then m_err EIO
    else
      let mapper := mkMapper (s_bdev_mapping sb) in
      let header_offset := wrap 64 (wrap 64 (scount - 1) * SECTOR_SIZE) in
      mapped <-! mapped_folio mapper (sext 64 header_offset) ;;
      hdr <-! scoped mapped (
        d <-! m_lift (mf_data mapped) ;;
        m_lift (ok_or (@from_bytes Header _ d 0) EIO)) ;;
      let table := hf hdr "inode_table_offset" in
      let count := hf hdr "inode_count" in
      let data_size := wrap 64 (scount * SECTOR_SIZE) in
      data <-! with_kv (kv_try (mkTarFs data_size table count mapper)) ;;
      if data_size <=? table then m_err E2BIG
      else
        table_end <-! m_lift (ok_or (s ← u_checked_mul 64 count size_of_TInode;
                                     u_checked_add 64 s table) ERANGE) ;;
        if data_size <? table_end then m_err E2BIG
        else
          _ <-! set_magic TARFS_MAGIC ;;
          m_ret data.

Definition tar_init_root : FM Z :=
  inode <-! tar_iget 1 ;;
  Root_try_new inode.

(** *** Directories *)

(** [name_eq]: compare the name with the bytes on the device, page by page. *)
Definition name_cb {X} (page : bslice) : M (World (X * list byte)) Error (option bool) :=
  remaining <-! captured ;;
  let len := Z.min (lenZ (sl_data page)) (lenZ remaining) in
  a <-! m_lift (slice (sl_data page) 0 len) ;;
  b <-! m_lift (slice remaining 0 len) ;;
  if negb (bool_decide (a = b)) then m_ret (Some false)
  else
    rest <-! m_lift (slice remaining len (lenZ remaining)) ;;
    _ <-! set_captured rest ;;
    m_ret None.

Definition name_eq {X} (data : TarFsData) (name : list byte) (offset : Z) : M (World X) Error bool :=
  r <-! capture name (for_each_page (t_mapper data) name_cb (sext 64 offset) (sext 64 (lenZ name))) ;;
  m_ret (default true r.1).

(** The [for e in entries] of [lookup]. *)
Fixpoint tar_find_entry (data : TarFsData) (name : list byte) (es : list TDirEntry) : FM (option Z) :=
  match es with
  | [] => m_ret None
  | e :: r =>
      eq <-! name_eq data name (tdf e "name_offset") ;;
      if (eq : bool) then
        inode <-! tar_iget (tdf e "ino") ;;
        m_ret (Some inode)
      else tar_find_entry data name r
  end.

Definition tar_lookup (parent dentry : Z) : FM (option Z) :=
  data <-! sb_data ;;
  let name := dentry_name dentry in
  pdata <-! inode_data parent ;;
  size <-! inode_size parent ;;
  found <-! for_each_page (t_mapper data) (fun page =>
      entries <-! m_lift (ok_or (@from_bytes_to_slice TDirEntry _ page) EIO) ;;
      tar_find_entry data name entries) (sext 64 (ti_offset pdata)) size ;;
  splice_alias dentry found.

(** The name of an entry, read into a buffer of 256 bytes. *)
Definition name_copy_cb {X} (name_len : Z) (page : bslice) :
    M (World (X * (list byte * Z))) Error (option unit) :=
  c <-! captured ;;
  let '(buf, name_off) := c in
  let copy_len := Z.min (lenZ (sl_data page)) (wrap 64 (name_len - name_off)) in
  _ <-! m_lift (slice buf name_off (name_off + copy_len)) ;;
  d <-! m_lift (slice (sl_data page) 0 copy_len) ;;
  _ <-! set_captured (overwrite buf name_off d, name_off + copy_len) ;;
  m_ret None.

Definition read_name {X} (data : TarFsData) (e : TDirEntry) : M (World X) Error (list byte) :=
  let name_len := tdf e "name_len" in
  if 256 <? name_len then m_err ENAMETOOLONG
  else
    r <-! capture (replicate 256 x00, 0)
      (for_each_page (t_mapper data) (name_copy_cb name_len) (sext 64 (tdf e "name_offset")) name_len) ;;
    m_lift (slice r.2.1 0 name_len).

Definition tar_entry_type (etype : Z) : DirEntryType :=
  if etype =? 4 then DT_Dir else if etype =? 8 then DT_Reg else if etype =? 10 then DT_Lnk
  else if etype =? 2 then DT_Chr else if etype =? 6 then DT_Blk else if etype =? 1 then DT_Fifo
  else if etype =? 12 then DT_Sock else DT_Unknown.

(** The [for e in entries] of [read_dir]: [Some ()] when the reader is full. *)
Fixpoint tar_emit_entries (data : TarFsData) (es : list TDirEntry) : FM (option unit) :=
  match es with
  | [] => m_ret None
  | e :: r =>
      name <-! read_name data e ;;
      more <-! emit size_of_TDirEntry name (tdf e "ino") (tar_entry_type (tdf e "etype")) ;;
      if negb more then m_ret (Some tt) else tar_emit_entries data r
  end.

Definition tar_read_dir (inode : Z) : FM unit :=
  data <-! sb_data ;;
  idata <-! inode_data inode ;;
  size <-! inode_size inode ;;
  pos <-! emitter_pos ;;
  if (pos <? 0) || negb (Z.rem pos size_of_TDirEntry =? 0) then m_err ENOENT
  else if size <=? pos then m_ret tt
  else if match u_checked_add 64 (ti_offset idata) (wrap 64 size) with
          | None => true
          | Some end_ => t_data_size data <? end_
          end then m_err EIO
  else
    _ <-! for_each_page (t_mapper data) (fun page =>
        entries <-! m_lift (ok_or (@from_bytes_to_slice TDirEntry _ page) EIO) ;;
        tar_emit_entries data entries)
      (sext 64 (sext 64 (ti_offset idata) + pos)) (sext 64 (size - pos)) ;;
    m_ret tt.

(** *** File data *)

(** The closure of [read_folio]: copy the next part into the folio. *)
Definition copy_cb {X} (to_read : Z) (page : bslice) : M (World (X * (Folio * Z))) Error (option unit) :=
  c <-! captured ;;
  let '(f, written) := c in
  let copy_len := Z.min (lenZ (sl_data page)) (wrap 64 (to_read - written)) in
  d <-! m_lift (slice (sl_data page) 0 copy_len) ;;
  f' <-! m_lift (lf_write f written d) ;;
  _ <-! set_captured (f', written + copy_len) ;;
  m_ret None.

(** The folio as it is left. *)
Definition tar_read_folio (inode : Z) (folio : Folio) : FM Folio :=
  data <-! sb_data ;;
  idata <-! inode_data inode ;;
  size <-! inode_size inode ;;
  let folio_offset := wrap 64 (folio_pos folio) in
  let fsize := folio_size folio in
  let file_size := wrap 64 size in
  f <-! m_lift (lf_zero_out folio 0 fsize) ;;
  if file_size <=? folio_offset then m_ret f
  else
    let to_read := Z.min fsize (file_size - folio_offset) in
    let disk_offset := wrap 64 (ti_offset idata + folio_offset) in
    r <-! capture (f, 0) (for_each_page (t_mapper data) (copy_cb to_read) (sext 64 disk_offset) (sext 64 to_read)) ;;
    m_ret r.2.1.

(** *** Attributes *)
Definition tar_read_xattr (inode : Z) (name outbuf : list byte) : FM (Z * list byte) :=
  idata <-! inode_data inode ;;
  if Z.land (ti_flags idata) OPAQUE =? 0 then m_err ENODATA
  else if negb (bool_decide (name = bs "trusted.overlay.opaque")) then m_err ENODATA
  else m_ret (1, match outbuf with [] => [] | _ :: r => "y"%byte :: r end).

Definition tar_statfs : FM Stat :=
  data <-! sb_data ;;
  m_ret (mkStat TARFS_MAGIC 255 TARFS_BSIZE (t_inode_table_offset data / TARFS_BSIZE) (t_inode_count data)).

(** The optional callbacks: [get_link], [seek], [read] and [read_iter] are not
    overridden. *)
Definition tar_ops `{UC : UserCopy, II : IovIter} : FsOps TInodeData TarFsData := {|
  op_read_folio := tar_read_folio;
  has_statfs := true;
  op_statfs _ := tar_statfs;
  has_read_xattr := true;
  op_read_xattr _ := tar_read_xattr;
  has_get_link := false;
  op_get_link _ _ := m_err EINVAL;
  has_seek := false;
  op_seek _ _ _ := m_err EINVAL;
  has_read := false;
  op_read _ := m_err EINVAL;
  has_read_iter := false;
  op_read_iter _ _ := m_err EINVAL |}.

(** The filesystem as the VFS sees it. *)
Definition tar_fs : FileSystem TInodeData TarFsData := {|
  fs_tables := TABLES;
  fs_fill_super := tar_fill_super;
  fs_init_root := tar_init_root;
  fs_lookup := tar_lookup;
  fs_read_dir := tar_read_dir |}.

End Tarfs.
