(* ===== verification/TarfsProofs.v ===== *)
(** * tarfs: mounting, inodes, file data and names

    Resources first, for any device.  Then, for a device whose reads succeed or
    fail but do not lie: what a successful mount has checked, what [iget] puts in an
    inode, that [read_folio] fills a page with the file's bytes, and which entry
    [lookup] takes. *)
From Stdlib Require Import ZArith Lia Bool.
From Stdlib.Strings Require Import Byte String.
From stdpp Require Import base list option numbers gmap strings.
From S2P Require Import Prelude Errors KVec LeBytes Mapper Vfs Keeps Folio Boxes UserIo Callbacks Tarfs.

(** ** Resources *)
Lemma keeps_capture `{BC : BlockCache} {X C A : Type} {HI : HasInfo X} (c : C) (m : M (World (X * C)) Error A) :
  keeps m -> keeps (capture c m).
Proof.
  intros Hm w. unfold capture. specialize (Hm (mkWorld (w_dev w) (w_held w) (w_ext w, c))).
  destruct (m _) as [r w']. destruct Hm as [H1 H2]. split; cbn in *; [exact H1|exact H2].
Qed.
Lemma keeps_captured `{BC : BlockCache} {X C : Type} {HI : HasInfo X} : keeps (@captured BC X C).
Proof. by intros w. Qed.
Lemma keeps_set_captured `{BC : BlockCache} {X C : Type} {HI : HasInfo X} (c : C) :
  keeps (X := X * C) (set_captured c).
Proof. by intros w. Qed.
#[export] Hint Resolve keeps_capture keeps_captured keeps_set_captured : keeps.

Section TarKeeps.
Context `{KE : KernelErrno, KP : KernelErrPtr, BC : BlockCache, VA : VecAlloc}.
Context `{VK : VfsKernel TInodeData} (TABLES : Tables) (nr : Z -> Z).

Lemma tar_iget_keeps ino : keeps (tar_iget TABLES ino).
Proof. unfold tar_iget, tar_load. keeps. apply keeps_or_drop. keeps. Qed.
#[local] Hint Resolve tar_iget_keeps : keeps.

Lemma tar_fill_super_keeps : keeps (tar_fill_super nr).
Proof. unfold tar_fill_super. keeps. Qed.

Lemma name_eq_keeps {X} {HI : HasInfo X} data name off : keeps (X := X) (name_eq data name off).
Proof.
  unfold name_eq. apply keeps_bind; [|keeps]. apply keeps_capture, keeps_for_each. intros b.
  unfold name_cb. keeps.
Qed.

Lemma read_name_keeps {X} {HI : HasInfo X} data e : keeps (X := X) (read_name data e).
Proof.
  unfold read_name. destruct (256 <? _); [keeps|]. apply keeps_bind; [|keeps].
  apply keeps_capture, keeps_for_each. intros b. unfold name_copy_cb. keeps.
Qed.

Lemma find_entry_keeps data name es : keeps (tar_find_entry TABLES data name es).
Proof.
  induction es as [|e r IH]; cbn [tar_find_entry]; [keeps|].
  apply keeps_bind; [apply name_eq_keeps|intros [|]; [keeps|exact IH]].
Qed.

Lemma emit_entries_keeps data es : keeps (tar_emit_entries data es).
Proof.
  induction es as [|e r IH]; cbn [tar_emit_entries]; [keeps|].
  apply keeps_bind; [apply read_name_keeps|intros name].
  apply keeps_bind; [keeps|intros [|]; [exact IH|keeps]].
Qed.

Lemma tar_lookup_keeps p d : keeps (tar_lookup TABLES p d).
Proof. unfold tar_lookup. keeps. apply find_entry_keeps. Qed.

Lemma tar_read_dir_keeps i : keeps (tar_read_dir i).
Proof. unfold tar_read_dir. keeps. all: apply emit_entries_keeps. Qed.

Lemma tar_read_folio_keeps i f : keeps (tar_read_folio i f).
Proof.
  unfold tar_read_folio. keeps. apply keeps_capture, keeps_for_each. intros b. unfold copy_cb. keeps.
Qed.

(** No operation of tarfs leaks a folio or disturbs the mounted data, whatever the
    device holds. *)
Theorem tarfs_releases_folios w ino parent dentry inode f :
  kept w (tar_fill_super nr w).2 /\ kept w (tar_iget TABLES ino w).2 /\
  kept w (tar_init_root TABLES w).2 /\ kept w (tar_lookup TABLES parent dentry w).2 /\
  kept w (tar_read_dir inode w).2 /\ kept w (tar_read_folio inode f w).2.
Proof.
  split_and!; [apply tar_fill_super_keeps|apply tar_iget_keeps| |apply tar_lookup_keeps|
    apply tar_read_dir_keeps|apply tar_read_folio_keeps].
  revert w. change (keeps (tar_init_root TABLES)). unfold tar_init_root. keeps.
Qed.
End TarKeeps.

#[global] Instance TInode_from_bytes_ok : FromBytesOk TInode.
Proof. by constructor. Qed.
#[global] Instance TDirEntry_from_bytes_ok : FromBytesOk TDirEntry.
Proof. by constructor. Qed.
#[global] Instance Header_from_bytes_ok : FromBytesOk Header.
Proof. by constructor. Qed.

Section Device.
Context `{KE : KernelErrno, KP : KernelErrPtr, BC : BlockCache, VA : VecAlloc}.
Context `{VK : VfsKernel TInodeData} (disk : Z -> Z -> list byte).
Context {BCO : BlockCacheOk BC KP disk} {SP : SinglePageFolios BC KP}.

(** ** Captured variables *)
Lemma capture_eq {X C A} (c : C) (m : M (World (X * C)) Error A) (w : World X) r w' :
  m (mkWorld (w_dev w) (w_held w) (w_ext w, c)) = (r, w') ->
  capture c m w =
    (match r with Ok a => Ok (a, (w_ext w').2) | Err e => Err e | Panic => Panic | Ub => Ub | Pending => Pending end,
     mkWorld (w_dev w') (w_held w') (w_ext w').1).
Proof. intros H. unfold capture. by rewrite H. Qed.

(** ** Names *)

(** What [name_eq] decides: the device's bytes from the offset on begin with the
    name. *)
Lemma name_eq_spec {X} data name offset (w : World X) :
  0 <= offset -> offset + lenZ name < 2 ^ 63 ->
  exists r w', name_eq data name offset w = (r, w') /\ untouched w w' /\
    match r with
    | Ok b => b = bool_decide (disk_range disk (t_mapper data) offset (lenZ name) = name)
    | Err _ => ~ BlockCacheLive BC KP
    | _ => False
    end.
Proof.
  intros Ho Hl. pose proof (lenZ_nonneg name) as Hn0. set (m := t_mapper data).
  set (I := fun n (x : X * list byte) => x.1 = w_ext w /\ x.2 = drop (Z.to_nat n) name /\
              take (Z.to_nat n) name = disk_range disk m offset n).
  set (Q := fun (r : res Error (option bool)) (x : X * list byte) => x.1 = w_ext w /\ match r with
    | Ok o => default true o = bool_decide (disk_range disk m offset (lenZ name) = name)
    | Err _ => ~ BlockCacheLive BC KP
    | _ => False end).
  destruct (for_each_rule disk m name_cb offset (lenZ name) I Q) with
    (w := mkWorld (w_dev w) (w_held w) (w_ext w, name)) as (r & w' & Hf & Hh & Hx & HQ); try done.
  - intros n c a w1 Hn Hc Hnc _ _ _ (H1 & H2 & H3).
    set (d := disk_range disk m (offset + n) c). set (rem := drop (Z.to_nat n) name) in *.
    assert (lenZ d = c) as Hd by (apply disk_range_length; lia).
    assert (lenZ rem = lenZ name - n) as Hrem by (unfold rem, lenZ in *; rewrite length_drop; lia).
    unfold name_cb, captured, m_bind, m_lift, m_ret. cbn [sl_data]. rewrite H2, Hd, Hrem.
    rewrite Z.min_l by lia. rewrite !slice_ok by lia. rewrite !Z.sub_0_r, !drop_0.
    rewrite (take_ge d) by (unfold lenZ in *; lia).
    case_bool_decide as Heq; cbn [negb].
    + do 2 eexists. split; [reflexivity|]. split; [done|]. cbn. unfold I. cbn.
      rewrite take_ge by (rewrite length_drop; unfold lenZ in *; lia).
      unfold rem. rewrite drop_drop, Z2Nat.inj_add by lia. split_and!; [done|done|].
      rewrite disk_range_app, <- H3, <- take_take_drop by lia. f_equal. fold rem. by rewrite <- Heq.
    + do 2 eexists. split; [reflexivity|]. split; [done|]. split; [done|]. cbn. symmetry.
      apply bool_decide_eq_false. intros Hall. apply Heq. unfold rem.
      transitivity (take (Z.to_nat c) (drop (Z.to_nat n) (disk_range disk m offset (lenZ name))));
        [by rewrite disk_range_drop, disk_range_take by lia|by rewrite Hall].
  - intros n e x Hn (H1 & _) Hnl _. split; done.
  - intros x (H1 & _ & H3). split; [done|]. cbn. symmetry. apply bool_decide_eq_true.
    rewrite <- H3. apply take_ge. unfold lenZ. lia.
  - unfold name_eq, m_bind. rewrite !sext_id by lia. fold m.
    rewrite (capture_eq _ _ _ _ _ Hf). destruct r as [o|e| | |]; try done;
      (do 2 eexists; split; [reflexivity|]; split; [split; done|done]).
Qed.

(** ** File data *)
Section FileData.
Context {KEO : KernelErrnoOk KE} {KPO : KernelErrPtrOk KP}.

(** The part of the file that the folio covers. *)
Definition tar_part (size pos fsize : Z) : Z := Z.max 0 (Z.min fsize (size - pos)).

(** The page the file's data makes: its bytes, then zeros. *)
Definition tar_page (m : Mapper) (off size pos fsize : Z) : list byte :=
  let n := tar_part size pos fsize in
  disk_range disk m (off + pos) n ++ replicate (Z.to_nat (fsize - n)) x00.

(** The copy loop: after [n] bytes the folio begins with the first [n] bytes. *)
Lemma copy_loop_spec {X} (m : Mapper) pos fsize off to_read (w : World X) :
  0 <= off -> 0 <= to_read <= fsize -> off + to_read < 2 ^ 63 ->
  let zeros := replicate (Z.to_nat fsize) x00 in
  exists (r : res Error (option unit * (Folio * Z))) (w' : World X),
    capture (mkFolio pos zeros, 0) (for_each_page m (copy_cb to_read) off to_read) w = (r, w') /\
    untouched w w' /\
    match r with
    | Ok (None, (f, _)) => f = mkFolio pos (overwrite zeros 0 (disk_range disk m off to_read))
    | Err e => ~ BlockCacheLive BC KP /\ to_errno e <> 0
    | _ => False
    end.
Proof.
  intros Ho Ht Hs zeros. assert (lenZ zeros = fsize) as Hz by (unfold zeros, lenZ; rewrite length_replicate; lia).
  set (I := fun n (x : X * (Folio * Z)) =>
    x = (w_ext w, (mkFolio pos (overwrite zeros 0 (disk_range disk m off n)), n))).
  destruct (for_each_rule disk m (copy_cb to_read) off to_read I
    (fun (r : res Error (option unit)) x => x.1 = w_ext w /\ match r with
      | Ok None => x.2.1 = mkFolio pos (overwrite zeros 0 (disk_range disk m off to_read))
      | Err e => ~ BlockCacheLive BC KP /\ to_errno e <> 0
      | _ => False end)) with (w := mkWorld (w_dev w) (w_held w) (w_ext w, (mkFolio pos zeros, 0)))
    as (r & w' & Hf & Hh & Hx & HQ); try lia.
  - intros n c a w1 Hn Hc Hnc _ _ _ HI.
    set (d := disk_range disk m (off + n) c). assert (lenZ d = c) as Hd by (apply disk_range_length; lia).
    assert (lenZ (disk_range disk m off n) = n) as Hdn by (apply disk_range_length; lia).
    unfold copy_cb, captured, m_bind, m_lift, m_ret. cbn [sl_data]. rewrite HI. cbn [snd].
    rewrite Hd, wrap_small, Z.min_l, slice_ok by lia. rewrite Z.sub_0_r, drop_0, take_ge by (unfold lenZ in *; lia).
    rewrite folio_write_exact by lia. cbn [folio_pos folio_bytes folio_size].
    assert (folio_size (mkFolio pos (overwrite zeros 0 (disk_range disk m off n))) = fsize) as ->
      by (unfold folio_size; cbn [folio_bytes]; unfold lenZ; rewrite overwrite_length by lia; exact Hz).
    destruct (n + lenZ d <=? fsize) eqn:E; [|blia].
    assert (overwrite (overwrite zeros 0 (disk_range disk m off n)) n d =
            overwrite zeros 0 (disk_range disk m off (n + c))) as Hov.
    { rewrite disk_range_app, <- overwrite_app by (rewrite ?Hdn; unfold d in Hd; lia). by rewrite Hdn. }
    rewrite Hov. do 2 eexists. split; [reflexivity|]. split; [done|]. unfold I. cbn. by rewrite HI.
  - intros n e x Hn -> Hnl Hre. split; [done|]. split; [done|]. exact (read_error_nonzero disk _ _ _ Hre).
  - intros x ->. done.
  - unfold I. cbn [w_ext]. by rewrite overwrite_nil.
  - rewrite (capture_eq _ _ _ _ _ Hf). do 2 eexists. split; [reflexivity|]. split; [split; done|].
    destruct (w_ext w') as [x [f k]]. cbn in *. by destruct r as [[]|e| | |].
Qed.

Lemma tar_read_folio_spec w data ip off flags k f :
  s_fs_info (v_sb (w_ext w)) = Some data ->
  v_inodes (w_ext w) !! ip = Some (mkKInode (Some (mkTID off flags)) k) ->
  0 <= folio_pos f < 2 ^ 62 -> 0 <= k I_size < 2 ^ 62 -> 0 <= off < 2 ^ 62 -> folio_size f < 2 ^ 62 ->
  exists r w', tar_read_folio ip f w = (r, w') /\ untouched w w' /\
    match r with
    | Ok f' => f' = mkFolio (folio_pos f) (tar_page (t_mapper data) off (k I_size) (folio_pos f) (folio_size f))
    | Err e => ~ BlockCacheLive BC KP /\ to_errno e <> 0
    | _ => False
    end.
Proof.
  intros Hd Hi Hp Hsz Ho Hfs. unfold tar_read_folio.
  assert (0 <= folio_size f) as Hf0 by apply lenZ_nonneg.
  unfold m_bind at 1. rewrite (sb_data_ok _ _ Hd). unfold m_bind at 1. rewrite (inode_data_ok _ _ _ _ Hi).
  unfold m_bind at 1. rewrite (inode_size_ok _ _ _ _ Hi). rewrite !wrap_small by lia.
  unfold m_bind at 1, m_lift at 1. rewrite folio_zero_exact by lia.
  rewrite Z.add_0_l, Z.leb_refl.
  set (zeros := replicate (Z.to_nat (folio_size f)) x00).
  assert (overwrite (folio_bytes f) 0 zeros = zeros) as ->.
  { unfold overwrite, zeros. rewrite drop_ge; [by rewrite app_nil_r|].
    rewrite length_replicate. unfold folio_size, lenZ. lia. }
  unfold tar_page, tar_part. destruct (k I_size <=? folio_pos f) eqn:E.
  - rewrite Z.max_l by blia. rewrite Z.sub_0_r. do 2 eexists. split; [reflexivity|]. split; done.
  - rewrite Z.max_r by blia. cbn [ti_offset]. rewrite wrap_small by lia.
    set (n := Z.min (folio_size f) (k I_size - folio_pos f)). rewrite !sext_id by (unfold n; lia).
    destruct (copy_loop_spec (t_mapper data) (folio_pos f) (folio_size f) (off + folio_pos f) n w)
      as (r & w' & Hc & Hu & HQ); [lia|unfold n; blia|unfold n; lia|].
    fold zeros in Hc. unfold m_bind. rewrite Hc.
    destruct r as [[[u|] [f' z]]|e| | |]; try done; do 2 eexists; (split; [reflexivity|]); (split; [done|]); [|done].
    cbn. rewrite HQ. f_equal. assert (0 <= n) by (unfold n; blia).
    rewrite overwrite_zeros by (rewrite disk_range_length by lia; unfold n; lia).
    by rewrite disk_range_length by lia.
Qed.

(** C19. Reading a page of a tarfs file into the page cache, as the kernel asks for it,
    on a device whose reads may fail: either the call returns zero, the folio
    is marked up to date and holds the bytes of the file at its position, read from the
    device at the inode's data offset, and zeros past the end of the file, over any number
    of pages, with no stale byte of the folio left; or the call returns a nonzero error, a
    read of the device has failed and the call did not mark the folio up to date.
    On a device whose reads succeed the call returns zero.  In every case the folio is
    unlocked and no folio of the device stays mapped. *)
Theorem tar_read_folio_fills `{UC : UserCopy, II : IovIter} {PC : PageCacheOps} {PO : PageCacheOk PC}
    file_inode file host w data ip off flags k pf :
  ip = (if file =? 0 then host else file_inode file) ->
  s_fs_info (v_sb (w_ext w)) = Some data ->
  v_inodes (w_ext w) !! ip = Some (mkKInode (Some (mkTID off flags)) k) ->
  let f := pc_folio pf in
  let page := tar_page (t_mapper data) off (k I_size) (folio_pos f) (folio_size f) in
  0 <= folio_pos f < 2 ^ 62 -> 0 <= k I_size < 2 ^ 62 -> 0 <= off < 2 ^ 62 -> folio_size f < 2 ^ 62 ->
  exists r pf' w', read_folio_trampoline (FO := tar_ops) file_inode file host pf w = (Ok (r, pf'), w') /\
    untouched w w' /\ pc_locked pf' = false /\
    (r = 0 /\ pc_uptodate pf' = true /\ pc_folio pf' = mkFolio (folio_pos f) page \/
     r <> 0 /\ pc_uptodate pf' = pc_uptodate pf /\ ~ BlockCacheLive BC KP) /\
    (BlockCacheLive BC KP -> r = 0).
Proof.
  intros Hip Hd Hi f page Hp Hsz Ho Hfs.
  destruct (tar_read_folio_spec w data ip off flags k f Hd Hi Hp Hsz Ho Hfs) as (r & w' & Hr & Hu & HQ).
  unfold read_folio_trampoline. cbn [op_read_folio tar_ops].
  assert ((if negb (file =? 0) then file_inode file else host) = ip) as -> by (subst ip; by destruct (file =? 0)).
  fold f. rewrite Hr. destruct r as [f'|e| | |]; try done; do 3 eexists; (split; [reflexivity|]);
    rewrite folio_end_read_spec; cbn [pc_folio pc_locked pc_uptodate]; split_and!; try done.
  - left. split; [done|]. by rewrite orb_true_r.
  - destruct HQ as [Hnl He]. right. rewrite (proj2 (Z.eqb_neq _ _) He), orb_false_r. done.
  - by destruct HQ.
Qed.

End FileData.

(** ** Mounting *)

(** The header in the last sector of a device of [n] sectors. *)
Definition disk_header (m : Mapper) (n : Z) : Header := mkHeader (disk_range disk m ((n - 1) * 512) 16).

(** What a mount has checked. *)
Record tar_valid (m : Mapper) (n : Z) (data : TarFsData) : Prop := {
  tv_mapper : t_mapper data = m;
  tv_size : t_data_size data = n * 512 /\ 8 <= n;
  tv_table : t_inode_table_offset data = hf (disk_header m n) "inode_table_offset";
  tv_count : t_inode_count data = hf (disk_header m n) "inode_count";
  tv_inside : t_inode_table_offset data < t_data_size data /\
    t_inode_table_offset data + t_inode_count data * 32 <= t_data_size data
}.

Lemma header_read m n (w w' : World (VW TInodeData TarFsData)) mf : 8 <= n < 2 ^ 54 ->
  page_read disk m ((n - 1) * 512) mf w w' ->
  @from_bytes Header _ (mkSlice (mf_addr mf + ((n - 1) * 512) mod PAGE_SIZE) (disk_tail disk m ((n - 1) * 512))) 0 =
    Some (disk_header m n).
Proof.
  intros Hn Hrd.
  assert (((n - 1) * 512) mod PAGE_SIZE <= 3584) as Hm.
  { replace PAGE_SIZE with (8 * 512) by done. rewrite Zmult_mod_distr_r.
    pose proof (Z.mod_pos_bound (n - 1) 8). lia. }
  etrans; [apply (from_bytes_disk (T := Header) disk m _ mf w w' 0 Hrd)|]; try done; try lia.
  - change (0 + fb_size Header) with 16. unfold PAGE_SIZE in *. lia.
  - change (fb_align Header) with 8. Z.to_euclidean_division_equations; lia.
  - unfold disk_header. by rewrite Z.add_0_r.
Qed.

Lemma tar_fill_super_outcome nr w :
  let sb := v_sb (w_ext w) in
  let m := mkMapper (s_bdev_mapping sb) in
  0 <= nr (s_bdev sb) < 2 ^ 54 ->
  match tar_fill_super nr w with
  | (Ok data, w') => tar_valid m (nr (s_bdev sb)) data /\ s_magic (v_sb (w_ext w')) = TARFS_MAGIC
  | (Err _, _) => True
  | _ => False
  end.
Proof.
  intros sb m Hn.  unfold tar_fill_super, m_bind at 1. rewrite get_sb_ok. fold sb. set (n := nr (s_bdev sb)) in *.
  change (TARFS_BSIZE / SECTOR_SIZE) with 8. unfold SECTOR_SIZE.
  destruct (n <? 8) eqn:E8; [done|]. unfold m_bind at 1.
  destruct (min_blocksize_ok 512 w) as (b & w0 & -> & Hsb & _).
  destruct (negb (b =? 512)); [done|]. fold m. apply Z.ltb_ge in E8.
  rewrite (wrap_small 64 (n - 1)), (wrap_small 64 ((n - 1) * 512)), (wrap_small 64 (n * 512)), sext_id by lia.
  unfold m_bind at 1.
  destruct (mapped_folio_spec disk m ((n - 1) * 512) w0 ltac:(blia)) as [(mf & w1 & -> & Hrd)|(e & w1 & -> & _)]; [|done].
  unfold m_bind at 1, scoped at 1, m_bind at 1, m_lift at 1. rewrite (rd_data _ _ _ _ _ _ Hrd).
  rewrite (header_read m n w0 w1 mf ltac:(blia) Hrd). cbn [ok_or m_lift].
  set (w2 := mf_drop mf w1). set (h := disk_header m n).
  unfold m_bind at 1.
  match goal with |- context [with_kv (kv_try ?x) w2] => destruct (with_kv_cases x w2) as (w3 & _ & _ & [->| ->]) end; [|done].
  destruct (n * 512 <=? hf h "inode_table_offset") eqn:Et; [done|].
  change size_of_TInode with 32. unfold u_checked_mul, u_checked_add, m_bind at 1, m_lift at 1.
  destruct (hf h "inode_count" * 32 <? 2 ^ 64) eqn:Em; cbn [mbind option_bind]; [|done].
  destruct (hf h "inode_count" * 32 + hf h "inode_table_offset" <? 2 ^ 64) eqn:Ea; cbn [ok_or]; [|done].
  destruct (n * 512 <? _) eqn:Ee; [done|]. unfold m_bind at 1.
  unfold set_magic, m_bind at 1. rewrite get_sb_ok. split; [|done].
  zify_bools. constructor; cbn [t_mapper t_data_size t_inode_table_offset t_inode_count]; try done; fold h; lia.
Qed.

(** A tarfs mount that succeeds has at least one block of sectors, has read its
    header from the last sector and has checked that the whole inode table lies on
    the device, without overflow; it sets the filesystem's magic number.  On every
    device the mount ends with a result or an error, and every folio is released. *)
Theorem tar_fill_super_validates nr w :
  let sb := v_sb (w_ext w) in
  let m := mkMapper (s_bdev_mapping sb) in
  0 <= nr (s_bdev sb) < 2 ^ 54 ->
  match tar_fill_super nr w with
  | (Ok data, w') => tar_valid m (nr (s_bdev sb)) data /\ s_magic (v_sb (w_ext w')) = TARFS_MAGIC /\
      w_held w' = w_held w
  | (Err _, w') => w_held w' = w_held w
  | _ => False
  end.
Proof.
  intros sb m Hn. pose proof (tar_fill_super_keeps nr w) as [Hheld _].
  pose proof (tar_fill_super_outcome nr w Hn) as Ho.
  destruct (tar_fill_super nr w) as [[d|e| | |] w']; [|done..]. split; [apply Ho|]. split; [apply Ho|done].
Qed.

(** ** Inodes *)
Context {VKO : VfsKernelOk TInodeData VK} (TABLES : Tables).

(** Inode [ino] on the device. *)
Definition disk_tinode (data : TarFsData) (ino : Z) : TInode :=
  mkTInode (disk_range disk (t_mapper data) (t_inode_table_offset data + (ino - 1) * 32) 32).

(** The inode at [p] after it was initialised from [i]. *)
Definition tar_loaded (i : TInode) (typ : INodeType) (p : Z) (w' : World (VW TInodeData TarFsData)) : Prop :=
  exists k, v_inodes (w_ext w') !! p = Some (mkKInode (Some (mkTID (tif i "offset") (tif i "flags"))) k) /\
    k I_size = sext 64 (tif i "size") /\ k I_blocks = div_ceil (tif i "size") 4096 /\ k I_nlink = 1 /\
    k I_uid = tif i "owner" /\ k I_gid = tif i "group" /\ k I_mtime_sec = sext 64 (tar_secs i) /\
    Z.land (k I_state) I_NEW = 0 /\
    match typ with
    | Dir | Reg | Lnk _ => k I_mode = Z.lor (Z.land (Z.land (tif i "mode") 0x1ff) 0x1ff) (type_bits typ)
    | _ => k I_mode = type_bits typ
    end.

Lemma tar_init_loaded n i typ w ki :
  v_inodes (w_ext w) !! inner n = Some ki ->
  exists w', NewINode_init n (tar_params i typ) TABLES w = (Ok (inner n), w') /\ tar_loaded i typ (inner n) w'.
Proof.
  intros Hi. rewrite (NewINode_init_eq _ _ _ _ _ Hi). eexists. split; [done|].
  eexists. split; [apply lookup_insert_eq|]. cbn [p_typ tar_params].
  do 6 (split; [by rewrite unlock_other, init_ops_other, init_meta_field by done|]).
  split; [apply unlock_clears|].
  pose proof (init_ops_set n typ TABLES (init_meta (tar_params i typ) (k_inode ki))
    (Z.land (Z.land (tif i "mode") 0x1ff) 0x1ff)) as Ho.
  rewrite init_meta_field in Ho. specialize (Ho eq_refl).
  destruct typ as [| |[]| | | |]; cbn [ops_set] in Ho; tauto.
Qed.

Lemma tinode_read data ino (w w' : World (VW TInodeData TarFsData)) mf :
  let off := t_inode_table_offset data + (ino - 1) * 32 in
  0 <= off -> t_inode_table_offset data mod 32 = 0 -> page_read disk (t_mapper data) off mf w w' ->
  @from_bytes TInode _ (mkSlice (mf_addr mf + off mod PAGE_SIZE) (disk_tail disk (t_mapper data) off)) 0 =
    Some (disk_tinode data ino).
Proof.
  intros off H0 Hal Hrd.
  assert (off mod 32 = 0) as H32 by (unfold off; rewrite Z.mod_add; done).
  etrans; [apply (from_bytes_disk (T := TInode) disk _ off mf w w' 0 Hrd)|]; try done.
  - change (0 + fb_size TInode) with 32. unfold PAGE_SIZE. Z.to_euclidean_division_equations; lia.
  - change (fb_align TInode) with 8. rewrite Z.add_0_r. Z.to_euclidean_division_equations; lia.
  - unfold disk_tinode. by rewrite Z.add_0_r.
Qed.

(** [iget] of an inode number of the table that is not cached reads that entry
    of the inode table and initialises the new inode from it: data offset and flags,
    size and blocks, owner, the 36-bit modification time, permissions and type; a mode of
    no known type is [ENOENT].  Numbers outside the table are [ENOENT] and touch
    neither the device nor the inode cache. *)
Theorem tar_iget_loads {BL : BlockCacheLive BC KP} w w1 data ino n :
  s_fs_info (v_sb (w_ext w)) = Some data ->
  0 <= t_inode_table_offset data -> t_inode_table_offset data mod 32 = 0 ->
  t_inode_table_offset data + t_inode_count data * 32 < 2 ^ 63 ->
  0 <= ino < 2 ^ 64 -> sb_iget ino w = (Ok (inl n), w1) ->
  let i := disk_tinode data ino in
  if decide (1 <= ino <= t_inode_count data)
  then exists r w', tar_iget TABLES ino w = (r, w') /\
    match tar_type (tif i "mode") (tif i "offset") with
    | Ok typ => r = Ok (inner n) /\ tar_loaded i typ (inner n) w'
    | Err e => r = Err e /\ e = ENOENT
    | _ => False
    end
  else tar_iget TABLES ino w = (Err ENOENT, w).
Proof.
  intros Hd Ht0 Hal Hfit Hino Hget i.
  assert ((ino =? 0) || (t_inode_count data <? ino) = bool_decide (~ 1 <= ino <= t_inode_count data)) as Hb.
  { apply eq_true_iff_eq. rewrite orb_true_iff, bool_decide_eq_true, Z.eqb_eq, Z.ltb_lt. lia. }
  destruct (decide (1 <= ino <= t_inode_count data)) as [Hr|Hr]; unfold tar_iget, m_bind at 1; rewrite (sb_data_ok _ _ Hd), Hb;
    [rewrite (bool_decide_eq_false_2 (~ 1 <= ino <= t_inode_count data)) by lia|by rewrite bool_decide_eq_true_2].
  unfold m_bind at 1. rewrite Hget. destruct (sb_iget_new _ _ _ _ Hget) as [ki Hki].
  unfold or_drop, tar_load. change size_of_TInode with 32. 
  rewrite (wrap_small 64 (ino - 1)), (wrap_small 64 ((ino - 1) * 32)), wrap_small, sext_id by lia.
  set (off := t_inode_table_offset data + (ino - 1) * 32). unfold m_bind at 1.
  destruct (mapped_folio_live disk (t_mapper data) off w1 ltac:(lia)) as (mf & w2 & -> & Hrd).
  unfold scoped, m_bind, m_lift. rewrite (rd_data _ _ _ _ _ _ Hrd).
  pose proof (tinode_read data ino w1 w2 mf ltac:(lia) Hal Hrd) as Hti. fold off in Hti. rewrite Hti. cbn [ok_or]. fold i.
  destruct (tar_type (tif i "mode") (tif i "offset")) as [typ|e| | |] eqn:Ety.
  - rewrite <- (rd_ext _ _ _ _ _ _ Hrd) in Hki.
    destruct (tar_init_loaded n i typ w2 ki Hki) as (w3 & -> & Hl). do 2 eexists. split; [reflexivity|]. done.
  - destruct (NewINode_drop n _) as [r w3]. do 2 eexists. split; [reflexivity|]. split; [done|].
    unfold tar_type in Ety. repeat (case_match; try done). congruence.
  - unfold tar_type in Ety. by repeat case_match.
  - unfold tar_type in Ety. by repeat case_match.
  - unfold tar_type in Ety. by repeat case_match.
Qed.

(** ** Directories *)

(** The first [n] bytes of a directory at [off], as entries. *)
Definition tar_entries (m : Mapper) (off n : Z) : list TDirEntry :=
  (fun i => mkTDirEntry (disk_range disk m (off + Z.of_nat i * 32) 32)) <$> seq 0 (Z.to_nat (n / 32)).

(** The bytes at the entry's name offset begin with the name. *)
Definition name_starts (m : Mapper) (name : list byte) (e : TDirEntry) : bool :=
  bool_decide (disk_range disk m (tdf e "name_offset") (lenZ name) = name).

Lemma find_app {A} (P : A -> bool) l1 l2 :
  List.find P (l1 ++ l2) = match List.find P l1 with Some x => Some x | None => List.find P l2 end.
Proof. induction l1 as [|x l IH]; cbn; [done|]. by destruct (P x). Qed.

Lemma tdf_nonneg e f : 0 <= tdf e f.
Proof. unfold tdf, field. destruct (assoc f _) as [[o t]|]; [|done]. apply le_decode_range. Qed.

Lemma tar_entries_split m off n c : 0 <= n -> 0 <= c -> n mod 32 = 0 -> c mod 32 = 0 ->
  tar_entries m off (n + c) = tar_entries m off n ++ tar_entries m (off + n) c.
Proof.
  intros Hn Hc Hnm Hcm. unfold tar_entries.
  pose proof (Z_div_mod_eq_full n 32). pose proof (Z_div_mod_eq_full c 32).
  assert (0 <= n / 32) by (apply Z.div_pos; lia). assert (0 <= c / 32) by (apply Z.div_pos; lia).
  replace ((n + c) / 32) with (n / 32 + c / 32) by (Z.to_euclidean_division_equations; lia).
  rewrite Z2Nat.inj_add, seq_app, fmap_app by lia. f_equal. rewrite Nat.add_0_l.
  rewrite <- (Nat.add_0_r (Z.to_nat (n / 32))) at 1. rewrite <- fmap_add_seq, <- list_fmap_compose.
  apply list_fmap_ext. intros i j _. cbn. do 2 f_equal. lia.
Qed.

Lemma tar_slice m a off c : 0 <= c -> c mod 32 = 0 -> a mod 8 = 0 ->
  @from_bytes_to_slice TDirEntry _ (mkSlice a (disk_range disk m off c)) = Some (tar_entries m off c).
Proof.
  intros Hc H32 H8. pose proof (to_slice_range disk (T := TDirEntry) m a off c Hc) as Hs.
  replace (fb_size TDirEntry) with 32 in Hs by by vm_compute.
  replace (fb_align TDirEntry) with 8 in Hs by by vm_compute. exact (Hs H32 H8).
Qed.

Section Lookup.
Context {BL : BlockCacheLive BC KP} (data : TarFsData) (name : list byte).
Abbreviation m := (t_mapper data).

(** The name can be compared without leaving the range of [loff_t]. *)
Definition name_fits (e : TDirEntry) : Prop := tdf e "name_offset" + lenZ name < 2 ^ 63.

Lemma find_entry_spec es (w : World (VW TInodeData TarFsData)) : Forall name_fits es ->
  match List.find (name_starts m name) es with
  | None => exists w', tar_find_entry TABLES data name es w = (Ok None, w') /\ untouched w w'
  | Some e => exists w1, untouched w w1 /\
      tar_find_entry TABLES data name es w = (p <-! tar_iget TABLES (tdf e "ino") ;; m_ret (Some p)) w1
  end.
Proof.
  intros Hes. revert w. induction Hes as [|e es He Hes IH]; intros w; cbn [List.find]; [by exists w|].
  pose proof (tdf_nonneg e "name_offset").
  destruct (name_eq_spec data name (tdf e "name_offset") w) as (r & w1 & Hn & Hu & Hr); [done|exact He|].
  destruct r as [b|er| | |]; try done.
  assert (tar_find_entry TABLES data name (e :: es) w =
    (if b then p <-! tar_iget TABLES (tdf e "ino") ;; m_ret (Some p) else tar_find_entry TABLES data name es) w1) as ->
    by (cbn [tar_find_entry]; unfold m_bind at 1; by rewrite Hn).
  change (name_starts m name e) with (bool_decide (disk_range disk m (tdf e "name_offset") (lenZ name) = name)).
  rewrite <- Hr. destruct b; [by exists w1|].
  specialize (IH w1). destruct (List.find _ es) as [e'|]; destruct IH as (w2 & H2 & H3); exists w2; split;
    first [assumption|by etrans].
Qed.

(** What the page loop of [lookup] ends with. *)
Definition looked_up (w : World (VW TInodeData TarFsData)) (es : list TDirEntry)
    (r : res Error (option Z)) (x : VW TInodeData TarFsData) : Prop :=
  match List.find (name_starts m name) es with
  | None => r = Ok None /\ x = w_ext w
  | Some e => exists w1 ri w2, w_ext w1 = w_ext w /\ tar_iget TABLES (tdf e "ino") w1 = (ri, w2) /\
      r = (p <-? ri ;; Ok (Some p)) /\ x = w_ext w2
  end.

Lemma tar_lookup_loop_spec off size (w : World (VW TInodeData TarFsData)) :
  0 <= off -> off mod 32 = 0 -> 0 <= size -> size mod 32 = 0 -> off + size < 2 ^ 63 ->
  Forall name_fits (tar_entries m off size) ->
  exists r w', for_each_page m (fun page =>
      entries <-! m_lift (ok_or (@from_bytes_to_slice TDirEntry _ page) EIO) ;;
      tar_find_entry TABLES data name entries) off size w = (r, w') /\
    w_held w' = w_held w /\ looked_up w (tar_entries m off size) r (w_ext w').
Proof.
  intros Ho Hom Hs Hsm Hfit Hall.
  apply (for_each_rule disk m _ off size
    (fun n x => x = w_ext w /\ n mod 32 = 0 /\ List.find (name_starts m name) (tar_entries m off n) = None));
    try done.
  - intros n c a w1 Hn Hc Hnc Hceq Ha Ham (Hx & Hn32 & Hnone).
    assert (c mod 32 = 0) as Hc32 by (unfold PAGE_SIZE in *; Z.to_euclidean_division_equations; lia).
    assert (a mod 8 = 0) as Ha8 by (unfold PAGE_SIZE in *; Z.to_euclidean_division_equations; lia).
    unfold m_bind at 1, m_lift at 1. rewrite tar_slice by (done || lia). cbn [ok_or].
    pose proof (tar_entries_split m off n c ltac:(lia) ltac:(lia) Hn32 Hc32) as Hsp.
    assert (exists rest, tar_entries m off size = tar_entries m off (n + c) ++ rest) as [rest Hrest].
    { exists (tar_entries m (off + (n + c)) (size - (n + c))). rewrite <- tar_entries_split; try lia.
      - f_equal. lia.
      - by rewrite Z.add_mod, Hn32, Hc32.
      - rewrite Zminus_mod, Hsm, Z.add_mod, Hn32, Hc32 by done. done. }
    rewrite Hrest, Hsp in Hall. apply Forall_app in Hall as [Hall _]. apply Forall_app in Hall as [_ Hall].
    pose proof (find_entry_spec (tar_entries m (off + n) c) w1 Hall) as Hf.
    assert (List.find (name_starts m name) (tar_entries m off (n + c)) =
            List.find (name_starts m name) (tar_entries m (off + n) c)) as Hfe
      by (rewrite Hsp, find_app; by rewrite Hnone).
    destruct (List.find (name_starts m name) (tar_entries m (off + n) c)) as [e|] eqn:Ef.
    + destruct Hf as (w2 & [Hh2 Hx2] & ->). destruct (tar_iget TABLES (tdf e "ino") w2) as [ri w3] eqn:Eg.
      exists (p <-? ri ;; Ok (Some p)), w3. unfold m_bind. rewrite Eg.
      split; [by destruct ri|]. split.
      { pose proof (tar_iget_keeps TABLES (tdf e "ino") w2) as [Hk _]. rewrite Eg in Hk. cbn in Hk. congruence. }
      assert (looked_up w (tar_entries m off size) (p <-? ri ;; Ok (Some p)) (w_ext w3)) as Hlu.
      { unfold looked_up. rewrite Hrest, find_app, Hfe. exists w2, ri, w3. split_and!; try done. congruence. }
      by destruct ri.
    + destruct Hf as (w2 & -> & [Hh2 Hx2]). do 2 eexists. split; [reflexivity|]. split; [done|].
      split_and!; [congruence|by rewrite Z.add_mod, Hn32, Hc32|done].
  - intros x (-> & _ & Hnone). unfold looked_up. by rewrite Hnone.
Qed.
End Lookup.

(** [lookup] walks the entries of the directory in order, over all its pages,
    and takes the first whose stored name begins with the name looked up: it loads
    that entry's inode and splices it into the dentry, or reports the error of
    [iget].  Without such an entry the dentry is spliced without an inode.  On a
    readable archive with aligned directories no other outcome is possible. *)
Theorem tar_lookup_first_prefix {BL : BlockCacheLive BC KP} w data parent dentry off flags k :
  let es := tar_entries (t_mapper data) off (k I_size) in
  s_fs_info (v_sb (w_ext w)) = Some data ->
  v_inodes (w_ext w) !! parent = Some (mkKInode (Some (mkTID off flags)) k) ->
  0 <= off -> off mod 32 = 0 -> 0 <= k I_size -> k I_size mod 32 = 0 -> off + k I_size < 2 ^ 63 ->
  Forall (name_fits (dentry_name dentry)) es ->
  match List.find (name_starts (t_mapper data) (dentry_name dentry)) es with
  | None => exists w3, untouched w w3 /\ tar_lookup TABLES parent dentry w = splice_alias dentry None w3
  | Some e => exists w1 r w2 w3, w_ext w1 = w_ext w /\ tar_iget TABLES (tdf e "ino") w1 = (r, w2) /\
      w_held w3 = w_held w /\ w_ext w3 = w_ext w2 /\
      tar_lookup TABLES parent dentry w = (p <-! m_lift r ;; splice_alias dentry (Some p)) w3
  end.
Proof.
  intros es Hd Hi Ho Hom Hs Hsm Hfit Hall.
  destruct (tar_lookup_loop_spec data (dentry_name dentry) off (k I_size) w) as (r & w3 & Hl & Hh & Hlu); try done.
  assert (tar_lookup TABLES parent dentry w = (found <-! m_lift r ;; splice_alias dentry found) w3) as ->.
  { unfold tar_lookup, m_bind at 1. rewrite (sb_data_ok _ _ Hd). unfold m_bind at 1.
    rewrite (inode_data_ok _ _ _ _ Hi). unfold m_bind at 1. rewrite (inode_size_ok _ _ _ _ Hi).
    cbn [ti_offset]. rewrite sext_id by lia. unfold m_bind at 1. rewrite Hl. by destruct r. }
  fold es in Hlu. unfold looked_up in Hlu. destruct (List.find _ es) as [e|].
  - destruct Hlu as (w1 & ri & w2 & H1 & H2 & -> & H4). exists w1, ri, w2, w3. split_and!; try done.
    by destruct ri.
  - destruct Hlu as [-> Hx]. exists w3. split; [by split|done].
Qed.
End Device.
