(* ===== verification/TarfsImage.v ===== *)
(** * tarfs: a concrete archive

    A one-page device: the inode table, the root directory with the entries "ab" and
    "a", the names, one file, and the header in the last sector.  The hypotheses of
    the tarfs properties hold on it, and [lookup] is run on it. *)
From Stdlib Require Import ZArith Lia Bool.
From Stdlib.Strings Require Import Byte String.
From stdpp Require Import base list option numbers gmap.
From S2P Require Import Prelude Errors KVec LeBytes Mapper Vfs Keeps Folio Boxes UserIo Callbacks Tarfs TarfsProofs.

Definition tar_inode_bytes (mode size offset : Z) : list byte :=
  le_encode 2 mode ++ [x00; x02] ++ le_encode 4 1000 ++ le_encode 4 100 ++ le_encode 4 7 ++
  le_encode 8 size ++ le_encode 8 offset.

Definition tar_entry_bytes (ino name_offset name_len etype : Z) : list byte :=
  le_encode 8 ino ++ le_encode 8 name_offset ++ le_encode 8 name_len ++ le_encode 8 etype.

(** Inode 1 is the root; 2 is the file "ab", 3 the file "a".  Names at 160, data at
    163. *)
Definition tar_image_page : list byte :=
  resize 3584 x00 (tar_inode_bytes 0x41ed 64 96 ++ tar_inode_bytes 0x81a4 5 163 ++ tar_inode_bytes 0x81a4 2 163 ++
    tar_entry_bytes 2 160 2 8 ++ tar_entry_bytes 3 162 1 8 ++ bs "aba" ++ bs "hello") ++
  le_encode 8 0 ++ le_encode 8 3.

Definition tar_img (i : Z) : list byte := if i =? 0 then tar_image_page else [].
Definition tar_img_disk : Z -> Z -> list byte := fun _ => image_page tar_img.
Definition tar_img_fs : TarFsData := mkTarFs 4096 0 3 (mkMapper 0).

Definition tar_img_inode (size offset : Z) : KInode TInodeData :=
  mkKInode (Some (mkTID offset 0)) (fun f => match f with I_size => size | I_sb => 77 | _ => 0 end).
Definition tar_root : Z := 8.
Definition tar_file : Z := 9.
Definition tar_img_inodes : gmap Z (KInode TInodeData) :=
  <[tar_file := tar_img_inode 5 163]> {[ tar_root := tar_img_inode 64 96 ]}.

Definition tar_world (inodes : gmap Z (KInode TInodeData)) := toy_fs_world tar_img inodes 9 (Some tar_img_fs) 0.

#[local] Existing Instance linux_errno.
#[local] Existing Instance linux_err_ptr.
#[local] Abbreviation RC := (ram_cache tar_img).
#[local] Abbreviation VKT := (toy_vfs TInodeData).

(** Mounting the archive yields [tar_img_fs], and its root is a directory. *)
Example tar_image_mounts :
  (@tar_fill_super linux_errno linux_err_ptr RC const_alloc VKT (fun _ => 8) (toy_fs_world tar_img ∅ 0 None 0)).1 =
    Ok tar_img_fs.
Proof. vm_compute. reflexivity. Qed.

(** ** Defect: prefixes match

    The archive has an entry "a" for inode 3 and an entry "ab" for inode 2.  Looking up
    "a" opens inode 2: [lookup] compares as many bytes as the name looked up has and never
    the entry's [name_len]. *)
Theorem tar_lookup_confuses_prefix :
  let w := tar_world tar_img_inodes in
  let es := tar_entries tar_img_disk (mkMapper 0) 96 64 in
  @dentry_name _ VKT 2 = bs "a" /\
  map (fun e => (tdf e "ino", disk_range tar_img_disk (mkMapper 0) (tdf e "name_offset") (tdf e "name_len"))) es =
    [(2, bs "ab"); (3, bs "a")] /\
  let '(r, w') := @tar_lookup linux_errno linux_err_ptr RC const_alloc VKT toy_tables tar_root 2 w in
  r = Ok None /\
  (k_inode <$> (v_inodes (w_ext w') !! (2 ^ 40 + 2))) ≫= (fun k => Some (k I_ino, k I_size)) = Some (2, 5) /\
  v_inodes (w_ext w') !! (2 ^ 40 + 3) = None.
Proof. vm_compute. repeat split. Qed.

(** ** The hypotheses of the properties *)

Definition simple_end_read : PageCacheOps := fun ok f => mkPc (pc_folio f) false (pc_uptodate f || ok).
Lemma simple_end_read_ok : PageCacheOk simple_end_read.
Proof. by intros ok f. Qed.

Lemma tar_read_folio_fills_witness :
  let pf := mkPc (mkFolio 0 (replicate 4096 xff)) true false in
  exists r pf' w', @read_folio_trampoline RC const_alloc (flat_user 0) page_iter TInodeData TarFsData VKT
    (@tar_ops linux_errno linux_err_ptr RC const_alloc VKT (flat_user 0) page_iter) simple_end_read (fun _ => tar_file) 3 0 pf
    (tar_world tar_img_inodes) = (Ok (r, pf'), w') /\ pc_locked pf' = false /\ r = 0.
Proof.
  destruct (@tar_read_folio_fills linux_errno linux_err_ptr RC const_alloc VKT tar_img_disk _ _
    linux_errno_ok linux_err_ptr_ok (flat_user 0) page_iter
    simple_end_read simple_end_read_ok (fun _ => tar_file) 3 0
    (tar_world tar_img_inodes) tar_img_fs tar_file 163 0
    (fun f => match f with I_size => 5 | I_sb => 77 | _ => 0 end) (mkPc (mkFolio 0 (replicate 4096 xff)) true false)
    eq_refl eq_refl eq_refl)
    as (r & pf' & w' & H1 & _ & H2 & _ & H3); [cbn; lia|cbn; lia|lia|vm_compute; reflexivity|].
  exists r, pf', w'. exact (conj H1 (conj H2 (H3 (ram_cache_live _)))).
Defined.

(** The page of the file "ab": "hello" and zeros. *)
Example tar_read_folio_hello :
  (@tar_read_folio linux_errno linux_err_ptr RC const_alloc VKT tar_file
     (mkFolio 0 (replicate 4096 xff)) (tar_world tar_img_inodes)).1 = Ok (mkFolio 0 (resize 4096 x00 (bs "hello"))).
Proof. vm_compute. reflexivity. Qed.

Lemma tar_fill_super_validates_witness :
  match @tar_fill_super linux_errno linux_err_ptr RC const_alloc VKT (fun _ => 8) (toy_fs_world tar_img ∅ 0 None 0) with
  | (Ok _, w') => w_held w' = []
  | _ => True
  end.
Proof.
  pose proof (@tar_fill_super_validates linux_errno linux_err_ptr RC const_alloc VKT tar_img_disk _ _ (fun _ => 8)
    (toy_fs_world tar_img ∅ 0 None 0)) as H. cbv zeta in H. specialize (H ltac:(lia)).
  destruct (tar_fill_super _ _) as [[d|e| | |] w']; [exact (proj2 (proj2 H))|done..].
Defined.

Lemma tar_iget_loads_witness :
  exists n w1 r w', sb_iget (KE := linux_errno) (VK := VKT) 2 (tar_world tar_img_inodes) = (Ok (inl n), w1) /\
    @tar_iget linux_errno linux_err_ptr RC const_alloc VKT toy_tables 2 (tar_world tar_img_inodes) = (r, w') /\
    r = Ok (inner n) /\ tar_loaded (disk_tinode tar_img_disk tar_img_fs 2) Reg (inner n) w'.
Proof.
  eexists _, _.
  destruct (@tar_iget_loads linux_errno linux_err_ptr RC const_alloc VKT tar_img_disk _ _ _ toy_tables _
    (tar_world tar_img_inodes) _ tar_img_fs 2 _ eq_refl ltac:(cbn; lia) eq_refl ltac:(vm_compute; reflexivity)
    ltac:(lia) eq_refl) as (r & w' & H1 & H2).
  exists r, w'. split; [reflexivity|]. split; [exact H1|].
  assert (tar_type (tif (disk_tinode tar_img_disk tar_img_fs 2) "mode") (tif (disk_tinode tar_img_disk tar_img_fs 2) "offset")
    = Ok Reg) as E by (vm_compute; reflexivity).
  rewrite E in H2. exact H2.
Defined.

Lemma tar_img_names_fit :
  Forall (name_fits (@dentry_name _ VKT 1)) (tar_entries tar_img_disk (mkMapper 0) 96 64).
Proof.
  apply List.Forall_forall. intros e He. unfold name_fits. apply Z.ltb_lt.
  apply (proj1 (List.forallb_forall (fun e => tdf e "name_offset" + lenZ (@dentry_name _ VKT 1) <? 2 ^ 63)
    (tar_entries tar_img_disk (mkMapper 0) 96 64))); [vm_compute; reflexivity|exact He].
Qed.

Lemma tar_lookup_first_prefix_witness :
  exists w3, @tar_lookup linux_errno linux_err_ptr RC const_alloc VKT toy_tables tar_root 1 (tar_world tar_img_inodes) =
    splice_alias 1 None w3.
Proof.
  pose proof (@tar_lookup_first_prefix linux_errno linux_err_ptr RC const_alloc VKT tar_img_disk _ _ toy_tables _
    (tar_world tar_img_inodes) tar_img_fs tar_root 1 96 0
    (fun f => match f with I_size => 64 | I_sb => 77 | _ => 0 end) eq_refl eq_refl
    ltac:(lia) eq_refl ltac:(lia) eq_refl ltac:(lia)) as H. cbv zeta in H.
  specialize (H tar_img_names_fit).
  destruct (List.find _ _) as [e|] eqn:E in H; [vm_compute in E; discriminate E|].
  destruct H as (w3 & _ & H). exists w3. exact H.
Defined.
