(* ===== verification/Rofs.v ===== *)
(** * The static read-only filesystem (samples/rofs_test)

    One directory with two files and a symlink, all constants of the module: the
    filesystem that exercises the optional callbacks.  One definition per function of
    [rofs_test.rs], over [Vfs], [Folio], [Boxes] and [UserIo]; [rofs_ops] is what
    [Callbacks] dispatches to. *)
From Stdlib Require Import ZArith Lia Bool.
From Stdlib.Strings Require Import Byte String.
From stdpp Require Import base list option numbers gmap strings.
From S2P Require Import Prelude Errors KVec LeBytes Mapper Folio Vfs Emits Keeps Boxes UserIo Callbacks.

Record RInodeData : Type := mkRID { content : option (list byte) }.

Definition ROOT_INO : Z := 1.
Definition HELLO_INO : Z := 2.
Definition INFO_INO : Z := 3.
Definition LINK_INO : Z := 4.
Definition newline : byte := x0a.
Definition HELLO_CONTENT : list byte := bs "Hello from rofs!" ++ [newline].
Definition INFO_CONTENT : list byte := bs "custom read works" ++ [newline].
Definition HELLO_NAME : list byte := bs "hello.txt".
Definition INFO_NAME : list byte := bs "info.txt".
Definition LINK_NAME : list byte := bs "link.txt".
Definition LINK_TARGET : list byte := bs "hello.txt".
Definition EPOCH : Time := mkTime 0 0.

(** The entries of the directory. *)
Definition rofs_entries : list (list byte * Z * DirEntryType) :=
  [(bs ".", ROOT_INO, DT_Dir); (bs "..", ROOT_INO, DT_Dir); (HELLO_NAME, HELLO_INO, DT_Reg);
   (INFO_NAME, INFO_INO, DT_Reg); (LINK_NAME, LINK_INO, DT_Lnk)].

Section Rofs.
Context `{KE : KernelErrno, KP : KernelErrPtr, BC : BlockCache, VA : VecAlloc, UC : UserCopy, II : IovIter}.
Context `{VK : VfsKernel RInodeData} {PL : Placement (list byte)}.
Context (TABLES : Tables) (file_inode : Z -> Z) (kmap : Z -> Z).

Abbreviation FM := (@FM BC VA RInodeData unit VK).
Abbreviation W := (@World BC (@VW VA RInodeData unit VK)).

Definition rofs_fill_super : FM unit :=
  _ <-! init_simple (mkSuperParams (2 ^ 63 - 1) 12 0x524F4653 1) ;;
  m_ret tt.

Definition rofs_params (mode : Z) (typ : INodeType) (size blocks nlink : Z) (c : option (list byte)) :
    INodeParams RInodeData :=
  mkParams mode typ size blocks nlink 0 0 EPOCH EPOCH EPOCH (mkRID c).

(** [match sb.iget(ino)? { Ok(new) => new.init(...)?, Err(cached) => cached }], where
    [setup] is what is done to the new inode first. *)
Definition rofs_inode (ino : Z) (setup : NewINode -> NewINode) (p : INodeParams RInodeData) : FM Z :=
  r <-! sb_iget ino ;;
  match r with
  | inl n => NewINode_init (setup n) p TABLES
  | inr cached => m_ret cached
  end.

Definition rofs_init_root : FM Z :=
  root <-! rofs_inode ROOT_INO id (rofs_params 0x16d Dir 0 0 2 None) ;;
  Root_try_new root.

Definition rofs_lookup (parent dentry : Z) : FM (option Z) :=
  ino <-! inode_ino parent ;;
  if negb (ino =? ROOT_INO) then splice_alias dentry None
  else if bool_decide (dentry_name dentry = HELLO_NAME) then
    inode <-! rofs_inode HELLO_INO id (rofs_params 0x124 Reg (lenZ HELLO_CONTENT) 1 1 (Some HELLO_CONTENT)) ;;
    splice_alias dentry (Some inode)
  else if bool_decide (dentry_name dentry = INFO_NAME) then
    inode <-! rofs_inode INFO_INO id (rofs_params 0x124 Reg (lenZ INFO_CONTENT) 1 1 (Some INFO_CONTENT)) ;;
    splice_alias dentry (Some inode)
  else if bool_decide (dentry_name dentry = LINK_NAME) then
    inode <-! rofs_inode LINK_INO (fun n => set_iops n (symlink_inode_ops TABLES))
                (rofs_params 0x1ff (Lnk None) (lenZ LINK_TARGET) 0 1 None) ;;
    splice_alias dentry (Some inode)
  else splice_alias dentry None.

Definition rofs_get_link (dentry : option Z) (inode : Z) : M (W * Heap (list byte)) Error GetLinkResult :=
  target <-! on_snd (cstring_try_from_slice LINK_TARGET) ;;
  m_ret (LinkOwned target).

(** The loop over [entries.iter().enumerate()]. *)
Fixpoint rofs_emit (i start : Z) (es : list (list byte * Z * DirEntryType)) : FM unit :=
  match es with
  | [] => m_ret tt
  | (name, ino, dt) :: r =>
      if i <? start then rofs_emit (i + 1) start r
      else
        more <-! emit 1 name ino dt ;;
        if negb more then m_ret tt else rofs_emit (i + 1) start r
  end.

Definition rofs_read_dir (inode : Z) : FM unit :=
  ino <-! inode_ino inode ;;
  if negb (ino =? ROOT_INO) then m_err ENOTDIR
  else
    pos <-! emitter_pos ;;
    rofs_emit 0 (wrap 64 pos) rofs_entries.

Definition rofs_seek (file offset : Z) (whence : Whence) : FM Z :=
  size <-! inode_size (file_inode file) ;;
  match whence with
  | SeekData => if (offset <? 0) || (size <=? offset) then m_err ENXIO else m_ret offset
  | SeekHole => if (offset <? 0) || (size <=? offset) then m_err ENXIO else m_ret size
  | _ => m_err EINVAL
  end.

Definition rofs_read_iter (file offset : Z) : M (W * ist) Error Z :=
  data <-! on_fst (inode_data (file_inode file)) ;;
  let c := default [] (content data) in
  let pos := wrap 64 offset in
  if lenZ c <=? pos then m_ret 0
  else
    let available := lenZ c - pos in
    count <-! on_snd (fun it => (Ok (it_count it), it)) ;;
    let to_copy := Z.min available count in
    d <-! m_lift (slice c pos (pos + to_copy)) ;;
    _ <-! on_snd (iov_write_all d) ;;
    m_ret to_copy.

(** The mapped slice is the first [fm_len] bytes of the folio. *)
Definition rofs_read_folio (inode : Z) (folio : Folio) : FM Folio :=
  data <-! inode_data inode ;;
  let c := default [] (content data) in
  let folio_offset := wrap 64 (folio_pos folio) in
  let fsize := folio_size folio in
  map <-! m_lift (folio_map kmap folio 0) ;;
  let buf := take (Z.to_nat (fm_len map)) (folio_bytes folio) in
  _ <-! m_lift (slice buf 0 fsize) ;;
  let buf := overwrite buf 0 (replicate (Z.to_nat fsize) x00) in
  buf <-! (if folio_offset <? lenZ c then
             let to_copy := Z.min (lenZ c - folio_offset) fsize in
             _ <-! m_lift (slice buf 0 to_copy) ;;
             d <-! m_lift (slice c folio_offset (folio_offset + to_copy)) ;;
             m_ret (overwrite buf 0 d)
           else m_ret buf) ;;
  m_ret (mkFolio (folio_pos folio) (overwrite (folio_bytes folio) 0 buf)).

(** The traits as the callbacks see them; [statfs], [read_xattr] and [read] are not
    overridden. *)
Definition rofs_ops : FsOps RInodeData unit := {|
  op_read_folio := rofs_read_folio;
  has_statfs := false;
  op_statfs _ := m_err ENOSYS;
  has_read_xattr := false;
  op_read_xattr _ _ _ _ := m_err EOPNOTSUPP;
  has_get_link := true;
  op_get_link := rofs_get_link;
  has_seek := true;
  op_seek := rofs_seek;
  has_read := false;
  op_read _ := m_err EINVAL;
  has_read_iter := true;
  op_read_iter := rofs_read_iter |}.

Definition rofs_fs : FileSystem RInodeData unit := {|
  fs_tables := TABLES;
  fs_fill_super := rofs_fill_super;
  fs_init_root := rofs_init_root;
  fs_lookup := rofs_lookup;
  fs_read_dir := rofs_read_dir |}.
End Rofs.

(** ** Proofs *)
Section Proofs.
Context `{KE : KernelErrno, KP : KernelErrPtr, BC : BlockCache, VA : VecAlloc, UC : UserCopy, II : IovIter}.
Context {IO : IovIterOk II} `{VK : VfsKernel RInodeData} {VKO : VfsKernelOk RInodeData VK}.
Context {PL : Placement (list byte)} {PLO : PlacementOk (list byte) PL}.
Context (TABLES : Tables) (file_inode : Z -> Z) (kmap : Z -> Z).

#[local] Instance ops : FsOps RInodeData unit := rofs_ops file_inode kmap.
Implicit Types w : World (VW RInodeData unit).

(** A read of a regular file, as the kernel calls it, delivers the bytes of the file
    at the position, as many as the reader has room for and the file still has, moves the
    position by exactly that number, and returns it; at or past the end it returns zero
    and moves nothing.  When the copy to the user fails the call returns [EFAULT] and the
    position stays. *)
Theorem rofs_read_delivers w iocb it c k :
  v_inodes (w_ext w) !! file_inode (ki_filp iocb) = Some (mkKInode (Some (mkRID (Some c))) k) ->
  0 <= ki_pos iocb < 2 ^ 62 -> lenZ c < 2 ^ 62 ->
  let d := take (Z.to_nat (it_count it)) (drop (Z.to_nat (ki_pos iocb)) c) in
  exists r iocb' it' j, custom_read_iter_trampoline (w, (iocb, it)) = (Ok r, (w, (iocb', it'))) /\
    it_out it' = it_out it ++ take j d /\
    ((r = lenZ d /\ take j d = d /\ iocb' = mkKiocb (ki_filp iocb) (ki_pos iocb + lenZ d)) \/
     (r = to_errno EFAULT /\ iocb' = iocb)).
Proof.
  intros Hi Hp Hc d. unfold custom_read_iter_trampoline. cbn [op_read_iter ops rofs_ops].
  pose proof (it_count_range it) as Hcnt. pose proof (lenZ_nonneg c) as Hc0.
  assert (lenZ d = Z.max 0 (Z.min (lenZ c - ki_pos iocb) (it_count it))) as Hd
    by (unfold d, lenZ in *; rewrite length_take, length_drop; lia).
  unfold rofs_read_iter, m_bind at 1, on_fst. rewrite (inode_data_ok _ _ _ _ Hi). cbn [content].
  change (default [] (Some c)) with c. rewrite wrap_small by lia. destruct (lenZ c <=? ki_pos iocb) eqn:E.
  - apply Z.leb_le in E. rewrite Z.max_l in Hd by lia. apply lenZ_0 in Hd as Hnil. rewrite Hd.
    eexists 0, _, it, 0%nat. cbn [m_ret]. change (sext 64 0) with 0. split; [reflexivity|].
    rewrite Hnil. cbn [take]. rewrite app_nil_r. split; [done|]. left. rewrite sext_id by lia. done.
  - apply Z.leb_gt in E. rewrite Z.max_r in Hd by lia. unfold m_bind at 1, on_snd at 1, m_bind at 1, m_lift.
    set (n := Z.min _ _) in *. rewrite slice_ok by lia.
    replace (ki_pos iocb + n - ki_pos iocb) with n by lia.
    assert (take (Z.to_nat n) (drop (Z.to_nat (ki_pos iocb)) c) = d) as ->.
    { unfold d. apply list_eq. intros i. unfold n, lenZ in *.
      destruct (decide (i < Z.to_nat (it_count it))%nat) as [Hlt|Hge].
      - rewrite (lookup_take_lt _ (Z.to_nat (it_count it))) by done.
        destruct (decide (i < length c - Z.to_nat (ki_pos iocb))%nat); [rewrite lookup_take_lt by lia; done|].
        rewrite !lookup_ge_None_2; [done|rewrite length_drop; lia|rewrite length_take, length_drop; lia].
      - rewrite !lookup_take_ge by lia. done. }
    unfold m_bind, on_snd. destruct (iov_write_all_spec d it) as (r & it' & j & -> & Ho & Hr).
    destruct r as [[]|e| | |]; try done.
    + eexists _, _, it', j. cbn [m_ret]. split; [reflexivity|]. split; [done|]. left.
      rewrite !sext_id by lia. rewrite Hd. done.
    + eexists _, _, it', j. split; [reflexivity|]. split; [done|]. right. by rewrite Hr.
Qed.

Lemma rec_sum_ones (l : list dirent) : rec_sum ((fun e => (e, 1)) <$> l) = lenZ l.
Proof. unfold rec_sum. induction l as [|e l IH]; [done|]. rewrite lenZ_cons. cbn. rewrite IH. done. Qed.

(** Emitting a list of entries, none of which is skipped. *)
Lemma rofs_emit_spec i start es w : start <= i ->
  0 <= v_pos (w_ext w) -> v_pos (w_ext w) + lenZ es < 2 ^ 62 ->
  exists w' k, rofs_emit i start es w = (Ok tt, w') /\
    emits (take k ((fun '(n, i, t) => (mkDirent n i t, 1)) <$> es)) w w' /\
    (NeverFull (VK := VK) -> (length es <= k)%nat).
Proof.
  revert i w. induction es as [|[[n ino] t] es IH]; intros i w Hi Hp Hq.
  { exists w, 0%nat. split; [done|]. split; [apply emits_refl|]. cbn. lia. }
  rewrite lenZ_cons in Hq. pose proof (lenZ_nonneg es). cbn [rofs_emit]. destruct (i <? start) eqn:E; [blia|].
  destruct (emit_spec 1 n ino t w ltac:(lia) ltac:(lia) ltac:(lia)) as (b & w1 & He & Hnf & Hem).
  unfold m_bind. rewrite He. destruct b; cbn [negb].
  - pose proof (em_pos _ _ _ Hem) as Hpos. unfold rec_sum in Hpos. cbn [foldr snd] in Hpos.
    destruct (IH (i + 1) w1) as (w2 & k & -> & Hk & Hf); [lia..|]. exists w2, (S k). split; [done|].
    split; [exact (emits_trans _ _ _ _ _ Hem Hk)|]. intros HN. specialize (Hf HN). cbn. lia.
  - exists w1, 0%nat. split; [done|]. split; [exact Hem|]. intros HN. by destruct (Hnf eq_refl).
Qed.

Lemma rofs_emit_from p es w : (p <= length es)%nat -> 0 <= v_pos (w_ext w) -> v_pos (w_ext w) + lenZ es < 2 ^ 62 ->
  forall i, exists w' k, rofs_emit i (i + Z.of_nat p) es w = (Ok tt, w') /\
    emits (take k ((fun '(n, i, t) => (mkDirent n i t, 1)) <$> drop p es)) w w' /\
    (NeverFull (VK := VK) -> (length (drop p es) <= k)%nat).
Proof.
  intros Hle Hp Hq i. revert es Hle Hq i. induction p as [|p IH]; intros es Hle Hq i.
  { rewrite drop_0. apply rofs_emit_spec; lia. }
  destruct es as [|[[n ino] t] es]; [cbn in Hle; lia|]. cbn [rofs_emit drop]. rewrite lenZ_cons in Hq.
  destruct (i <? i + Z.of_nat (S p)) eqn:E; [|blia].
  replace (i + Z.of_nat (S p)) with (i + 1 + Z.of_nat p) by lia. apply IH; [cbn in Hle; lia|lia].
Qed.

Definition rofs_dirents : list dirent := (fun '(n, i, t) => mkDirent n i t) <$> rofs_entries.

(** Listing the directory can be interrupted and resumed: a call that starts at
    position [p] with the first [p] entries delivered leaves the reader with the first
    [q] entries for its new position [q], whatever room the reader has, and with
    all five when it has enough.  Any sequence of calls therefore delivers each
    entry exactly once and in order.  What is not the root directory is [ENOTDIR]. *)
Theorem rofs_read_dir_resumes w inode k p old :
  v_inodes (w_ext w) !! inode = Some k -> v_pos (w_ext w) = Z.of_nat p -> (p <= 5)%nat ->
  emitted (v_kern (w_ext w)) = old ++ take p rofs_dirents ->
  if k_inode k I_ino =? ROOT_INO
  then exists w' q, rofs_read_dir inode w = (Ok tt, w') /\ v_pos (w_ext w') = Z.of_nat q /\ (p <= q <= 5)%nat /\
    emitted (v_kern (w_ext w')) = old ++ take q rofs_dirents /\ (NeverFull (VK := VK) -> q = 5%nat)
  else rofs_read_dir inode w = (Err ENOTDIR, w).
Proof.
  intros Hi Hp Hp5 Hem. unfold rofs_read_dir, m_bind at 1 3, inode_ino, m_bind at 1 3.
  rewrite (get_inode_ok _ _ _ Hi). cbn [m_ret]. destruct (k_inode k I_ino =? ROOT_INO); cbn [negb]; [|done].
  unfold m_bind, emitter_pos, with_vw. rewrite Hp, wrap_small by lia.
  assert (mkWorld (w_dev w) (w_held w) (w_ext w) = w) as -> by by destruct w.
  destruct (rofs_emit_from p rofs_entries w) with (i := 0) as (w' & j & He & Hw & Hf);
    [exact Hp5|lia|change (lenZ rofs_entries) with 5; lia|].
  rewrite Z.add_0_l in He. exists w', (p + Nat.min j (5 - p))%nat. split; [done|].
  assert (((fun '(n, i, t) => (mkDirent n i t, 1)) <$> drop p rofs_entries) = (fun e => (e, 1)) <$> drop p rofs_dirents) as Hmap.
  { unfold rofs_dirents. rewrite <- fmap_drop, <- list_fmap_compose. apply list_fmap_ext. by intros i [[]] _. }
  rewrite Hmap in Hw. rewrite <- fmap_take in Hw. split; [|split; [lia|split]].
  - rewrite (em_pos _ _ _ Hw), Hp, rec_sum_ones. unfold lenZ. rewrite length_take, length_drop. change (length rofs_dirents) with 5%nat. lia.
  - rewrite (em_out _ _ _ Hw), Hem, <- app_assoc. f_equal. rewrite <- list_fmap_compose.
    change (fst ∘ _) with (@id dirent). rewrite list_fmap_id, <- take_take_drop. f_equal. destruct (decide (j <= 5 - p)%nat); [f_equal; lia|].
    rewrite !take_ge; try done; rewrite length_drop; change (length rofs_dirents) with 5%nat; lia.
  - intros HN. specialize (Hf HN). rewrite length_drop in Hf. change (length rofs_entries) with 5%nat in Hf. lia.
Qed.

(** Following the symlink: the VFS gets a pointer to the target, and its delayed call
    puts the heap back as it was; when there is no memory it gets [ENOMEM]. *)
Theorem rofs_link_freed dentry inode w h :
  exists p dc h', get_link_trampoline dentry inode NoCall (w, h) = (Ok (p, dc), (w, h')) /\
    ((p = to_err_ptr (inr ENOMEM) /\ dc = NoCall /\ h' = h) \/
     (@cstr_from_ptr Error p h' = (Ok LINK_TARGET, h') /\ cells (do_delayed_call dc h').2 = cells h)).
Proof.
  unfold get_link_trampoline. cbn [op_get_link ops rofs_ops]. unfold rofs_get_link, m_bind, on_snd.
  pose proof (try_from_slice_spec LINK_TARGET h ltac:(vm_compute; reflexivity)) as Hs.
  destruct (cstring_try_from_slice LINK_TARGET h) as [[c|e| | |] h1]; try done.
  - destruct Hs as (Hn & Hc & Hh). do 3 eexists. split; [reflexivity|]. right.
    split; [by eapply cstr_from_ptr_inv|]. cbn [do_delayed_call]. unfold m_bind. rewrite (from_foreign_inv _ _ _ Hc).
    rewrite (cstring_drop_inv _ _ _ Hc). cbn. rewrite Hh. by apply delete_insert_id.
  - destruct Hs as [-> ->]. do 3 eexists. split; [reflexivity|]. left.
    rewrite bool_decide_eq_false_2; [done|]. intros H%existsb_nul. vm_compute in H. discriminate H.
Qed.

(** The page of a file of this module. *)
Definition rofs_page (c : list byte) (pos fsize : Z) : list byte :=
  let d := take (Z.to_nat fsize) (drop (Z.to_nat pos) c) in
  d ++ replicate (Z.to_nat (fsize - lenZ d)) x00.

(** [read_folio] fills a folio of one page with the file's bytes and zeros.  A folio of
    more than a page makes it panic: it clears [folio.size()] bytes of a mapping that
    has one page, although [NewINode::init] enables large folios for regular files. *)
Theorem rofs_read_folio_page w inode c k f :
  v_inodes (w_ext w) !! inode = Some (mkKInode (Some (mkRID (Some c))) k) ->
  0 <= folio_pos f < 2 ^ 62 -> lenZ c < 2 ^ 62 -> 0 < folio_size f < 2 ^ 62 -> kmap 0 <> 0 ->
  rofs_read_folio kmap inode f w =
    if folio_size f <=? PAGE_SIZE
    then (Ok (mkFolio (folio_pos f) (rofs_page c (folio_pos f) (folio_size f))), w)
    else (Panic, w).
Proof.
  intros Hi Hp Hc Hs Hk. unfold rofs_read_folio, m_bind at 1. rewrite (inode_data_ok _ _ _ _ Hi).
  cbn [content]. change (default [] (Some c)) with c. rewrite wrap_small by lia.
  unfold m_bind at 1, m_lift at 1, folio_map. destruct (folio_size f <=? 0) eqn:E0; [blia|].
  destruct (kmap 0 =? 0) eqn:Ek; [blia|]. cbn [fm_len]. rewrite Z.sub_0_r.
  assert (lenZ (folio_bytes f) = folio_size f) as Hlen by done.
  destruct (folio_size f <=? PAGE_SIZE) eqn:Eps.
  2: { apply Z.leb_gt in Eps. rewrite Z.min_l by lia. unfold m_bind at 1, m_lift at 1, slice.
       destruct (folio_size f <=? lenZ (take (Z.to_nat PAGE_SIZE) (folio_bytes f))) eqn:E;
         [|by rewrite andb_false_r].
       apply Z.leb_le in E. unfold lenZ in E. rewrite length_take in E. unfold PAGE_SIZE in *. lia. }
  apply Z.leb_le in Eps. rewrite Z.min_r by lia. rewrite take_ge by (unfold lenZ in *; lia).
  unfold m_bind at 1, m_lift at 1. rewrite slice_ok by lia.
  set (zs := replicate (Z.to_nat (folio_size f)) x00).
  assert (lenZ zs = folio_size f) as Hz by (unfold zs, lenZ; rewrite length_replicate; lia).
  rewrite overwrite_all by congruence. unfold rofs_page. set (d := take _ (drop _ c)). pose proof (lenZ_nonneg c).
  assert (lenZ d = Z.max 0 (Z.min (lenZ c - folio_pos f) (folio_size f))) as Hd
    by (unfold d, lenZ in *; rewrite length_take, length_drop; lia).
  destruct (folio_pos f <? lenZ c) eqn:Ec.
  - apply Z.ltb_lt in Ec. rewrite Z.max_r in Hd by lia. set (n := Z.min _ _) in *.
    unfold m_bind, m_lift, m_ret. rewrite !slice_ok by lia.
    replace (folio_pos f + n - folio_pos f) with n by lia.
    assert (take (Z.to_nat n) (drop (Z.to_nat (folio_pos f)) c) = d) as ->.
    { unfold d, n. rewrite Z2Nat.inj_min, Nat.min_comm, <- take_take. f_equal. apply take_ge.
      rewrite length_drop. unfold lenZ. lia. }
    assert (overwrite zs 0 d = d ++ replicate (Z.to_nat (folio_size f - lenZ d)) x00) as ->
      by (unfold zs; apply overwrite_zeros; lia).
    rewrite overwrite_all; [done|]. rewrite lenZ_app. unfold lenZ at 2. rewrite length_replicate. lia.
  - apply Z.ltb_ge in Ec. rewrite Z.max_l in Hd by lia.
    assert (d ++ replicate (Z.to_nat (folio_size f - lenZ d)) x00 = zs) as ->
      by (rewrite Hd, Z.sub_0_r; by apply lenZ_0 in Hd as ->).
    unfold m_bind, m_ret. by rewrite overwrite_all by congruence.
Qed.
End Proofs.

(** ** The hypotheses of the properties *)
Definition rofs_file : KInode RInodeData :=
  mkKInode (Some (mkRID (Some HELLO_CONTENT))) (fun f => match f with I_ino => HELLO_INO | _ => 0 end).
Definition rofs_root : KInode RInodeData :=
  mkKInode (Some (mkRID None)) (fun f => match f with I_ino => ROOT_INO | _ => 0 end).
Definition rofs_world := toy_fs_world (S := unit) (one_page []) (<[9 := rofs_file]> {[ 8 := rofs_root ]}) 2 (Some tt) 0.

Lemma rofs_read_delivers_witness :
  exists r iocb' it' j,
    @custom_read_iter_trampoline (ram_cache (one_page [])) const_alloc (flat_user 0) page_iter RInodeData unit
      (toy_vfs RInodeData) (@rofs_ops linux_errno _ _ _ page_iter _ bump_place (fun _ => 9) (fun _ => 1))
      (rofs_world, (mkKiocb 5 6, [])) = (Ok r, (rofs_world, (iocb', it'))) /\
    @it_out page_iter it' = take j (bs "from rofs!" ++ [newline]).
Proof.
  destruct (@rofs_read_delivers linux_errno (ram_cache (one_page [])) const_alloc (flat_user 0) page_iter page_iter_ok
    (toy_vfs RInodeData) bump_place (fun _ => 9) (fun _ => 1) rofs_world (mkKiocb 5 6) [] HELLO_CONTENT
    (fun f => match f with I_ino => HELLO_INO | _ => 0 end) eq_refl) as (r & iocb' & it' & j & H1 & H2 & _);
    [cbn; lia|vm_compute; reflexivity|].
  exists r, iocb', it', j. exact (conj H1 H2).
Defined.

Lemma rofs_read_dir_resumes_witness :
  exists w' q, @rofs_read_dir linux_errno (ram_cache (one_page [])) const_alloc (toy_vfs RInodeData) 8 rofs_world = (Ok tt, w') /\
    @emitted _ (toy_vfs RInodeData) (v_kern (w_ext w')) = take q rofs_dirents.
Proof.
  destruct (@rofs_read_dir_resumes linux_errno (ram_cache (one_page [])) const_alloc (toy_vfs RInodeData) _
    rofs_world 8 rofs_root 0 [] eq_refl eq_refl) as (w' & q & H1 & _ & _ & H2 & _); [lia|reflexivity|].
  exists w', q. exact (conj H1 H2).
Defined.

(** The reader of the witness has room for two entries and gets "." and "..". *)
Example rofs_read_dir_two :
  let '(r, w) := @rofs_read_dir linux_errno (ram_cache (one_page [])) const_alloc (toy_vfs RInodeData) 8 rofs_world in
  r = Ok tt /\ @emitted _ (toy_vfs RInodeData) (v_kern (w_ext w)) = take 2 rofs_dirents /\ v_pos (w_ext w) = 2.
Proof. vm_compute. repeat split. Qed.
