(* ===== verification/Printk.v ===== *)
(** * Printing (rko-core/src/printk.rs)

    The kernel's [vsprintf] hands [rust_fmt_argument] the range [buf, end) of its output
    buffer; [RawFormatter] renders the arguments into it piece by piece, cutting off what
    does not fit.  [format_strings] builds the format strings at compile time. *)
From Stdlib Require Import ZArith Lia Bool.
From Stdlib.Strings Require Import Byte.
From stdpp Require Import base list option numbers.
From S2P Require Import Prelude.

(** ** The formatter *)
Definition kmem : Type := Z -> byte.
Definition mem_range (m : kmem) (p n : Z) : list byte := m <$> seqZ p n.

(** [copy_nonoverlapping] to the range starting at [p]. *)
Definition mem_copy (m : kmem) (p : Z) (d : list byte) : kmem := fun z =>
  if decide (p <= z) then default (m z) (d !! Z.to_nat (z - p)) else m z.

Record RawFormatter : Type := mkFmt { fm_pos : Z; fm_end : Z }.

(** [from_ptrs]. *)
Definition from_ptrs (buf end_ : Z) : RawFormatter := mkFmt buf end_.

(** [write_str], which never fails. *)
Definition write_str (s : list byte) : M (RawFormatter * kmem) unit unit := fun '(w, m) =>
  let len := lenZ s in
  let avail := Z.max 0 (fm_end w - fm_pos w) in
  let to_write := if len <? avail then len else avail in
  if 0 <? to_write
  then (Ok tt, (mkFmt (wrap 64 (fm_pos w + to_write)) (fm_end w), mem_copy m (fm_pos w) (take (Z.to_nat to_write) s)))
  else (Ok tt, (w, m)).

(** [write_fmt] calls [write_str] for each piece of the arguments. *)
Fixpoint write_fmt (args : list (list byte)) : M (RawFormatter * kmem) unit unit :=
  match args with
  | [] => m_ret tt
  | s :: r => _ <-! write_str s ;; write_fmt r
  end.

(** [rust_fmt_argument]: the position behind what was written. *)
Definition rust_fmt_argument (buf end_ : Z) (args : list (list byte)) (m : kmem) : res unit Z * kmem :=
  let '(r, (w, m')) := write_fmt args (from_ptrs buf end_, m) in
  (match r with Ok _ | Err _ => Ok (fm_pos w) | Panic => Panic | Ub => Ub | Pending => Pending end, m').

(** ** Format strings *)
Definition KERN_LEVEL (c : byte) : list byte := [x01; c; x00].
Definition KERN_EMERG : list byte := KERN_LEVEL x30.
Definition KERN_ALERT : list byte := KERN_LEVEL x31.
Definition KERN_CRIT : list byte := KERN_LEVEL x32.
Definition KERN_ERR : list byte := KERN_LEVEL x33.
Definition KERN_WARNING : list byte := KERN_LEVEL x34.
Definition KERN_NOTICE : list byte := KERN_LEVEL x35.
Definition KERN_INFO : list byte := KERN_LEVEL x36.
Definition KERN_DEBUG : list byte := KERN_LEVEL x37.
Definition KERN_CONT : list byte := KERN_LEVEL x63.

Definition FMT_LENGTH : nat := 10.

(** The suffixes ["%pA"] and ["%s: %pA"] with their padding. *)
Definition cont_suffix : list byte := [x25; x70; x41; x00; x00; x00; x00; x00].
Definition line_suffix : list byte := [x25; x73; x3a; x20; x25; x70; x41; x00].

(** [generate]; a failed assertion is a panic (at compile time). *)
Definition generate (is_cont : bool) (prefix : list byte) : res unit (list byte) :=
  match prefix with
  | [p0; p1; p2] =>
      if negb (bool_decide (p0 = x01)) then Panic
      else if (if is_cont then negb (bool_decide (p1 = x63)) else negb ((b2z x30 <=? b2z p1) && (b2z p1 <=? b2z x37)))
           then Panic
      else if negb (bool_decide (p2 = x00)) then Panic
      else Ok (p0 :: p1 :: (if is_cont then cont_suffix else line_suffix))
  | _ => Panic
  end.

(** The nine format strings. *)
Definition EMERG : res unit (list byte) := generate false KERN_EMERG.
Definition ALERT : res unit (list byte) := generate false KERN_ALERT.
Definition CRIT : res unit (list byte) := generate false KERN_CRIT.
Definition ERR : res unit (list byte) := generate false KERN_ERR.
Definition WARNING : res unit (list byte) := generate false KERN_WARNING.
Definition NOTICE : res unit (list byte) := generate false KERN_NOTICE.
Definition INFO : res unit (list byte) := generate false KERN_INFO.
Definition DEBUG : res unit (list byte) := generate false KERN_DEBUG.
Definition CONT : res unit (list byte) := generate true KERN_CONT.

(** ** Properties *)

Lemma mem_copy_out m p d z : ~ p <= z < p + lenZ d -> mem_copy m p d z = m z.
Proof.
  intros H. unfold mem_copy. destruct (decide (p <= z)); [|done].
  rewrite lookup_ge_None_2; [done|]. unfold lenZ in H. lia.
Qed.

Lemma mem_range_app m p n k : 0 <= n -> 0 <= k -> mem_range m p (n + k) = mem_range m p n ++ mem_range m (p + n) k.
Proof. intros. unfold mem_range. by rewrite seqZ_app, fmap_app by lia. Qed.

Lemma mem_range_ext m m' p n : (forall z, p <= z < p + n -> m' z = m z) -> mem_range m' p n = mem_range m p n.
Proof.
  intros H. unfold mem_range. apply list_fmap_ext. intros i z Hz. apply lookup_seqZ in Hz as [-> Hi]. apply H. lia.
Qed.

Lemma mem_range_copy m p d : mem_range (mem_copy m p d) p (lenZ d) = d.
Proof.
  apply list_eq. intros i. unfold mem_range. rewrite list_lookup_fmap. unfold lenZ.
  destruct (decide (i < length d)%nat) as [Hi|Hi].
  - rewrite (proj2 (lookup_seqZ p (Z.of_nat (length d)) i (p + Z.of_nat i))) by lia. cbn. unfold mem_copy. rewrite decide_True by lia.
    replace (Z.to_nat (p + Z.of_nat i - p)) with i by lia. destruct (lookup_lt_is_Some_2 d i Hi) as [b ->]. done.
  - rewrite lookup_seqZ_ge by lia. by rewrite lookup_ge_None_2 by lia.
Qed.

(** One piece. *)
Lemma write_str_eq s w m : 0 <= fm_pos w -> fm_end w < 2 ^ 63 ->
  let t := take (Z.to_nat (fm_end w - fm_pos w)) s in
  write_str s (w, m) = (Ok tt, (mkFmt (fm_pos w + lenZ t) (fm_end w), mem_copy m (fm_pos w) t)) \/
  (t = [] /\ write_str s (w, m) = (Ok tt, (w, m))).
Proof.
  intros Hp He t. unfold write_str.
  assert (forall n, n = (if lenZ s <? Z.max 0 (fm_end w - fm_pos w) then lenZ s else Z.max 0 (fm_end w - fm_pos w)) ->
    take (Z.to_nat n) s = t /\ (0 < n -> lenZ t = n)) as Ht.
  { intros n ->. unfold t, lenZ. destruct (Z.of_nat (length s) <? Z.max 0 (fm_end w - fm_pos w)) eqn:E.
    - rewrite !take_ge by blia. done.
    - split; [f_equal; lia|]. intros Hn. rewrite length_take. blia. }
  set (n := if _ <? _ then _ else _) in *. destruct (Ht n eq_refl) as [Htk Hl]. destruct (0 <? n) eqn:E0.
  - left. rewrite Htk, (Hl ltac:(blia)). rewrite wrap_small; [done|].
    unfold n in *. destruct (lenZ s <? Z.max 0 (fm_end w - fm_pos w)) eqn:E1; blia.
  - right. split; [|done]. rewrite <- Htk. replace (Z.to_nat n) with O by blia. done.
Qed.

(** [rust_fmt_argument] writes the rendered text, cut to the room the kernel gives it,
    at the start of the buffer, returns the position behind it, and changes no byte outside
    [buf, end), whatever pieces the arguments are rendered in; with no room it writes nothing. *)
Theorem fmt_argument_fills buf end_ args m : 0 <= buf -> end_ < 2 ^ 63 ->
  let text := take (Z.to_nat (end_ - buf)) (concat args) in
  exists m', rust_fmt_argument buf end_ args m = (Ok (buf + lenZ text), m') /\
    mem_range m' buf (lenZ text) = text /\ (forall z, ~ buf <= z < buf + lenZ text -> m' z = m z).
Proof.
  intros Hb He. unfold rust_fmt_argument, from_ptrs. revert buf m Hb. induction args as [|s r IH]; intros buf m Hb; cbn [write_fmt concat].
  - cbn. rewrite take_nil, lenZ_nil. exists m. cbn. rewrite Z.add_0_r. split; [done|]. done.
  - unfold m_bind. set (t := take (Z.to_nat (end_ - buf)) s). pose proof (lenZ_nonneg t) as Ht0.
    rewrite take_app. replace (Z.to_nat (end_ - buf) - length s)%nat with (Z.to_nat (end_ - (buf + lenZ t))).
    2: { unfold t, lenZ. rewrite length_take. lia. }
    fold t.
    assert (exists m1, write_str s (mkFmt buf end_, m) = (Ok tt, (mkFmt (buf + lenZ t) end_, m1)) /\
              mem_range m1 buf (lenZ t) = t /\ (forall z, ~ buf <= z < buf + lenZ t -> m1 z = m z)) as (m1 & -> & Hm1 & Ho1).
    { destruct (write_str_eq s (mkFmt buf end_) m Hb He) as [H|[Hn H]]; cbn [fm_pos fm_end] in *; rewrite H.
      - eexists. split; [reflexivity|]. split; [apply mem_range_copy|apply mem_copy_out].
      - fold t in Hn. rewrite Hn, lenZ_nil, Z.add_0_r. by exists m. }
    destruct (IH (buf + lenZ t) m1 ltac:(lia)) as (m' & He' & Hr & Ho). exists m'. rewrite He', lenZ_app, Z.add_assoc.
    set (u := take _ (concat r)) in *. pose proof (lenZ_nonneg u). split; [done|]. split.
    + rewrite mem_range_app, Hr by lia. f_equal. rewrite <- Hm1 at 2. apply mem_range_ext. intros z Hz. apply Ho. lia.
    + intros z Hz. rewrite Ho by lia. apply Ho1. lia.
Qed.

(** The position never passes [end]: when there is no room the arguments count for nothing. *)
Theorem fmt_argument_stops_at_end buf end_ args m : end_ <= buf -> rust_fmt_argument buf end_ args m = (Ok buf, m).
Proof.
  intros He. unfold rust_fmt_argument, from_ptrs. assert (write_fmt args (mkFmt buf end_, m) = (Ok tt, (mkFmt buf end_, m))) as ->; [|done].
  induction args as [|s r IH]; [done|]. cbn [write_fmt]. unfold m_bind, write_str. cbn [fm_pos fm_end].
  replace (Z.max 0 (end_ - buf)) with 0 by lia. pose proof (lenZ_nonneg s). destruct (lenZ s <? 0) eqn:E; [blia|]. exact IH.
Qed.

(** A format string is accepted exactly when its level is one, and is then a C string of
    ten bytes that starts with the level and has no NUL before its conversions end. *)
Lemma generate_spec is_cont c : match generate is_cont (KERN_LEVEL c) with
  | Ok f => length f = FMT_LENGTH /\ take 2 f = [x01; c] /\ f !! 9%nat = Some x00 /\
      (if is_cont then c = x63 else b2z x30 <= b2z c <= b2z x37)
  | Panic => if is_cont then c <> x63 else ~ b2z x30 <= b2z c <= b2z x37
  | _ => False
  end.
Proof.
  unfold generate, KERN_LEVEL. rewrite !bool_decide_eq_true_2 by done. cbn [negb]. destruct is_cont.
  - case_bool_decide; cbn [negb]; [subst; done|done].
  - destruct ((b2z x30 <=? b2z c) && (b2z c <=? b2z x37)) eqn:E; cbn [negb]; [|blia].
    split; [done|]. split; [done|]. split; [done|]. blia.
Qed.

Lemma fmt_argument_fills_witness : exists m',
  rust_fmt_argument 100 104 [[x61; x62]; [x63; x64; x65]] (fun _ => x00) = (Ok 104, m') /\
  mem_range m' 100 4 = [x61; x62; x63; x64].
Proof.
  destruct (fmt_argument_fills 100 104 [[x61; x62]; [x63; x64; x65]] (fun _ => x00)) as (m' & H1 & H2 & _); [lia|lia|].
  exists m'. split; [exact H1|exact H2].
Defined.
