(* ===== verification/Logging.v ===== *)
(** * The log macros (rko-core/src/printk.rs) and the display of C strings (types/cstring.rs)

    [call_printk] and the [pr_*!] macros call the kernel's variadic [_printk] with one of the
    format strings of [Printk], the module's prefix and a pointer to the [fmt::Arguments].  A
    call is recorded with its arguments, and [conversions] reads a format string the way C
    does, so that the theorem can compare them: a variadic call is only defined when the
    arguments are those its format consumes.  [cstring_fmt] is what a [CString] contributes
    to the rendered text. *)
From Stdlib Require Import ZArith Lia Bool.
From Stdlib.Strings Require Import Byte String.
From stdpp Require Import base list option numbers.
From S2P Require Import Prelude Printk.

(** An argument of [_printk]: a pointer to bytes, or to the pieces of a [fmt::Arguments]. *)
Inductive karg : Type := KStr (bytes : list byte) | KArgs (pieces : list (list byte)).
Record kcall : Type := mkKcall { kc_fmt : list byte; kc_args : list karg }.
(** The static [LOG_PREFIX] and the calls made so far. *)
Record Log : Type := mkLog { LOG_PREFIX : list byte; lg_calls : list kcall }.

Definition log_new : Log := mkLog (bs "<unknown>" ++ [x00]) [].
Definition set_log_prefix (prefix : list byte) (w : Log) : Log := mkLog prefix (lg_calls w).

Abbreviation LM := (M Log unit unit).

Definition k_printk (f : list byte) (args : list karg) : LM := fun w =>
  (Ok tt, mkLog (LOG_PREFIX w) (lg_calls w ++ [mkKcall f args])).
Definition call_printk (f : list byte) (args : list (list byte)) : LM := fun w =>
  k_printk f [KStr (LOG_PREFIX w); KArgs args] w.
Definition call_printk_cont (args : list (list byte)) : LM :=
  f <-! m_lift CONT ;; k_printk f [KArgs args].

(** [print_macro!]: the format string and whether the line is continued. *)
Definition print_macro (format_string : res unit (list byte)) (cont : bool) (args : list (list byte)) : LM :=
  if cont then call_printk_cont args else (f <-! m_lift format_string ;; call_printk f args).

Inductive PrMacro : Type :=
  pr_emerg | pr_alert | pr_crit | pr_err | pr_warn | pr_notice | pr_info | pr_debug | pr_cont.
#[global] Instance prmacro_eq_dec : EqDecision PrMacro.
Proof. solve_decision. Defined.

(** The macros; [debug_assertions] is the build's. *)
Definition pr (debug_assertions : bool) (p : PrMacro) (args : list (list byte)) : LM :=
  match p with
  | pr_emerg => print_macro EMERG false args
  | pr_alert => print_macro ALERT false args
  | pr_crit => print_macro CRIT false args
  | pr_err => print_macro ERR false args
  | pr_warn => print_macro WARNING false args
  | pr_notice => print_macro NOTICE false args
  | pr_info => print_macro INFO false args
  | pr_debug => if debug_assertions then print_macro DEBUG false args else m_ret tt
  | pr_cont => print_macro CONT true args
  end.

(** ** C strings *)
Definition is_ascii (b : byte) : bool := b2z b <? 128.
Definition is_ascii_control (b : byte) : bool := (b2z b <? 32) || (b2z b =? 127).
Definition hex_digit (z : Z) : byte := if z <? 10 then z2b (48 + z) else z2b (87 + z).
(** The pieces [Display for CString] writes for the bytes of the string. *)
Definition display_byte (b : byte) : list byte :=
  if is_ascii b && negb (is_ascii_control b) then [b]
  else bs "\x" ++ [hex_digit (b2z b / 16); hex_digit (b2z b mod 16)].
Definition cstring_fmt (s : list byte) : list (list byte) := display_byte <$> s.

(** ** Formats and calls agree *)
Inductive conversion : Type := CvStr | CvArgs.

(** What a format string consumes, up to its NUL; [None] is a conversion outside these two or
    a missing terminator. *)
Fixpoint conversions (fuel : nat) (f : list byte) : option (list conversion) :=
  match fuel with
  | O => None
  | S fuel' =>
      match f with
      | [] => None
      | x00 :: _ => Some []
      | x25 :: x73 :: r => cons CvStr <$> conversions fuel' r
      | x25 :: x70 :: x41 :: r => cons CvArgs <$> conversions fuel' r
      | x25 :: _ => None
      | _ :: r => conversions fuel' r
      end
  end.
(** An argument fits a conversion: [%s] needs a terminated string. *)
Definition fits (c : conversion) (a : karg) : Prop :=
  match c, a with
  | CvStr, KStr s => exists t, s = t ++ [x00]
  | CvArgs, KArgs _ => True
  | _, _ => False
  end.
Definition well_called (k : kcall) : Prop :=
  exists cs, conversions (S (length (kc_fmt k))) (kc_fmt k) = Some cs /\ Forall2 fits cs (kc_args k).

Definition level_byte (p : PrMacro) : byte :=
  match p with
  | pr_emerg => x30 | pr_alert => x31 | pr_crit => x32 | pr_err => x33 | pr_warn => x34
  | pr_notice => x35 | pr_info => x36 | pr_debug => x37 | pr_cont => x63
  end.

(** Every macro makes one call, at its own level and with the rendered text of its arguments,
    whose arguments are those its format consumes; [pr_cont] alone omits the prefix, and
    [pr_debug] makes no call in a release build.  The prefix must be terminated, as the
    safety comment of [set_log_prefix] asks. *)
Theorem pr_macros_call debug p args w t : LOG_PREFIX w = t ++ [x00] ->
  exists calls, pr debug p args w = (Ok tt, mkLog (LOG_PREFIX w) (lg_calls w ++ calls)) /\
    (if decide (p = pr_debug /\ debug = false) then calls = []
     else exists k, calls = [k] /\ take 2 (kc_fmt k) = [x01; level_byte p] /\ well_called k /\
            kc_args k = (if decide (p = pr_cont) then [KArgs args] else [KStr (t ++ [x00]); KArgs args])).
Proof.
  intros Ht. destruct (decide (p = pr_debug /\ debug = false)) as [[-> ->]|Hd].
  { exists []. split; [|done]. unfold pr, m_ret. rewrite app_nil_r. by destruct w. }
  destruct p; try (destruct debug; [|by destruct Hd]); (eexists [_]; split; [reflexivity|]); eexists; (split; [reflexivity|]);
    (split; [reflexivity|]); (split; [|cbn; by rewrite ?Ht]); eexists; (split; [reflexivity|]);
    repeat (apply List.Forall2_cons; [first [exact I|by exists t]|]); apply List.Forall2_nil.
Qed.

(** A fresh module's prefix, and the one [module!] sets, are terminated. *)
Lemma log_prefix_terminated name : (exists t, LOG_PREFIX log_new = t ++ [x00]) /\
  forall w, LOG_PREFIX (set_log_prefix (name ++ [x00]) w) = name ++ [x00].
Proof. split; [by eexists|done]. Qed.

(** ** What a C string prints *)
Definition printable (b : byte) : bool := is_ascii b && negb (is_ascii_control b).

Lemma display_byte_cases b :
  (printable b = true /\ display_byte b = [b]) \/
  (printable b = false /\ length (display_byte b) = 4%nat /\ forallb printable (display_byte b) = true).
Proof. destruct b; first [by left|by right]. Qed.

(** A displayed C string is printable ASCII whatever its bytes are: no control character, so no
    line break and no level marker, reaches the log through it; printable strings are shown
    as they are, and the text is at most four times as long. *)
Theorem cstring_display_printable s :
  forallb printable (concat (cstring_fmt s)) = true /\
  (forallb printable s = true -> concat (cstring_fmt s) = s) /\
  (length s <= length (concat (cstring_fmt s)) <= 4 * length s)%nat.
Proof.
  induction s as [|b s (IH1 & IH2 & IH3)]; [done|]. cbn [cstring_fmt fmap list_fmap concat forallb length].
  fold (cstring_fmt s). rewrite forallb_app, length_app, IH1.
  destruct (display_byte_cases b) as [[Hp ->]|(Hp & Hl & Ha)].
  - cbn [forallb length]. rewrite Hp. split; [done|]. split; [intros H; cbn; by rewrite IH2|cbn; lia].
  - rewrite Hp, Ha, Hl. split; [done|]. split; [done|lia].
Qed.

(** The display is not injective: a backslash is shown as itself, so the text of an escaped
    byte can also be a string's own. *)
Lemma cstring_display_ambiguous : concat (cstring_fmt [x01]) = concat (cstring_fmt (bs "\x01")) /\ [x01] <> bs "\x01".
Proof. split; [by vm_compute|done]. Qed.

Lemma pr_macros_call_witness : exists calls,
  pr false pr_info [bs "hello"] log_new = (Ok tt, mkLog (LOG_PREFIX log_new) (lg_calls log_new ++ calls)) /\ length calls = 1%nat.
Proof.
  destruct (pr_macros_call false pr_info [bs "hello"] log_new (bs "<unknown>") eq_refl) as (calls & H & Hc).
  exists calls. split; [exact H|]. destruct (decide _) as [[Hd _]|_]; [discriminate Hd|]. destruct Hc as (k & -> & _). reflexivity.
Defined.
