(* ===== verification/Slices.v ===== *)
(** * Boxed slices (rko-core/src/alloc/kbox.rs)

    [Box<[T]>] over the heap of [Boxes], whose cells hold the elements; an element is
    [None] while its bytes are no value of [T]: uninitialised, or zero where [T] has no
    value whose bytes are zero ([ZeroValue]). *)
From Stdlib Require Import ZArith Lia Bool.
From stdpp Require Import base list option numbers gmap.
From S2P Require Import Prelude Errors KVec Boxes.

(** What all-zero bytes are as a [T]. *)
Class ZeroValue (T : Type) := zero_value : option T.

Record SliceBox : Type := mkSlice { sb_ptr : Z; sb_len : nat }.

Section Slices.
Context {T : Type} {ZV : ZeroValue T} {PL : Placement (list (option T))} (size_of align_of : Z).

Abbreviation SM := (M (Heap (list (option T))) AllocError).

(** [array_layout] and the allocation. *)
Definition slice_alloc (len : nat) : SM Z :=
  match array_layout size_of align_of len with
  | Some size => box_alloc size
  | None => m_err AllocErr
  end.

(** [Box::new_zeroed_slice]. *)
Definition new_zeroed_slice (len : nat) : SM SliceBox :=
  ptr <-! slice_alloc len ;;
  _ <-! box_store ptr (replicate len zero_value) ;;
  m_ret (mkSlice ptr len).

(** [copy_from_slice] panics when the lengths differ. *)
Definition copy_from_slice (b : SliceBox) (data : list T) : SM unit :=
  if bool_decide (sb_len b = length data) then box_store (sb_ptr b) (Some <$> data) else m_lift Panic.

Definition new_slice_copy (data : list T) : SM SliceBox :=
  b <-! new_zeroed_slice (length data) ;;
  _ <-! copy_from_slice b data ;;
  m_ret b.

(** [Box::new_uninit_slice]; [assume_init] only changes the type. *)
Definition new_uninit_slice (len : nat) : SM SliceBox :=
  ptr <-! slice_alloc len ;;
  _ <-! box_store ptr (replicate len None) ;;
  m_ret (mkSlice ptr len).
Definition slice_assume_init (b : SliceBox) : SliceBox := b.

(** [b[i].write(v)] on a slice of [MaybeUninit], and [b[i]] on a slice of [T]. *)
Definition slice_write (b : SliceBox) (i : nat) (v : T) : SM unit :=
  l <-! box_load (sb_ptr b) ;;
  if bool_decide (i < length l)%nat then box_store (sb_ptr b) (<[i := Some v]> l) else m_lift Panic.
Definition slice_get (b : SliceBox) (i : nat) : SM T :=
  l <-! box_load (sb_ptr b) ;;
  m_lift (match l !! i with Some (Some v) => Ok v | Some None => Ub | None => Panic end).

(** Initialising a slice element by element. *)
Fixpoint slice_fill (b : SliceBox) (i : nat) (data : list T) : SM unit :=
  match data with
  | [] => m_ret tt
  | v :: r => _ <-! slice_write b i v ;; slice_fill b (S i) r
  end.

Context {PO : PlacementOk (list (option T)) PL}.

(** An allocation for elements with a size: a fresh cell, or nothing changes.  The empty
    slice has no cell of its own. *)
Lemma slice_alloc_cases len h : 0 < size_of -> (0 < len)%nat ->
  (exists p, slice_alloc len h = (Ok p, mkHeap (<[p := None]> (cells h)) (destroyed h)) /\ 16 < p /\ cells h !! p = None) \/
  slice_alloc len h = (Err AllocErr, h).
Proof.
  intros Hs Hl. unfold slice_alloc. destruct (array_layout size_of align_of len) as [size|] eqn:E; [|by right].
  apply box_alloc_cases. unfold array_layout, u_checked_mul in E. destruct (_ <? _); [|done].
  destruct (_ <? _) in E; [done|]. injection E as <-. nia.
Qed.

(** A box made by [new_slice_copy] holds exactly the elements it was made from, in a cell of
    its own, and dropping it releases that cell; when memory is short, or the size of the
    slice is no valid layout, nothing changes. *)
Theorem slice_copy_holds data h : 0 < size_of -> data <> [] ->
  match new_slice_copy data h with
  | (Ok b, h') => sb_len b = length data /\ cells h !! sb_ptr b = None /\
      h' = mkHeap (<[sb_ptr b := Some (Some <$> data)]> (cells h)) (destroyed h) /\
      (forall i, slice_get b i h' = (match data !! i with Some v => Ok v | None => Panic end, h')) /\
      box_drop (sb_ptr b) h' = (Ok tt, mkHeap (cells h) ((Some <$> data) :: destroyed h))
  | (Err _, h') => h' = h
  | _ => False
  end.
Proof.
  intros Hs Hd. assert (0 < length data)%nat as Hl by (destruct data; [done|cbn; lia]).
  unfold new_slice_copy, new_zeroed_slice. unfold m_bind at 1 2.
  destruct (slice_alloc_cases (length data) h Hs Hl) as [(p & -> & Hp & Hn)| ->]; [|done].
  unfold m_bind at 1, box_store at 1, m_ret at 1, m_bind, copy_from_slice. cbn [sb_len sb_ptr cells destroyed].
  rewrite bool_decide_eq_true_2 by done. unfold box_store, m_ret. cbn [cells destroyed sb_len sb_ptr]. rewrite !insert_insert_eq.
  split; [done|]. split; [done|]. split; [done|]. split.
  - intros i. unfold slice_get, m_bind. rewrite (box_load_ok _ _ (Some <$> data)) by apply lookup_insert_eq. unfold m_lift.
    rewrite list_lookup_fmap. by destruct (data !! i).
  - rewrite (box_drop_ok _ _ (Some <$> data)) by (done || apply lookup_insert_eq). cbn [cells destroyed]. by rewrite delete_insert_id.
Qed.

(** Filling a slice that was allocated uninitialised makes every element readable. *)
Lemma slice_fill_ok b data done_ rest h :
  cells h !! sb_ptr b = Some (Some ((Some <$> done_) ++ replicate (length data) None ++ rest)) ->
  slice_fill b (length done_) data h =
    (Ok tt, mkHeap (<[sb_ptr b := Some ((Some <$> done_ ++ data) ++ rest)]> (cells h)) (destroyed h)).
Proof.
  revert done_ h. induction data as [|v r IH]; intros done_ h H; cbn [slice_fill].
  - rewrite app_nil_r. cbn in H. rewrite insert_id by done. by destruct h.
  - unfold m_bind. unfold slice_write, m_bind. rewrite (box_load_ok _ _ _ H).
    rewrite bool_decide_eq_true_2 by (rewrite !length_app, length_fmap, length_replicate; cbn; lia).
    unfold box_store. replace (<[length done_ := Some v]> ((Some <$> done_) ++ replicate (length (v :: r)) None ++ rest))
      with ((Some <$> done_ ++ [v]) ++ replicate (length r) None ++ rest).
    2: { rewrite insert_app_r_alt by (rewrite length_fmap; lia). rewrite length_fmap, Nat.sub_diag. cbn.
         by rewrite fmap_app, <- app_assoc. }
    replace (S (length done_)) with (length (done_ ++ [v])) by (rewrite length_app; cbn; lia).
    rewrite IH by (cbn; apply lookup_insert_eq). cbn [cells destroyed]. by rewrite insert_insert_eq, <- app_assoc.
Qed.

(** [new_zeroed_slice] is safe to call for every [Copy] type, but for a type without a
    value of zero bytes (references, for example) reading what it made is undefined. *)
Theorem zeroed_slice_invalid len h i : zero_value = None -> 0 < size_of -> (i < len)%nat ->
  match new_zeroed_slice len h with
  | (Ok b, h') => slice_get b i h' = (Ub, h')
  | (Err _, h') => h' = h
  | _ => False
  end.
Proof.
  intros Hz Hs Hi. unfold new_zeroed_slice, m_bind at 1.
  destruct (slice_alloc_cases len h Hs ltac:(lia)) as [(p & -> & Hp & Hn)| ->]; [|done].
  unfold m_bind at 1, box_store, m_ret, slice_get, m_bind. cbn [cells destroyed sb_ptr].
  rewrite (box_load_ok _ _ (replicate len zero_value)) by apply lookup_insert_eq. unfold m_lift.
  rewrite lookup_replicate_2, Hz by done. done.
Qed.
End Slices.

Lemma slice_copy_holds_run :
  match @new_slice_copy Z (Some 0) bump_place 8 8 [1; 2; 3] (mkHeap ∅ []) with
  | (Ok b, h') => @slice_get Z b 1 h' = (Ok 2, h')
  | _ => False
  end.
Proof.
  pose proof (@slice_copy_holds Z (Some 0) bump_place 8 8 _ [1; 2; 3] (mkHeap ∅ []) ltac:(lia) ltac:(done)) as H.
  destruct (@new_slice_copy Z (Some 0) bump_place 8 8 [1; 2; 3] (mkHeap ∅ [])) as [[b|e| | |] h'] eqn:E; try done.
  apply (proj1 (proj2 (proj2 (proj2 H)))).
Qed.
