(* ===== verification/Pointers.v ===== *)
(** * Pointers to the inside of objects (sync/arc.rs, workqueue.rs, lib.rs)

    An [Arc] leaves Rust as a pointer to its data ([Arc::into_raw]); a work item goes to the
    kernel as a pointer to the [work_struct] inside that data.  Both ways back subtract an
    offset: [container_of!] one that the compiler knows, [ArcInner::container_of] one that
    it computes from the layout of the value behind the pointer.  Addresses are 64-bit. *)
From Stdlib Require Import ZArith Lia Bool.
From stdpp Require Import base list option numbers.
From S2P Require Import Prelude Errors KVec.

(** ** Layouts *)
Record Layout : Type := mkLayout { ly_size : Z; ly_align : Z }.

(** [Layout::size_rounded_up_to_custom_align]: [(size + (align - 1)) & !(align - 1)]. *)
Definition round_up (size align : Z) : Z := Z.land (wrap 64 (size + (align - 1))) (Z.lxor (align - 1) (2 ^ 64 - 1)).

(** [Layout::from_size_align] and [Layout::extend]: the layout of the pair and the offset of
    its second part. *)
Definition from_size_align (size align : Z) : option Layout :=
  if size <=? 2 ^ 63 - align then Some (mkLayout size align) else None.
Definition layout_extend (a b : Layout) : option (Layout * Z) :=
  let new_align := Z.max (ly_align a) (ly_align b) in
  let offset := round_up (ly_size a) (ly_align b) in
  match from_size_align (wrap 64 (offset + ly_size b)) new_align with Some l => Some (l, offset) | None => None end.

(** A layout of a Rust type. *)
Definition layout_wf (l : Layout) : Prop :=
  (exists k, 0 <= k <= 61 /\ ly_align l = 2 ^ k) /\ 0 <= ly_size l /\ ly_size l <= 2 ^ 63 - ly_align l.

(** [repr(C)]: a field lies at the next multiple of its alignment. *)
Definition field_offset (end_ align : Z) : Z := (end_ + align - 1) / align * align.

(** ** [Arc] *)

(** [Refcount] is one [AtomicI32]. *)
Definition refcount_layout : Layout := mkLayout 4 4.

(** [Arc::DATA_OFFSET]. *)
Definition DATA_OFFSET (val : Layout) : Z := field_offset (ly_size refcount_layout) (ly_align val).

Definition arc_into_raw (val : Layout) (inner : Z) : Z := wrap 64 (inner + DATA_OFFSET val).

(** [ArcInner::container_of] and [Arc::from_raw]; [unwrap_unchecked] of a failed [extend] is
    undefined. *)
Definition arc_container_of (val : Layout) (ptr : Z) : res unit Z :=
  match layout_extend refcount_layout val with
  | Some (_, val_offset) => Ok (wrap 64 (ptr - val_offset))
  | None => Ub
  end.
Definition arc_from_raw (val : Layout) (ptr : Z) : res unit Z := arc_container_of val ptr.

(** ** [HasWork] *)

(** [container_of!]. *)
Definition container_of (offset field_ptr : Z) : Z := wrap 64 (field_ptr - offset).

Class HasWork := { raw_get_work : Z -> Z; work_container_of : Z -> Z }.
(** The trait's safety condition. *)
Class HasWorkOk (H : HasWork) : Prop :=
  has_work_inverse p : 0 <= p < 2 ^ 64 -> work_container_of (raw_get_work p) = p.

(** [impl_has_work!] for a field at [offset]. *)
Definition impl_has_work (offset : Z) : HasWork := {|
  raw_get_work ptr := wrap 64 (ptr + offset);
  work_container_of ptr := container_of offset ptr |}.

(** [__enqueue] and [run] of [Arc<T>], on the addresses; [queue_work_on] answers whether it
    took the item.  A refused item is given back. *)
Section WorkItems.
Context {H : HasWork} (val : Layout).

Definition enqueue_ptr (queue_work_on : Z -> bool) (arc : Z) : res unit (option Z) :=
  let ptr := arc_into_raw val arc in
  let work_ptr := raw_get_work ptr in
  if queue_work_on work_ptr then Ok None
  else a <-? arc_from_raw val ptr ;; Ok (Some a).

Definition run_ptr (work_ptr : Z) : res unit Z := arc_from_raw val (work_container_of work_ptr).
End WorkItems.

(** ** Properties *)

Lemma wrap_sub_add w p k : 0 <= w -> 0 <= p < 2 ^ w -> wrap w (wrap w (p + k) - k) = p.
Proof.
  intros Hw Hp. unfold wrap. rewrite Zminus_mod_idemp_l. replace (p + k - k) with p by lia. by apply Z.mod_small.
Qed.

(** Rounding with the mask is rounding up to a multiple. *)
Lemma round_up_eq size k : 0 <= size -> 0 <= k <= 61 -> size + 2 ^ k <= 2 ^ 63 -> round_up size (2 ^ k) = field_offset size (2 ^ k).
Proof.
  intros Hs Hk Hb. assert (0 < 2 ^ k) by (apply Z.pow_pos_nonneg; lia). unfold round_up, field_offset.
  rewrite wrap_small by lia. replace (size + (2 ^ k - 1)) with (size + 2 ^ k - 1) by lia.
  set (n := size + 2 ^ k - 1). assert (0 <= n < 2 ^ 64) by lia.
  rewrite <- Z.shiftr_div_pow2, <- Z.shiftl_mul_pow2 by lia.
  apply Z.bits_inj'. intros i Hi. rewrite Z.land_spec, Z.lxor_spec, Z.shiftl_spec by lia.
  replace (2 ^ k - 1) with (Z.ones k) by (rewrite Z.ones_equiv; lia). change (2 ^ 64 - 1) with (Z.ones 64).
  rewrite !Z.testbit_ones_nonneg by lia. destruct (Z.ltb_spec i k).
  - rewrite (Z.testbit_neg_r (Z.shiftr n k)) by lia. destruct (Z.ltb_spec i 64); [|lia]. by rewrite andb_false_r.
  - rewrite Z.shiftr_spec by lia. replace (i - k + k) with i by lia. destruct (Z.ltb_spec i 64); [by rewrite andb_true_r|].
    rewrite andb_false_r. symmetry. apply Z.bits_above_log2; [lia|].
    destruct (decide (n = 0)) as [->|]; [cbn; lia|]. apply Z.log2_lt_pow2; [lia|].
    apply (Z.lt_le_trans _ (2 ^ 64)); [lia|]. apply Z.pow_le_mono_r; lia.
Qed.

Lemma align_bounds l : layout_wf l -> 1 <= ly_align l <= 2 ^ 61 /\ exists k, 0 <= k <= 61 /\ ly_align l = 2 ^ k.
Proof.
  intros [(k & Hk & ->) _]. split; [|by exists k]. split; [|by apply Z.pow_le_mono_r; lia].
  assert (0 < 2 ^ k) by (apply Z.pow_pos_nonneg; lia). lia.
Qed.

(** [container_of] computes the offset of the field. *)
Lemma extend_offset val : layout_wf val ->
  DATA_OFFSET val + ly_size val <= 2 ^ 63 - Z.max 4 (ly_align val) ->
  exists l, layout_extend refcount_layout val = Some (l, DATA_OFFSET val).
Proof.
  intros Hv Hfit. destruct (align_bounds val Hv) as (Ha & k & Hk & Hak). pose proof Hv as (_ & Hs & _).
  unfold layout_extend. cbn [ly_size ly_align refcount_layout].
  rewrite Hak, round_up_eq, <- Hak by lia. fold (DATA_OFFSET val). change (field_offset 4 (ly_align val)) with (DATA_OFFSET val).
  assert (0 <= DATA_OFFSET val) by (unfold DATA_OFFSET, field_offset; cbn; apply Z.mul_nonneg_nonneg; [apply Z.div_pos|]; lia).
  rewrite wrap_small by lia. unfold from_size_align. destruct (_ <=? _) eqn:E; [|blia]. by eexists.
Qed.

#[global] Instance impl_has_work_ok offset : HasWorkOk (impl_has_work offset).
Proof. intros p Hp. cbn. by apply wrap_sub_add. Qed.

Lemma from_raw_into_raw val p : layout_wf val -> DATA_OFFSET val + ly_size val <= 2 ^ 63 - Z.max 4 (ly_align val) ->
  0 <= p < 2 ^ 64 -> arc_from_raw val (arc_into_raw val p) = Ok p.
Proof.
  intros Hv Hf Hp. unfold arc_from_raw, arc_container_of. destruct (extend_offset val Hv Hf) as [l ->]. unfold arc_into_raw.
  by rewrite wrap_sub_add.
Qed.

(** A work item comes back as the [Arc] that was queued, for every type of data and
    every position of its work field: the callback finds the same [ArcInner] from the
    [work_struct] pointer the kernel was given, a refused item is given back, and the data
    lies behind the count, aligned as its type needs when the allocation is. *)
Theorem work_pointer_roundtrip {H : HasWork} {HO : HasWorkOk H} val p :
  layout_wf val -> DATA_OFFSET val + ly_size val <= 2 ^ 63 - Z.max 4 (ly_align val) ->
  0 <= p -> p + DATA_OFFSET val + ly_size val < 2 ^ 64 ->
  run_ptr val (raw_get_work (arc_into_raw val p)) = Ok p /\
  (forall q, enqueue_ptr val q p = Ok (if q (raw_get_work (arc_into_raw val p)) then None else Some p)) /\
  p + 4 <= arc_into_raw val p /\ (p mod ly_align val = 0 -> arc_into_raw val p mod ly_align val = 0).
Proof.
  intros Hv Hf Hp Hend. destruct (align_bounds val Hv) as (Ha & _). pose proof Hv as (_ & Hs & _).
  assert (4 <= DATA_OFFSET val) as H4.
  { unfold DATA_OFFSET, field_offset. cbn [ly_size refcount_layout]. pose proof (Z_div_mod_eq_full (4 + ly_align val - 1) (ly_align val)).
    pose proof (Z.mod_pos_bound (4 + ly_align val - 1) (ly_align val) ltac:(lia)). lia. }
  assert (arc_into_raw val p = p + DATA_OFFSET val) as He by (unfold arc_into_raw; apply wrap_small; lia).
  split; [|split; [|split]].
  - unfold run_ptr. rewrite has_work_inverse by (rewrite He; lia). apply from_raw_into_raw; [done|done|lia].
  - intros q. unfold enqueue_ptr. destruct (q _); [done|]. by rewrite from_raw_into_raw by (done || lia).
  - lia.
  - intros Hm. rewrite He. unfold DATA_OFFSET, field_offset. by rewrite Z_mod_plus_full.
Qed.

(** A server with 48 bytes in front of its work field, and data aligned to 64 bytes. *)
Lemma work_pointer_roundtrip_witness :
  run_ptr (H := impl_has_work 48) (mkLayout 128 64) (raw_get_work (HasWork := impl_has_work 48) (arc_into_raw (mkLayout 128 64) 0xffff000012340000)) =
    Ok 0xffff000012340000 /\
  arc_into_raw (mkLayout 128 64) 0xffff000012340000 = 0xffff000012340040.
Proof.
  destruct (work_pointer_roundtrip (H := impl_has_work 48) (mkLayout 128 64) 0xffff000012340000) as [H _].
  - split; [exists 6; split; [lia|reflexivity]|]. cbn. lia.
  - vm_compute. discriminate.
  - lia.
  - vm_compute. reflexivity.
  - split; [exact H|reflexivity].
Defined.
