(* ===== verification/Registry.v ===== *)
(** * Registrations and modules (rko-core/src/fs/registration.rs, alloc/memcache.rs,
      module.rs, miscdevice.rs and [module_fs!] of fs/mod.rs)

    What a module does when it is loaded and unloaded: it creates slab caches, registers
    filesystems and character devices, keeps what it registered in a box, and gives all of
    it back.  The kernel's registries are the interface [RegKernel], which shows which
    caches, filesystems and devices exist; [RegKernelOk] is what the functions document. *)
From Stdlib Require Import ZArith Lia Bool.
From Stdlib.Strings Require Import Byte.
From stdpp Require Import base list option numbers gmap sets.
From S2P Require Import Prelude Errors KVec Boxes.

Class RegKernel := {
  rk : Type;
  slabs : rk -> gset Z;
  fs_types : rk -> gset Z;
  misc_devs : rk -> gset Z;
  kmem_cache_create : Z -> Z -> rk -> Z * rk;
  kmem_cache_destroy : Z -> rk -> rk;
  register_filesystem : Z -> rk -> Z * rk;
  unregister_filesystem : Z -> rk -> rk;
  misc_register : Z -> rk -> Z * rk;
  misc_deregister : Z -> rk -> rk
}.

(** The three registries agree. *)
Definition same_rk `{RegKernel} (s f m : gset Z) (k : rk) : Prop := slabs k = s /\ fs_types k = f /\ misc_devs k = m.

(** A new cache is not one in use, null is failure; registering returns zero or a negative
    errno; taking something out of a registry takes out exactly that. *)
Class RegKernelOk (RK : RegKernel) : Prop := {
  cache_create_spec size align k c k' : kmem_cache_create size align k = (c, k') ->
    (c = 0 /\ same_rk (slabs k) (fs_types k) (misc_devs k) k') \/
    (c <> 0 /\ c ∉ slabs k /\ same_rk ({[ c ]} ∪ slabs k) (fs_types k) (misc_devs k) k');
  cache_destroy_spec c k : same_rk (slabs k ∖ {[ c ]}) (fs_types k) (misc_devs k) (kmem_cache_destroy c k);
  register_fs_spec p k r k' : register_filesystem p k = (r, k') ->
    (r = 0 /\ p ∉ fs_types k /\ same_rk (slabs k) ({[ p ]} ∪ fs_types k) (misc_devs k) k') \/
    (-4096 < r < 0 /\ same_rk (slabs k) (fs_types k) (misc_devs k) k');
  unregister_fs_spec p k : same_rk (slabs k) (fs_types k ∖ {[ p ]}) (misc_devs k) (unregister_filesystem p k);
  misc_register_spec p k r k' : misc_register p k = (r, k') ->
    (r = 0 /\ p ∉ misc_devs k /\ same_rk (slabs k) (fs_types k) ({[ p ]} ∪ misc_devs k) k') \/
    (-4096 < r < 0 /\ same_rk (slabs k) (fs_types k) (misc_devs k) k');
  misc_deregister_spec p k : same_rk (slabs k) (fs_types k) (misc_devs k ∖ {[ p ]}) (misc_deregister p k)
}.

(** The sizes [Registration::new_for] asks the compiler for: of [T::INodeData], and size and
    alignment of [INodeWithData<T::INodeData>]. *)
Class FsSizes := { inode_data_size : Z; with_data_size : Z; with_data_align : Z }.

(** ** Slab caches *)
Record MemCache : Type := mkMC { mc_cache : Z }.

(** ** Filesystem registrations: [init_fs_context] is set late, the cache is absent for
    zero-sized inode data. *)
Record Registration : Type := mkReg { rg_init_ctx : bool; rg_cache : option MemCache; rg_registered : bool }.

(** A module: its static storage (uninitialised before a successful load), the log
    prefix, and what it works on. *)
Record ModState (T St : Type) : Type := mkMod { ms_mod : option T; ms_prefix : list byte; ms_st : St }.
Arguments mkMod {T St}.
Arguments ms_mod {T St}.
Arguments ms_prefix {T St}.
Arguments ms_st {T St}.

Section Ops.
Context `{KE : KernelErrno, RK : RegKernel, FS : FsSizes}.

(** A kernel call that returns a value. *)
Definition rk_call {A} (f : rk -> A * rk) : M rk Error A := fun k => let '(a, k') := f k in (Ok a, k').
Definition rk_call_ (f : rk -> rk) : M rk Error unit := fun k => (Ok tt, f k).

(** [MemCache::try_new_with_ctor]; the constructor only matters to the kernel. *)
Definition memcache_try_new (size align : Z) : M rk Error MemCache :=
  cache <-! rk_call (kmem_cache_create (wrap 32 size) (wrap 32 align)) ;;
  if cache =? 0 then m_err ENOMEM else m_ret (mkMC cache).

Definition memcache_drop (c : MemCache) : M rk Error unit := rk_call_ (kmem_cache_destroy (mc_cache c)).

(** [Registration::new_for]. *)
Definition new_for : M rk Error Registration :=
  inode_cache <-! (if negb (inode_data_size =? 0)
                   then c <-! memcache_try_new with_data_size with_data_align ;; m_ret (Some c)
                   else m_ret None) ;;
  m_ret (mkReg false inode_cache false).

(** [Registration::inode_cache]. *)
Definition inode_cache (r : Registration) : Z := match rg_cache r with Some c => mc_cache c | None => 0 end.

Abbreviation RM := (M (rk * Heap Registration) Error).

(** [Drop for Registration], then its fields. *)
Definition registration_drop (slot : Z) : RM unit :=
  reg <-! on_snd (box_load slot) ;;
  _ <-! (if rg_registered reg then on_fst (rk_call_ (unregister_filesystem slot)) else m_ret tt) ;;
  match rg_cache reg with Some c => on_fst (memcache_drop c) | None => m_ret tt end.

(** [Registration::register]; [fs_type] is at offset zero. *)
Definition reg_register (slot : Z) : RM unit :=
  reg <-! on_snd (box_load slot) ;;
  _ <-! on_snd (box_store slot (mkReg true (rg_cache reg) (rg_registered reg))) ;;
  ret <-! on_fst (rk_call (register_filesystem slot)) ;;
  if negb (ret =? 0) then m_err (Error_new ret)
  else on_snd (box_store slot (mkReg true (rg_cache reg) true)).

(** [Registration::pin_init]: a failed registration is dropped in place. *)
Definition reg_pin_init (slot : Z) : RM unit :=
  reg <-! on_fst new_for ;;
  _ <-! on_snd (box_store slot reg) ;;
  _ <-! on_snd (box_store slot (mkReg true (rg_cache reg) (rg_registered reg))) ;;
  ret <-! on_fst (rk_call (register_filesystem slot)) ;;
  if negb (ret =? 0) then
    _ <-! registration_drop slot ;;
    m_err (Error_new ret)
  else on_snd (box_store slot (mkReg true (rg_cache reg) true)).

(** [module_fs!]: [init], [exit] and the drop of the module's [Pin<KBox<Registration>>]. *)
Context {PL : Placement Registration} (reg_size : Z).

Definition fs_module_init : RM Z := box_pin_init (fun _ => ENOMEM) reg_size reg_pin_init.
Definition fs_module_exit (reg : Z) : RM unit := m_ret tt.
Definition fs_module_drop (reg : Z) : RM unit :=
  _ <-! registration_drop reg ;;
  on_snd (box_free reg).

(** [module!]: the entry points the kernel calls, for any module. *)
Section Module.
Context {T St : Type} (name : list byte) (init : M St Error T) (exit drop : T -> M St Error unit).

Definition init_module : M (ModState T St) Error Z := fun s =>
  match init (ms_st s) with
  | (Ok m, st) => (Ok 0, mkMod (Some m) name st)
  | (Err e, st) => (Ok (to_errno e), mkMod (ms_mod s) name st)
  | (Panic, st) => (Panic, mkMod (ms_mod s) name st)
  | (Ub, st) => (Ub, mkMod (ms_mod s) name st)
  | (Pending, st) => (Pending, mkMod (ms_mod s) name st)
  end.

(** [assume_init_ref] and [assume_init_drop] of storage that was never written are
    undefined. *)
Definition cleanup_module : M (ModState T St) Error unit := fun s =>
  match ms_mod s with
  | None => (Ub, s)
  | Some m => let '(r, st) := (_ <-! exit m ;; drop m) (ms_st s) in (r, mkMod None (ms_prefix s) st)
  end.

(** The [init: pin] variant keeps an [Option] of a box: what was never loaded is not dropped. *)
Definition pin_init_module : M (ModState T St) Error Z := fun s =>
  match init (ms_st s) with
  | (Ok b, st) => (Ok 0, mkMod (Some b) name st)
  | (Err e, st) => (Ok (to_errno e), mkMod (ms_mod s) name st)
  | (Panic, st) => (Panic, mkMod (ms_mod s) name st)
  | (Ub, st) => (Ub, mkMod (ms_mod s) name st)
  | (Pending, st) => (Pending, mkMod (ms_mod s) name st)
  end.
Definition pin_cleanup_module : M (ModState T St) Error unit := fun s =>
  match ms_mod s with
  | None => (Ok tt, s)
  | Some m => let '(r, st) := (_ <-! exit m ;; drop m) (ms_st s) in (r, mkMod None (ms_prefix s) st)
  end.
End Module.

Definition fs_init_module (name : list byte) := init_module name fs_module_init.
Definition fs_cleanup_module := cleanup_module fs_module_exit fs_module_drop.
End Ops.

(** The two variants differ only in unloading a module whose load failed: undefined in the
    one, nothing in the other. *)
Lemma pin_module_agrees `{KE : KernelErrno} {T St} name (init : M St Error T) exit drop (s : ModState T St) :
  let '(r, s') := init_module name init s in
  pin_init_module name init s = (r, s') /\
  match ms_mod s' with
  | Some _ => pin_cleanup_module exit drop s' = cleanup_module exit drop s'
  | None => pin_cleanup_module exit drop s' = (Ok tt, s') /\ cleanup_module exit drop s' = (Ub, s')
  end.
Proof.
  unfold init_module, pin_init_module, pin_cleanup_module, cleanup_module. destruct (init (ms_st s)) as [[] st]; cbn [ms_mod];
    (split; [done|]); try done; by destruct (ms_mod s).
Qed.

(** ** Loading and unloading *)
Section Proofs.
Context `{KE : KernelErrno, RK : RegKernel, FS : FsSizes} {RO : RegKernelOk RK}.
Context {PL : Placement Registration} {PO : PlacementOk Registration PL} (reg_size : Z).
Hypothesis reg_sized : 0 < reg_size.

Implicit Types k : rk.

(** The registries of [k'] are those of [k]. *)
Definition rk_eq k k' : Prop := same_rk (slabs k) (fs_types k) (misc_devs k) k'.

(** The registries of [k'] are those of [k] and the cache [c]. *)
Definition with_cache (c : option MemCache) k k' : Prop :=
  match c with
  | None => rk_eq k k'
  | Some m => mc_cache m ∉ slabs k /\ same_rk ({[ mc_cache m ]} ∪ slabs k) (fs_types k) (misc_devs k) k'
  end.

Lemma new_for_cases k :
  (exists c k', new_for k = (Ok (mkReg false c false), k') /\ with_cache c k k') \/
  (exists k', new_for k = (Err ENOMEM, k') /\ rk_eq k k').
Proof.
  unfold new_for, memcache_try_new, m_bind, rk_call. destruct (inode_data_size =? 0); cbn [negb].
  { left. by exists None, k. }
  destruct (kmem_cache_create _ _ k) as [c k'] eqn:E. destruct (cache_create_spec _ _ _ _ _ E) as [[-> H]|(Hc & Hn & H)].
  - right. by exists k'.
  - left. destruct (c =? 0) eqn:E0; [blia|]. exists (Some (mkMC c)), k'. done.
Qed.

(** Dropping a registration that is on the heap gives back what it holds. *)
Lemma registration_drop_eq slot k h reg : cells h !! slot = Some (Some reg) ->
  registration_drop slot (k, h) =
    (Ok tt, (let k1 := if rg_registered reg then unregister_filesystem slot k else k in
             match rg_cache reg with Some c => kmem_cache_destroy (mc_cache c) k1 | None => k1 end, h)).
Proof.
  intros Hh. unfold registration_drop, m_bind, on_snd, on_fst, rk_call_, memcache_drop, m_ret.
  rewrite (box_load_ok _ _ _ Hh). destruct (rg_registered reg), (rg_cache reg); reflexivity.
Qed.

Lemma with_cache_eq c k k1 k2 : with_cache c k k1 -> rk_eq k1 k2 -> with_cache c k k2.
Proof.
  intros Hc (E1 & E2 & E3). destruct c; [destruct Hc as (? & C1 & C2 & C3); split; [done|]|destruct Hc as (C1 & C2 & C3)];
    split_and!; congruence.
Qed.

Lemma drop_cache c k k' : with_cache c k k' ->
  rk_eq k (match c with Some m => kmem_cache_destroy (mc_cache m) k' | None => k' end).
Proof.
  destruct c as [m|]; [|done]. intros (Hn & H1 & H2 & H3). cbn.
  destruct (cache_destroy_spec (mc_cache m) k') as (D1 & D2 & D3). rewrite H1, H2, H3 in *.
  split; [|done]. rewrite D1. set_solver.
Qed.

(** The initialiser, once the cache exists and the kernel has answered. *)
Lemma reg_pin_init_eq slot k h c k1 r k2 :
  new_for k = (Ok (mkReg false c false), k1) -> register_filesystem slot k1 = (r, k2) ->
  let live r := mkHeap (<[slot := Some r]> (cells h)) (destroyed h) in
  reg_pin_init slot (k, h) =
    if negb (r =? 0) then (_ <-! registration_drop slot ;; m_err (Error_new r)) (k2, live (mkReg true c false))
    else (Ok tt, (k2, live (mkReg true c true))).
Proof.
  intros Hn Er live. unfold reg_pin_init. unfold m_bind at 1, on_fst at 1. rewrite Hn.
  unfold m_bind at 1, on_snd at 1, box_store at 1. unfold m_bind at 1, on_snd at 1, box_store at 1.
  cbn [cells destroyed rg_cache rg_registered]. rewrite insert_insert_eq.
  unfold m_bind at 1, on_fst at 1, rk_call. rewrite Er. destruct (r =? 0); cbn [negb]; [|done].
  unfold on_snd, box_store. cbn [cells destroyed]. by rewrite insert_insert_eq.
Qed.

(** What the initialiser does to a slot. *)
Lemma reg_pin_init_cases slot k h : cells h !! slot = Some None ->
  let live r := mkHeap (<[slot := Some r]> (cells h)) (destroyed h) in
  (exists c k1 k', reg_pin_init slot (k, h) = (Ok tt, (k', live (mkReg true c true))) /\ with_cache c k k1 /\
     slot ∉ fs_types k /\ same_rk (slabs k1) ({[ slot ]} ∪ fs_types k1) (misc_devs k1) k') \/
  (exists k', reg_pin_init slot (k, h) = (Err ENOMEM, (k', h)) /\ rk_eq k k') \/
  (exists k1 k2 r k' h', register_filesystem slot k1 = (r, k2) /\ r < 0 /\
     reg_pin_init slot (k, h) = (Err (Error_new r), (k', h')) /\ is_Some (cells h' !! slot) /\ rk_eq k k').
Proof.
  intros Hs live. destruct (new_for_cases k) as [(c & k1 & Hn & Hc)|(k1 & Hn & Hc)].
  2: { right; left. exists k1. unfold reg_pin_init, m_bind at 1, on_fst. by rewrite Hn. }
  destruct (register_filesystem slot k1) as [r k2] eqn:Er. rewrite (reg_pin_init_eq slot k h c k1 r k2 Hn Er).
  destruct (register_fs_spec _ _ _ _ Er) as [(-> & Hf & H)|(Hr & H)].
  - left. exists c, k1, k2. cbn [Z.eqb negb]. split; [done|]. split; [done|]. split; [|done].
    destruct c; [destruct Hc as (_ & _ & <- & _)|destruct Hc as (_ & <- & _)]; done.
  - right; right. destruct (r =? 0) eqn:E0; [blia|]. cbn [negb]. unfold m_bind.
    rewrite (registration_drop_eq _ _ _ (mkReg true c false)) by apply lookup_insert_eq. cbn [rg_registered rg_cache].
    do 5 eexists. split; [exact Er|]. split; [lia|]. split; [reflexivity|]. split; [cbn; rewrite lookup_insert_eq; eauto|].
    apply drop_cache. by eapply with_cache_eq.
Qed.

Lemma box_free_live (h : Heap Registration) slot r : 16 < slot -> cells h !! slot = None ->
  @box_free _ Error slot (mkHeap (<[slot := Some r]> (cells h)) (destroyed h)) = (Ok tt, h).
Proof.
  intros Hp Hn. rewrite (box_free_ok _ _ (Some r)) by (done || apply lookup_insert_eq). cbn.
  rewrite delete_insert_id by done. by destruct h.
Qed.

(** C36. Loading a filesystem module and unloading it again leaves nothing behind.  A load
    that succeeds returns zero with the filesystem registered at the address of the
    module's registration, and unloading it then never fails and puts the registries and
    the heap back as they were.  A load that fails leaves the registries as they were, too,
    and no module. *)
Theorem fs_module_lifecycle name prefix k h :
  exists r m', fs_init_module reg_size name (mkMod None prefix (k, h)) = (Ok r, m') /\
  match ms_mod m' with
  | Some reg => r = 0 /\ reg ∉ fs_types k /\ fs_types (ms_st m').1 = {[ reg ]} ∪ fs_types k /\
      exists k', fs_cleanup_module m' = (Ok tt, mkMod None name (k', h)) /\ rk_eq k k'
  | None => rk_eq k (ms_st m').1
  end.
Proof.
  unfold fs_init_module, init_module. cbn [ms_st ms_mod]. unfold fs_module_init, box_pin_init, m_bind at 1, on_snd at 1, m_map_err.
  destruct (box_alloc_cases reg_size h reg_sized) as [(slot & -> & Hp & Hn)| ->]; cbn [map_err].
  2: { do 2 eexists. split; [reflexivity|]. done. }
  unfold m_bind. set (h1 := mkHeap (<[slot := None]> (cells h)) (destroyed h)).
  assert (cells h1 !! slot = Some None) as H1 by apply lookup_insert_eq.
  destruct (reg_pin_init_cases slot k h1 H1)
    as [(c & k1 & k' & -> & Hc & Hf & Hk)|[(k' & -> & Hk)|(k1 & k2 & r & k' & h' & _ & _ & -> & _ & Hk)]];
    [|do 2 eexists; split; [reflexivity|done]..].
  cbn [m_ret]. do 2 eexists. split; [reflexivity|]. cbn [ms_mod ms_st fst]. split; [done|]. split; [done|].
  destruct Hk as (K1 & K2 & K3). split.
  { rewrite K2. destruct c; [destruct Hc as (_ & _ & -> & _)|destruct Hc as (_ & -> & _)]; done. }
  unfold h1. cbn [cells destroyed]. rewrite insert_insert_eq. unfold fs_cleanup_module, cleanup_module.
  cbn [ms_mod ms_st ms_prefix]. unfold m_bind, fs_module_exit, m_ret, fs_module_drop.
  unfold m_bind. rewrite (registration_drop_eq _ _ _ (mkReg true c true)) by apply lookup_insert_eq.
  unfold on_snd. rewrite box_free_live by done. eexists. split; [reflexivity|]. cbn [rg_registered rg_cache].
  apply drop_cache. destruct (unregister_fs_spec slot k') as (U1 & U2 & U3). rewrite K1, K2, K3 in *.
  destruct c; [destruct Hc as (? & C1 & C2 & C3)|destruct Hc as (C1 & C2 & C3)]; [split; [done|]|];
    (split; [congruence|]); (split; [|congruence]); rewrite U2, C2; set_solver.
Qed.

(** When the kernel refuses the filesystem, the error is stored with the wrong sign
    ([Error::new] of a negative errno): the module's entry point returns a positive number,
    which is no error to the loader, with its storage uninitialised and the registration's
    memory leaked, and unloading the module then drops uninitialised storage. *)
Theorem fs_module_failed_load name prefix k h slot c k1 k2 r :
  place h reg_size = Some slot -> new_for k = (Ok (mkReg false c false), k1) -> register_filesystem slot k1 = (r, k2) ->
  r < 0 ->
  exists m', fs_init_module reg_size name (mkMod None prefix (k, h)) = (Ok (- r), m') /\ 0 < - r /\
    fs_cleanup_module m' = (Ub, m') /\ cells h !! slot = None /\ is_Some (cells (ms_st m').2 !! slot).
Proof.
  intros Hp Hn Er Hr. destruct (place_fresh _ _ _ Hp) as [_ Hf].
  unfold fs_init_module, init_module. cbn [ms_st ms_mod].
  unfold fs_module_init, box_pin_init, m_bind at 1, on_snd at 1, m_map_err, box_alloc.
  destruct (reg_size =? 0) eqn:E0; [blia|]. rewrite Hp. cbn [map_err]. unfold m_bind at 1.
  rewrite (reg_pin_init_eq slot k _ c k1 r k2 Hn Er). destruct (r =? 0) eqn:Ez; [blia|]. cbn [negb]. unfold m_bind.
  rewrite (registration_drop_eq _ _ _ (mkReg true c false)) by apply lookup_insert_eq.
  destruct (register_fs_spec _ _ _ _ Er) as [(-> & _)|(Hr' & _)]; [lia|].
  eexists. split; [unfold m_err, Error_new, to_errno; cbn [errno]; rewrite sext_small by lia; reflexivity|].
  split; [lia|]. split; [done|]. split; [done|]. cbn. rewrite lookup_insert_eq. eauto.
Qed.
End Proofs.

(** ** Character devices *)
Record miscdevice : Type := mkMisc { md_minor : Z; md_name : Z; md_fops : Z }.

(** What a device implements: [open] gives per-file data, which crosses the border as a
    pointer ([ForeignOwnable]). *)
Class MiscDevice (St P : Type) := {
  md_open : Z -> M St Error P;
  md_release : P -> M St Error unit;
  has_uring_cmd : bool;
  md_uring_cmd : P -> Z -> Z -> M St Error Z;
  md_into_foreign : P -> Z;
  md_from_foreign : Z -> P
}.
(** The contract of [ForeignOwnable]. *)
Class MiscDeviceOk (St P : Type) (MD : MiscDevice St P) : Prop :=
  md_foreign p : md_from_foreign (md_into_foreign p) = p.

Section Misc.
Context `{KE : KernelErrno, RK : RegKernel} {PL : Placement miscdevice} (misc_size MISC_DYNAMIC_MINOR : Z).
Context `{MD : MiscDevice St P}.

Abbreviation RM := (M (rk * Heap miscdevice) Error).

(** [MiscDeviceRegistration::register]; the box is dropped when the kernel refuses. *)
Definition misc_reg_register (name vtable : Z) : RM Z :=
  inner <-! on_snd (m_map_err (fun _ => ENOMEM) (box_new misc_size (mkMisc MISC_DYNAMIC_MINOR name vtable))) ;;
  ret <-! on_fst (rk_call (misc_register inner)) ;;
  if ret <? 0 then
    _ <-! on_snd (m_map_err (fun _ => ENOMEM) (box_drop inner)) ;;
    m_err (from_errno ret)
  else m_ret inner.

(** [Drop for MiscDeviceRegistration], then its box. *)
Definition misc_reg_drop (inner : Z) : RM unit :=
  _ <-! on_fst (rk_call_ (misc_deregister inner)) ;;
  on_snd (m_map_err (fun _ => ENOMEM) (box_drop inner)).

(** The callbacks; the state is the file's [private_data] and the device's own.  The
    [MiscDeviceRegistration] that [open] is given is at the address in [private_data]. *)
Definition misc_open : M (Z * St) Error Z := fun '(private_data, st) =>
  match md_open private_data st with
  | (Ok ptr, st') => (Ok 0, (md_into_foreign ptr, st'))
  | (Err err, st') => (Ok (to_errno err), (private_data, st'))
  | (Panic, st') => (Panic, (private_data, st'))
  | (Ub, st') => (Ub, (private_data, st'))
  | (Pending, st') => (Pending, (private_data, st'))
  end.

Definition misc_release : M (Z * St) Error Z := fun '(private_data, st) =>
  let '(r, st') := md_release (md_from_foreign private_data) st in
  (_ <-? r ;; Ok 0, (private_data, st')).

Definition misc_uring_cmd (cmd issue_flags : Z) : M (Z * St) Error Z := fun '(private_data, st) =>
  let '(r, st') := md_uring_cmd (md_from_foreign private_data) cmd issue_flags st in (r, (private_data, st')).

(** [VTABLE]: open and release always, uring_cmd when implemented. *)
Definition misc_vtable : bool * bool * bool := (true, true, has_uring_cmd).

(** [as_raw] of a registration at address [a]: the pointer in its first and only field.  The
    memory at a [struct miscdevice] begins with its 32-bit minor number and padding. *)
Definition misc_as_raw_at (h : Heap miscdevice) (pad a : Z) : res Error Z :=
  match cells h !! a with
  | Some (Some d) => Ok (wrap 32 (md_minor d) + wrap 32 pad * 2 ^ 32)
  | _ => Ub
  end.
End Misc.

Section MiscProofs.
Context `{KE : KernelErrno, RK : RegKernel} {RO : RegKernelOk RK}.
Context {PL : Placement miscdevice} {PO : PlacementOk miscdevice PL} (misc_size minor : Z).
Hypothesis misc_sized : 0 < misc_size.

(** A device registration owns its entry in the kernel's table and its memory, and
    dropping it gives back both; a registration that fails gives back its memory and reports
    the kernel's errno. *)
Theorem misc_registration_balanced name vt k h :
  match misc_reg_register misc_size minor name vt (k, h) with
  | (Ok p, (k', h')) => p ∉ misc_devs k /\ misc_devs k' = {[ p ]} ∪ misc_devs k /\
      cells h' = <[p := Some (mkMisc minor name vt)]> (cells h) /\
      exists k'' h'', misc_reg_drop p (k', h') = (Ok tt, (k'', h'')) /\ misc_devs k'' = misc_devs k /\ cells h'' = cells h
  | (Err e, (k', h')) => (e = ENOMEM \/ to_errno e < 0) /\ misc_devs k' = misc_devs k /\ cells h' = cells h
  | _ => False
  end.
Proof.
  unfold misc_reg_register, m_bind at 1, on_snd at 1, m_map_err at 1. unfold box_new, m_bind at 1.
  destruct (box_alloc_cases misc_size h misc_sized) as [(p & -> & Hp & Hn)| ->]; [|cbn; by auto].
  unfold m_bind at 1, box_store, m_ret at 1. cbn [map_err cells destroyed]. rewrite insert_insert_eq.
  set (h1 := mkHeap _ _). assert (cells h1 !! p = Some (Some (mkMisc minor name vt))) as H1 by apply lookup_insert_eq.
  assert (box_drop p h1 = (Ok tt, mkHeap (cells h) (mkMisc minor name vt :: destroyed h))) as Hd.
  { rewrite (box_drop_ok _ _ _ Hp H1). cbn [cells h1 destroyed]. by rewrite delete_insert_id. }
  unfold m_bind at 1, on_fst, rk_call. destruct (misc_register p k) as [r k'] eqn:Er.
  destruct (misc_register_spec _ _ _ _ Er) as [(-> & Hf & H)|(Hr & H)]; [cbn [Z.ltb]|destruct (r <? 0) eqn:E0; [|blia]].
  - cbn. split; [done|]. split; [apply H|]. split; [done|].
    unfold misc_reg_drop, m_bind, on_fst, rk_call_, on_snd, m_map_err. rewrite Hd. do 2 eexists. split; [reflexivity|].
    split; [|done]. destruct (misc_deregister_spec p k') as (_ & _ & ->), H as (_ & _ & ->). set_solver.
  - unfold m_bind, on_snd, m_map_err. rewrite Hd. cbn [map_err m_err]. unfold from_errno. rewrite E0.
    split; [right; cbn; lia|]. split; [apply H|done].
Qed.

(** [release] is handed exactly what [open] returned; a failed [open] leaves the file's
    data as it was and returns its errno. *)
Theorem misc_open_release {St P : Type} {MD : MiscDevice St P} {MO : MiscDeviceOk St P MD} (pd : Z) (st : St) :
  match md_open pd st with
  | (Ok ptr, st') => exists pd', misc_open (pd, st) = (Ok 0, (pd', st')) /\
      misc_release (pd', st') = let '(r, st2) := md_release ptr st' in (_ <-? r ;; Ok 0, (pd', st2))
  | (Err e, st') => misc_open (pd, st) = (Ok (to_errno e), (pd, st'))
  | _ => True
  end.
Proof.
  unfold misc_open. destruct (md_open pd st) as [[ptr|e| | |] st']; try done.
  eexists. split; [reflexivity|]. unfold misc_release. by rewrite md_foreign.
Qed.

(** The kernel passes the [struct miscdevice] to [open], and the callback takes it for the
    [MiscDeviceRegistration], which only holds a pointer to it: what [as_raw] then returns is
    the minor number, not the device. *)
Theorem misc_open_wrong_type name vt k h p k' h' :
  0 <= minor < 2 ^ 32 -> 2 ^ 32 <= p -> misc_reg_register misc_size minor name vt (k, h) = (Ok p, (k', h')) ->
  misc_as_raw_at h' 0 p = Ok minor /\ minor <> p.
Proof.
  intros Hm Hp He. pose proof (misc_registration_balanced name vt k h) as H. rewrite He in H.
  destruct H as (_ & _ & Hc & _). unfold misc_as_raw_at. rewrite Hc, lookup_insert_eq. cbn [md_minor].
  rewrite (wrap_small 32 minor) by lia. change (wrap 32 0) with 0. split; [f_equal; lia|lia].
Qed.
End MiscProofs.

(** ** A concrete kernel

    Addresses are handed out upwards; [refuse] is what registering answers, zero to accept. *)
Definition fresh_above (s : gset Z) : Z := 1 + foldr Z.max 0 (elements s).

Lemma fresh_above_new s : fresh_above s ∉ s /\ 0 < fresh_above s.
Proof.
  pose proof (foldr_max_nonneg (elements s)). unfold fresh_above. split; [|lia].
  intros Hs. apply elem_of_elements, foldr_max_lt in Hs. lia.
Qed.

Definition toy_rk (refuse : Z) : RegKernel := {|
  rk := gset Z * gset Z * gset Z;
  slabs k := k.1.1;
  fs_types k := k.1.2;
  misc_devs k := k.2;
  kmem_cache_create _ _ k := (fresh_above k.1.1, ({[ fresh_above k.1.1 ]} ∪ k.1.1, k.1.2, k.2));
  kmem_cache_destroy c k := (k.1.1 ∖ {[ c ]}, k.1.2, k.2);
  register_filesystem p k :=
    if decide (p ∈ k.1.2) then (-16, k)
    else if refuse <? 0 then (refuse, k) else (0, (k.1.1, {[ p ]} ∪ k.1.2, k.2));
  unregister_filesystem p k := (k.1.1, k.1.2 ∖ {[ p ]}, k.2);
  misc_register p k :=
    if decide (p ∈ k.2) then (-16, k)
    else if refuse <? 0 then (refuse, k) else (0, (k.1.1, k.1.2, {[ p ]} ∪ k.2));
  misc_deregister p k := (k.1.1, k.1.2, k.2 ∖ {[ p ]}) |}.

Lemma toy_rk_ok refuse : -4096 < refuse -> RegKernelOk (toy_rk refuse).
Proof.
  intros Hr. split; intros; unfold same_rk; cbn [slabs fs_types misc_devs toy_rk] in *; try done.
  - match goal with H : kmem_cache_create _ _ _ = _ |- _ => cbn in H; injection H as <- <- end. right.
    destruct (fresh_above_new k.1.1). split_and!; [lia|done..].
  - match goal with H : register_filesystem _ _ = _ |- _ => cbn in H; revert H end.
    destruct (decide (p ∈ k.1.2)); [intros [= <- <-]; right; split; [lia|done]|].
    destruct (refuse <? 0) eqn:E; intros [= <- <-]; [right; split; [blia|done]|left; done].
  - match goal with H : misc_register _ _ = _ |- _ => cbn in H; revert H end.
    destruct (decide (p ∈ k.2)); [intros [= <- <-]; right; split; [lia|done]|].
    destruct (refuse <? 0) eqn:E; intros [= <- <-]; [right; split; [blia|done]|left; done].
Qed.

Definition rofs_sizes : FsSizes := {| inode_data_size := 16; with_data_size := 640; with_data_align := 8 |}.

Lemma fs_module_lifecycle_witness :
  let k0 : @rk (toy_rk 0) := (∅, ∅, ∅) in
  match @fs_init_module linux_errno (toy_rk 0) rofs_sizes bump_place 200 [] (mkMod None [] (k0, mkHeap ∅ [])) with
  | (Ok r, m') => r = 0 /\ exists k', @fs_cleanup_module (toy_rk 0) m' = (Ok tt, mkMod None [] (k', mkHeap ∅ [])) /\ k' = k0
  | _ => False
  end.
Proof.
  cbv zeta.
  destruct (@fs_module_lifecycle linux_errno (toy_rk 0) rofs_sizes (toy_rk_ok 0 eq_refl) bump_place _ 200 eq_refl [] []
    (∅, ∅, ∅) (mkHeap ∅ [])) as (r & m' & He & Hm). rewrite He.
  destruct (ms_mod m') as [reg|] eqn:Em.
  - destruct Hm as (Hr & _ & _ & [[k1 k2] k3] & Hc & (H1 & H2 & H3)). cbn in H1, H2, H3. subst. split; [done|]. by exists (∅, ∅, ∅).
  - exfalso. apply (f_equal (fun x => ms_mod x.2)) in He. cbn [snd] in He. rewrite Em in He. vm_compute in He. discriminate.
Defined.

(** The module is refused with [-EBUSY]: the load returns 16, and unloading is undefined. *)
Lemma fs_module_failed_load_run :
  match @fs_init_module linux_errno (toy_rk (-16)) rofs_sizes bump_place 200 [] (mkMod None [] ((∅, ∅, ∅), mkHeap ∅ [])) with
  | (Ok r, m') => r = 16 /\ (@fs_cleanup_module (toy_rk (-16)) m').1 = Ub
  | _ => False
  end.
Proof. vm_compute. split; reflexivity. Qed.
