(* ===== verification/Pool.v ===== *)
(** * Pools of concurrent agents

    What the concurrent components (Revocable, NoWaitLock, Oneshot, Executor)
    share.  A component's threads are a finite map from identifiers to local
    program counters; one [step] is one atomic access of the source (an atomic
    load, store or read-modify-write, or a non-atomic access of the protected
    data), so an execution is an interleaving of steps, given as the list of
    events that occurred.  [weigh f p] adds up a weight over the agents of a
    pool: guards held, references owned, drops still owed. *)
From Stdlib Require Import ZArith Lia Bool.
From stdpp Require Import base list option numbers gmap.
From S2P Require Import Prelude.

(** An execution: the state after a list of events, [None] when an event is not
    enabled. *)
Fixpoint exec {S E : Type} (step : S -> E -> option S) (s : S) (es : list E) : option S :=
  match es with
  | [] => Some s
  | e :: r => match step s e with Some s' => exec step s' r | None => None end
  end.

Definition weigh {A : Type} (f : A -> Z) (p : gmap nat A) : Z :=
  map_fold (fun _ a acc => f a + acc) 0 p.

Section Exec.
Context {S E : Type} (step : S -> E -> option S).

(** Invariants hold along executions. *)
Lemma exec_invariant (I : S -> Prop) :
  (forall s e s', I s -> step s e = Some s' -> I s') ->
  forall es s s', I s -> exec step s es = Some s' -> I s'.
Proof.
  intros Hstep es. induction es as [|e r IH]; intros s s' HI; cbn [exec].
  - intros [= <-]. exact HI.
  - destruct (step s e) as [s1|] eqn:Hs; [|discriminate]. intros Hr.
    exact (IH s1 s' (Hstep _ _ _ HI Hs) Hr).
Qed.

Lemma exec_app es fs s :
  exec step s (es ++ fs) = match exec step s es with Some s' => exec step s' fs | None => None end.
Proof.
  revert s. induction es as [|e r IH]; intros s; cbn [exec app]; [done|].
  destruct (step s e); [apply IH|done].
Qed.

Lemma exec_snoc es e s :
  exec step s (es ++ [e]) = match exec step s es with Some s' => step s' e | None => None end.
Proof. rewrite exec_app. destruct (exec step s es) as [s'|]; [|done]. cbn. by destruct (step s' e). Qed.

(** Each event adds at most one to a measure: the bound along an execution. *)
Lemma exec_measure (mu : S -> Z) :
  (forall s e s', step s e = Some s' -> mu s' <= mu s + 1) ->
  forall es s s', exec step s es = Some s' -> mu s' <= mu s + lenZ es.
Proof.
  intros Hm es. induction es as [|e r IH]; intros s s'; cbn [exec].
  - intros [= <-]. rewrite lenZ_nil. lia.
  - destruct (step s e) as [s1|] eqn:Hs; [|discriminate]. intros Hr.
    rewrite lenZ_cons. specialize (IH _ _ Hr). specialize (Hm _ _ _ Hs). lia.
Qed.
End Exec.

Section Weigh.
Context {A : Type} (f : A -> Z).

Lemma weigh_empty : weigh f ∅ = 0.
Proof. done. Qed.

Lemma weigh_delete p i a : p !! i = Some a -> weigh f p = f a + weigh f (delete i p).
Proof.
  intros Hi. unfold weigh. apply (map_fold_delete_L (fun _ a acc => f a + acc) 0 i a p); [|done].
  intros; lia.
Qed.

Lemma weigh_insert p i a : p !! i = None -> weigh f (<[i := a]> p) = f a + weigh f p.
Proof.
  intros Hi. rewrite (weigh_delete _ i a) by apply lookup_insert_eq.
  by rewrite delete_insert_eq, delete_id by done.
Qed.

Lemma weigh_update p i a b : p !! i = Some a -> weigh f (<[i := b]> p) = weigh f p - f a + f b.
Proof.
  intros Hi. rewrite <- insert_delete_eq, weigh_insert by apply lookup_delete_eq.
  rewrite (weigh_delete p i a Hi). lia.
Qed.

Hypothesis f_nonneg : forall a, 0 <= f a.

Lemma weigh_nonneg p : 0 <= weigh f p.
Proof.
  induction p as [|i a p Hi IH] using map_ind; [done|].
  rewrite weigh_insert by done. specialize (f_nonneg a). lia.
Qed.

(** A member's weight is part of the total. *)
Lemma weigh_member p i a : p !! i = Some a -> f a <= weigh f p.
Proof.
  intros Hi. rewrite (weigh_delete p i a Hi). pose proof (weigh_nonneg (delete i p)). lia.
Qed.

Lemma weigh_two p i j a b :
  p !! i = Some a -> p !! j = Some b -> i <> j -> f a + f b <= weigh f p.
Proof.
  intros Hi Hj Hne. rewrite (weigh_delete p i a Hi).
  assert (Hj' : delete i p !! j = Some b) by (rewrite lookup_delete_ne by done; exact Hj).
  pose proof (weigh_member _ _ _ Hj'). lia.
Qed.

Lemma weigh_zero p : (forall i a, p !! i = Some a -> f a = 0) -> weigh f p = 0.
Proof.
  induction p as [|i a p Hi IH] using map_ind; intros H; [done|].
  rewrite weigh_insert by done. rewrite (H i a) by apply lookup_insert_eq.
  rewrite IH; [done|]. intros j b Hj. apply (H j b). rewrite lookup_insert_ne; [done|congruence].
Qed.

(** A positive total has an agent behind it. *)
Lemma weigh_pos p : 0 < weigh f p -> exists i a, p !! i = Some a /\ 0 < f a.
Proof.
  induction p as [|i a p Hi IH] using map_ind; [rewrite weigh_empty; lia|].
  rewrite weigh_insert by done. intros Hp.
  destruct (decide (0 < f a)) as [Ha|Ha].
  - exists i, a. split; [apply lookup_insert_eq|done].
  - destruct IH as (j & b & Hj & Hb); [lia|].
    exists j, b. split; [|done]. rewrite lookup_insert_ne; [done|congruence].
Qed.
End Weigh.

(** Rewrites the weights of updated pools, given the lookups in the context. *)
Ltac weigh_step :=
  repeat match goal with
  | H : ?p !! ?i = Some ?a |- context [weigh ?f (<[?i := ?b]> ?p)] =>
      rewrite (weigh_update f p i a b H)
  | H : ?p !! ?i = None |- context [weigh ?f (<[?i := ?b]> ?p)] =>
      rewrite (weigh_insert f p i b H)
  | H : ?p !! ?i = Some ?a |- context [weigh ?f (delete ?i ?p)] =>
      replace (weigh f (delete i p)) with (weigh f p - f a)
        by (pose proof (weigh_delete f p i a H); lia)
  end.
