(* ===== verification/InodeCache.v ===== *)
(** * Per-inode data in the slab cache (rko-core/src/fs/vtable.rs: [alloc_inode_callback],
      [destroy_inode_callback]; fs/inode.rs: [container_of_mut], [NewINode])

    The VFS allocates an inode through the filesystem, the filesystem initialises it or
    gives it up ([NewINode::init], [iget_failed]), and the VFS destroys it later.  The VFS
    also destroys inodes that no filesystem code has seen: when [inode_init_always] fails,
    and when [iget_locked] finds that another thread has inserted the inode meanwhile.  The
    data in front of the inode is uninitialised until [init], and the callback takes every
    inode that is not bad to be initialised.  A run is any interleaving of these events for
    any number of inodes. *)
From Stdlib Require Import ZArith Lia Bool Permutation.
From stdpp Require Import base list option numbers gmap fin_maps.
From S2P Require Import Prelude Registry Pool.

(** Where an inode stands: just allocated, initialised, or marked bad. *)
Inductive istage : Type := Fresh | Inited | Bad.

#[global] Instance istage_eq_dec : EqDecision istage.
Proof. solve_decision. Defined.

Section Cache.
Context {D : Type}.

(** [ic_objs]: the live objects and the cache each is from; [ic_data]: the data cell of
    an object; [ic_bad]: the inodes marked bad; [ic_dropped]: the values whose destructor
    has run. *)
Record icache : Type := mkIc {
  ic_objs : gmap Z Z; ic_data : gmap Z (option D); ic_bad : gset Z; ic_dropped : list D }.

(** Where the slab allocator puts an object of the cache; [None] is null. *)
Class SlabPlace := slab_place : icache -> Z -> option Z.
Class SlabPlaceOk (SP : SlabPlace) : Prop :=
  slab_place_fresh s c p : slab_place s c = Some p -> 0 < p < 2 ^ 63 /\ ic_objs s !! p = None.

Context {SP : SlabPlace}.
(** The registration of the superblock's filesystem, found by [container_of] from
    [s_type], and the offset of [inode] in [INodeWithData]. *)
Context (reg : Registration) (inode_off : Z).

(** [container_of_mut]. *)
Definition container_of_mut (inode : Z) : Z := wrap 64 (inode - inode_off).

(** [alloc_inode_callback]: the inode's address, or null.  [alloc_inode_sb] is
    [kmem_cache_alloc] with the object uninitialised. *)
Definition alloc_inode_callback (s : icache) : Z * icache :=
  let cache := inode_cache reg in
  match slab_place s cache with
  | None => (0, s)
  | Some obj => (obj + inode_off, mkIc (<[obj := cache]> (ic_objs s)) (<[obj := None]> (ic_data s)) (ic_bad s) (ic_dropped s))
  end.

(** [kmem_cache_free] of an object that is not one of the cache is undefined. *)
Definition slab_free (cache obj : Z) : M icache unit unit := fun s =>
  if decide (ic_objs s !! obj = Some cache)
  then (Ok tt, mkIc (delete obj (ic_objs s)) (delete obj (ic_data s)) (ic_bad s) (ic_dropped s))
  else (Ub, s).

(** [drop_in_place] of the data; dropping an uninitialised value is undefined. *)
Definition drop_data (outer : Z) : M icache unit unit := fun s =>
  match ic_data s !! outer with
  | Some (Some d) => (Ok tt, mkIc (ic_objs s) (<[outer := None]> (ic_data s)) (ic_bad s) (ic_dropped s ++ [d]))
  | _ => (Ub, s)
  end.

Definition destroy_inode_callback (inode : Z) : M icache unit unit := fun s =>
  let is_bad := bool_decide (inode ∈ ic_bad s) in
  let cache := inode_cache reg in
  let outer := container_of_mut inode in
  (_ <-! (if negb is_bad then drop_data outer else m_ret tt) ;;
   slab_free cache outer) s.

(** The write of the data in [NewINode::init], and [iget_failed]. *)
Definition write_data (inode : Z) (d : D) (s : icache) : icache :=
  mkIc (ic_objs s) (<[container_of_mut inode := Some d]> (ic_data s)) (ic_bad s) (ic_dropped s).
Definition make_bad (inode : Z) (s : icache) : icache :=
  mkIc (ic_objs s) (ic_data s) ({[ inode ]} ∪ ic_bad s) (ic_dropped s).

(** The VFS: inodes by address with their stage; [v_written]: all data ever written. *)
Record ivfs : Type := mkIv { iv_cache : icache; iv_stage : gmap Z istage; iv_written : list D; iv_ub : bool }.

Inductive iv_event : Type := IvAlloc | IvInit (inode : Z) (d : D) | IvFail (inode : Z) | IvDestroy (inode : Z).

(** A new inode is initialised or given up at most once; the VFS destroys an inode in any
    stage.  A bad inode's address may be used again by a new one, which is not bad. *)
Definition iv_step (s : ivfs) (e : iv_event) : option ivfs :=
  match e with
  | IvAlloc =>
      let '(p, c) := alloc_inode_callback (iv_cache s) in
      if p =? 0 then Some (mkIv c (iv_stage s) (iv_written s) (iv_ub s))
      else Some (mkIv (mkIc (ic_objs c) (ic_data c) (ic_bad c ∖ {[ p ]}) (ic_dropped c)) (<[p := Fresh]> (iv_stage s))
                   (iv_written s) (iv_ub s))
  | IvInit p d =>
      match iv_stage s !! p with
      | Some Fresh => Some (mkIv (write_data p d (iv_cache s)) (<[p := Inited]> (iv_stage s)) (iv_written s ++ [d]) (iv_ub s))
      | _ => None
      end
  | IvFail p =>
      match iv_stage s !! p with
      | Some Fresh => Some (mkIv (make_bad p (iv_cache s)) (<[p := Bad]> (iv_stage s)) (iv_written s) (iv_ub s))
      | _ => None
      end
  | IvDestroy p =>
      match iv_stage s !! p with
      | Some _ =>
          match destroy_inode_callback p (iv_cache s) with
          | (Ok _, c) => Some (mkIv c (delete p (iv_stage s)) (iv_written s) (iv_ub s))
          | (_, c) => Some (mkIv c (delete p (iv_stage s)) (iv_written s) true)
          end
      | None => None
      end
  end.

Definition iv_new : ivfs := mkIv (mkIc ∅ ∅ ∅ []) ∅ [] false.

(** Somewhere in the run the VFS destroyed an inode that was neither initialised nor marked
    bad. *)
Definition fresh_destroyed (es : list iv_event) : Prop :=
  exists es1 p es2 s1, es = es1 ++ IvDestroy p :: es2 /\ exec iv_step iv_new es1 = Some s1 /\
    iv_stage s1 !! p = Some Fresh.
End Cache.
Arguments icache D : clear implicits.
Arguments ivfs D : clear implicits.
Arguments iv_event D : clear implicits.

Section Invariant.
Context {D : Type} {SP : SlabPlace} {SO : SlabPlaceOk (D := D) SP} (reg : Registration) (inode_off : Z).
Hypothesis off_range : 0 <= inode_off < 2 ^ 62.
Implicit Types s : ivfs D.

(** [lv] is the data of the inodes that are initialised and not yet destroyed. *)
Record iv_inv (lv : gmap Z D) s : Prop := {
  ii_ub : iv_ub s = false;
  ii_obj p : is_Some (iv_stage s !! p) <-> is_Some (ic_objs (iv_cache s) !! (p - inode_off));
  ii_range o c : ic_objs (iv_cache s) !! o = Some c -> 0 < o < 2 ^ 63 /\ c = inode_cache reg;
  ii_bad p st : iv_stage s !! p = Some st -> (p ∈ ic_bad (iv_cache s) <-> st = Bad);
  ii_live p d : lv !! p = Some d <-> iv_stage s !! p = Some Inited /\ ic_data (iv_cache s) !! (p - inode_off) = Some (Some d);
  ii_data p : iv_stage s !! p = Some Inited -> is_Some (lv !! p);
  ii_fresh p : iv_stage s !! p = Some Fresh -> ic_data (iv_cache s) !! (p - inode_off) = Some None;
  ii_perm : iv_written s ≡ₚ ic_dropped (iv_cache s) ++ (map_to_list lv).*2 }.

Lemma iv_new_inv : iv_inv ∅ iv_new.
Proof.
  split; cbn; try done.
  - intros p. rewrite !lookup_empty. split; intros [? ?]; done.
  - intros p d. rewrite !lookup_empty. split; [done|intros [? _]; done].
Qed.

Lemma container_eq s lv p st : iv_inv lv s -> iv_stage s !! p = Some st -> container_of_mut inode_off p = p - inode_off.
Proof.
  intros I Hp. destruct (proj1 (ii_obj _ _ I p) ltac:(eauto)) as [c Hc]. destruct (ii_range _ _ I _ _ Hc).
  unfold container_of_mut. apply wrap_small. lia.
Qed.

Lemma alloc_inv lv s s' : iv_inv lv s -> iv_step reg inode_off s IvAlloc = Some s' -> iv_inv lv s'.
Proof.
  intros I. cbn [iv_step]. unfold alloc_inode_callback.
  destruct (slab_place (iv_cache s) (inode_cache reg)) as [o|] eqn:Ep.
  2: { intros [= <-]. by destruct s, I. }
  destruct (slab_place_fresh _ _ _ Ep) as [Ho Hn]. destruct (o + inode_off =? 0) eqn:E0; [blia|]. intros [= <-].
  set (p0 := o + inode_off). assert (p0 - inode_off = o) as Hpo by (unfold p0; lia).
  assert (iv_stage s !! p0 = None) as Hs.
  { apply eq_None_not_Some. intros H. apply (ii_obj _ _ I) in H. rewrite Hpo, Hn in H. by destruct H. }
  assert (forall p, p <> p0 -> o <> p - inode_off) as Hne by (unfold p0; lia).
  destruct I as [I1 I2 I3 I4 I5 I6 I8 I7].
  split; cbn [iv_ub iv_stage iv_cache ic_objs ic_data ic_bad ic_dropped iv_written]; try done.
  - intros p. destruct (decide (p = p0)) as [->|Hp].
    + rewrite Hpo, !lookup_insert_eq. split; eauto.
    + rewrite !lookup_insert_ne by eauto. apply I2.
  - intros o' c. rewrite lookup_insert_Some. intros [[<- <-]|[_ H]]; [done|eauto].
  - intros p st. rewrite lookup_insert_Some. intros [[<- <-]|[Hp H]]; [set_solver|].
    rewrite <- (I4 p st H). set_solver.
  - intros p d. destruct (decide (p = p0)) as [->|Hp].
    + rewrite Hpo, !lookup_insert_eq. split; [|by intros [[=] _]]. intros H. apply I5 in H as [H _]. congruence.
    + rewrite !lookup_insert_ne by eauto. apply I5.
  - intros p. rewrite lookup_insert_Some. intros [[_ [=]]|[_ H]]. eauto.
  - intros p. destruct (decide (p = p0)) as [->|Hp]; [by rewrite Hpo, !lookup_insert_eq|].
    rewrite !lookup_insert_ne by eauto. apply I8.
Qed.

Lemma init_inv lv s p d : iv_inv lv s -> iv_stage s !! p = Some Fresh ->
  iv_inv (<[p := d]> lv) (mkIv (write_data inode_off p d (iv_cache s)) (<[p := Inited]> (iv_stage s)) (iv_written s ++ [d]) (iv_ub s)).
Proof.
  intros I Hp. unfold write_data. rewrite (container_eq s lv p _ I Hp).
  assert (lv !! p = None) as Hl by (destruct (lv !! p) as [x|] eqn:E; [apply (ii_live _ _ I) in E as [E _]; congruence|done]).
  destruct I as [I1 I2 I3 I4 I5 I6 I8 I7]. split; cbn [iv_ub iv_stage iv_cache ic_objs ic_data ic_bad ic_dropped iv_written]; try done.
  - intros q. rewrite <- (I2 q). destruct (decide (q = p)) as [->|Hq]; [rewrite lookup_insert_eq, Hp; split; eauto|].
    by rewrite lookup_insert_ne by done.
  - intros q st. rewrite lookup_insert_Some. intros [[<- <-]|[_ H]]; [|eauto]. by rewrite (I4 p Fresh Hp).
  - intros q x. destruct (decide (q = p)) as [->|Hq].
    + rewrite !lookup_insert_eq. split; [by intros [= ->]|by intros [_ [= ->]]].
    + rewrite !lookup_insert_ne by (done || lia). apply I5.
  - intros q. rewrite lookup_insert_Some. intros [[<- _]|[Hq H]]; [rewrite lookup_insert_eq; eauto|].
    rewrite lookup_insert_ne by done. eauto.
  - intros q. rewrite lookup_insert_Some. intros [[_ [=]]|[Hq H]]. rewrite lookup_insert_ne by lia. eauto.
  - rewrite map_to_list_insert by done. cbn. rewrite I7, <- app_assoc. apply Permutation_app_head.
    by rewrite Permutation_app_comm.
Qed.

Lemma fail_inv lv s p : iv_inv lv s -> iv_stage s !! p = Some Fresh ->
  iv_inv lv (mkIv (make_bad p (iv_cache s)) (<[p := Bad]> (iv_stage s)) (iv_written s) (iv_ub s)).
Proof.
  intros [I1 I2 I3 I4 I5 I6 I8 I7] Hp. split; cbn [iv_ub iv_stage iv_cache ic_objs ic_data ic_bad ic_dropped iv_written make_bad]; try done.
  - intros q. rewrite <- (I2 q). destruct (decide (q = p)) as [->|Hq]; [rewrite lookup_insert_eq, Hp; split; eauto|].
    by rewrite lookup_insert_ne by done.
  - intros q st. rewrite lookup_insert_Some. intros [[<- <-]|[Hq H]]; [set_solver|]. rewrite <- (I4 q st H). set_solver.
  - intros q x. rewrite I5. destruct (decide (q = p)) as [->|Hq]; [rewrite lookup_insert_eq, Hp; naive_solver|].
    by rewrite lookup_insert_ne by done.
  - intros q. rewrite lookup_insert_Some. intros [[_ [=]]|[_ H]]. eauto.
  - intros q. rewrite lookup_insert_Some. intros [[_ [=]]|[_ H]]. eauto.
Qed.

(** The callback on an inode of the pool; [o] is the value it drops. *)
Lemma destroy_eq lv s p st : iv_inv lv s -> iv_stage s !! p = Some st -> (st = Inited \/ st = Bad) ->
  exists data, destroy_inode_callback reg inode_off p (iv_cache s) =
    (Ok tt, mkIc (delete (p - inode_off) (ic_objs (iv_cache s))) data (ic_bad (iv_cache s))
              (ic_dropped (iv_cache s) ++ option_list (lv !! p))) /\
    forall o, o <> p - inode_off -> data !! o = ic_data (iv_cache s) !! o.
Proof.
  intros I Hp Hst. destruct (proj1 (ii_obj _ _ I p) ltac:(eauto)) as [c Hc].
  destruct (ii_range _ _ I _ _ Hc) as [_ ->]. unfold destroy_inode_callback. rewrite (container_eq s lv p st I Hp).
  pose proof (ii_bad _ _ I _ _ Hp) as Hb. destruct Hst as [-> | ->].
  - rewrite bool_decide_eq_false_2 by (intros H; by apply Hb in H). cbn [negb].
    destruct (ii_data _ _ I p Hp) as [d Hd]. pose proof Hd as [_ Hx]%(ii_live _ _ I).
    unfold m_bind, drop_data, slab_free. rewrite Hx. cbn [ic_objs ic_data ic_bad ic_dropped]. rewrite decide_True by done.
    rewrite Hd. eexists. split; [reflexivity|]. intros o Ho. by rewrite lookup_delete_ne, lookup_insert_ne by done.
  - rewrite bool_decide_eq_true_2 by (by apply Hb). cbn [negb]. unfold m_bind, m_ret, slab_free. rewrite decide_True by done.
    assert (lv !! p = None) as ->.
    { destruct (lv !! p) as [x|] eqn:E; [apply (ii_live _ _ I) in E as [E _]; congruence|done]. }
    cbn [option_list]. rewrite app_nil_r. eexists. split; [reflexivity|]. intros o Ho. by rewrite lookup_delete_ne.
Qed.

Lemma destroy_inv lv s p st s' : iv_inv lv s -> iv_stage s !! p = Some st -> (st = Inited \/ st = Bad) ->
  iv_step reg inode_off s (IvDestroy p) = Some s' -> iv_inv (delete p lv) s'.
Proof.
  intros I Hp Hst. destruct (destroy_eq lv s p st I Hp Hst) as (data & Hd & Hdata). cbn [iv_step]. rewrite Hp, Hd.
  assert (iv_inv (delete p lv) (mkIv (mkIc (delete (p - inode_off) (ic_objs (iv_cache s))) data (ic_bad (iv_cache s))
    (ic_dropped (iv_cache s) ++ option_list (lv !! p))) (delete p (iv_stage s)) (iv_written s) (iv_ub s))) as I';
    [|by intros [= <-]].
  destruct I as [I1 I2 I3 I4 I5 I6 I8 I7]. split; cbn [iv_ub iv_stage iv_cache ic_objs ic_data ic_bad ic_dropped iv_written]; try done.
  - intros q. destruct (decide (q = p)) as [->|Hq]; [rewrite !lookup_delete_eq; split; intros [? ?]; done|].
    rewrite !lookup_delete_ne by (done || lia). apply I2.
  - intros o c [_ H]%lookup_delete_Some. eauto.
  - intros q st' [_ H]%lookup_delete_Some. eauto.
  - intros q d. destruct (decide (q = p)) as [->|Hq]; [rewrite !lookup_delete_eq; split; [done|by intros [? _]]|].
    rewrite !lookup_delete_ne, Hdata by (done || lia). apply I5.
  - intros q [Hq H]%lookup_delete_Some. rewrite lookup_delete_ne by done. eauto.
  - intros q [Hq H]%lookup_delete_Some. rewrite Hdata by lia. eauto.
  - rewrite I7, <- app_assoc. apply Permutation_app_head. destruct (lv !! p) as [d|] eqn:E; cbn.
    + by rewrite <- (map_to_list_delete lv p d E).
    + by rewrite delete_id.
Qed.

(** The callback on an inode that was never initialised drops data that is not there. *)
Lemma destroy_fresh lv s p : iv_inv lv s -> iv_stage s !! p = Some Fresh ->
  destroy_inode_callback reg inode_off p (iv_cache s) = (Ub, iv_cache s).
Proof.
  intros I Hp. unfold destroy_inode_callback. rewrite (container_eq s lv p _ I Hp).
  rewrite bool_decide_eq_false_2 by (by rewrite (ii_bad _ _ I _ _ Hp)). cbn [negb].
  unfold m_bind, drop_data. by rewrite (ii_fresh _ _ I p Hp).
Qed.

(** A step keeps the invariant, or it destroys a fresh inode and the behaviour is undefined. *)
Lemma iv_step_inv lv s e s' : iv_inv lv s -> iv_step reg inode_off s e = Some s' ->
  ((exists lv', iv_inv lv' s') /\ ~ exists p, e = IvDestroy p /\ iv_stage s !! p = Some Fresh) \/
  (iv_ub s' = true /\ exists p, e = IvDestroy p /\ iv_stage s !! p = Some Fresh).
Proof.
  intros I Hs. destruct e as [|p d|p|p].
  - left. split; [exists lv; by eapply alloc_inv|naive_solver].
  - left. split; [|naive_solver]. cbn [iv_step] in Hs. destruct (iv_stage s !! p) as [[]|] eqn:Hp; try done.
    injection Hs as <-. eexists. by apply init_inv.
  - left. split; [|naive_solver]. cbn [iv_step] in Hs. destruct (iv_stage s !! p) as [[]|] eqn:Hp; try done.
    injection Hs as <-. eexists. by apply fail_inv.
  - destruct (iv_stage s !! p) as [st|] eqn:Hp; [|cbn [iv_step] in Hs; by rewrite Hp in Hs].
    destruct (decide (st = Fresh)) as [->|Hne].
    + right. split; [|by exists p]. cbn [iv_step] in Hs. rewrite Hp, (destroy_fresh lv s p I Hp) in Hs.
      by injection Hs as <-.
    + left. split; [|intros (q & [= <-] & H); congruence].
      exists (delete p lv). apply (destroy_inv lv s p st); try done. destruct st; auto; done.
Qed.

Lemma iv_ub_stays s e s' : iv_step reg inode_off s e = Some s' -> iv_ub s = true -> iv_ub s' = true.
Proof.
  intros Hs Hu. destruct e as [|p d|p|p]; cbn [iv_step] in Hs.
  - destruct (alloc_inode_callback _ _ _) as [q c]. destruct (q =? 0); by injection Hs as <-.
  - destruct (iv_stage s !! p) as [[]|]; try done. by injection Hs as <-.
  - destruct (iv_stage s !! p) as [[]|]; try done. by injection Hs as <-.
  - destruct (iv_stage s !! p) as [st|]; [|done].
    destruct (destroy_inode_callback _ _ _ _) as [[] c]; by injection Hs as <-.
Qed.

Lemma fresh_destroyed_snoc es e s : exec (iv_step reg inode_off) iv_new es = Some s ->
  (fresh_destroyed reg inode_off (es ++ [e]) <->
   fresh_destroyed reg inode_off es \/ exists p, e = IvDestroy p /\ iv_stage s !! p = Some Fresh).
Proof.
  intros He. split.
  - intros (es1 & p & es2 & s1 & Heq & H1 & H2). destruct es2 as [|e2 es2 _] using rev_ind.
    + apply app_inj_tail in Heq as [-> ->]. right. exists p. split; [done|]. congruence.
    + rewrite app_comm_cons, app_assoc in Heq. apply app_inj_tail in Heq as [-> ->].
      left. by exists es1, p, es2, s1.
  - intros [(es1 & p & es2 & s1 & -> & H1 & H2)|(p & -> & H)].
    + exists es1, p, (es2 ++ [e]), s1. by rewrite <- app_assoc.
    + by exists es, p, [], s.
Qed.

Lemma iv_run_inv es s : exec (iv_step reg inode_off) iv_new es = Some s ->
  (~ fresh_destroyed reg inode_off es /\ exists lv, iv_inv lv s) \/
  (iv_ub s = true /\ fresh_destroyed reg inode_off es).
Proof.
  revert s. induction es as [|e es IH] using rev_ind; intros s.
  - intros [= <-]. left. split; [|exists ∅; apply iv_new_inv].
    intros (es1 & p & es2 & s1 & Heq & _). by destruct es1.
  - rewrite exec_snoc. destruct (exec _ _ es) as [s1|] eqn:He; [|done]. intros Hs.
    rewrite (fresh_destroyed_snoc es e s1 He). destruct (IH s1 eq_refl) as [[Hn [lv I]]|[Hu Hd]].
    + destruct (iv_step_inv lv s1 e s I Hs) as [[HI Hn']|[Hu Hd]]; [left|right]; tauto.
    + right. split; [by eapply iv_ub_stays|by left].
Qed.

(** C37. Per-inode data is dropped exactly once, when its inode is destroyed.  In every
    sequence of allocations, initialisations, failures and destructions the callbacks leave
    their safety conditions exactly when the VFS destroys an inode that was neither
    initialised nor marked bad; in every other sequence the values ever written are those
    already dropped and those of the inodes still alive, and when no inode is left every
    value has been dropped and every object is back in the cache. *)
Theorem inode_data_dropped_once es s : exec (iv_step reg inode_off) iv_new es = Some s ->
  (iv_ub s = true <-> fresh_destroyed reg inode_off es) /\
  (~ fresh_destroyed reg inode_off es ->
   exists lv : gmap Z D, (forall p d, lv !! p = Some d <->
      iv_stage s !! p = Some Inited /\ ic_data (iv_cache s) !! (p - inode_off) = Some (Some d)) /\
    iv_written s ≡ₚ ic_dropped (iv_cache s) ++ (map_to_list lv).*2 /\
    (iv_stage s = ∅ -> iv_written s ≡ₚ ic_dropped (iv_cache s) /\ ic_objs (iv_cache s) = ∅)).
Proof.
  intros He. destruct (iv_run_inv es s He) as [[Hn [lv I]]|[Hu Hd]]; [|tauto].
  split; [rewrite (ii_ub _ _ I); by split|]. intros _.
  exists lv. split; [apply I|]. split; [apply I|]. intros Hs. split.
  - rewrite (ii_perm _ _ I). assert (lv = ∅) as ->; [|by rewrite map_to_list_empty, app_nil_r].
    apply map_empty. intros p. destruct (lv !! p) as [d|] eqn:E; [|done].
    apply (ii_live _ _ I) in E as [E _]. by rewrite Hs, lookup_empty in E.
  - apply map_empty. intros o. destruct (ic_objs (iv_cache s) !! o) as [c|] eqn:E; [|done].
    assert (is_Some (iv_stage s !! (o + inode_off))) as [? Hx].
    { apply (ii_obj _ _ I). replace (o + inode_off - inode_off) with o by lia. eauto. }
    by rewrite Hs, lookup_empty in Hx.
Qed.
End Invariant.

(** Objects are handed out upwards. *)
Definition bump_slab {D} (s : icache D) (c : Z) : option Z :=
  let p := fresh_above (dom (ic_objs s)) in if p <? 2 ^ 63 then Some p else None.

#[global] Instance bump_slab_ok D : SlabPlaceOk (D := D) bump_slab.
Proof.
  intros s c p. unfold slab_place, bump_slab. destruct (_ <? _) eqn:E; [|done]. intros [= <-].
  destruct (fresh_above_new (dom (ic_objs s))). split; [blia|]. by apply not_elem_of_dom.
Qed.

Lemma inode_data_dropped_once_witness :
  let reg := mkReg true (Some (mkMC 9)) true in
  let es := [IvAlloc; IvAlloc; IvInit 17 5; IvFail 18; IvDestroy 17; IvDestroy 18] in
  exists s : ivfs Z, exec (iv_step (SP := bump_slab) reg 16) iv_new es = Some s /\
    ~ fresh_destroyed (SP := bump_slab) reg 16 es /\ iv_written s ≡ₚ ic_dropped (iv_cache s) /\ iv_written s = [5].
Proof.
  cbv zeta. eexists. split; [vm_compute; reflexivity|].
  match goal with |- context [fresh_destroyed ?r ?o ?es] => set (evs := es) end.
  edestruct (inode_data_dropped_once (D := Z) (SP := bump_slab) (mkReg true (Some (mkMC 9)) true) 16) with (es := evs)
    as [Hub H]; [split; reflexivity || lia|vm_compute; reflexivity|].
  assert (Hn : ~ fresh_destroyed (SP := bump_slab) (mkReg true (Some (mkMC 9)) true) 16 evs)
    by (intros Hf; apply Hub in Hf; discriminate Hf).
  split; [exact Hn|]. destruct (H Hn) as (lv & _ & _ & H2).
  split; [apply H2; reflexivity|reflexivity].
Defined.

(** The VFS allocates an inode, another thread has inserted it already, and the new one is
    destroyed: the callback runs the destructor of data that was never written. *)
Theorem fresh_inode_destroyed_undefined :
  exists s : ivfs Z, exec (iv_step (SP := bump_slab) (mkReg true (Some (mkMC 9)) true) 16) iv_new
      [IvAlloc; IvDestroy 17] = Some s /\ iv_ub s = true.
Proof. eexists. split; [vm_compute; reflexivity|reflexivity]. Qed.
