(* ===== verification/HttpDevice.v ===== *)
(** * The /dev/rko_http device (samples/http_uring/http_uring.rs)

    Each open file of the device has an [HttpUringHandler] of its own ([HttpUring]), reached
    through the callbacks of [Registry].  The handler is reference counted: the file holds
    one [Arc] of it, and so does the bridge handler in the accept task of each server that
    SERVER_START has started.  The holders ([dw_files], [dw_bridges]) and the counted objects
    ([dw_devs]) are separate, and the counts change only where the code clones or drops an
    [Arc]; reaching a handler that was freed sets [dw_uaf].  [dstep] interleaves opening and
    closing files, commands, requests that arrive at the servers, and servers that end. *)
From Stdlib Require Import ZArith Lia Bool.
From Stdlib.Strings Require Import Byte.
From stdpp Require Import base list option numbers gmap sets.
From S2P Require Import Prelude Errors KVec Net HttpTypes HttpUring Boxes Registry.

(** [struct io_uring_cmd], as far as the device reads it. *)
Record io_uring_cmd : Type := mkCmd { ioc_cmd_op : Z; ioc_sqe_cmd : bytes }.

(** A handler in its [Arc]: the count, the handler, and whether a worker waits for itself in
    the handler's drop. *)
Record Dev : Type := mkDev { dv_refs : Z; dv_handler : Handler; dv_hung : bool }.

Section Device.
Context `{KE : KernelErrno, VA : VecAlloc, UM : UserMem, SS : !ServerStart}.

(** All live handlers, by address; the open files, by the address of the handler their
    [HttpDeviceState] points to; the live bridges, by their handler and the executor whose
    accept task owns them; [dw_cmds] is the memory of the commands the kernel passes. *)
Record DW : Type := mkDW {
  dw_devs : gmap Z Dev; dw_files : gset Z; dw_bridges : list (Z * nat);
  dw_next : Z; dw_mem : ast * umem; dw_cmds : Z -> io_uring_cmd; dw_uaf : bool }.

Definition set_devs (ds : gmap Z Dev) (w : DW) : DW :=
  mkDW ds (dw_files w) (dw_bridges w) (dw_next w) (dw_mem w) (dw_cmds w) (dw_uaf w).
Definition set_files (fs : gset Z) (w : DW) : DW :=
  mkDW (dw_devs w) fs (dw_bridges w) (dw_next w) (dw_mem w) (dw_cmds w) (dw_uaf w).
Definition set_bridges (bs : list (Z * nat)) (w : DW) : DW :=
  mkDW (dw_devs w) (dw_files w) bs (dw_next w) (dw_mem w) (dw_cmds w) (dw_uaf w).
Definition set_mem (m : ast * umem) (w : DW) : DW :=
  mkDW (dw_devs w) (dw_files w) (dw_bridges w) (dw_next w) m (dw_cmds w) (dw_uaf w).
Definition set_cmds (c : Z -> io_uring_cmd) (w : DW) : DW :=
  mkDW (dw_devs w) (dw_files w) (dw_bridges w) (dw_next w) (dw_mem w) c (dw_uaf w).
Definition set_uaf (w : DW) : DW :=
  mkDW (dw_devs w) (dw_files w) (dw_bridges w) (dw_next w) (dw_mem w) (dw_cmds w) true.

(** [IoUringCmd::cmd_op] and [cmd_data]. *)
Definition cmd_op (w : DW) (cmd : Z) : Z := ioc_cmd_op (dw_cmds w cmd).
Definition cmd_data (w : DW) (cmd : Z) : bytes := ioc_sqe_cmd (dw_cmds w cmd).

(** ** References *)

(** Following an [Arc]. *)
Definition get_dev (id : Z) : M DW Error Dev := fun w =>
  match dw_devs w !! id with Some d => (Ok d, w) | None => (Ub, set_uaf w) end.
Definition put_dev (id : Z) (d : Dev) : M DW Error unit := fun w =>
  (Ok tt, set_devs (<[id := d]> (dw_devs w)) w).
Definition free_dev (id : Z) : M DW Error unit := fun w =>
  (Ok tt, set_devs (delete id (dw_devs w)) w).

(** [Arc::clone]. *)
Definition clone_handler (id : Z) : M DW Error unit :=
  d <-! get_dev id ;; put_dev id (mkDev (dv_refs d + 1) (dv_handler d) (dv_hung d)).

(** Dropping an [Arc<HttpUringHandler>].  The last drop drops the executor handle, which
    stops the executor and waits for its tasks; on a worker of that executor ([on]) this
    waits for the caller itself. *)
Definition drop_handler (on : option nat) (id : Z) : M DW Error unit :=
  d <-! get_dev id ;;
  let refs := dv_refs d - 1 in
  if refs =? 0 then
    match on with
    | Some e =>
        if bool_decide (hu_executor (dv_handler d) = Some e)
        then put_dev id (mkDev refs (dv_handler d) true)
        else free_dev id
    | None => free_dev id
    end
  else put_dev id (mkDev refs (dv_handler d) (dv_hung d)).

(** The task of executor [e] ends or is revoked, and its bridge is dropped. *)
Definition drop_bridge (on : option nat) (id : Z) (e : nat) : M DW Error unit := fun w =>
  if bool_decide ((id, e) ∈ dw_bridges w)
  then drop_handler on id (set_bridges (filter (fun b => b <> (id, e)) (dw_bridges w)) w)
  else (Ok tt, w).

(** Dropping an [AutoStopHandle] stops the executor: its futures are dropped. *)
Definition drop_executor (id : Z) (held : option nat) : M DW Error unit :=
  match held with Some e => drop_bridge None id e | None => m_ret tt end.

(** An assignment through the handler's mutexes. *)
Definition put_handler (id : Z) (H : Handler) : M DW Error unit :=
  d <-! get_dev id ;; put_dev id (mkDev (dv_refs d) H (dv_hung d)).

(** ** The commands *)

(** An allocation, and [HttpServer::start_on]. *)
Definition try_box : M DW Error bool := fun w =>
  let '(r, a) := kv_try tt (fst (dw_mem w)) in
  (Ok (match r with Ok _ => true | _ => false end), set_mem (a, snd (dw_mem w)) w).
Definition run_start (addr : SocketAddr) : M DW Error (res Error unit) := fun w =>
  let '(r, a) := start_on addr (fst (dw_mem w)) in (Ok r, set_mem (a, snd (dw_mem w)) w).

(** [cmd_server_start]: the executor, the bridge with a clone of the handler, the server,
    which owns the bridge once it has started; then the executor handle of an earlier
    server is replaced.  A bridge that was not handed over is dropped. *)
Definition dev_server_start (id : Z) (c : bytes) : M DW Error Z :=
  exec_ok <-! try_box ;;
  if negb exec_ok then m_lift (errno_ret ENOMEM) else
  _ <-! clone_handler id ;;
  bridge_ok <-! try_box ;;
  if negb bridge_ok then (_ <-! drop_handler None id ;; m_lift (errno_ret ENOMEM)) else
  r <-! run_start (server_addr (read_server_addr c)) ;;
  match r with
  | Ok _ =>
      d <-! get_dev id ;;
      let H := dv_handler d in
      let exec := hu_next_exec H in
      _ <-! (fun w => (Ok tt, set_bridges ((id, exec) :: dw_bridges w) w)) ;;
      _ <-! put_handler id (set_server true (Some exec)
              (exec :: stop_executor (hu_executor H) (hu_running H)) (S exec) H) ;;
      _ <-! drop_executor id (hu_executor H) ;;
      m_ret 0
  | Err e => _ <-! drop_handler None id ;; m_lift (errno_ret e)
  | Panic => _ <-! drop_handler None id ;; m_lift Panic
  | Ub => _ <-! drop_handler None id ;; m_lift Ub
  | Pending => _ <-! drop_handler None id ;; m_lift Pending
  end.

(** [cmd_server_stop]. *)
Definition dev_server_stop (id : Z) : M DW Error Z :=
  d <-! get_dev id ;;
  let H := dv_handler d in
  _ <-! put_handler id (set_server false None (stop_executor (hu_executor H) (hu_running H)) (hu_next_exec H) H) ;;
  _ <-! drop_executor id (hu_executor H) ;;
  m_ret 0.

(** [dispatch]: the other commands only use the handler they are called on. *)
Definition dev_dispatch (op : Z) (c : bytes) (id : Z) : M DW Error Z :=
  if op =? HTTP_CMD_SERVER_START then dev_server_start id c
  else if op =? HTTP_CMD_SERVER_STOP then dev_server_stop id
  else
    d <-! get_dev id ;;
    fun w =>
      let '(ret, (H', m')) := dispatch op c (dv_handler d, dw_mem w) in
      (_ <-! put_handler id H' ;; m_lift ret) (set_mem m' w).

(** ** The file *)

(** [MiscDevice::open]: the second allocation that fails drops the handler of the first. *)
Definition http_open (misc : Z) : M DW Error Z := fun w =>
  match kv_try tt (fst (dw_mem w)) with
  | (Ok _, a1) =>
      match kv_try tt a1 with
      | (Ok _, a2) =>
          (Ok (dw_next w), mkDW (<[dw_next w := mkDev 1 handler_new false]> (dw_devs w))
             ({[ dw_next w ]} ∪ dw_files w) (dw_bridges w) (dw_next w + 1) (a2, snd (dw_mem w)) (dw_cmds w) (dw_uaf w))
      | (_, a2) => (Err ENOMEM, set_mem (a2, snd (dw_mem w)) w)
      end
  | (_, a1) => (Err ENOMEM, set_mem (a1, snd (dw_mem w)) w)
  end.

(** [MiscDevice::uring_cmd] on the borrowed [Arc]; its log lines are left out. *)
Definition http_uring_cmd (device cmd flags : Z) : M DW Error Z := fun w =>
  dev_dispatch (cmd_op w cmd) (cmd_data w cmd) device w.

(** [MiscDevice::release] drops the [Arc<HttpDeviceState>], and with it the handler's. *)
Definition http_release (device : Z) : M DW Error unit := fun w =>
  if bool_decide (device ∈ dw_files w)
  then drop_handler None device (set_files (dw_files w ∖ {[ device ]}) w)
  else (Ub, w).

#[export] Instance http_device : MiscDevice DW Z := {
  md_open := http_open; md_release := http_release; has_uring_cmd := true;
  md_uring_cmd := http_uring_cmd; md_into_foreign p := p; md_from_foreign p := p }.
#[export] Instance http_device_ok : MiscDeviceOk DW Z http_device.
Proof. by intros p. Qed.

(** The module: it registers the device, and [exit] only logs. *)
Section HttpModule.
Context `{RK : RegKernel} {PL : Placement miscdevice} (misc_size minor : Z).
Definition http_uring_init (name vtable : Z) : M (rk * Heap miscdevice) Error Z :=
  misc_reg_register misc_size minor name vtable.
Definition http_uring_exit (reg : Z) : M (rk * Heap miscdevice) Error unit := m_ret tt.
Definition http_uring_drop (reg : Z) : M (rk * Heap miscdevice) Error unit := misc_reg_drop reg.
End HttpModule.

(** ** Interleaving *)
Inductive devent : Type :=
| DvOpen (misc : Z)
| DvCmd (fd cmd flags : Z)
| DvClose (fd : Z)
| DvRequest (dev : Z) (req : Request)
| DvServerEnds (dev : Z) (e : nat).

Definition target (e : devent) (w : DW) : Z :=
  match e with
  | DvOpen _ => dw_next w
  | DvCmd fd _ _ | DvClose fd => fd
  | DvRequest dev _ | DvServerEnds dev _ => dev
  end.

Definition is_open (w : DW) (fd : Z) : bool := bool_decide (fd ∈ dw_files w).

Definition bridges_of (w : DW) (id : Z) : list (Z * nat) := filter (fun b => fst b = id) (dw_bridges w).

(** A request reaches the bridge of a running server. *)
Definition dev_request (dev : Z) (req : Request) (w : DW) : option DW :=
  match bridges_of w dev with
  | [] => None
  | _ => Some (snd ((d <-! get_dev dev ;;
      fun w => let '(H', a') := snd (bridge_start req (dv_handler d, fst (dw_mem w))) in
               put_handler dev H' (set_mem (a', snd (dw_mem w)) w)) w))
  end.

(** The accept loop returned on an error and the last connection is done: the worker that
    ran the last of these tasks drops the bridge. *)
Definition dev_server_ends (dev : Z) (e : nat) (w : DW) : option DW :=
  if bool_decide ((dev, e) ∈ dw_bridges w) then Some (snd (drop_bridge (Some e) dev e w)) else None.

(** The kernel calls [uring_cmd] and [release] only on open files. *)
Definition dstep (e : devent) (w : DW) : option DW :=
  match e with
  | DvOpen misc => Some (snd (snd (misc_open (misc, w))))
  | DvCmd fd cmd flags => if is_open w fd then Some (snd (snd (misc_uring_cmd cmd flags (fd, w)))) else None
  | DvClose fd => if is_open w fd then Some (snd (snd (misc_release (fd, w)))) else None
  | DvRequest dev req => dev_request dev req w
  | DvServerEnds dev e => dev_server_ends dev e w
  end.
Fixpoint drun (es : list devent) (w : DW) : option DW :=
  match es with
  | [] => Some w
  | e :: es => dstep e w ≫= drun es
  end.

(** How many references to the handler exist. *)
Definition holders (w : DW) (id : Z) : Z := Z.b2z (bool_decide (id ∈ dw_files w)) + lenZ (bridges_of w id).
End Device.

(** ** The invariant *)
Record dev_inv (n : Z) (d : Dev) : Prop := {
  di_tables : uring_inv (dv_handler d);
  di_req : 0 < hu_next_req (dv_handler d) <= n + 1;
  di_queue : 0 < hu_next_queue (dv_handler d) <= n + 1
}.

Section DeviceFacts.
Context `{KE : KernelErrno, VA : VecAlloc, UM : UserMem, SS : !ServerStart}.

(** A handler is there exactly as long as something refers to it, or a worker is stuck in
    its drop. *)
Definition counted (w : DW) (id : Z) : Prop :=
  match dw_devs w !! id with
  | Some d => dv_refs d = holders w id /\ (holders w id = 0 <-> dv_hung d = true)
  | None => holders w id = 0
  end.

Record dw_inv (n : Z) (w : DW) : Prop := {
  wi_devs id d : dw_devs w !! id = Some d -> dev_inv n d /\ id < dw_next w;
  wi_count id : counted w id;
  wi_running id e : (id, e) ∈ dw_bridges w ->
    exists d, dw_devs w !! id = Some d /\ e ∈ hu_running (dv_handler d);
  wi_nodup : NoDup (dw_bridges w);
  wi_uaf : dw_uaf w = false
}.

Lemma dev_inv_mono n m d : n <= m -> dev_inv n d -> dev_inv m d.
Proof. intros Hn [? [??] [??]]. split; try done; lia. Qed.

Lemma lenZ_zero {A} (l : list A) : lenZ l = 0 -> l = [].
Proof. destruct l; [done|]. unfold lenZ. cbn. lia. Qed.

(** Whatever refers to a handler finds it. *)
Lemma held_live n w id : dw_inv n w -> 0 < holders w id ->
  exists d, dw_devs w !! id = Some d /\ dv_refs d = holders w id /\ dv_hung d = false.
Proof.
  intros I Hp. pose proof (wi_count n w I id) as Hc. unfold counted in Hc.
  destruct (dw_devs w !! id) as [d|]; [|lia]. exists d. split; [done|]. destruct Hc as [Hr Hh]. split; [done|].
  destruct (dv_hung d); [|done]. assert (holders w id = 0) by (by apply Hh). lia.
Qed.

Lemma file_held w id : id ∈ dw_files w -> 0 < holders w id.
Proof. intros H. unfold holders. rewrite bool_decide_true by done. pose proof (lenZ_nonneg (bridges_of w id)). cbn. lia. Qed.

Lemma bridge_held w id e : (id, e) ∈ dw_bridges w -> 0 < holders w id.
Proof.
  intros H. unfold holders. assert (lenZ (bridges_of w id) <> 0) as Hn.
  { intros Hz%lenZ_zero. assert ((id, e) ∈ bridges_of w id) as Hin by (apply list_elem_of_filter; done).
    rewrite Hz in Hin. set_solver. }
  pose proof (lenZ_nonneg (bridges_of w id)). destruct (bool_decide _); cbn; lia.
Qed.

(** Taking one bridge off the list. *)
Lemma remove_bridge_other (l : list (Z * nat)) id e j : j <> id ->
  filter (fun b => fst b = j) (filter (fun b => b <> (id, e)) l) = filter (fun b => fst b = j) l.
Proof.
  intros Hj. induction l as [|[i x] l IH]; [done|]. rewrite filter_cons.
  destruct (decide ((i, x) <> (id, e))) as [Hne|He].
  - rewrite !filter_cons. cbn [fst]. by destruct (decide (i = j)); rewrite IH.
  - apply dec_stable in He. injection He as -> ->. rewrite IH, (filter_cons _ (id, e)). cbn [fst].
    by rewrite decide_False by congruence.
Qed.

Lemma remove_bridge_absent (l : list (Z * nat)) b : b ∉ l -> filter (fun x => x <> b) l = l.
Proof.
  induction l as [|x l IH]; [done|]. intros Hn. rewrite filter_cons, decide_True by set_solver.
  f_equal. apply IH. set_solver.
Qed.

Lemma remove_bridge_same (l : list (Z * nat)) id e : NoDup l -> (id, e) ∈ l ->
  lenZ (filter (fun b => fst b = id) (filter (fun b => b <> (id, e)) l)) = lenZ (filter (fun b => fst b = id) l) - 1.
Proof.
  intros Hn. induction Hn as [|[i x] l Hx Hn IH]; [set_solver|]. intros Hin. rewrite !filter_cons. cbn [fst].
  destruct (decide ((i, x) = (id, e))) as [Heq|Hne].
  - injection Heq as -> ->. rewrite (decide_False (P := (id, e) <> (id, e))) by auto. rewrite decide_True by done.
    rewrite remove_bridge_absent by done. unfold lenZ. cbn [length]. lia.
  - apply elem_of_cons in Hin as [Hin|Hin]; [congruence|]. rewrite (decide_True (P := (i, x) <> (id, e))) by done.
    rewrite filter_cons. cbn [fst]. specialize (IH Hin). destruct (decide (i = id)); [|done].
    unfold lenZ in *. cbn [length]. lia.
Qed.

(** ** One reference changes *)
Lemma get_dev_eq id d w : dw_devs w !! id = Some d -> get_dev id w = (Ok d, w).
Proof. intros H. unfold get_dev. by rewrite H. Qed.

Lemma put_handler_eq id d H w : dw_devs w !! id = Some d ->
  put_handler id H w = (Ok tt, set_devs (<[id := mkDev (dv_refs d) H (dv_hung d)]> (dw_devs w)) w).
Proof. intros Hd. unfold put_handler, m_bind. by rewrite (get_dev_eq _ _ _ Hd). Qed.

Lemma clone_handler_eq id d w : dw_devs w !! id = Some d ->
  clone_handler id w = (Ok tt, set_devs (<[id := mkDev (dv_refs d + 1) (dv_handler d) (dv_hung d)]> (dw_devs w)) w).
Proof. intros Hd. unfold clone_handler, m_bind. by rewrite (get_dev_eq _ _ _ Hd). Qed.

(** A drop that is not the last. *)
Lemma drop_handler_more on id d w : dw_devs w !! id = Some d -> dv_refs d <> 1 ->
  drop_handler on id w = (Ok tt, set_devs (<[id := mkDev (dv_refs d - 1) (dv_handler d) (dv_hung d)]> (dw_devs w)) w).
Proof.
  intros Hd Hr. unfold drop_handler, m_bind. rewrite (get_dev_eq _ _ _ Hd).
  destruct (dv_refs d - 1 =? 0) eqn:E; [blia|done].
Qed.

(** The last one frees the handler, or hangs on the handler's own worker. *)
Lemma drop_handler_last on id d w : dw_devs w !! id = Some d -> dv_refs d = 1 ->
  drop_handler on id w =
    (Ok tt, set_devs (match on with
       | Some e => if bool_decide (hu_executor (dv_handler d) = Some e)
                   then <[id := mkDev 0 (dv_handler d) true]> (dw_devs w) else delete id (dw_devs w)
       | None => delete id (dw_devs w) end) w).
Proof.
  intros Hd Hr. unfold drop_handler, m_bind. rewrite (get_dev_eq _ _ _ Hd), Hr. cbn [Z.sub Z.eqb].
  change (1 + - (1)) with 0. cbn. destruct on as [e|]; [|done]. by case_bool_decide.
Qed.

(** ** Commands *)
Definition without (held : option nat) (id : Z) (l : list (Z * nat)) : list (Z * nat) :=
  match held with Some e => filter (fun b => b <> (id, e)) l | None => l end.

Lemma without_other held id j l : j <> id ->
  filter (fun b => fst b = j) (without held id l) = filter (fun b => fst b = j) l.
Proof. intros Hj. destruct held; [by apply remove_bridge_other|done]. Qed.

Lemma without_nodup held id l : NoDup l -> NoDup (without held id l).
Proof. intros H. destruct held; [by apply NoDup_filter|done]. Qed.

(** Stopping an executor while more than its bridges refer to the handler. *)
Lemma drop_executor_eq held id d w :
  dw_devs w !! id = Some d -> NoDup (dw_bridges w) -> lenZ (bridges_of w id) < dv_refs d ->
  drop_executor id held w =
    (Ok tt, set_bridges (without held id (dw_bridges w)) (set_devs (<[id :=
      mkDev (dv_refs d - (lenZ (bridges_of w id) - lenZ (filter (fun b => fst b = id) (without held id (dw_bridges w)))))
            (dv_handler d) (dv_hung d)]> (dw_devs w)) w)).
Proof.
  intros Hd Hn Hl.
  assert (Hsame : (Ok tt : res Error unit, w) = (Ok tt, set_bridges (dw_bridges w) (set_devs (<[id :=
      mkDev (dv_refs d - (lenZ (bridges_of w id) - lenZ (filter (fun b => fst b = id) (dw_bridges w))))
            (dv_handler d) (dv_hung d)]> (dw_devs w)) w))).
  { unfold bridges_of. rewrite Z.sub_diag, Z.sub_0_r. f_equal. destruct w, d. cbn in *. unfold set_bridges, set_devs. cbn.
    by rewrite insert_id. }
  destruct held as [e|]; [|exact Hsame]. cbn [drop_executor without]. unfold drop_bridge. case_bool_decide as Hin.
  - pose proof (remove_bridge_same (dw_bridges w) id e Hn Hin) as Hrm. fold (bridges_of w id) in Hrm.
    pose proof (lenZ_nonneg (filter (fun b => fst b = id) (filter (fun b => b <> (id, e)) (dw_bridges w)))).
    rewrite (drop_handler_more None id d) by (done || lia). rewrite Hrm.
    replace (dv_refs d - (lenZ (bridges_of w id) - (lenZ (bridges_of w id) - 1))) with (dv_refs d - 1) by lia. done.
  - rewrite remove_bridge_absent by done. exact Hsame.
Qed.

(** What a command leaves: the handler and the memory of [dispatch], and as many references as
    holders. *)
Definition cmd_effect (fd : Z) (w : DW) (d : Dev) (H' : Handler) (m' : ast * umem) (w' : DW) : Prop :=
  exists brs', w' = mkDW (<[fd := mkDev (1 + lenZ (filter (fun b => fst b = fd) brs')) H' false]> (dw_devs w))
      (dw_files w) brs' (dw_next w) m' (dw_cmds w) (dw_uaf w) /\
    NoDup brs' /\ (forall j, j <> fd -> filter (fun b => fst b = j) brs' = bridges_of w j) /\
    (forall e, (fd, e) ∈ brs' -> e ∈ hu_running H').

Section Command.
Context (n fd : Z) (w : DW) (d : Dev).
Hypothesis HI : dw_inv n w.
Hypothesis Hf : fd ∈ dw_files w.
Hypothesis Hd : dw_devs w !! fd = Some d.

Lemma cmd_refs : dv_refs d = 1 + lenZ (bridges_of w fd) /\ dv_hung d = false.
Proof.
  destruct (held_live n w fd HI (file_held _ _ Hf)) as (d0 & Hd0 & Hr & Hh).
  rewrite Hd in Hd0. injection Hd0 as <-. split; [|done]. rewrite Hr. unfold holders. by rewrite bool_decide_true.
Qed.

Lemma cmd_tables : uring_inv (dv_handler d).
Proof. by destruct (wi_devs n w HI fd d Hd) as [[? _ _] _]. Qed.

(** A bridge of the handler is in the task of the executor whose handle it owns. *)
Lemma bridge_executor e : (fd, e) ∈ dw_bridges w -> hu_executor (dv_handler d) = Some e.
Proof.
  intros Hin. destruct (wi_running n w HI _ _ Hin) as (d0 & Hd0 & Hrun). rewrite Hd in Hd0. injection Hd0 as <-.
  rewrite (ui_running _ cmd_tables) in Hrun.
  destruct (hu_executor (dv_handler d)) as [e0|]; [|by apply not_elem_of_nil in Hrun].
  apply list_elem_of_singleton in Hrun. congruence.
Qed.

Lemma next_exec_fresh : (fd, hu_next_exec (dv_handler d)) ∉ dw_bridges w.
Proof. intros Hin%bridge_executor. pose proof (ui_executor _ cmd_tables _ Hin). lia. Qed.

(** No bridge of an executor survives its stop. *)
Lemma without_old e l : (fd, e) ∈ without (hu_executor (dv_handler d)) fd l -> (fd, e) ∈ l /\ (fd, e) ∉ dw_bridges w.
Proof.
  intros He. split.
  - destruct (hu_executor (dv_handler d)) as [e0|]; [|done]. by apply list_elem_of_filter in He as [_ ?].
  - intros Hin%bridge_executor. rewrite Hin in He. by apply list_elem_of_filter in He as [Hne _].
Qed.

Lemma same_effect m' : cmd_effect fd w d (dv_handler d) m' (set_mem m' w).
Proof.
  destruct cmd_refs as [Hr Hh]. exists (dw_bridges w). split.
  - unfold bridges_of in Hr. rewrite <- Hr, <- Hh. unfold set_mem. f_equal. symmetry. apply insert_id. rewrite Hd. by destruct d.
  - split; [apply HI|]. split; [done|]. intros e He. destruct (wi_running n w HI _ _ He) as (d0 & Hd0 & Hin). congruence.
Qed.

(** A clone of the handler that is dropped again. *)
Lemma clone_drop m m' :
  drop_handler None fd (set_mem m' (set_devs (<[fd := mkDev (dv_refs d + 1) (dv_handler d) (dv_hung d)]> (dw_devs w)) (set_mem m w))) =
    (Ok tt, set_mem m' w).
Proof.
  destruct cmd_refs as [Hr _]. pose proof (lenZ_nonneg (bridges_of w fd)).
  rewrite (drop_handler_more None fd (mkDev (dv_refs d + 1) (dv_handler d) (dv_hung d)));
    [|cbn; by rewrite lookup_insert_eq|cbn; lia].
  cbn [dv_refs dv_handler dv_hung set_mem set_devs dw_devs]. rewrite insert_insert_eq.
  replace (dv_refs d + 1 - 1) with (dv_refs d) by lia. f_equal. unfold set_devs, set_mem. cbn. f_equal.
  apply insert_id. rewrite Hd. by destruct d.
Qed.

Lemma server_start_effect c : let '(r, (H', m')) := cmd_server_start c (dv_handler d, dw_mem w) in
  exists w', dev_server_start fd c w = (r, w') /\ cmd_effect fd w d H' m' w'.
Proof.
  destruct cmd_refs as [Hr Hh]. pose proof cmd_tables as Ht. destruct (dw_mem w) as [a u] eqn:Em.
  unfold cmd_server_start, dev_server_start, try_box, run_start, m_bind at 1. rewrite Em. cbn [fst snd].
  destruct (kv_try tt a) as [r1 a1]. destruct r1 as [x|x| | |]; cbn [negb];
    try (eexists; split; [reflexivity|apply same_effect]).
  unfold m_bind at 1. rewrite (clone_handler_eq fd d) by done. unfold m_bind at 1. cbn [dw_mem set_devs set_mem fst snd].
  destruct (kv_try tt a1) as [r2 a2]. destruct r2 as [y|y| | |]; cbn [negb];
    try (unfold m_bind; rewrite clone_drop; eexists; split; [reflexivity|apply same_effect]).
  unfold m_bind at 1. cbn [dw_mem set_devs set_mem fst snd].
  destruct (start_on _ a2) as [r3 a3].
  match goal with |- context [set_mem (a3, u) (set_mem ?m2 ?x)] => change (set_mem (a3, u) (set_mem m2 x)) with (set_mem (a3, u) x) end.
  destruct r3 as [z|e| | |];
    try (unfold m_bind; rewrite clone_drop; eexists; split; [reflexivity|apply same_effect]).
  set (w3 := set_mem (a3, u) _). assert (Hd3 : dw_devs w3 !! fd = Some (mkDev (dv_refs d + 1) (dv_handler d) (dv_hung d)))
    by (cbn; by rewrite lookup_insert_eq).
  unfold m_bind at 1. rewrite (get_dev_eq _ _ _ Hd3). cbn [dv_handler]. set (H := dv_handler d) in *.
  unfold m_bind at 1. set (w4 := set_bridges _ w3).
  unfold m_bind at 1. rewrite (put_handler_eq fd _ _ w4 Hd3). cbn [dv_refs dv_hung].
  set (H' := set_server _ _ _ _ H). set (w5 := set_devs _ w4). unfold m_bind at 1.
  assert (Hn5 : NoDup (dw_bridges w5)) by (cbn; apply NoDup_cons; split; [apply next_exec_fresh|apply HI]).
  assert (Hb5 : lenZ (bridges_of w5 fd) = 1 + lenZ (bridges_of w fd)).
  { unfold bridges_of. change (dw_bridges w5) with ((fd, hu_next_exec H) :: dw_bridges w). rewrite filter_cons, decide_True by done.
    unfold lenZ. cbn [length]. lia. }
  rewrite (drop_executor_eq (hu_executor H) fd (mkDev (dv_refs d + 1) H' (dv_hung d)) w5);
    [|cbn; by rewrite lookup_insert_eq|done|cbn [dv_refs]; lia].
  rewrite Hb5. set (brs' := without (hu_executor H) fd (dw_bridges w5)).
  eexists. split; [reflexivity|]. exists brs'. split; [|split; [|split]].
  - cbn [dv_refs dv_handler dv_hung].
    replace (dv_refs d + 1 - (1 + lenZ (bridges_of w fd) - lenZ (filter (fun b => fst b = fd) brs')))
      with (1 + lenZ (filter (fun b => fst b = fd) brs')) by lia.
    clearbody brs'. subst w5 w4 w3. unfold set_bridges, set_devs, set_mem.
    cbn [dw_devs dw_files dw_bridges dw_next dw_mem dw_cmds dw_uaf]. by rewrite !insert_insert_eq, Hh.
  - by apply without_nodup.
  - intros j Hj. unfold brs'. rewrite without_other by done.
    change (dw_bridges w5) with ((fd, hu_next_exec H) :: dw_bridges w). rewrite filter_cons, decide_False by (cbn; congruence). done.
  - intros e [He Hno]%without_old. unfold H'. cbn [hu_running set_server]. rewrite (stop_held _ Ht).
    change (dw_bridges w5) with ((fd, hu_next_exec H) :: dw_bridges w) in He.
    apply elem_of_cons in He as [[= ->]|Hin]; [by apply list_elem_of_singleton|done].
Qed.

Lemma server_stop_effect : let '(r, (H', m')) := cmd_server_stop (dv_handler d, dw_mem w) in
  exists w', dev_server_stop fd w = (r, w') /\ cmd_effect fd w d H' m' w'.
Proof.
  destruct cmd_refs as [Hr Hh]. pose proof cmd_tables as Ht. unfold cmd_server_stop, dev_server_stop, m_bind at 1.
  rewrite (get_dev_eq _ _ _ Hd). set (H := dv_handler d) in *. unfold m_bind at 1. rewrite (put_handler_eq fd d _ w Hd).
  set (H' := set_server _ _ _ _ H). set (w5 := set_devs _ w). unfold m_bind at 1.
  rewrite (drop_executor_eq (hu_executor H) fd (mkDev (dv_refs d) H' (dv_hung d)) w5);
    [|cbn; by rewrite lookup_insert_eq|apply HI|change (bridges_of w5 fd) with (bridges_of w fd); cbn [dv_refs]; lia].
  eexists. split; [reflexivity|]. exists (without (hu_executor H) fd (dw_bridges w)). split; [|split; [|split]].
  - cbn [dv_refs dv_handler dv_hung]. change (dw_bridges w5) with (dw_bridges w).
    change (bridges_of w5 fd) with (bridges_of w fd). set (brs' := without _ _ _).
    replace (dv_refs d - (lenZ (bridges_of w fd) - lenZ (filter (fun b => fst b = fd) brs')))
      with (1 + lenZ (filter (fun b => fst b = fd) brs')) by lia.
    clearbody brs'. subst w5. unfold set_bridges, set_devs.
    cbn [dw_devs dw_files dw_bridges dw_next dw_mem dw_cmds dw_uaf]. by rewrite !insert_insert_eq, Hh.
  - apply without_nodup, HI.
  - intros j Hj. by rewrite without_other.
  - by intros e [? ?]%without_old.
Qed.
End Command.

(** The other commands leave the server as it is. *)
Lemma dispatch_server op c H m : op <> HTTP_CMD_SERVER_START -> op <> HTTP_CMD_SERVER_STOP ->
  let '(_, (H', _)) := dispatch op c (H, m) in hu_running H' = hu_running H /\ hu_executor H' = hu_executor H.
Proof.
  intros H1 H2. unfold dispatch. rewrite (proj2 (Z.eqb_neq _ _) H1), (proj2 (Z.eqb_neq _ _) H2). destruct m as [a u].
  unfold cmd_create_queue, cmd_destroy_queue, cmd_add_url, cmd_remove_url, cmd_recv_request, cmd_send_response.
  repeat (case_match; simplify_eq; try done).
Qed.

Lemma dispatch_effect n op c fd w d : dw_inv n w -> fd ∈ dw_files w -> dw_devs w !! fd = Some d ->
  let '(r, (H', m')) := dispatch op c (dv_handler d, dw_mem w) in
  exists w', dev_dispatch op c fd w = (r, w') /\ cmd_effect fd w d H' m' w'.
Proof.
  intros HI Hf Hd. unfold dev_dispatch. destruct (decide (op = HTTP_CMD_SERVER_START)) as [->|Hs].
  { rewrite Z.eqb_refl. exact (server_start_effect n fd w d HI Hf Hd c). }
  destruct (decide (op = HTTP_CMD_SERVER_STOP)) as [->|Ht]; [exact (server_stop_effect n fd w d HI Hf Hd)|].
  rewrite (proj2 (Z.eqb_neq _ _) Hs), (proj2 (Z.eqb_neq _ _) Ht).
  pose proof (dispatch_server op c (dv_handler d) (dw_mem w) Hs Ht) as Hsv. unfold m_bind at 1. rewrite (get_dev_eq _ _ _ Hd).
  destruct (dispatch op c _) as [r [H' m']]. destruct Hsv as [Hsv _]. unfold m_bind at 1.
  rewrite (put_handler_eq fd d H' (set_mem m' w) Hd). eexists. split; [reflexivity|].
  destruct (cmd_refs n fd w d HI Hf Hd) as [Hr Hh]. exists (dw_bridges w). split; [|split; [apply HI|split; [done|]]].
  - unfold bridges_of in Hr. by rewrite <- Hr, Hh.
  - intros e He. destruct (wi_running n w HI _ _ He) as (d0 & Hd0 & Hin). rewrite Hsv. congruence.
Qed.

(** ** Steps *)

(** A step on one handler. *)
Lemma dw_inv_local n m w w' id : dw_inv n w -> n <= m ->
  (forall j, j <> id -> dw_devs w' !! j = dw_devs w !! j) ->
  (forall j, j <> id -> bridges_of w' j = bridges_of w j) ->
  (forall j, j <> id -> j ∈ dw_files w' <-> j ∈ dw_files w) ->
  counted w' id -> (forall d, dw_devs w' !! id = Some d -> dev_inv m d /\ id < dw_next w') -> dw_next w <= dw_next w' ->
  (forall e, (id, e) ∈ dw_bridges w' -> exists d, dw_devs w' !! id = Some d /\ e ∈ hu_running (dv_handler d)) ->
  NoDup (dw_bridges w') -> dw_uaf w' = false -> dw_inv m w'.
Proof.
  intros HI Hnm Hdev Hbr Hfl Hc Hv Hnx Hrun Hnd Hu.
  assert (Hho : forall j, j <> id -> holders w' j = holders w j).
  { intros j Hj. unfold holders. rewrite (Hbr j Hj). f_equal. f_equal. apply bool_decide_ext. by apply Hfl. }
  split; try done.
  - intros j d Hj. destruct (decide (j = id)) as [->|Hne]; [by apply Hv|]. rewrite (Hdev j Hne) in Hj.
    destruct (wi_devs n w HI j d Hj) as [Hd Hlt]. split; [by eapply dev_inv_mono|lia].
  - intros j. destruct (decide (j = id)) as [->|Hne]; [done|]. pose proof (wi_count n w HI j) as Hcj. unfold counted in *.
    by rewrite (Hdev j Hne), (Hho j Hne).
  - intros j e He. destruct (decide (j = id)) as [->|Hne]; [by apply Hrun|]. rewrite (Hdev j Hne). apply (wi_running n w HI j).
    assert ((j, e) ∈ bridges_of w' j) as Hin by (by apply list_elem_of_filter). rewrite (Hbr j Hne) in Hin.
    by apply list_elem_of_filter in Hin as [_ ?].
Qed.

Lemma http_open_cases misc w : exists a,
  snd (snd (misc_open (misc, w))) = set_mem (a, snd (dw_mem w)) w \/
  snd (snd (misc_open (misc, w))) = mkDW (<[dw_next w := mkDev 1 handler_new false]> (dw_devs w))
     ({[ dw_next w ]} ∪ dw_files w) (dw_bridges w) (dw_next w + 1) (a, snd (dw_mem w)) (dw_cmds w) (dw_uaf w).
Proof.
  unfold misc_open. cbn [md_open http_device]. unfold http_open.
  destruct (kv_try_cases (VA := VA) tt (fst (dw_mem w))) as [a1 [-> | ->]]; [|exists a1; by left].
  destruct (kv_try_cases (VA := VA) tt a1) as [a2 [-> | ->]]; exists a2; [by right|by left].
Qed.

Lemma cmd_step n cmd fl fd w : dw_inv n w -> is_open w fd = true -> exists d r H' m' w',
  dw_devs w !! fd = Some d /\ dispatch (cmd_op w cmd) (cmd_data w cmd) (dv_handler d, dw_mem w) = (r, (H', m')) /\
  misc_uring_cmd cmd fl (fd, w) = (r, (fd, w')) /\ cmd_effect fd w d H' m' w'.
Proof.
  intros HI Hf%bool_decide_eq_true. destruct (held_live n w fd HI (file_held _ _ Hf)) as (d & Hd & _).
  pose proof (dispatch_effect n (cmd_op w cmd) (cmd_data w cmd) fd w d HI Hf Hd) as He.
  destruct (dispatch _ _ _) as [r [H' m']] eqn:E. destruct He as (w' & Hw & He). exists d, r, H', m', w'.
  split; [done|]. split; [done|]. split; [|done]. unfold misc_uring_cmd. cbn [md_uring_cmd md_from_foreign http_device].
  unfold http_uring_cmd. by rewrite Hw.
Qed.

(** Dropping a reference: what is left of the handler. *)
Definition dropped (on : option nat) (id : Z) (d : Dev) (ds : gmap Z Dev) : gmap Z Dev :=
  if decide (dv_refs d = 1) then
    match on with
    | Some e => if bool_decide (hu_executor (dv_handler d) = Some e)
                then <[id := mkDev 0 (dv_handler d) true]> ds else delete id ds
    | None => delete id ds
    end
  else <[id := mkDev (dv_refs d - 1) (dv_handler d) (dv_hung d)]> ds.

Lemma drop_handler_eq on id d w : dw_devs w !! id = Some d ->
  drop_handler on id w = (Ok tt, set_devs (dropped on id d (dw_devs w)) w).
Proof.
  intros Hd. unfold dropped. destruct (decide (dv_refs d = 1)) as [Hr|Hr].
  - by rewrite (drop_handler_last on id d).
  - by rewrite (drop_handler_more on id d).
Qed.

Lemma dropped_other on id d ds j : j <> id -> dropped on id d ds !! j = ds !! j.
Proof.
  intros Hj. unfold dropped. destruct (decide _); [destruct on; [case_bool_decide|]|];
    by rewrite ?lookup_insert_ne, ?lookup_delete_ne.
Qed.

Lemma close_step n fd w : dw_inv n w -> fd ∈ dw_files w -> exists d, dw_devs w !! fd = Some d /\
  dv_refs d = 1 + lenZ (bridges_of w fd) /\ dv_hung d = false /\
  misc_release (fd, w) = (Ok 0, (fd, set_devs (dropped None fd d (dw_devs w)) (set_files (dw_files w ∖ {[ fd ]}) w))).
Proof.
  intros HI Hf. destruct (held_live n w fd HI (file_held _ _ Hf)) as (d & Hd & _). exists d. split; [done|].
  destruct (cmd_refs n fd w d HI Hf Hd) as [Hr Hh]. split; [done|]. split; [done|].
  unfold misc_release. cbn [md_release md_from_foreign http_device]. unfold http_release. rewrite bool_decide_true by done.
  by rewrite (drop_handler_eq None fd d).
Qed.

Lemma server_ends_step n dev e w w' : dw_inv n w -> dev_server_ends dev e w = Some w' -> exists d,
  (dev, e) ∈ dw_bridges w /\ dw_devs w !! dev = Some d /\ dv_refs d = holders w dev /\ dv_hung d = false /\
  hu_executor (dv_handler d) = Some e /\
  w' = set_devs (dropped (Some e) dev d (dw_devs w)) (set_bridges (filter (fun b => b <> (dev, e)) (dw_bridges w)) w).
Proof.
  intros HI. unfold dev_server_ends. case_bool_decide as He; [|done]. intros [= <-].
  destruct (held_live n w dev HI (bridge_held _ _ _ He)) as (d & Hd & Hr & Hh). exists d. split_and!; try done.
  - destruct (wi_running n w HI _ _ He) as (d0 & Hd0 & Hrun). rewrite Hd in Hd0. injection Hd0 as <-.
    destruct (wi_devs n w HI dev d Hd) as [[Ht _ _] _]. rewrite (ui_running _ Ht) in Hrun.
    destruct (hu_executor (dv_handler d)) as [e0|]; [|by apply not_elem_of_nil in Hrun].
    apply list_elem_of_singleton in Hrun. congruence.
  - unfold drop_bridge. rewrite bool_decide_true by done. by rewrite (drop_handler_eq (Some e) dev d).
Qed.

Lemma request_step n dev req w w' : dw_inv n w -> dev_request dev req w = Some w' -> exists d H' a' e,
  (dev, e) ∈ dw_bridges w /\ dw_devs w !! dev = Some d /\
  snd (bridge_start req (dv_handler d, fst (dw_mem w))) = (H', a') /\
  w' = set_devs (<[dev := mkDev (dv_refs d) H' (dv_hung d)]> (dw_devs w)) (set_mem (a', snd (dw_mem w)) w).
Proof.
  intros HI. unfold dev_request. destruct (bridges_of w dev) as [|[i e] l] eqn:Eb; [done|].
  assert ((i, e) ∈ bridges_of w dev) as Hin by (rewrite Eb; set_solver). apply list_elem_of_filter in Hin as [Hi Hin].
  cbn in Hi. subst i. destruct (wi_running n w HI _ _ Hin) as (d & Hd & _). unfold m_bind. rewrite (get_dev_eq _ _ _ Hd).
  destruct (snd (bridge_start req _)) as [H' a'] eqn:E. rewrite (put_handler_eq dev d) by done. intros [= <-].
  exists d, H', a', e. done.
Qed.

(** An incoming request leaves the server as it is. *)
Lemma bridge_start_server req H a : let '(H', _) := snd (bridge_start req (H, a)) in
  hu_executor H' = hu_executor H /\ hu_running H' = hu_running H.
Proof.
  unfold bridge_start. destruct (serialize_request _ _ a) as [s a1]. destruct (route _ _) as [qid|]; [|done].
  destruct s; try done. destruct (kv_try tt a1) as [[?|?| | |] a2]; try done. cbn [snd].
  unfold enqueue_serialized. destruct (kv_push (hu_pending _) _ a2) as [[?|?| | |] b3]; cbn beta iota zeta;
  (destruct (find_queue _ _) as [q|]; [|done]); (destruct (_ <? _); [|done]); by destruct (kv_push _ _ _) as [[?|?| | |] b4].
Qed.

Lemma dw_inv_mono n m w : n <= m -> dw_inv n w -> dw_inv m w.
Proof.
  intros Hn [H1 H2 H3 H4 H5]. split; try done. intros id d Hd. destruct (H1 id d Hd). split; [by eapply dev_inv_mono|done].
Qed.

Lemma open_inv n misc w : dw_inv n w -> 0 <= n -> dw_inv (n + 1) (snd (snd (misc_open (misc, w)))).
Proof.
  intros HI Hn. destruct (http_open_cases misc w) as [a [-> | ->]].
  { apply (dw_inv_mono n); [lia|]. by destruct HI. }
  assert (dw_devs w !! dw_next w = None) as Hnone.
  { destruct (dw_devs w !! dw_next w) as [d|] eqn:E; [|done]. destruct (wi_devs n w HI _ _ E). lia. }
  pose proof (wi_count n w HI (dw_next w)) as Hc. unfold counted, holders in Hc. rewrite Hnone in Hc.
  pose proof (lenZ_nonneg (bridges_of w (dw_next w))).
  apply (dw_inv_local n _ w _ (dw_next w)); cbn [dw_devs dw_files dw_bridges dw_next dw_uaf]; try done; try lia.
  - intros j Hj. by rewrite lookup_insert_ne.
  - set_solver.
  - unfold counted, holders. cbn [dw_devs dw_files dw_bridges]. rewrite lookup_insert_eq, (bool_decide_true (_ ∈ {[_]} ∪ _)) by set_solver.
    cbn [dv_refs dv_hung Z.b2z]. change (bridges_of _ (dw_next w)) with (bridges_of w (dw_next w)).
    destruct (bool_decide (dw_next w ∈ dw_files w)); cbn [Z.b2z] in Hc; (split; [lia|split; [lia|done]]).
  - intros d. rewrite lookup_insert_eq. intros [= <-]. split; [|lia]. split; cbn [dv_handler]; [apply handler_new_inv|cbn; lia|cbn; lia].
  - intros e He. pose proof (bridge_held w _ _ He). unfold holders in *. lia.
  - apply HI.
  - apply HI.
Qed.

Lemma effect_inv n fd w d H' m' w' : dw_inv n w -> fd ∈ dw_files w -> dw_devs w !! fd = Some d ->
  cmd_effect fd w d H' m' w' -> dev_inv (n + 1) (mkDev 0 H' false) -> dw_inv (n + 1) w'.
Proof.
  intros HI Hf Hd (brs' & -> & Hn & Ho & Hr) [Hv1 Hv2 Hv3]. cbn [dv_handler] in *.
  apply (dw_inv_local n _ w _ fd); cbn [dw_devs dw_files dw_bridges dw_next dw_uaf]; try done; try lia.
  - intros j Hj. by rewrite lookup_insert_ne.
  - unfold counted, holders. cbn [dw_devs dw_files dw_bridges]. rewrite lookup_insert_eq, bool_decide_true by done.
    cbn [dv_refs dv_hung Z.b2z]. unfold bridges_of. cbn [dw_bridges].
    pose proof (lenZ_nonneg (filter (fun b : Z * nat => fst b = fd) brs')). split; [done|]. split; [lia|done].
  - intros d0. rewrite lookup_insert_eq. intros [= <-]. split; [done|]. by destruct (wi_devs n w HI fd d Hd).
  - intros e He. rewrite lookup_insert_eq. eexists. split; [done|]. by apply Hr.
  - apply HI.
Qed.

(** One holder less. *)
Lemma drop_counted on id d w w' : dw_devs w !! id = Some d -> dv_refs d = holders w id -> dv_hung d = false ->
  0 < holders w id -> dw_devs w' = dropped on id d (dw_devs w) -> holders w' id = holders w id - 1 -> counted w' id.
Proof.
  intros Hd Hr Hh Hp Hw Hho. unfold counted. rewrite Hw, Hho. unfold dropped. destruct (decide (dv_refs d = 1)) as [H1|H1].
  - assert (Hz : holders w id - 1 = 0) by lia. destruct on as [e|]; [case_bool_decide|];
      rewrite ?lookup_insert_eq, ?lookup_delete_eq, ?Hz; done.
  - rewrite lookup_insert_eq. cbn [dv_refs dv_hung]. rewrite Hr, Hh. split; [done|]. split; [lia|done].
Qed.

Lemma dropped_dev on id d ds d' : dropped on id d ds !! id = Some d' -> dv_handler d' = dv_handler d.
Proof.
  unfold dropped. destruct (decide _); [destruct on; [case_bool_decide|]|];
    rewrite ?lookup_insert_eq, ?lookup_delete_eq; intros [=]; by subst.
Qed.

Lemma drop_ref_inv n on id d w w' : dw_inv n w -> dw_devs w !! id = Some d -> dv_refs d = holders w id -> dv_hung d = false ->
  0 < holders w id -> dw_devs w' = dropped on id d (dw_devs w) -> holders w' id = holders w id - 1 ->
  (forall j, j <> id -> bridges_of w' j = bridges_of w j) -> (forall j, j <> id -> j ∈ dw_files w' <-> j ∈ dw_files w) ->
  dw_next w' = dw_next w -> dw_bridges w' ⊆ dw_bridges w -> NoDup (dw_bridges w') -> dw_uaf w' = dw_uaf w -> dw_inv (n + 1) w'.
Proof.
  intros HI Hd Hr Hh Hp Hw Hho Hbr Hfl Hnx Hsub Hnd Hu.
  apply (dw_inv_local n _ w _ id); try done; try lia.
  - intros j Hj. by rewrite Hw, dropped_other.
  - by eapply drop_counted.
  - intros d'. rewrite Hw. intros Hd'. pose proof (dropped_dev _ _ _ _ _ Hd') as Heq. destruct (wi_devs n w HI id d Hd) as [Hv Hlt].
    split; [|lia]. eapply (dev_inv_mono n); [lia|]. destruct Hv. split; by rewrite Heq.
  - intros e He. destruct (wi_running n w HI id e) as (d0 & Hd0 & Hrun); [by apply Hsub|]. rewrite Hd in Hd0. injection Hd0 as <-.
    pose proof (bridge_held w' id e He) as Hp'. pose proof (drop_counted on id d w w' Hd Hr Hh Hp Hw Hho) as Hc. unfold counted in Hc.
    destruct (dw_devs w' !! id) as [d'|] eqn:E; [|lia]. exists d'. split; [done|]. rewrite Hw in E. by rewrite (dropped_dev _ _ _ _ _ E).
  - rewrite Hu. apply HI.
Qed.

Lemma close_inv n fd w w' : dw_inv n w -> fd ∈ dw_files w -> snd (snd (misc_release (fd, w))) = w' -> dw_inv (n + 1) w'.
Proof.
  intros HI Hf <-. destruct (close_step n fd w HI Hf) as (d & Hd & Hr & Hh & ->). cbn [snd].
  assert (Hho : dv_refs d = holders w fd) by (unfold holders; by rewrite bool_decide_true).
  pose proof (file_held _ _ Hf).
  apply (drop_ref_inv n None fd d w); cbn [dw_devs dw_files dw_bridges dw_next dw_uaf set_devs set_files]; try done; try apply HI.
  - unfold holders. cbn [dw_files dw_bridges set_devs set_files].
    rewrite (bool_decide_true (fd ∈ dw_files w)), (bool_decide_false (fd ∈ dw_files w ∖ {[fd]})) by set_solver.
    change (bridges_of _ fd) with (bridges_of w fd). cbn [Z.b2z]. lia.
  - set_solver.
Qed.

Lemma ends_inv n dev e w w' : dw_inv n w -> dev_server_ends dev e w = Some w' -> dw_inv (n + 1) w'.
Proof.
  intros HI (d & Hin & Hd & Hr & Hh & He & ->)%(server_ends_step n); [|done].
  pose proof (bridge_held _ _ _ Hin).
  apply (drop_ref_inv n (Some e) dev d w); cbn [dw_devs dw_files dw_bridges dw_next dw_uaf set_devs set_bridges]; try done; try apply HI.
  - unfold holders, bridges_of. cbn [dw_files dw_bridges set_devs set_bridges].
    rewrite (remove_bridge_same _ _ _ (wi_nodup n w HI) Hin). lia.
  - intros j Hj. unfold bridges_of. cbn [dw_bridges set_devs set_bridges]. by apply remove_bridge_other.
  - intros x Hx. by apply list_elem_of_filter in Hx as [_ ?].
  - apply NoDup_filter, HI.
Qed.

Lemma request_inv n dev req w w' : dw_inv n w -> 0 <= n < 2 ^ 32 - 2 -> dev_request dev req w = Some w' -> dw_inv (n + 1) w'.
Proof.
  intros HI Hn (d & H' & a' & e & Hin & Hd & Eb & ->)%(request_step n); [|done].
  pose proof (bridge_start_server req (dv_handler d) (fst (dw_mem w))) as Hs. rewrite Eb in Hs. destruct Hs as [_ Hs].
  destruct (wi_devs n w HI dev d Hd) as [[Ht [Hq1 Hq2] [Hq3 Hq4]] Hlt].
  pose proof (bridge_start_inv req (dv_handler d) (fst (dw_mem w)) Ht ltac:(lia)) as Hi.
  destruct (bridge_start req _) as [o [H1 a1]]. cbn [snd] in Eb. injection Eb as -> ->. destruct Hi as (Ht' & Hr' & Hq').
  apply (dw_inv_local n _ w _ dev); cbn [dw_devs dw_files dw_bridges dw_next dw_uaf set_devs set_mem]; try done; try lia; try apply HI.
  - intros j Hj. by rewrite lookup_insert_ne.
  - pose proof (wi_count n w HI dev) as Hc. unfold counted in *. cbn [dw_devs set_devs set_mem]. rewrite lookup_insert_eq, Hd in *. exact Hc.
  - intros d0. rewrite lookup_insert_eq. intros [= <-]. split; [|done]. split; cbn [dv_handler]; [done|lia|lia].
  - intros x Hx. rewrite lookup_insert_eq. eexists. split; [done|]. cbn [dv_handler]. rewrite Hs.
    destruct (wi_running n w HI _ _ Hx) as (d0 & Hd0 & Hrun). congruence.
Qed.

Lemma dstep_inv n e w w' : dw_inv n w -> 0 <= n < 2 ^ 32 - 2 -> dstep e w = Some w' -> dw_inv (n + 1) w'.
Proof.
  intros HI Hn. destruct e as [misc|fd cmd fl|fd|dev req|dev e]; cbn [dstep].
  - intros <-%(inj Some). apply open_inv; [done|lia].
  - destruct (is_open w fd) eqn:Eo; [|done]. intros <-%(inj Some).
    destruct (cmd_step n cmd fl fd w HI Eo) as (d & r & H' & m' & w' & Hd & Ed & -> & He). cbn [snd].
    apply bool_decide_eq_true in Eo. apply (effect_inv n fd w d H' m'); try done.
    destruct (wi_devs n w HI fd d Hd) as [[Ht [Hq1 Hq2] [Hq3 Hq4]] _]. destruct (dw_mem w) as [a u].
    destruct (dispatch_inv _ _ _ _ _ _ _ _ Ht ltac:(lia) Ed) as (Ht' & Er & Hq). split; cbn [dv_handler]; [done|lia|lia].
  - destruct (is_open w fd) eqn:Eo; [|done]. intros <-%(inj Some). apply bool_decide_eq_true in Eo. by apply (close_inv n fd w).
  - by apply request_inv.
  - by apply ends_inv.
Qed.

Lemma drun_inv es : forall n w w', dw_inv n w -> 0 <= n -> n + lenZ es < 2 ^ 32 - 1 ->
  drun es w = Some w' -> dw_inv (n + lenZ es) w'.
Proof.
  induction es as [|e es IH]; intros n w w' HI Hn Hl; cbn [drun].
  - intros [= <-]. by rewrite Z.add_0_r.
  - replace (lenZ (e :: es)) with (1 + lenZ es) in * by (unfold lenZ; cbn [length]; lia). pose proof (lenZ_nonneg es).
    destruct (dstep e w) as [w1|] eqn:E; cbn [mbind option_bind]; [|done]. intros Hr. rewrite Z.add_assoc.
    apply (IH _ w1); [apply (dstep_inv n e w); [done|lia|done]|lia|lia|done].
Qed.

Definition no_devices (next : Z) (m : ast * umem) (cmds : Z -> io_uring_cmd) : DW := mkDW ∅ ∅ [] next m cmds false.
Lemma no_devices_inv next m cmds : dw_inv 0 (no_devices next m cmds).
Proof. split; cbn; try done; try set_solver. constructor. Qed.

(** Files do not interfere: a step concerns one device and leaves every other handler, and the
    references to it, as they were. *)
Lemma dstep_isolated n e w w' j : dw_inv n w -> dstep e w = Some w' -> j <> target e w ->
  dw_devs w' !! j = dw_devs w !! j /\ holders w' j = holders w j.
Proof.
  intros HI. destruct e as [misc|fd cmd fl|fd|dev req|dev e]; cbn [dstep target].
  - intros <-%(inj Some) Hj. destruct (http_open_cases misc w) as [a [-> | ->]]; [done|]. cbn [dw_devs].
    rewrite lookup_insert_ne by done. split; [done|]. unfold holders. cbn [dw_files]. f_equal. f_equal. apply bool_decide_ext. set_solver.
  - destruct (is_open w fd) eqn:Eo; [|done]. intros <-%(inj Some) Hj.
    destruct (cmd_step n cmd fl fd w HI Eo) as (d & r & H' & m' & w' & Hd & Ed & -> & (brs' & -> & _ & Ho & _)). cbn [snd dw_devs].
    rewrite lookup_insert_ne by done. split; [done|]. unfold holders. cbn [dw_files]. f_equal. f_equal. by apply Ho.
  - destruct (is_open w fd) eqn:Eo; [|done]. intros <-%(inj Some) Hj. apply bool_decide_eq_true in Eo.
    destruct (close_step n fd w HI Eo) as (d & Hd & _ & _ & ->). cbn [snd dw_devs set_devs set_files].
    rewrite dropped_other by done. split; [done|]. unfold holders. cbn [dw_files set_devs set_files]. f_equal. f_equal. apply bool_decide_ext. set_solver.
  - intros (d & H' & a' & e & _ & _ & _ & ->)%(request_step n) Hj; [|done]. cbn [dw_devs set_devs set_mem].
    by rewrite lookup_insert_ne.
  - intros (d & Hin & _ & _ & _ & _ & ->)%(server_ends_step n) Hj; [|done]. cbn [dw_devs set_devs set_bridges].
    rewrite dropped_other by done. split; [done|]. unfold holders, bridges_of. cbn [dw_files dw_bridges set_devs set_bridges].
    by rewrite remove_bridge_other.
Qed.

(** At most one bridge refers to a handler: that of the executor whose handle it owns. *)
Lemma one_bridge n w id e : dw_inv n w -> (id, e) ∈ dw_bridges w ->
  bridges_of w id = [(id, e)] /\ exists d, dw_devs w !! id = Some d /\ hu_executor (dv_handler d) = Some e.
Proof.
  intros HI Hin. destruct (wi_running n w HI _ _ Hin) as (d & Hd & He). destruct (wi_devs n w HI id d Hd) as [[Ht _ _] _].
  assert (Hx : forall b, b ∈ bridges_of w id -> b = (id, e)).
  { intros [i x] [Hi Hb]%list_elem_of_filter. cbn in Hi. subst i. destruct (wi_running n w HI _ _ Hb) as (d0 & Hd0 & Hx).
    rewrite Hd in Hd0. injection Hd0 as <-. rewrite (ui_running _ Ht) in He, Hx.
    destruct (hu_executor (dv_handler d)) as [e0|]; [|by apply not_elem_of_nil in He].
    apply list_elem_of_singleton in He, Hx. congruence. }
  assert (Hm : (id, e) ∈ bridges_of w id) by (by apply list_elem_of_filter).
  assert (Hn : NoDup (bridges_of w id)) by (apply NoDup_filter, HI). split.
  - destruct (bridges_of w id) as [|x [|y l]]; [set_solver|by rewrite (Hx x) by set_solver|].
    rewrite (Hx x), (Hx y) in Hn by set_solver. inversion Hn; set_solver.
  - exists d. split; [done|]. rewrite (ui_running _ Ht) in He.
    destruct (hu_executor (dv_handler d)) as [e0|]; [|by apply not_elem_of_nil in He]. apply list_elem_of_singleton in He. congruence.
Qed.

(** The step that takes the last reference away frees the handler, unless a worker of the
    handler's own executor does. *)
Lemma last_reference_frees n e w w' id : dw_inv n w -> 0 <= n < 2 ^ 32 - 2 -> dstep e w = Some w' ->
  0 < holders w id -> holders w' id = 0 ->
  dw_devs w' !! id = None \/ exists x d, e = DvServerEnds id x /\ dw_devs w' !! id = Some d /\ dv_hung d = true.
Proof.
  intros HI Hn Hs Hp Hz. pose proof (dstep_inv n e w w' HI Hn Hs) as HI'. pose proof (wi_count _ w' HI' id) as Hc. unfold counted in Hc.
  destruct (dw_devs w' !! id) as [d'|] eqn:E; [right|by left]. destruct Hc as [_ Hc].
  assert (dv_hung d' = true) as Hh by (by apply Hc).
  destruct (decide (id = target e w)) as [Ht|Ht]; [|destruct (dstep_isolated n e w w' id HI Hs Ht); lia].
  destruct e as [misc|fd cmd fl|fd|dev req|dev x]; cbn [dstep target] in *; subst id.
  - apply (inj Some) in Hs. subst w'. destruct (http_open_cases misc w) as [a [Hw|Hw]]; rewrite Hw in *;
      [change (holders w (dw_next w) = 0) in Hz; lia|].
    match type of Hz with holders ?x _ = 0 => pose proof (file_held x (dw_next w) ltac:(cbn; set_solver)) end. lia.
  - destruct (is_open w fd) eqn:Eo; [|done]. apply (inj Some) in Hs. subst w'.
    destruct (cmd_step n cmd fl fd w HI Eo) as (d & r & H' & m' & w' & Hd & Ed & Hm & (brs' & -> & _)). rewrite Hm in *. cbn [snd] in *.
    apply bool_decide_eq_true in Eo.
    match type of Hz with holders ?x _ = 0 => pose proof (file_held x fd ltac:(cbn; exact Eo)) end. lia.
  - destruct (is_open w fd) eqn:Eo; [|done]. apply (inj Some) in Hs. subst w'. apply bool_decide_eq_true in Eo.
    destruct (close_step n fd w HI Eo) as (d & Hd & Hr & Hhd & Hm). rewrite Hm in *. cbn [snd dw_devs set_devs set_files] in *.
    unfold dropped in E. destruct (decide _); [by rewrite lookup_delete_eq in E|]. rewrite lookup_insert_eq in E. injection E as <-.
    cbn in Hh. congruence.
  - apply (request_step n) in Hs as (d & H' & a' & e & _ & _ & _ & ->); [|done]. change (holders w dev = 0) in Hz. lia.
  - by exists x, d'.
Qed.

(** C39. Every handler of /dev/rko_http is there exactly as long as it is needed: the counts,
    which change only where the code clones or drops an [Arc], always equal the number of
    references, no freed handler is ever reached, a handler with a reference is there, the step
    that drops the last reference frees it, except that a worker of the handler's own
    executor hangs in that drop, and no other handler is left without references.  The tables
    of each handler stay consistent, at most one server refers to it, and a step of one file
    leaves the other handlers alone. *)
Theorem device_handlers_consistent (es : list devent) (next : Z) (m : ast * umem) (cmds : Z -> io_uring_cmd) (w : DW) :
  lenZ es < 2 ^ 32 - 2 -> drun es (no_devices next m cmds) = Some w ->
  dw_uaf w = false /\
  (forall id, match dw_devs w !! id with
     | Some d => uring_inv (dv_handler d) /\ dv_refs d = holders w id /\ (holders w id = 0 <-> dv_hung d = true)
     | None => holders w id = 0
     end) /\
  (forall id e, (id, e) ∈ dw_bridges w ->
     bridges_of w id = [(id, e)] /\ exists d, dw_devs w !! id = Some d /\ hu_executor (dv_handler d) = Some e) /\
  (forall e w', dstep e w = Some w' ->
     (forall id, 0 < holders w id -> holders w' id = 0 ->
        dw_devs w' !! id = None \/ exists x d, e = DvServerEnds id x /\ dw_devs w' !! id = Some d /\ dv_hung d = true) /\
     (forall j, j <> target e w -> dw_devs w' !! j = dw_devs w !! j /\ holders w' j = holders w j)).
Proof.
  intros Hl Hr. pose proof (lenZ_nonneg es).
  pose proof (drun_inv es 0 _ w (no_devices_inv next m cmds) ltac:(lia) ltac:(lia) Hr) as HI. split_and!.
  - apply HI.
  - intros id. pose proof (wi_count _ w HI id) as Hc. unfold counted in Hc. destruct (dw_devs w !! id) as [d|] eqn:E; [|done].
    destruct (wi_devs _ w HI id d E) as [[Ht _ _] _]. done.
  - intros id e. by eapply one_bridge.
  - intros e w' Hs. split.
    + intros id. eapply last_reference_frees; [exact HI|lia|done].
    + intros j. by eapply dstep_isolated.
Qed.

(** SERVER_STOP and then closing the file frees the handler. *)
Theorem stop_then_close_frees (n : Z) (w : DW) (fd cmd fl : Z) :
  dw_inv n w -> 0 <= n < 2 ^ 32 - 3 -> fd ∈ dw_files w -> cmd_op w cmd = HTTP_CMD_SERVER_STOP ->
  exists w1 w2, misc_uring_cmd cmd fl (fd, w) = (Ok 0, (fd, w1)) /\ misc_release (fd, w1) = (Ok 0, (fd, w2)) /\
    dw_devs w2 !! fd = None.
Proof.
  intros HI Hn Hf Ho. assert (Eo : is_open w fd = true) by (by apply bool_decide_eq_true).
  destruct (cmd_step n cmd fl fd w HI Eo) as (d & r & H' & m' & w1 & Hd & Ed & Hm & He).
  assert (Hs : dstep (DvCmd fd cmd fl) w = Some w1) by (cbn [dstep]; by rewrite Eo, Hm).
  pose proof (dstep_inv n _ w w1 HI ltac:(lia) Hs) as HI1.
  destruct (wi_devs n w HI fd d Hd) as [[Ht _ _] _]. rewrite Ho in Ed. injection Ed as <- <- <-.
  destruct He as (brs' & -> & Hnd & _ & Hrun). cbn [hu_running set_server] in Hrun. rewrite (stop_held _ Ht) in Hrun.
  assert (Hb : filter (fun b : Z * nat => fst b = fd) brs' = []).
  { destruct (filter _ brs') as [|[i e] l] eqn:E; [done|exfalso].
    assert ((i, e) ∈ filter (fun b : Z * nat => fst b = fd) brs') as Hin by (rewrite E; set_solver).
    apply list_elem_of_filter in Hin as [Hi Hin]. cbn in Hi. subst i. apply Hrun in Hin. set_solver. }
  set (w1 := mkDW _ _ _ _ _ _ _) in *.
  destruct (close_step (n + 1) fd w1 HI1 Hf) as (d1 & Hd1 & Hr1 & _ & Hc1).
  exists w1. eexists. split; [exact Hm|]. split; [exact Hc1|]. cbn [dw_devs set_devs set_files].
  unfold bridges_of, w1 in Hr1. cbn [dw_bridges] in Hr1. rewrite Hb in Hr1.
  unfold dropped. rewrite decide_True by exact Hr1. apply lookup_delete_eq.
Qed.

(** Closing the file while its server runs leaves the handler, its executor and its
    listener behind, and nothing that can happen afterwards frees them: no command can
    reach the handler any more, and a server that ends by itself stops in the drop of its
    own executor. *)
Definition stranded (e : nat) (id : Z) (w : DW) : Prop :=
  id ∉ dw_files w /\ id < dw_next w /\ exists d, dw_devs w !! id = Some d /\ hu_executor (dv_handler d) = Some e.

Lemma stranded_step n ev w w' id e : dw_inv n w -> stranded e id w -> dstep ev w = Some w' -> stranded e id w'.
Proof.
  intros HI (Hf & Hlt & d & Hd & He) Hs.
  destruct ev as [misc|fd cmd fl|fd|dev req|dev x]; cbn [dstep] in Hs.
  - apply (inj Some) in Hs. subst w'. destruct (http_open_cases misc w) as [a [-> | ->]].
    + split; [done|]. split; [done|]. by exists d.
    + split; [cbn; apply not_elem_of_union; split; [|done]; intros H%elem_of_singleton; lia|]. split; [cbn; lia|].
      exists d. cbn. rewrite lookup_insert_ne by lia. done.
  - destruct (is_open w fd) eqn:Eo; [|done]. apply (inj Some) in Hs. subst w'.
    destruct (cmd_step n cmd fl fd w HI Eo) as (d0 & r & H' & m' & w' & Hd0 & _ & -> & (brs' & -> & _)). cbn [snd].
    apply bool_decide_eq_true in Eo. split; [done|]. split; [done|]. exists d. cbn. rewrite lookup_insert_ne; [done|congruence].
  - destruct (is_open w fd) eqn:Eo; [|done]. apply (inj Some) in Hs. subst w'. apply bool_decide_eq_true in Eo.
    destruct (close_step n fd w HI Eo) as (d0 & Hd0 & _ & _ & ->). cbn [snd]. split; [cbn; set_solver|]. split; [done|].
    exists d. cbn. rewrite dropped_other; [done|congruence].
  - apply (request_step n) in Hs as (d0 & H' & a' & e0 & _ & Hd0 & Eb & ->); [|done]. split; [done|]. split; [done|]. cbn.
    destruct (decide (dev = id)) as [->|Hne]; [|exists d; by rewrite lookup_insert_ne].
    rewrite Hd in Hd0. injection Hd0 as <-. pose proof (bridge_start_server req (dv_handler d) (fst (dw_mem w))) as Hk.
    rewrite Eb in Hk. destruct Hk as [Hk _]. eexists. rewrite lookup_insert_eq. split; [done|]. cbn. congruence.
  - apply (server_ends_step n) in Hs as (d0 & Hin & Hd0 & Hr & Hh & Hx & ->); [|done]. split; [done|]. split; [done|]. cbn.
    destruct (decide (dev = id)) as [->|Hne]; [|exists d; rewrite dropped_other by congruence; done].
    rewrite Hd in Hd0. injection Hd0 as <-. destruct (one_bridge n w id x HI Hin) as [Hb _].
    assert (dv_refs d = 1) as Hr1 by (rewrite Hr; unfold holders; rewrite Hb, bool_decide_false by done; reflexivity).
    unfold dropped. rewrite decide_True, bool_decide_true by done. eexists. rewrite lookup_insert_eq. split; [done|]. cbn. congruence.
Qed.

Theorem closed_server_never_freed (n : Z) (w : DW) (fd : Z) (e : nat) (es : list devent) :
  dw_inv n w -> 0 <= n -> n + lenZ es < 2 ^ 32 - 2 -> fd ∈ dw_files w -> (fd, e) ∈ dw_bridges w ->
  exists w1, misc_release (fd, w) = (Ok 0, (fd, w1)) /\
    forall w', drun es w1 = Some w' -> exists d', dw_devs w' !! fd = Some d' /\ hu_executor (dv_handler d') = Some e.
Proof.
  intros HI Hn Hl Hf Hb. destruct (one_bridge n w fd e HI Hb) as [Hbr (d0 & Hd0 & He)].
  destruct (close_step n fd w HI Hf) as (d & Hd & Hr & _ & Hc). rewrite Hd0 in Hd. injection Hd as <-.
  eexists. split; [exact Hc|]. set (w1 := set_devs _ _) in *.
  assert (HI1 : dw_inv (n + 1) w1) by (apply (close_inv n fd w); [done|done|by rewrite Hc]).
  assert (Hst : stranded e fd w1).
  { split; [cbn; set_solver|]. split; [by destruct (wi_devs n w HI _ _ Hd0)|]. eexists. cbn.
    unfold dropped. rewrite decide_False by (rewrite Hr, Hbr; unfold lenZ; cbn; lia). rewrite lookup_insert_eq.
    split; [reflexivity|exact He]. }
  assert (n + 1 + lenZ es < 2 ^ 32 - 1) as Hl1 by lia. assert (0 <= n + 1) as Hn1 by lia.
  clearbody w1. clear -HI1 Hst Hl1 Hn1. revert w1 HI1 Hst Hl1 Hn1. generalize (n + 1) as k.
  induction es as [|ev es IH]; intros k w1 HI Hst Hl Hk w'; cbn [drun].
  - intros [= <-]. by destruct Hst as (_ & _ & ?).
  - replace (lenZ (ev :: es)) with (1 + lenZ es) in * by (unfold lenZ; cbn [length]; lia). pose proof (lenZ_nonneg es).
    destruct (dstep ev w1) as [w2|] eqn:E; cbn [mbind option_bind]; [|done].
    apply (IH (k + 1)); [by apply (dstep_inv k ev w1); [done|lia|]|by apply (stranded_step k ev w1 w2 fd e)|lia|lia].
Qed.
End DeviceFacts.

(** ** Concrete runs: two files; the first starts a server and is closed without stopping it,
    and the server's listener fails later. *)
Definition toy_cmds (c : Z) : io_uring_cmd :=
  match c with
  | 0 => mkCmd HTTP_CMD_SERVER_START (le_encode 4 0 ++ le_encode 2 80)
  | 1 => mkCmd HTTP_CMD_SERVER_STOP []
  | _ => mkCmd HTTP_CMD_CREATE_QUEUE (le_encode 4 1)
  end.
Definition toy_dev_run (es : list devent) : option (@DW bool_alloc toy_umem) :=
  @drun linux_errno bool_alloc toy_umem toy_start es (@no_devices bool_alloc toy_umem 100 (tt, []) toy_cmds).

(** The count of a handler and whether its drop hangs; the bridges that are left. *)
Definition dev_view `{VA : VecAlloc, UM : UserMem} (id : Z) (w : DW) : option (Z * bool) * list (Z * nat) :=
  ((fun d => (dv_refs d, dv_hung d)) <$> dw_devs w !! id, dw_bridges w).

Example close_after_stop : dev_view 100 <$>
  toy_dev_run [DvOpen 7; DvOpen 7; DvCmd 100 0 0; DvCmd 101 2 0; DvCmd 100 1 0; DvClose 100] = Some (None, []).
Proof. vm_compute. reflexivity. Qed.
Example close_without_stop : dev_view 100 <$>
  toy_dev_run [DvOpen 7; DvOpen 7; DvCmd 100 0 0; DvCmd 101 2 0; DvClose 100; DvRequest 100 toy_request] =
  Some (Some (1, false), [(100, O)]).
Proof. vm_compute. reflexivity. Qed.
Example second_start_replaces : dev_view 100 <$>
  toy_dev_run [DvOpen 7; DvCmd 100 0 0; DvCmd 100 0 0] = Some (Some (2, false), [(100, 1%nat)]).
Proof. vm_compute. reflexivity. Qed.
Example server_ends_after_close : dev_view 100 <$>
  toy_dev_run [DvOpen 7; DvOpen 7; DvCmd 100 0 0; DvCmd 101 2 0; DvClose 100; DvServerEnds 100 0] =
  Some (Some (0, true), []).
Proof. vm_compute. reflexivity. Qed.

Definition toy_dev_events : list devent := [DvOpen 7; DvOpen 7; DvCmd 100 0 0; DvCmd 101 2 0; DvRequest 100 toy_request].

Lemma device_handlers_consistent_witness :
  match toy_dev_run toy_dev_events with
  | Some w => dw_uaf w = false /\ (forall id e, (id, e) ∈ dw_bridges w -> bridges_of w id = [(id, e)]) /\ dw_bridges w = [(100, O)]
  | None => False
  end.
Proof.
  destruct (toy_dev_run toy_dev_events) as [w|] eqn:E.
  - destruct (@device_handlers_consistent linux_errno bool_alloc toy_umem toy_start toy_dev_events 100 (tt, []) toy_cmds w)
      as (H1 & _ & H2 & _); [vm_compute; reflexivity|exact E|].
    split; [exact H1|]. split; [intros id e He; exact (proj1 (H2 id e He))|].
    assert (dw_bridges <$> toy_dev_run toy_dev_events = Some [(100, O)]) as Hb by (vm_compute; reflexivity).
    rewrite E in Hb. injection Hb as Hb. exact Hb.
  - assert (is_Some (toy_dev_run toy_dev_events)) as [w Hw] by (vm_compute; eauto). congruence.
Defined.
