(* ===== verification/UringSession.v ===== *)
(** * Serving HTTP from userspace (rko-util/src/http/uring.rs with server.rs, and
      rko-test-uring/src/main.rs)

    The whole path of a request: the connection parses it ([HttpServer]), the bridge queues
    it ([HttpUring]), a program receives it with RECV_REQUEST, answers with SEND_RESPONSE,
    and the connection writes the answer.  [user_serve] is the protocol for a program with
    any answer function; [main] is the test program of the repository, which runs on the
    device of [HttpDevice].  The program's own memory is the interface [UserSpace]. *)
From Stdlib Require Import ZArith Lia Bool.
From Stdlib.Strings Require Import Byte String.
From stdpp Require Import base list option numbers gmap sets.
From S2P Require Import Prelude Errors KVec Stream Net HttpTypes HttpReader HttpParse HttpWire HttpServer HttpUring Boxes Registry HttpDevice.

(** What a program does with its own memory, and which buffers are its own. *)
Class UserSpace (UM : UserMem) := {
  user_store : Z -> bytes -> umem -> umem;
  mapped : Z -> Z -> Prop
}.

(** The copies between the kernel and mapped user memory are complete and move the bytes. *)
Class UserSpaceOk (UM : UserMem) (US : UserSpace UM) : Prop := {
  copy_to_mapped a d u n : mapped a n -> lenZ d <= n ->
    exists u', copy_to_user a d u = (0, u') /\ user_load a (lenZ d) u' = Some d;
  store_mapped a d u n : mapped a n -> lenZ d <= n -> user_load a (lenZ d) (user_store a d u) = Some d;
  copy_from_mapped a k u d n : mapped a n -> k <= n -> user_load a k u = Some d -> copy_from_user a k u = (0, d);
  copy_from_bound a k u : 0 <= k -> lenZ (snd (copy_from_user a k u)) <= k
}.

(** [submit_cmd]: the command's 80 bytes, the data cut and padded with zeros. *)
Definition pad80 (cmd_data : bytes) : bytes :=
  let len := Nat.min (length cmd_data) 80 in
  take len cmd_data ++ replicate (80 - len) x00.

(** The payloads [main] writes, field by field. *)
Definition recv_cmd (queue_id buf_len buf_addr : Z) : bytes :=
  le_encode 4 queue_id ++ le_encode 4 buf_len ++ le_encode 8 buf_addr.
Definition send_cmd (req_id status body_len body_addr : Z) : bytes :=
  le_encode 8 req_id ++ le_encode 2 status ++ le_encode 2 0 ++ le_encode 4 body_len ++ le_encode 8 body_addr.

(** A request as the program sees it, without the id the kernel gave it. *)
Definition content (d : decoded) : decoded :=
  mkDecoded 0 (de_method d) (de_version d) (de_path d) (de_headers d) (de_body d).
Definition user_view (q : Request) : decoded :=
  mkDecoded 0 (req_method q) (req_version q) (req_path q) (req_headers q) (req_body q).

Section Session.
Context `{KE : KernelErrno, VA : VecAlloc, UM : UserMem, SS : !ServerStart, US : !UserSpace UM}.
(** The program's queue, its buffers, and how it answers: status and body. *)
Context (qid buf len out : Z) (respond : decoded -> Z * bytes).

(** One turn of the program: receive, decode, answer. *)
Definition user_serve : M UW Error unit := fun w =>
  match dispatch HTTP_CMD_RECV_REQUEST (pad80 (recv_cmd qid len buf)) w with
  | (Ok n, (H, (a, u))) =>
      if n <? 0 then (Err (from_errno n), (H, (a, u)))
      else
        match user_load buf n u ≫= decode_request with
        | None => (Err EINVAL, (H, (a, u)))
        | Some d =>
            let '(status, body) := respond (content d) in
            let u' := user_store out body u in
            match dispatch HTTP_CMD_SEND_RESPONSE (pad80 (send_cmd (de_req_id d) status (lenZ body) out)) (H, (a, u')) with
            | (Ok r, w') => if r <? 0 then (Err (from_errno r), w') else (Ok tt, w')
            | (Err e, w') => (Err e, w')
            | (Panic, w') => (Panic, w')
            | (Ub, w') => (Ub, w')
            | (Pending, w') => (Pending, w')
            end
        end
  | (Err e, w') => (Err e, w')
  | (Panic, w') => (Panic, w')
  | (Ub, w') => (Ub, w')
  | (Pending, w') => (Pending, w')
  end.

(** [UringBridgeHandler::handle] with one turn of the program while it waits.  The await has
    no timeout: a bridge whose channel the program neither answers nor closes waits for
    good ([None]). *)
Definition uring_handle (q : Request) : UW -> option Response * UW := fun '(H, (a, u)) =>
  match bridge_start q (H, a) with
  | (inl r, (H', a')) => (Some r, (H', (a', u)))
  | (inr ch, (H', a')) =>
      let '(_, (H'', w'')) := user_serve (H', (a', u)) in (bridge_poll ch H'', (H'', w''))
  end.

(** What a client is meant to see. *)
Definition expected (routes : list (bytes * Z)) (q : Request) : Response :=
  match route (req_path q) routes with
  | None => empty_response NOT_FOUND
  | Some _ => let '(status, body) := respond (user_view q) in mkResponse (mkStatus status) Http11 headers_new body
  end.

(** The program is between two requests: its queue exists, is empty and has room. *)
Record idle (n : Z) (H : Handler) : Prop := {
  id_inv : uring_inv H;
  id_req : 0 < hu_next_req H <= n;
  id_queue_ctr : 0 < hu_next_queue H < 2 ^ 32 - 1;
  id_queue : exists q, find_queue qid (hu_queues H) = Some q /\ q_buffered q = [] /\ 0 < q_max_pending q;
  id_routes : forall p q, (p, q) ∈ hu_routes H -> q = qid
}.
End Session.

(** ** Payloads *)
Lemma pad80_short c : (length c <= 80)%nat -> pad80 c = c ++ replicate (80 - length c) x00.
Proof. intros Hc. unfold pad80. rewrite Nat.min_l by lia. by rewrite take_ge by lia. Qed.

Lemma fld_pad80 c off n : (length c <= 80)%nat -> (off + n <= length c)%nat -> fld (pad80 c) off n = fld c off n.
Proof. intros Hc Ho. rewrite pad80_short by done. by apply fld_app_l. Qed.

Lemma read_recv_cmd qid len buf : 0 <= qid < 2 ^ 32 -> 0 <= len < 2 ^ 32 -> 0 <= buf < 2 ^ 64 ->
  read_cmd_recv (pad80 (recv_cmd qid len buf)) = mkCmdRecv qid len buf.
Proof.
  intros Hq Hl Hb. unfold read_cmd_recv.
  assert (length (recv_cmd qid len buf) = 16%nat) as Hn by (unfold recv_cmd; by rewrite !length_app, !le_encode_length).
  rewrite !fld_pad80 by (rewrite Hn; lia). unfold recv_cmd.
  f_equal; fld_at; rewrite ?fld_le_encode; try done; simpl; lia.
Qed.

Lemma read_send_cmd id status blen addr :
  0 <= id < 2 ^ 64 -> 0 <= status < 2 ^ 16 -> 0 <= blen < 2 ^ 32 -> 0 <= addr < 2 ^ 64 ->
  let p := read_cmd_send (pad80 (send_cmd id status blen addr)) in
  sr_req_id p = id /\ sr_status_code p = status /\ sr_body_len p = blen /\ sr_buf_addr p = addr.
Proof.
  intros Hi Hs Hb Ha. unfold read_cmd_send. cbv zeta.
  assert (length (send_cmd id status blen addr) = 24%nat) as Hn by (unfold send_cmd; by rewrite !length_app, !le_encode_length).
  cbn [sr_req_id sr_status_code sr_body_len sr_buf_addr].
  rewrite !fld_pad80 by (rewrite Hn; lia). unfold send_cmd.
  split_and!; fld_at; rewrite ?fld_le_encode; try done; simpl; lia.
Qed.

Section SessionFacts.
Context `{KE : KernelErrno, VA : VecAlloc, UM : UserMem, SS : !ServerStart, US : !UserSpace UM}.
Context {USok : UserSpaceOk UM US}.
Context (qid buf len out : Z) (respond : decoded -> Z * bytes).

(** ** Every answer of the bridge can be written *)
Lemma reason_short s : (length (reason s) <= 31)%nat.
Proof.
  unfold reason. assert (Forall (fun x => (length (snd x) <= 31)%nat) reason_table) as Ht.
  { unfold reason_table. repeat constructor; vm_compute; lia. }
  induction Ht as [|[c t] l Hx Hl IH]; cbn [reason_lookup]; [vm_compute; lia|]. by destruct (_ =? c).
Qed.

Lemma plain_response_ok status body : 0 <= status < 2 ^ 16 -> lenZ body < 2 ^ 32 ->
  response_ok (mkResponse (mkStatus status) Http11 headers_new body).
Proof.
  intros Hs Hb. split; [done|]. cbn [resp_body]. unfold isize_max. split; [|lia].
  unfold render_response_head, wire_response_headers, header_lines, headers_new.
  cbn [resp_version resp_status resp_headers resp_body as_u16 app fmap list_fmap concat]. unfold header_line. rewrite !lenZ_app.
  pose proof (reason_short (mkStatus status)) as Hr. pose proof (lenZ_nonneg body).
  destruct (format_usize_spec (E := Error) 5 status) as (d5 & _ & -> & _ & _ & _ & H5); [lia|lia|].
  destruct (format_usize_spec (E := Error) 20 (lenZ body)) as (d20 & _ & -> & _ & _ & _ & H20); [lia|lia|].
  change (lenZ (version_as_str Http11)) with 8. change (lenZ (bs " ")) with 1. change (lenZ (bs ": ")) with 2.
  change (lenZ crlf) with 2. change (lenZ CONTENT_LENGTH) with 14. change (lenZ (@nil byte)) with 0. unfold lenZ in *. lia.
Qed.

Definition chan_ok (ch : nat) (H : Handler) : Prop :=
  forall r, hu_chans H !! ch = Some (ChSent r) -> response_ok r.

Lemma recv_chans c w : hu_chans (fst (snd (dispatch HTTP_CMD_RECV_REQUEST c w))) = hu_chans (fst w).
Proof.
  change (dispatch HTTP_CMD_RECV_REQUEST c) with (cmd_recv_request c). destruct w as [H [a u]]. unfold cmd_recv_request. cbv zeta.
  destruct (find_queue _ _) as [q0|]; [|done]. destruct (q_buffered q0) as [|[? ?] ?]; [done|].
  destruct (copy_to_user _ _ _) as [pe ?]. by destruct (pe =? 0).
Qed.

Lemma send_chans c w ch : chan_ok ch (fst w) -> chan_ok ch (fst (snd (dispatch HTTP_CMD_SEND_RESPONSE c w))).
Proof.
  change (dispatch HTTP_CMD_SEND_RESPONSE c) with (cmd_send_response c). destruct w as [H [a u]]. cbn [fst]. intros Hc.
  unfold cmd_send_response. cbv zeta. set (p := read_cmd_send c).
  destruct (position _ _) as [i|]; [|done]. destruct (hu_pending H !! i) as [[? c']|]; [|done].
  assert (forall x H1, hu_chans H1 = hu_chans H -> (forall r, x = ChSent r -> response_ok r) ->
    chan_ok ch (set_chans (<[c' := x]> (hu_chans H1)) H1)) as Hput.
  { intros x H1 E Hx r. cbn [hu_chans set_chans]. rewrite E. destruct (decide (ch = c')) as [->|Hne].
    - destruct (decide (c' < length (hu_chans H))%nat).
      + rewrite list_lookup_insert_eq by done. intros [= ->]. by apply Hx.
      + rewrite lookup_ge_None_2; [done|]. rewrite length_insert. lia.
    - rewrite list_lookup_insert_ne by done. apply Hc. }
  assert (0 <= sr_status_code p < 2 ^ 16) as Hst by apply (fld_range c 8 2).
  assert (0 <= sr_body_len p < 2 ^ 32) as Hbl by apply (fld_range c 12 4).
  destruct (_ && _).
  - destruct (kv_with_capacity a) as [[?|?| | |] a1]; try (apply Hput; by intros).
    pose proof (copy_from_bound (sr_buf_addr p) (sr_body_len p) u ltac:(lia)) as Hl.
    destruct (copy_from_user _ _ u) as [pe body]. cbn [snd] in Hl. destruct (pe =? 0); apply Hput; try done.
    intros r [= <-]. apply plain_response_ok; [done|lia].
  - apply Hput; [done|]. intros r [= <-]. apply plain_response_ok; [done|]. vm_compute. done.
Qed.

Lemma user_serve_chans w ch : chan_ok ch (fst w) -> chan_ok ch (fst (snd (user_serve qid buf len out respond w))).
Proof.
  intros Hc. unfold user_serve. pose proof (recv_chans (pad80 (recv_cmd qid len buf)) w) as Hr.
  destruct (dispatch HTTP_CMD_RECV_REQUEST _ w) as [o1 [H1 [a1 u1]]]. cbn [fst snd] in Hr.
  assert (chan_ok ch H1) as H1c by (unfold chan_ok; by rewrite Hr).
  destruct o1; try done. destruct (_ <? 0); [done|]. destruct (_ ≫= _) as [d|]; [|done]. destruct (respond _) as [st' bd'].
  match goal with |- context [dispatch HTTP_CMD_SEND_RESPONSE ?c ?x] => pose proof (send_chans c x ch H1c) as Hs;
    destruct (dispatch HTTP_CMD_SEND_RESPONSE c x) as [o2 w2] end.
  destruct o2; try done. by destruct (_ <? 0).
Qed.

Lemma bridge_start_chan q H a : match bridge_start q (H, a) with
  | (inl r, _) => response_ok r
  | (inr ch, (H', _)) => chan_ok ch H'
  end.
Proof.
  unfold bridge_start. cbv zeta. destruct (serialize_request _ _ a) as [s a1].
  destruct (route _ _) as [x|]; [|by apply plain_response_ok; vm_compute].
  destruct s; try by apply plain_response_ok; vm_compute.
  destruct (kv_try tt a1) as [[?|?| | |] a2]; try by apply plain_response_ok; vm_compute.
  destruct (enqueue_serialized _ _ _ _ _) as [H' a'] eqn:E. intros r. revert E. unfold enqueue_serialized.
  cbn [hu_chans set_chans hu_pending set_next_req].
  assert (forall H1, hu_chans H1 = hu_chans H ++ [ChEmpty] \/ hu_chans H1 = <[length (hu_chans H) := ChClosed]> (hu_chans H ++ [ChEmpty]) ->
    hu_chans H1 !! length (hu_chans H) = Some (ChSent r) -> False) as Hno.
  { intros H1 [-> | ->]; [by rewrite list_lookup_middle|]. rewrite list_lookup_insert_eq; [done|]. rewrite length_app. cbn. lia. }
  destruct (kv_push (hu_pending H) _ a2) as [o b3].
  destruct o; (destruct (find_queue _ _) as [q0|]; [destruct (_ <? _); [destruct (kv_push _ _ b3) as [[?|?| | |] b4]|]|]);
    intros [= <- <-] Hx; exfalso; revert Hx; apply Hno; cbn; by auto.
Qed.

Lemma uring_handle_ok q w r w' : uring_handle qid buf len out respond q w = (Some r, w') -> response_ok r.
Proof.
  destruct w as [H [a u]]. unfold uring_handle. pose proof (bridge_start_chan q H a) as Hb.
  destruct (bridge_start q (H, a)) as [[r1|ch] [H' a']]; [by intros [= <- <-]|].
  pose proof (user_serve_chans (H', (a', u)) ch Hb) as Hs. destruct (user_serve _ _ _ _ _ _) as [o [H2 w2]]. cbn [fst snd] in *.
  unfold bridge_poll. destruct (hu_chans H2 !! ch) as [[|r1|]|] eqn:E; intros [= <- <-]; [by apply (Hs r1)|].
  by apply plain_response_ok; vm_compute.
Qed.

(** ** One exchange *)
Section Granted.
Context {Hgrants : AlwaysGrants VA}.
Hypothesis qid_u32 : 0 <= qid < 2 ^ 32.
Hypothesis buf_mapped : mapped buf len.
Hypothesis buf_addr : 0 <= buf < 2 ^ 64.
Hypothesis len_i32 : 0 <= len < 2 ^ 31.
Hypothesis out_mapped : forall d, mapped out (lenZ (snd (respond d))).
Hypothesis out_addr : 0 < out < 2 ^ 64.
Hypothesis respond_ok : forall d, 0 <= fst (respond d) < 2 ^ 16 /\ lenZ (snd (respond d)) < 2 ^ 32.

Lemma serialize_request_granted id q a : request_fits q ->
  exists a', serialize_request id q a = (Ok (request_bytes id q), a').
Proof.
  intros Hf. destruct (serialize_request_bytes id q a Hf) as [a' [->|He]]; [by eauto|]. exfalso. revert He.
  unfold serialize_request, m_bind, m_map_err, kv_with_capacity.
  destruct (kv_try_granted (@nil byte) a) as [a1 ->]. cbn beta iota zeta.
  destruct (kv_push_all_ignored _ _ a1) as [b2 a2]. destruct (kv_push_all_ignored _ _ a2) as [b3 a3].
  destruct (push_headers _ _ a3) as [b4 a4]. by destruct (kv_push_all_ignored _ _ a4) as [b5 a5].
Qed.

(** The handler after the bridge has queued the request under a fresh id. *)
Definition queued (q : Request) (H : Handler) : Handler :=
  let id := hu_next_req H in
  set_queues (update_queue qid [(id, request_bytes id q)] (hu_queues H))
    (set_pending (hu_pending H ++ [(id, length (hu_chans H))])
       (set_chans (hu_chans H ++ [ChEmpty]) (set_next_req (id + 1) H))).

Lemma bridge_start_granted n q H a : idle qid n H -> n < 2 ^ 64 - 1 -> request_fits q -> route (req_path q) (hu_routes H) = Some qid ->
  exists a', bridge_start q (H, a) = (inr (length (hu_chans H)), (queued q H, a')).
Proof.
  intros HI Hn Hf Hr. destruct HI as [Hu Hreq _ (qq & Hq & Hb & Hmax) _]. unfold bridge_start. cbv zeta.
  rewrite wrap_small by lia. destruct (serialize_request_granted (hu_next_req H) q a Hf) as [a1 ->].
  cbn [hu_routes set_next_req]. rewrite Hr. destruct (kv_try_granted tt a1) as [a2 ->]. cbn [hu_chans set_next_req].
  unfold enqueue_serialized, kv_push. cbn [hu_pending set_chans set_next_req].
  destruct (kv_try_granted (hu_pending H ++ [(hu_next_req H, length (hu_chans H))]) a2) as [a3 ->].
  cbn [hu_queues set_pending set_chans set_next_req]. rewrite Hq, Hb. change (wrap 32 (lenZ [])) with 0.
  destruct (0 <? q_max_pending qq) eqn:E; [|blia].
  destruct (kv_try_granted ([] ++ [(hu_next_req H, request_bytes (hu_next_req H) q)]) a3) as [a4 ->]. by exists a4.
Qed.

Lemma recv_granted H a u q id data rest : find_queue qid (hu_queues H) = Some q -> q_buffered q = (id, data) :: rest ->
  lenZ data <= len ->
  exists u', dispatch HTTP_CMD_RECV_REQUEST (pad80 (recv_cmd qid len buf)) (H, (a, u)) =
    (Ok (lenZ data), (set_queues (update_queue qid rest (hu_queues H)) H, (a, u'))) /\
    user_load buf (lenZ data) u' = Some data.
Proof.
  intros Hq Hb Hl. change (dispatch HTTP_CMD_RECV_REQUEST ?c) with (cmd_recv_request c). unfold cmd_recv_request. cbv zeta.
  rewrite read_recv_cmd by lia. cbn [rr_queue_id rr_buf_len rr_buf_addr]. rewrite Hq, Hb, Z.min_l by lia.
  replace (take (Z.to_nat (lenZ data)) data) with data by (rewrite take_ge; [done|unfold lenZ; lia]).
  destruct (copy_to_mapped buf data u len buf_mapped Hl) as (u' & -> & Hload). exists u'. split; [|done].
  cbn [Z.eqb]. pose proof (lenZ_nonneg data). by rewrite sext_small by lia.
Qed.

Lemma pending_position (l : list (Z * nat)) id ch : NoDup (fst <$> l) -> (id, ch) ∈ l ->
  exists i, position (has_id id) l = Some i /\ l !! i = Some (id, ch).
Proof.
  intros Hn Hin. destruct (position (has_id id) l) as [i|] eqn:E.
  - exists i. split; [done|]. destruct (position_has_id _ _ _ E) as [c Hi]. rewrite Hi. do 2 f_equal.
    apply list_elem_of_lookup in Hin as [j Hj].
    assert (i = j) as <-; [|congruence].
    eapply NoDup_lookup; [exact Hn| |]; rewrite list_lookup_fmap; [by rewrite Hi|by rewrite Hj].
  - exfalso. apply position_None in E. rewrite Forall_forall in E. specialize (E _ Hin). unfold has_id in E. cbn in E. blia.
Qed.

Lemma send_granted H a u id ch status body : NoDup (fst <$> hu_pending H) -> (id, ch) ∈ hu_pending H ->
  0 <= id < 2 ^ 64 -> 0 <= status < 2 ^ 16 -> lenZ body < 2 ^ 32 -> mapped out (lenZ body) ->
  user_load out (lenZ body) u = Some body ->
  exists i a', dispatch HTTP_CMD_SEND_RESPONSE (pad80 (send_cmd id status (lenZ body) out)) (H, (a, u)) =
    (Ok 0, (chan_send ch (mkResponse (mkStatus status) Http11 headers_new body)
              (set_pending (remove_at i (hu_pending H)) H), (a', u))).
Proof.
  intros Hn Hin Hid Hs Hb Hm Hl. change (dispatch HTTP_CMD_SEND_RESPONSE ?c) with (cmd_send_response c).
  unfold cmd_send_response. cbv zeta. pose proof (lenZ_nonneg body).
  destruct (read_send_cmd id status (lenZ body) out Hid Hs ltac:(lia) ltac:(lia)) as (-> & -> & -> & ->).
  destruct (pending_position _ _ _ Hn Hin) as (i & -> & ->). exists i.
  destruct (0 <? lenZ body) eqn:E; cbn [andb].
  - destruct (out =? 0) eqn:E0; [blia|]. cbn [negb]. unfold kv_with_capacity.
    destruct (kv_try_granted (@nil byte) a) as [a1 ->].
    rewrite (copy_from_mapped out (lenZ body) u body _ Hm ltac:(lia) Hl). cbn [Z.eqb]. by exists a1.
  - destruct body; [by exists a|]. unfold lenZ in E. cbn [length] in E. blia.
Qed.

Lemma recv_queue_counter c w r H1 w1 : dispatch HTTP_CMD_RECV_REQUEST c w = (r, (H1, w1)) ->
  hu_next_queue H1 = hu_next_queue (fst w).
Proof.
  change (dispatch HTTP_CMD_RECV_REQUEST c) with (cmd_recv_request c). destruct w as [H [a u]]. unfold cmd_recv_request. cbv zeta.
  destruct (find_queue _ _) as [q0|]; [|by intros [= <- <- <-]]. destruct (q_buffered q0) as [|[? ?] ?]; [by intros [= <- <- <-]|].
  destruct (copy_to_user _ _ _) as [pe ?]. destruct (pe =? 0); by intros [= <- <- <-].
Qed.

(** Requests the program can take: describable by the length fields, and its buffer holds
    them. *)
Definition takes (q : Request) : Prop := request_fits q /\ lenZ (request_bytes 0 q) <= len.

Lemma request_bytes_length id q : lenZ (request_bytes id q) = lenZ (request_bytes 0 q).
Proof. unfold request_bytes, lenZ. by rewrite !length_app, !request_hdr_length. Qed.

Lemma route_In path routes x : route path routes = Some x -> exists p, (p, x) ∈ routes.
Proof.
  unfold route. destruct (list_find _ routes) as [[i [p y]]|] eqn:E; [|done]. cbn. intros [= <-].
  apply list_find_Some in E as (E & _). exists p. by eapply list_elem_of_lookup_2.
Qed.

Lemma queued_inv n q H (a : ast) : idle qid n H -> n < 2 ^ 64 - 1 -> request_fits q -> route (req_path q) (hu_routes H) = Some qid ->
  uring_inv (queued q H).
Proof.
  intros HI Hn Hf Hr. destruct (bridge_start_granted n q H a HI Hn Hf Hr) as [a' He].
  pose proof (bridge_start_inv q H a (id_inv _ _ _ HI) ltac:(pose proof (id_req _ _ _ HI); lia)) as Hi.
  rewrite He in Hi. apply Hi.
Qed.

(** One turn of the program on a queued request answers it. *)
Lemma user_serve_answers n q H a u : idle qid n H -> n < 2 ^ 64 - 1 -> takes q -> route (req_path q) (hu_routes H) = Some qid ->
  exists i w' H', user_serve qid buf len out respond (queued q H, (a, u)) = (Ok tt, (H', w')) /\
    let '(status, body) := respond (user_view q) in
    H' = chan_send (length (hu_chans H)) (mkResponse (mkStatus status) Http11 headers_new body)
           (set_pending (remove_at i (hu_pending (queued q H)))
              (set_queues (update_queue qid [] (hu_queues (queued q H))) (queued q H))).
Proof.
  intros HI Hn [Hf Hlen] Hr. pose proof (queued_inv n q H a HI Hn Hf Hr) as Hinv.
  destruct HI as [Hu Hreq _ (qq & Hq & Hb & Hmax) _]. set (id := hu_next_req H) in *.
  unfold user_serve.
  destruct (recv_granted (queued q H) a u (mkQueue (q_id qq) (q_max_pending qq) [(id, request_bytes id q)]) id (request_bytes id q) [])
    as (u1 & -> & Hload); [by apply find_update_same|done|by rewrite request_bytes_length|].
  pose proof (lenZ_nonneg (request_bytes id q)). destruct (_ <? 0) eqn:E0; [blia|]. rewrite Hload. cbn [mbind option_bind].
  rewrite decode_request_bytes by (done || lia). unfold content. cbn [de_req_id de_method de_version de_path de_headers de_body].
  change (mkDecoded 0 _ _ _ _ _) with (user_view q). pose proof (respond_ok (user_view q)) as [Hst Hbl].
  pose proof (out_mapped (user_view q)) as Hm. destruct (respond (user_view q)) as [status body]. cbn [fst snd] in *.
  set (H1 := set_queues _ (queued q H)). pose proof (store_mapped out body u1 _ Hm ltac:(lia)) as Hsl.
  destruct (send_granted H1 a (user_store out body u1) id (length (hu_chans H)) status body) as (i & a' & ->); try done.
  - apply (ui_pending_ids _ Hinv).
  - cbn. apply elem_of_app. right. constructor.
  - lia.
  - cbn [Z.ltb Z.compare]. exists i. eauto.
Qed.

Lemma exchange n q H a u : idle qid n H -> n < 2 ^ 64 - 1 -> takes q ->
  exists H' w', uring_handle qid buf len out respond q (H, (a, u)) = (Some (expected respond (hu_routes H) q), (H', w')) /\
    idle qid (n + 1) H' /\ hu_routes H' = hu_routes H.
Proof.
  intros HI Hn Ht. unfold uring_handle, expected. destruct (route (req_path q) (hu_routes H)) as [x|] eqn:Er.
  - assert (x = qid) as -> by (destruct (route_In _ _ _ Er) as [p Hp]; by apply (id_routes _ _ _ HI p)).
    destruct (bridge_start_granted n q H a HI Hn (proj1 Ht) Er) as [a1 Hbs].
    pose proof (queued_inv n q H a HI Hn (proj1 Ht) Er) as Hinv.
    destruct (user_serve_answers n q H a1 u HI Hn Ht Er) as (i & w' & H' & Hs & HH).
    rewrite Hbs, Hs. destruct (respond (user_view q)) as [status body]. exists H', w'.
    destruct HI as [Hu Hreq Hctr (qq & Hq & Hb & Hmax) Hrt].
    assert (uring_inv H' /\ hu_next_req H' = hu_next_req H + 1 /\ hu_next_queue H' = hu_next_queue H) as (Hi' & Hr' & Hq').
    { revert Hs. unfold user_serve. cbn [hu_next_queue] in *.
      assert (0 < hu_next_queue (queued q H) < 2 ^ 32 - 1) as Hc by done.
      destruct (dispatch HTTP_CMD_RECV_REQUEST _ _) as [o1 [H1 [a2 u2]]] eqn:E1.
      destruct (dispatch_inv _ _ _ _ _ _ _ _ Hinv Hc E1) as (I1 & R1 & Q1).
      destruct o1; try done. destruct (_ <? 0); [done|]. destruct (_ ≫= _); [|done]. destruct (respond _) as [st' bd'].
      destruct (dispatch HTTP_CMD_SEND_RESPONSE _ _) as [o2 [H2 w2]] eqn:E2. intros Hs.
      assert (H2 = H') as -> by (destruct o2; try done; destruct (_ <? 0); congruence).
      assert (hu_next_queue H1 = hu_next_queue H) as Hn1.
      { by rewrite (recv_queue_counter _ _ _ _ _ E1). }
      destruct (dispatch_inv _ _ _ _ _ _ _ _ I1 ltac:(lia) E2) as (I2 & R2 & Q2).
      split; [done|]. rewrite R2, R1, HH. done. }
    subst H'. split; [|split].
    + f_equal. unfold bridge_poll. cbn [hu_chans chan_send set_chans set_pending set_queues queued].
      rewrite list_lookup_insert_eq; [done|]. rewrite length_app. cbn. lia.
    + split; [done|lia|by rewrite Hq'| |done]. cbn.
      exists (mkQueue (q_id qq) (q_max_pending qq) []). split; [|done].
      rewrite (find_update_same qid [] _ (mkQueue (q_id qq) (q_max_pending qq) [(hu_next_req H, request_bytes (hu_next_req H) q)]));
        [done|by apply find_update_same].
    + done.
  - destruct HI as [Hu Hreq Hctr Hqq Hrt]. unfold bridge_start. cbv zeta. rewrite wrap_small by lia.
    destruct (serialize_request _ _ a) as [s a1]. cbn [hu_routes set_next_req]. rewrite Er.
    eexists _, _. split; [reflexivity|]. split; [|done].
    split; [apply next_req_inv; [done|lia]|cbn; lia|done|done|done].
Qed.

(** ** The whole connection *)
Context `{BS : ByteStream, HP : HttParse} {BSok : ByteStreamOk BS} {HPok : HttParseOk HP} (config : ServerConfig).

Lemma run_handler_expected qs : forall n H a u, idle qid n H -> n + lenZ qs < 2 ^ 64 -> Forall takes qs ->
  exists H' a' u', run_handler (uring_handle qid buf len out respond) qs (H, (a, u)) =
      Some (expected respond (hu_routes H) <$> qs, (H', (a', u'))) /\ idle qid (n + lenZ qs) H'.
Proof.
  induction qs as [|q qs IH]; intros n H a u HI Hn Ht.
  { exists H, a, u. rewrite lenZ_nil, Z.add_0_r. done. }
  apply Forall_cons in Ht as [Hq Ht]. rewrite lenZ_cons in Hn. pose proof (lenZ_nonneg qs). cbn [run_handler].
  destruct (exchange n q H a u HI ltac:(lia) Hq) as (H1 & [a1 u1] & -> & HI' & Hr).
  destruct (IH (n + 1) H1 a1 u1 HI' ltac:(lia) Ht) as (H' & a' & u' & -> & HI2). rewrite Hr.
  exists H', a', u'. split; [done|]. rewrite lenZ_cons. by replace (n + (1 + lenZ qs)) with (n + 1 + lenZ qs) by lia.
Qed.

Lemma run_handler_app {hst} (handle : Request -> hst -> option Response * hst) qs l h :
  run_handler handle (qs ++ l) h =
  '(rs, h1) ← run_handler handle qs h; '(rs', h2) ← run_handler handle l h1; Some (rs ++ rs', h2).
Proof.
  revert h. induction qs as [|q qs IH]; intros h; cbn [run_handler app mbind option_bind].
  { by destruct (run_handler handle l h) as [[rs h2]|]. }
  destruct (handle q h) as [[r|] h1]; [|done]. rewrite IH. destruct (run_handler handle qs h1) as [[rs h2]|]; [|done].
  cbn [mbind option_bind]. by destruct (run_handler handle l h2) as [[rs' h3]|].
Qed.

Lemma handled_expected n H a u served e w' : idle qid n H -> n + lenZ served + 1 < 2 ^ 64 -> Forall takes (fst <$> served) ->
  handled (uring_handle qid buf len out respond) (H, (a, u)) served e w' ->
  snd <$> served = expected respond (hu_routes H) <$> (fst <$> served) /\ forall q, e = EndHung q -> ~ takes q.
Proof.
  intros HI Hn Ht Hh. assert (lenZ (fst <$> served) = lenZ served) as Hlen by (unfold lenZ; by rewrite length_fmap).
  destruct (run_handler_expected (fst <$> served) n H a u HI ltac:(rewrite Hlen; lia) Ht) as (H1 & a1 & u1 & Hrun & HI1). rewrite Hlen in HI1.
  unfold handled in Hh. destruct e; try (rewrite Hrun in Hh; injection Hh as Hh _; by split).
  - rewrite run_handler_app, Hrun in Hh. cbn [mbind option_bind run_handler] in Hh.
    destruct (uring_handle _ _ _ _ _ q (H1, (a1, u1))) as [[r1|] h1]; [|done]. cbn [mbind option_bind] in Hh.
    injection Hh as Hh _. apply app_inj_tail in Hh as [Hh _]. by split.
  - destruct Hh as (h1 & Hh & Hq). rewrite Hrun in Hh. injection Hh as Hs <-. split; [done|]. intros q' [= <-] Htk.
    destruct (exchange (n + lenZ served) q H1 a1 u1 HI1 ltac:(lia) Htk) as (H2 & w2 & He & _). congruence.
Qed.

(** C3. The whole way of an HTTP exchange through userspace: when the program that owns the
    queue answers by [respond], a connection, whatever its peer sends and however it is cut
    into segments, gets exactly the answers to its requests in order ([expected]: the status
    and the body of [respond] on the request as it was parsed, or 404 where no URL is
    registered), rendered as HTTP responses, and then at most a part of one more, as long as
    its requests are ones the program can take ([takes]: they fit the length fields and the
    program's buffer).  The bridge waits without a timeout, and the connection with it; it is
    left hanging ([EndHung]) only by a request the program cannot take. *)
Theorem userspace_server_answers (fuel : nat) (n : Z) (H : Handler) (a : ast) (u : umem) (ac : ast) (s : st) :
  0 <= max_header_size config < 2 ^ 63 -> (length (st_incoming s) < fuel)%nat -> idle qid n H ->
  exists served e w' ac' s' tail,
    handle_connection (uring_handle qid buf len out respond) config fuel (H, (a, u)) (ac, s) = (Ok (served, e), (w', (ac', s'))) /\
    end_tail e tail /\
    st_sent s' = st_sent s ++ concat (render_response <$> (snd <$> served)) ++ tail /\
    (n + lenZ served + 1 < 2 ^ 64 -> Forall takes (fst <$> served) ->
     snd <$> served = expected respond (hu_routes H) <$> (fst <$> served) /\ forall q, e = EndHung q -> ~ takes q).
Proof.
  intros Hc Hf HI.
  destruct (connection_served (uring_handle qid buf len out respond) config uring_handle_ok fuel (H, (a, u)) ac s Hc Hf)
    as (served & e & w' & ac' & s' & tail & Hrun & Hh & _ & He & Hs).
  exists served, e, w', ac', s', tail. split_and!; try done. intros Hn Ht. by eapply handled_expected.
Qed.
End Granted.

End SessionFacts.

(** ** The test program

    The sleeps give the server time to take the request off the connection and queue it
    before the program asks for it: that is the schedule [main] follows.  The connection's
    task runs between the steps of the program as the handler of [handle_connection]. *)
Section TestProgram.
Context `{KE : KernelErrno, VA : VecAlloc, UM : UserMem, SS : !ServerStart, US : !UserSpace UM, BS : ByteStream, HP : HttParse}.
(** Where the program's constants and buffers are, and the connection that a client's
    [TcpStream] with these bytes written is for the server. *)
Context (url_ptr body_ptr recv_ptr : Z) (connect : bytes -> st).

#[local] Abbreviation TM := (M DW Error).

Definition m_assert (b : bool) : TM unit := if b then m_ret tt else m_lift Panic.
(** The program's own memory. *)
Definition mem_store (p : Z) (d : bytes) : TM unit := fun w =>
  (Ok tt, set_mem (fst (dw_mem w), user_store p d (snd (dw_mem w))) w).
Definition mem_load (p n : Z) : TM bytes := fun w =>
  (match user_load p n (snd (dw_mem w)) with Some d => Ok d | None => Ub end, w).

(** [submit_cmd]: one submission, and the result in its completion. *)
Definition submit_cmd (fd op : Z) (cmd_data : bytes) : TM Z := fun w =>
  let cmds c := if c =? 0 then mkCmd op (pad80 cmd_data) else dw_cmds w c in
  let '(ret, (_, w')) := misc_uring_cmd 0 0 (fd, set_cmds cmds w) in
  (ret, w').

Definition test_url : bytes := bs "/*".
Definition test_body : bytes := bs "Hello from userspace!" ++ [x0a].
Definition test_request : bytes :=
  bs "GET /hello HTTP/1.1" ++ crlf ++ bs "Host: localhost" ++ crlf ++ bs "Connection: close" ++ crlf ++ crlf.

(** Steps 1 to 4. *)
Definition main_setup (fd : Z) : TM Z :=
  queue_id <-! submit_cmd fd HTTP_CMD_CREATE_QUEUE (le_encode 4 256 ++ replicate 4 x00) ;;
  _ <-! m_assert (0 <? queue_id) ;;
  ret <-! submit_cmd fd HTTP_CMD_ADD_URL
            (le_encode 4 (wrap 32 queue_id) ++ le_encode 4 (lenZ test_url) ++ le_encode 8 url_ptr ++ replicate 8 x00) ;;
  _ <-! m_assert (ret =? 0) ;;
  _ <-! mem_store recv_ptr (replicate 4096 x00) ;;
  ret <-! submit_cmd fd HTTP_CMD_RECV_REQUEST (recv_cmd (wrap 32 queue_id) 4096 recv_ptr) ;;
  _ <-! m_assert (ret =? -11) ;;
  ret <-! submit_cmd fd HTTP_CMD_SERVER_START (le_encode 4 0 ++ be_encode 2 8080 ++ replicate 2 x00) ;;
  _ <-! m_assert (ret =? 0) ;;
  m_ret queue_id.

(** Steps 6 and 7.  The header is read through a pointer cast from the byte buffer. *)
Definition main_serve (fd queue_id : Z) : TM unit :=
  _ <-! mem_store recv_ptr (replicate 4096 x00) ;;
  ret <-! submit_cmd fd HTTP_CMD_RECV_REQUEST (recv_cmd (wrap 32 queue_id) 4096 recv_ptr) ;;
  _ <-! m_assert (0 <? ret) ;;
  recv_buf <-! mem_load recv_ptr 4096 ;;
  _ <-! (if recv_ptr mod 8 =? 0 then m_ret tt else m_lift Ub) ;;
  let req_id := fld recv_buf 0 8 in
  let path_len := fld recv_buf 12 4 in
  _ <-! m_assert (0 <? req_id) ;;
  _ <-! m_assert (fld recv_buf 8 1 =? 0) ;;
  _ <-! m_assert (0 <? path_len) ;;
  path <-! m_lift (slice recv_buf 24 (24 + path_len)) ;;
  _ <-! m_assert (utf8_valid path) ;;
  _ <-! m_assert (bool_decide (path = bs "/hello")) ;;
  ret <-! submit_cmd fd HTTP_CMD_SEND_RESPONSE (send_cmd req_id 200 (lenZ test_body) body_ptr) ;;
  m_assert (ret =? 0).

(** The server's side of the connection while the program is at steps 6 and 7; the flag is
    whether all of its assertions held. *)
Definition main_handle (fd queue_id : Z) (q : Request) : DW * bool -> option Response * (DW * bool) := fun '(w, ok) =>
  match dw_devs w !! fd with
  | None => (None, (w, false))
  | Some d =>
      let '(o, (H, a)) := bridge_start q (dv_handler d, fst (dw_mem w)) in
      let w1 := set_mem (a, snd (dw_mem w))
                  (set_devs (<[fd := mkDev (dv_refs d) H (dv_hung d)]> (dw_devs w)) w) in
      match o with
      | inl r => (Some r, (w1, ok))
      | inr ch =>
          let '(r, w2) := main_serve fd queue_id w1 in
          (dw_devs w2 !! fd ≫= fun d2 => bridge_poll ch (dv_handler d2),
           (w2, ok && match r with Ok _ => true | _ => false end))
      end
  end.

(** [str::contains]. *)
Fixpoint contains (d sub : bytes) : bool :=
  starts_with d sub || match d with [] => false | _ :: d' => contains d' sub end.

(** [main] from the open device file on. *)
Definition main (fd : Z) : TM unit :=
  queue_id <-! main_setup fd ;;
  fun w =>
    let '(o, ((w1, ok), (_, s1))) :=
      handle_connection (main_handle fd queue_id) default_config 100 (w, true) (fst (dw_mem w), connect test_request) in
    (_ <-! m_assert (match o with Ok _ => ok | _ => false end) ;;
     _ <-! m_assert (contains (st_sent s1) (bs "200 OK")) ;;
     _ <-! m_assert (contains (st_sent s1) (bs "Hello from userspace!")) ;;
     ret <-! submit_cmd fd HTTP_CMD_SERVER_STOP [] ;;
     m_assert (ret =? 0)) w1.
End TestProgram.

(** ** Concrete runs *)
Definition flat_load (a n : Z) (u : Z -> byte) : bytes := (fun i => u (a + Z.of_nat i)) <$> seq 0 (Z.to_nat n).
Definition flat_store (a : Z) (d : bytes) (u : Z -> byte) : Z -> byte := fun p =>
  if (a <=? p) && (p <? a + lenZ d) then default x00 (d !! Z.to_nat (p - a)) else u p.
Definition flat_umem : UserMem := {|
  umem := Z -> byte;
  copy_to_user a d u := (0, flat_store a d u);
  copy_from_user a n u := (0, flat_load a n u);
  user_load a n u := Some (flat_load a n u) |}.
Definition flat_space : UserSpace flat_umem := {| user_store := flat_store : Z -> bytes -> @umem flat_umem -> @umem flat_umem;
  mapped _ n := 0 <= n |}.

Definition get_hello : HpRequest :=
  mkHpRequest (Some (bs "GET")) (Some (bs "/hello")) (Some 1) [(bs "Host", bs "localhost"); (bs "Connection", bs "close")].
Definition hello_parser : HttParse := {|
  hp_parse_request := one_head test_request get_hello;
  hp_parse_response := one_head sample_head sample_resp |}.

Definition test_world : @DW bool_alloc flat_umem :=
  snd (@http_open linux_errno bool_alloc flat_umem 7
    (@no_devices bool_alloc flat_umem 100 (tt, flat_store 4096 test_url (flat_store 8192 test_body (fun _ => x00))) (fun _ => mkCmd 0 []))).

(** The test program passes, however its request is cut into segments; SERVER_STOP leaves
    the open file as the only reference. *)
Definition test_run (chunks : list nat) : res Error unit * (option (Z * bool) * list (Z * nat)) :=
  let '(o, w) := @main linux_errno bool_alloc flat_umem toy_start flat_space scripted hello_parser
    4096 8192 16384 (fun d => mkScript d chunks []) 100 test_world in
  (o, dev_view 100 w).
Example test_passes : Forall (fun c => test_run c = (Ok tt, (Some (1, false), []))) [[]; [3; 10]; [0; 0; 40]]%nat.
Proof. repeat constructor; vm_compute; reflexivity. Qed.

Lemma flat_store_load a d u : flat_load a (lenZ d) (flat_store a d u) = d.
Proof.
  apply list_eq. intros i. unfold flat_load, lenZ. rewrite Nat2Z.id, list_lookup_fmap.
  destruct (decide (i < length d)%nat) as [Hi|Hi].
  - rewrite lookup_seq_lt by done. cbn [fmap option_fmap option_map]. unfold flat_store, lenZ.
    destruct ((_ <=? _) && _) eqn:E; [|apply andb_false_iff in E as [E|E]; blia].
    replace (Z.to_nat _) with i by lia. destruct (lookup_lt_is_Some_2 d i Hi) as [x Hx]. cbn [Nat.add]. by rewrite Hx.
  - rewrite lookup_seq_ge by lia. symmetry. by apply lookup_ge_None_2; lia.
Qed.

#[global] Instance flat_space_ok : UserSpaceOk flat_umem flat_space.
Proof.
  split; cbn.
  - intros a d u n _ _. eexists. split; [reflexivity|]. by rewrite flat_store_load.
  - intros a d u n _ _. by rewrite flat_store_load.
  - by intros a k u d n _ _ [= <-].
  - intros a k u Hk. unfold flat_load, lenZ. rewrite length_fmap, length_seq. lia.
Qed.
#[global] Instance bool_alloc_grants : AlwaysGrants bool_alloc.
Proof. by intros a. Qed.
#[global] Instance hello_parser_ok : HttParseOk hello_parser.
Proof. split; intros d n r; by apply one_head_offset. Qed.

(** The handler after CREATE_QUEUE and ADD_URL of the catch-all. *)
Definition served_memory : Z -> byte := flat_store 4096 test_url (fun _ => x00).
Definition served_handler : Handler :=
  fst (@urun linux_errno bool_alloc flat_umem toy_start
    [EvCmd HTTP_CMD_CREATE_QUEUE (pad80 (le_encode 4 256));
     EvCmd HTTP_CMD_ADD_URL (pad80 (le_encode 4 1 ++ le_encode 4 2 ++ le_encode 8 4096))] (handler_new, (tt, served_memory))).
Definition hello_answer (d : decoded) : Z * bytes := (200, test_body).

Lemma served_handler_idle : idle 1 1 served_handler.
Proof.
  split.
  - apply (@urun_inv linux_errno bool_alloc flat_umem toy_start). vm_compute. reflexivity.
  - vm_compute. split; congruence.
  - vm_compute. split; congruence.
  - exists (mkQueue 1 256 []). vm_compute. done.
  - change (hu_routes served_handler) with [(test_url, 1)]. intros p q Hin. apply list_elem_of_singleton in Hin. congruence.
Qed.

Lemma userspace_server_answers_witness :
  exists served e w' ac' s' tail,
    @handle_connection linux_errno bool_alloc scripted hello_parser _
      (@uring_handle linux_errno bool_alloc flat_umem toy_start flat_space 1 16384 4096 8192 hello_answer) default_config 100
      (served_handler, (tt, served_memory)) (tt, mkScript test_request [3; 10]%nat []) = (Ok (served, e), (w', (ac', s'))) /\
    end_tail e tail /\
    @st_sent scripted s' = [] ++ concat (render_response <$> (snd <$> served)) ++ tail /\
    (1 + lenZ served + 1 < 2 ^ 64 -> Forall (takes 4096) (fst <$> served) ->
     snd <$> served = expected hello_answer (hu_routes served_handler) <$> (fst <$> served) /\
     forall q, e = EndHung q -> ~ takes 4096 q).
Proof.
  apply (@userspace_server_answers linux_errno bool_alloc flat_umem toy_start flat_space _ 1 16384 4096 8192 hello_answer _
    ltac:(lia) ltac:(cbn; lia) ltac:(lia) ltac:(lia) ltac:(intros d; vm_compute; congruence) ltac:(lia)
    ltac:(intros d; vm_compute; repeat split; congruence) scripted hello_parser _ _ default_config 100 1 served_handler tt served_memory tt
    (mkScript test_request [3; 10]%nat [])).
  - vm_compute. split; congruence.
  - vm_compute. lia.
  - apply served_handler_idle.
Defined.

(** A request that does not fit the program's buffer is cut off by RECV_REQUEST and gone from
    the queue: the program cannot decode it, nothing ever answers the bridge, and the
    connection waits for good, without a byte sent. *)
Theorem oversized_request_hangs :
  match @handle_connection linux_errno bool_alloc scripted hello_parser _
      (@uring_handle linux_errno bool_alloc flat_umem toy_start flat_space 1 16384 32 8192 hello_answer) default_config 100
      (served_handler, (tt, served_memory)) (tt, mkScript test_request [3; 10]%nat []) with
  | (Ok ([], EndHung q), ((H, _), (_, s))) => req_path q = bs "/hello" /\ sc_out s = [] /\ length (hu_pending H) = 1%nat
  | _ => False
  end.
Proof. vm_compute. done. Qed.
