(* ===== verification/Arc.v ===== *)
(** * Reference-counted pointers (rko-core/src/sync/arc.rs, refcount.rs)

    One [ArcInner] on the heap of [Boxes] and everything that refers to it: [Arc]
    handles, raw pointers made by [into_raw], [ArcBorrow]s and [UniqueArc]s are the
    agents of a pool.  One event is one access: the [fetch_add] of a clone, the
    [fetch_sub] of a drop, the release of the box by the drop that took the count to
    zero, a dereference.  Which agent may do what, and that a borrowed handle is neither
    moved nor dropped, is what Rust's types enforce.  The count is an [i32] that wraps.

    The second half models the users of raw pointers: the waker table of
    kasync/executor/mod.rs and the queueing of an [Arc] in workqueue.rs. *)
From Stdlib Require Import ZArith Lia Bool.
From stdpp Require Import base list option numbers gmap.
From S2P Require Import Prelude KVec Boxes Pool.

(** ** Refcount *)

(** [fetch_add(1)] and [fetch_sub(1)] on the old value. *)
Definition refcount_inc (refs : Z) : Z := sext 32 (refs + 1).
Definition dec_and_test (refs : Z) : Z * bool := (sext 32 (refs - 1), refs =? 1).

(** ** Handles *)

Inductive arc_agent : Type :=
| Strong                 (** an [Arc] *)
| Raw                    (** a pointer from [into_raw], with the reference it carries *)
| Unique                 (** a [UniqueArc<T>] *)
| UniqueUninit           (** a [UniqueArc<MaybeUninit<T>>] *)
| Borrowed (owner : nat) (** an [ArcBorrow] of agent [owner] *)
| MustFree (uninit : bool).  (** a [drop] that saw the count become zero *)

#[global] Instance arc_agent_eq_dec : EqDecision arc_agent.
Proof. solve_decision. Defined.

Section Arc.
Context {V : Type}.

(** The data is [None] while it is uninitialised. *)
Record ArcInner : Type := mkInner { ai_refcount : Z; ai_data : option V }.

(** [aw_bad]: an access to freed or uninitialised memory. *)
Record arc_world : Type := mkArcW {
  aw_heap : Heap ArcInner; aw_agents : gmap nat arc_agent; aw_bad : bool }.

Inductive arc_event : Type :=
| AClone (i j : nat)        (** [Arc::clone] of [i] gives [j] *)
| ADrop (i : nat)           (** the [fetch_sub] of a drop *)
| AFree (i : nat)           (** the rest of that drop *)
| AIntoRaw (i : nat) | AFromRaw (i : nat)
| ABorrow (i j : nat)       (** [as_arc_borrow], or [ForeignOwnable::borrow] of a raw pointer *)
| ABorrowCopy (i j : nat) | ABorrowEnd (i : nat)
| ABorrowToArc (i j : nat)  (** [Arc::from(ArcBorrow)] *)
| ADeref (i : nat)
| AWrite (i : nat) (v : V)  (** through [DerefMut] of a [UniqueArc] or [as_mut_ptr] *)
| AAssumeInit (i : nat)
| AShare (i : nat).         (** [Arc::from(UniqueArc)] *)

Section Steps.
Context {PL : Placement ArcInner} (p : Z).

Abbreviation HM := (M (Heap ArcInner) AllocError).

(** [Arc::new] and [UniqueArc::new]; [size] is that of [ArcInner<T>]. *)
Definition Arc_new (size : Z) (v : V) : HM Z := box_new size (mkInner 1 (Some v)).
Definition UniqueArc_new_uninit (size : Z) : HM Z := box_new size (mkInner 1 None).

(** Runs a memory access and lets [k] say what becomes of the agents. *)
Definition on_heap {A} (s : arc_world) (m : HM A) (k : A -> gmap nat arc_agent) : arc_world :=
  match m (aw_heap s) with
  | (Ok a, h) => mkArcW h (k a) (aw_bad s)
  | (_, h) => mkArcW h (aw_agents s) true
  end.

(** [Clone for Arc]. *)
Definition arc_clone (j : nat) (s : arc_world) : arc_world :=
  on_heap s (c <-! box_load p ;; box_store p (mkInner (refcount_inc (ai_refcount c)) (ai_data c)))
    (fun _ => <[j := Strong]> (aw_agents s)).

(** [Drop for Arc]; a [UniqueArc] is dropped through its [inner]. *)
Definition arc_drop (uninit : bool) (i : nat) (s : arc_world) : arc_world :=
  on_heap s
    (c <-! box_load p ;;
     let '(refs, is_zero) := dec_and_test (ai_refcount c) in
     _ <-! box_store p (mkInner refs (ai_data c)) ;;
     m_ret is_zero)
    (fun is_zero => if (is_zero : bool) then <[i := MustFree uninit]> (aw_agents s)
                    else delete i (aw_agents s)).

(** [drop(KBox::from_raw(ptr))]; a [MaybeUninit] has no destructor. *)
Definition arc_free (uninit : bool) (i : nat) (s : arc_world) : arc_world :=
  on_heap s (if uninit then _ <-! box_into_inner p ;; m_ret tt else box_drop p)
    (fun _ => delete i (aw_agents s)).

(** Reading the data. *)
Definition arc_deref (s : arc_world) : arc_world :=
  on_heap s (c <-! box_load p ;; m_lift (match ai_data c with Some v => Ok v | None => Ub end))
    (fun _ => aw_agents s).

Definition arc_write (v : V) (s : arc_world) : arc_world :=
  on_heap s (c <-! box_load p ;; box_store p (mkInner (ai_refcount c) (Some v))) (fun _ => aw_agents s).

Definition assume_init (i : nat) (s : arc_world) : arc_world :=
  on_heap s (c <-! box_load p ;; m_lift (match ai_data c with Some _ => Ok tt | None => Ub end))
    (fun _ => <[i := Unique]> (aw_agents s)).

Definition set_agents (a : gmap nat arc_agent) (s : arc_world) : arc_world :=
  mkArcW (aw_heap s) a (aw_bad s).

(** No [ArcBorrow] of [i] is in use. *)
Definition unborrowed (i : nat) (a : gmap nat arc_agent) : bool :=
  bool_decide (map_Forall (fun _ x => x <> Borrowed i) a).

(** The promise a caller of [assume_init] makes. *)
Definition initialised (s : arc_world) : bool :=
  match cells (aw_heap s) !! p with Some (Some (mkInner _ (Some _))) => true | _ => false end.

(** What the types, and the safety comments, allow next. *)
Definition arc_step (s : arc_world) (e : arc_event) : option arc_world :=
  let a := aw_agents s in
  match e with
  | AClone i j =>
      match a !! i, a !! j with Some Strong, None => Some (arc_clone j s) | _, _ => None end
  | ADrop i =>
      if unborrowed i a then
        match a !! i with
        | Some Strong | Some Unique => Some (arc_drop false i s)
        | Some UniqueUninit => Some (arc_drop true i s)
        | _ => None
        end
      else None
  | AFree i => match a !! i with Some (MustFree u) => Some (arc_free u i s) | _ => None end
  | AIntoRaw i =>
      if unborrowed i a then
        match a !! i with Some Strong => Some (set_agents (<[i := Raw]> a) s) | _ => None end
      else None
  | AFromRaw i =>
      if unborrowed i a then
        match a !! i with Some Raw => Some (set_agents (<[i := Strong]> a) s) | _ => None end
      else None
  | ABorrow i j =>
      match a !! i, a !! j with
      | Some Strong, None | Some Raw, None => Some (set_agents (<[j := Borrowed i]> a) s)
      | _, _ => None
      end
  | ABorrowCopy i j =>
      match a !! i, a !! j with
      | Some (Borrowed k), None => Some (set_agents (<[j := Borrowed k]> a) s)
      | _, _ => None
      end
  | ABorrowEnd i => match a !! i with Some (Borrowed _) => Some (set_agents (delete i a) s) | _ => None end
  | ABorrowToArc i j =>
      match a !! i, a !! j with Some (Borrowed _), None => Some (arc_clone j s) | _, _ => None end
  | ADeref i =>
      match a !! i with
      | Some Strong | Some Raw | Some Unique | Some (Borrowed _) => Some (arc_deref s)
      | _ => None
      end
  | AWrite i v =>
      match a !! i with
      | Some Unique | Some UniqueUninit => Some (arc_write v s)
      | _ => None
      end
  | AAssumeInit i =>
      match a !! i with
      | Some UniqueUninit => if initialised s then Some (assume_init i s) else None
      | _ => None
      end
  | AShare i => match a !! i with Some Unique => Some (set_agents (<[i := Strong]> a) s) | _ => None end
  end.

(** A fresh handle of kind [k] on the cell. *)
Definition arc_start (k : arc_agent) (h : Heap ArcInner) : arc_world := mkArcW h {[ 0%nat := k ]} false.
End Steps.
End Arc.
Arguments ArcInner V : clear implicits.
Arguments arc_world V : clear implicits.
Arguments arc_event V : clear implicits.

(** ** Invariant *)

Definition w_strong (a : arc_agent) : Z :=
  match a with Strong | Raw | Unique | UniqueUninit => 1 | _ => 0 end.
Definition w_free (a : arc_agent) : Z := match a with MustFree _ => 1 | _ => 0 end.

Lemma w_strong_nonneg a : 0 <= w_strong a.
Proof. by destruct a. Qed.
Lemma w_free_nonneg a : 0 <= w_free a.
Proof. by destruct a. Qed.

(** Agents that may see uninitialised data. *)
Definition sees_uninit (a : arc_agent) : bool :=
  match a with UniqueUninit | MustFree true => true | _ => false end.
Definition exclusive (a : arc_agent) : bool :=
  match a with Unique | UniqueUninit | MustFree _ => true | _ => false end.

Section Invariant.
Context {V : Type} (p : Z) (h0 : Heap (ArcInner V)).

Implicit Types s : arc_world V.

Definition strong s : Z := weigh w_strong (aw_agents s).
Definition owed_free s : Z := weigh w_free (aw_agents s).

(** While somebody refers to the cell it is there, with a count equal to the number of
    references, and nothing else on the heap has changed; afterwards the heap is as it was
    before the allocation, but for the destructor that ran. *)
Definition cell_ok s : Prop :=
  if bool_decide (aw_agents s = ∅) then
    cells (aw_heap s) = cells h0 /\
    (destroyed (aw_heap s) = destroyed h0 \/
     exists v, destroyed (aw_heap s) = mkInner 0 (Some v) :: destroyed h0)
  else exists d, cells (aw_heap s) = <[p := Some (mkInner (strong s) d)]> (cells h0) /\
    destroyed (aw_heap s) = destroyed h0 /\
    (d = None -> exists i a, aw_agents s = {[ i := a ]} /\ sees_uninit a = true).

Record arc_inv s : Prop := {
  ai_bad : aw_bad s = false;
  ai_range : 0 <= strong s < 2 ^ 31;
  ai_cell : cell_ok s;
  ai_excl i a : aw_agents s !! i = Some a -> exclusive a = true -> aw_agents s = {[ i := a ]};
  ai_borrow i k : aw_agents s !! i = Some (Borrowed k) ->
    exists a, aw_agents s !! k = Some a /\ (a = Strong \/ a = Raw) }.

Hypothesis p_valid : 16 < p.
Hypothesis p_fresh : cells h0 !! p = None.

Lemma agents_ne s i a : aw_agents s !! i = Some a -> aw_agents s <> ∅.
Proof. intros Hi He. by rewrite He, lookup_empty in Hi. Qed.

(** The cell, seen through an agent. *)
Lemma cell_alive s i a : arc_inv s -> aw_agents s !! i = Some a ->
  exists d, aw_heap s = mkHeap (<[p := Some (mkInner (strong s) d)]> (cells h0)) (destroyed h0) /\
    (d = None -> aw_agents s = {[ i := a ]} /\ sees_uninit a = true).
Proof.
  intros I Hi. pose proof (ai_cell _ I) as Hc. unfold cell_ok in Hc.
  rewrite bool_decide_eq_false_2 in Hc by eauto using agents_ne.
  destruct Hc as (d & Hc & Hd & Hu). exists d. split; [destruct (aw_heap s); cbn in *; by subst|].
  intros ->. destruct (Hu eq_refl) as (j & b & Hj & Hb). rewrite Hj in Hi.
  apply lookup_singleton_Some in Hi as [-> ->]. done.
Qed.

(** The heap while the cell is live. *)
Abbreviation live n d := (mkHeap (<[p := Some (mkInner n d)]> (cells h0)) (destroyed h0)).

Lemma clone_eq s j n d : aw_heap s = live n d ->
  arc_clone p j s = mkArcW (live (refcount_inc n) d) (<[j := Strong]> (aw_agents s)) (aw_bad s).
Proof.
  intros Hh. unfold arc_clone, on_heap, m_bind. rewrite Hh, (box_load_ok _ _ (mkInner n d)) by apply lookup_insert_eq.
  unfold box_store. cbn [cells destroyed ai_refcount ai_data]. by rewrite insert_insert_eq.
Qed.

Lemma drop_eq s u i n d : aw_heap s = live n d ->
  arc_drop p u i s = mkArcW (live (sext 32 (n - 1)) d)
    (if n =? 1 then <[i := MustFree u]> (aw_agents s) else delete i (aw_agents s)) (aw_bad s).
Proof.
  intros Hh. unfold arc_drop, on_heap, m_bind, dec_and_test. rewrite Hh, (box_load_ok _ _ (mkInner n d)) by apply lookup_insert_eq.
  unfold box_store. cbn [cells destroyed ai_refcount ai_data m_ret]. by rewrite insert_insert_eq.
Qed.

Lemma free_eq s (u : bool) i n d : aw_heap s = live n d ->
  arc_free p u i s = mkArcW (mkHeap (cells h0) (if u then destroyed h0 else mkInner n d :: destroyed h0))
    (delete i (aw_agents s)) (aw_bad s).
Proof.
  intros Hh. unfold arc_free, on_heap. rewrite Hh. destruct u.
  - unfold m_bind at 1. rewrite (box_into_inner_ok _ _ (mkInner n d)) by (done || apply lookup_insert_eq).
    cbn [m_ret cells destroyed]. by rewrite delete_insert_id.
  - rewrite (box_drop_ok _ _ (mkInner n d)) by (done || apply lookup_insert_eq).
    cbn [cells destroyed]. by rewrite delete_insert_id.
Qed.

Lemma deref_eq s n v : aw_heap s = live n (Some v) -> arc_deref p s = s.
Proof.
  intros Hh. unfold arc_deref, on_heap, m_bind. rewrite Hh, (box_load_ok _ _ (mkInner n (Some v))) by apply lookup_insert_eq.
  cbn. rewrite <- Hh. by destruct s.
Qed.

Lemma write_eq s n d v : aw_heap s = live n d ->
  arc_write p v s = mkArcW (live n (Some v)) (aw_agents s) (aw_bad s).
Proof.
  intros Hh. unfold arc_write, on_heap, m_bind. rewrite Hh, (box_load_ok _ _ (mkInner n d)) by apply lookup_insert_eq.
  unfold box_store. cbn [cells destroyed ai_refcount ai_data]. by rewrite insert_insert_eq.
Qed.

Lemma assume_eq s i n v : aw_heap s = live n (Some v) ->
  assume_init p i s = mkArcW (live n (Some v)) (<[i := Unique]> (aw_agents s)) (aw_bad s).
Proof.
  intros Hh. unfold assume_init, on_heap, m_bind. rewrite Hh, (box_load_ok _ _ (mkInner n (Some v))) by apply lookup_insert_eq.
  done.
Qed.

(** The last strong reference, when it is not borrowed, is the only agent. *)
Lemma last_alone s i a : arc_inv s -> aw_agents s !! i = Some a -> w_strong a = 1 -> strong s = 1 ->
  unborrowed i (aw_agents s) = true -> aw_agents s = {[ i := a ]}.
Proof.
  intros I Hi Ha Hn Hu%bool_decide_eq_true. apply map_eq. intros j.
  destruct (decide (j = i)) as [->|Hj]; [by rewrite lookup_singleton_eq|].
  rewrite lookup_singleton_ne by done. destruct (aw_agents s !! j) as [b|] eqn:Eb; [exfalso|done].
  assert (forall k c, aw_agents s !! k = Some c -> k <> i -> w_strong c = 0) as Hone.
  { intros k c Hk Hki. pose proof (weigh_two _ w_strong_nonneg _ _ _ _ _ Hk Hi Hki) as H.
    fold (strong s) in H. pose proof (w_strong_nonneg c). lia. }
  pose proof (Hone j b Eb Hj) as Hb. destruct b as [| | | |k|u]; try done.
  - destruct (ai_borrow _ I _ _ Eb) as (c & Hc & Hcs). destruct (decide (k = i)) as [->|Hk].
    + by apply (Hu j _ Eb).
    + pose proof (Hone k c Hc Hk). by destruct Hcs as [-> | ->].
  - rewrite (ai_excl _ I _ _ Eb eq_refl) in Hi. by apply lookup_singleton_Some in Hi as [<- _].
Qed.

Lemma refcount_inc_ok n : 0 <= n < 2 ^ 31 - 1 -> refcount_inc n = n + 1.
Proof. intros H. unfold refcount_inc. apply sext_small; lia. Qed.

(** A cell that is not exclusively owned is initialised. *)
Lemma alive_init s i a : arc_inv s -> aw_agents s !! i = Some a -> sees_uninit a = false ->
  exists v, aw_heap s = live (strong s) (Some v).
Proof.
  intros I Hi Ha. destruct (cell_alive s i a I Hi) as (d & Hh & Hd).
  destruct d as [v|]; [by exists v|]. destruct (Hd eq_refl). congruence.
Qed.

Lemma new_cell_ok b a h d : a <> ∅ -> h = live (weigh w_strong a) d ->
  (d = None -> exists i x, a = {[ i := x ]} /\ sees_uninit x = true) -> cell_ok (mkArcW h a b).
Proof.
  intros Ha -> Hd. unfold cell_ok. cbn [aw_agents aw_heap]. rewrite bool_decide_eq_false_2 by done.
  exists d. done.
Qed.

Lemma none_exclusive s i a k x : arc_inv s -> aw_agents s !! i = Some a -> exclusive a = false ->
  aw_agents s !! k = Some x -> exclusive x = false.
Proof.
  intros I Hi Ha Hk. destruct (exclusive x) eqn:Ex; [exfalso|done].
  rewrite (ai_excl _ I _ _ Hk Ex) in Hi. apply lookup_singleton_Some in Hi as [-> ->]. congruence.
Qed.

(** States in which the cell is shared. *)
Lemma shared_inv a v i x : a !! i = Some x ->
  (forall k y, a !! k = Some y -> exclusive y = false) -> 0 <= weigh w_strong a < 2 ^ 31 ->
  (forall k o, a !! k = Some (Borrowed o) -> exists y, a !! o = Some y /\ (y = Strong \/ y = Raw)) ->
  arc_inv (mkArcW (live (weigh w_strong a) (Some v)) a false).
Proof.
  intros Hi He Hr Hb. split; cbn [aw_bad aw_agents]; try done.
  - eapply new_cell_ok; [|reflexivity|done]. intros Ha. by rewrite Ha, lookup_empty in Hi.
  - intros k y Hk Hy. by rewrite (He k y Hk) in Hy.
Qed.

(** States in which one agent has the cell for itself. *)
Lemma alone_inv i x d : (forall o, x <> Borrowed o) -> (d = None -> sees_uninit x = true) ->
  arc_inv (mkArcW (live (w_strong x) d) {[ i := x ]} false).
Proof.
  intros Hx Hd.
  assert (weigh w_strong {[ i := x ]} = w_strong x) as Hw.
  { rewrite <- insert_empty, weigh_insert, weigh_empty by apply lookup_empty. lia. }
  split; cbn [aw_bad aw_agents]; try done.
  - unfold strong. cbn [aw_agents]. rewrite Hw. destruct x; cbn; lia.
  - eapply new_cell_ok; [apply map_non_empty_singleton|by rewrite Hw|]. intros ->. exists i, x. auto.
  - intros k y [-> ->]%lookup_singleton_Some. done.
  - intros k o [-> ?]%lookup_singleton_Some. by destruct (Hx o).
Qed.

Lemma borrow_insert_fresh (a : gmap nat arc_agent) j x : a !! j = None ->
  (forall k o, a !! k = Some (Borrowed o) -> exists y, a !! o = Some y /\ (y = Strong \/ y = Raw)) ->
  (forall o, x = Borrowed o -> exists y, a !! o = Some y /\ (y = Strong \/ y = Raw)) ->
  forall k o, <[j := x]> a !! k = Some (Borrowed o) ->
    exists y, <[j := x]> a !! o = Some y /\ (y = Strong \/ y = Raw).
Proof.
  intros Hj Ha Hx k o Hk.
  assert (exists y, a !! o = Some y /\ (y = Strong \/ y = Raw)) as (y & Hy & Hs).
  { apply lookup_insert_Some in Hk as [[_ Hk]|[_ Hk]]; [by apply Hx|by eapply Ha]. }
  exists y. split; [|done]. rewrite lookup_insert_ne; [done|congruence].
Qed.

(** A new non-exclusive agent next to a non-exclusive one. *)
Lemma add_agent_inv s i a j x : arc_inv s -> aw_agents s !! i = Some a -> exclusive a = false ->
  aw_agents s !! j = None -> exclusive x = false -> strong s + w_strong x < 2 ^ 31 ->
  (forall o, x = Borrowed o -> exists y, aw_agents s !! o = Some y /\ (y = Strong \/ y = Raw)) ->
  exists v, aw_heap s = live (strong s) (Some v) /\
    arc_inv (mkArcW (live (strong s + w_strong x) (Some v)) (<[j := x]> (aw_agents s)) (aw_bad s)).
Proof.
  intros I Hi Ha Hj Hx Hr Hb. destruct (alive_init s i a I Hi ltac:(by destruct a)) as [v Hv].
  exists v. split; [done|]. rewrite (ai_bad _ I).
  assert (weigh w_strong (<[j := x]> (aw_agents s)) = strong s + w_strong x) as Hw
    by (rewrite weigh_insert by done; unfold strong; lia).
  rewrite <- Hw. eapply (shared_inv _ _ j x); [apply lookup_insert_eq| |pose proof (ai_range _ I); pose proof (w_strong_nonneg x); lia|].
  - intros k y [[_ <-]|[_ Hk]]%lookup_insert_Some; [done|]. by apply (none_exclusive s i a k y).
  - apply borrow_insert_fresh; [done|apply (ai_borrow _ I)|done].
Qed.

Lemma borrow_update (a : gmap nat arc_agent) i x : (x = Strong \/ x = Raw) ->
  (forall k o, a !! k = Some (Borrowed o) -> exists y, a !! o = Some y /\ (y = Strong \/ y = Raw)) ->
  forall k o, <[i := x]> a !! k = Some (Borrowed o) ->
    exists y, <[i := x]> a !! o = Some y /\ (y = Strong \/ y = Raw).
Proof.
  intros Hx Ha k o [[_ Hk]|[_ Hk]]%lookup_insert_Some; [by destruct Hx; subst|].
  destruct (decide (o = i)) as [->|Ho]; [exists x; by rewrite lookup_insert_eq|].
  rewrite lookup_insert_ne by done. by eapply Ha.
Qed.

(** [into_raw] and [from_raw]. *)
Lemma retype_inv s i a x : arc_inv s -> aw_agents s !! i = Some a -> (a = Strong \/ a = Raw) ->
  (x = Strong \/ x = Raw) -> arc_inv (set_agents (<[i := x]> (aw_agents s)) s).
Proof.
  intros I Hi Ha Hx. assert (exclusive a = false) as He by (by destruct Ha; subst).
  destruct (alive_init s i a I Hi ltac:(by destruct Ha; subst)) as [v Hv]. unfold set_agents.
  rewrite Hv, (ai_bad _ I).
  assert (weigh w_strong (<[i := x]> (aw_agents s)) = strong s) as Hw
    by (weigh_step; unfold strong; destruct Ha, Hx; subst; cbn; lia).
  rewrite <- Hw. eapply (shared_inv _ _ i x); [apply lookup_insert_eq| |rewrite Hw; apply (ai_range _ I)|].
  - intros k y [[_ <-]|[_ Hk]]%lookup_insert_Some; [by destruct Hx; subst|]. by apply (none_exclusive s i a k y).
  - apply borrow_update; [done|apply (ai_borrow _ I)].
Qed.

Lemma delete_shared_inv s i a v j b n : arc_inv s -> aw_agents s !! i = Some a -> exclusive a = false ->
  unborrowed i (aw_agents s) = true -> aw_agents s !! j = Some b -> j <> i -> n = strong s - w_strong a ->
  arc_inv (mkArcW (live n (Some v)) (delete i (aw_agents s)) (aw_bad s)).
Proof.
  intros I Hi Ha Hu%bool_decide_eq_true Hj Hji ->. rewrite (ai_bad _ I).
  assert (weigh w_strong (delete i (aw_agents s)) = strong s - w_strong a) as Hw
    by (weigh_step; unfold strong; lia).
  rewrite <- Hw. eapply (shared_inv _ _ j b).
  - by rewrite lookup_delete_ne.
  - intros k y [_ Hk]%lookup_delete_Some. by apply (none_exclusive s i a k y).
  - pose proof (weigh_nonneg _ w_strong_nonneg (delete i (aw_agents s))).
    pose proof (ai_range _ I). pose proof (w_strong_nonneg a). lia.
  - intros k o [_ Hk]%lookup_delete_Some. destruct (ai_borrow _ I _ _ Hk) as (y & Hy & Hs).
    exists y. split; [|done]. rewrite lookup_delete_ne; [done|]. intros <-. by apply (Hu k _ Hk).
Qed.

Lemma weigh_other (a : gmap nat arc_agent) i x : a !! i = Some x -> w_strong x = 1 -> 1 < weigh w_strong a ->
  exists j b, a !! j = Some b /\ j <> i.
Proof.
  intros Hi Hx Hw. destruct (weigh_pos w_strong (delete i a)) as (j & b & Hj & _).
  { pose proof (weigh_delete w_strong a i x Hi). lia. }
  apply lookup_delete_Some in Hj as [? ?]. by exists j, b.
Qed.

Lemma drop_inv s i a u : arc_inv s -> aw_agents s !! i = Some a -> w_strong a = 1 ->
  unborrowed i (aw_agents s) = true -> (a = UniqueUninit -> u = true) -> arc_inv (arc_drop p u i s).
Proof.
  intros I Hi Ha Hu Hun. destruct (cell_alive s i a I Hi) as (d & Hh & Hd). rewrite (drop_eq s u i _ d Hh).
  pose proof (ai_range _ I) as Hr. pose proof (weigh_member _ w_strong_nonneg _ _ _ Hi) as Hm. fold (strong s) in Hm.
  rewrite sext_small by lia. destruct (Z.eqb_spec (strong s) 1) as [H1|H1].
  - rewrite (last_alone s i a I Hi Ha H1 Hu), insert_singleton, decide_True, H1, (ai_bad _ I) by done.
    apply (alone_inv i (MustFree u)); [done|]. intros ->. destruct (Hd eq_refl) as [_ Hs].
    destruct a; try done. by rewrite Hun.
  - assert (exclusive a = false) as He.
    { destruct (exclusive a) eqn:E; [exfalso|done]. apply H1. unfold strong.
      rewrite (ai_excl _ I _ _ Hi E), <- insert_empty, weigh_insert, weigh_empty by apply lookup_empty. lia. }
    destruct (weigh_other _ _ _ Hi Ha) as (j & b & Hj & Hji); [fold (strong s); lia|].
    destruct d as [v|]; [|destruct (Hd eq_refl) as [_ Hs]; by destruct a].
    by apply (delete_shared_inv s i a v j b); auto; lia.
Qed.

Lemma free_inv s i u : arc_inv s -> aw_agents s !! i = Some (MustFree u) -> arc_inv (arc_free p u i s).
Proof.
  intros I Hi. destruct (cell_alive s i _ I Hi) as (d & Hh & Hd). rewrite (free_eq s u i _ d Hh).
  pose proof (ai_excl _ I _ _ Hi eq_refl) as He.
  assert (strong s = 0) as H0.
  { unfold strong. by rewrite He, <- insert_empty, weigh_insert, weigh_empty by apply lookup_empty. }
  rewrite He, delete_singleton_eq, H0, (ai_bad _ I). split; cbn [aw_bad aw_agents]; try done.
  unfold cell_ok. cbn [aw_agents aw_heap cells destroyed]. rewrite bool_decide_eq_true_2 by done.
  split; [done|]. destruct u; [by left|]. destruct d as [v|]; [right; by exists v|].
  by destruct (Hd eq_refl).
Qed.

Lemma clone_inv s i a j : arc_inv s -> aw_agents s !! i = Some a -> exclusive a = false ->
  aw_agents s !! j = None -> strong s < 2 ^ 31 - 1 -> arc_inv (arc_clone p j s).
Proof.
  intros I Hi Ha Hj Hr. destruct (add_agent_inv s i a j Strong I Hi Ha Hj eq_refl) as (v & Hh & HI); [cbn; lia|done|].
  rewrite (clone_eq s j _ _ Hh), refcount_inc_ok; [done|]. pose proof (ai_range _ I). lia.
Qed.

Lemma borrow_inv s i a j o b : arc_inv s -> aw_agents s !! i = Some a -> exclusive a = false ->
  aw_agents s !! j = None -> aw_agents s !! o = Some b -> (b = Strong \/ b = Raw) ->
  arc_inv (set_agents (<[j := Borrowed o]> (aw_agents s)) s).
Proof.
  intros I Hi Ha Hj Ho Hb.
  destruct (add_agent_inv s i a j (Borrowed o) I Hi Ha Hj eq_refl) as (v & Hh & HI).
  - pose proof (ai_range _ I). cbn. lia.
  - intros o' [= <-]. by exists b.
  - unfold set_agents. rewrite Hh. cbn [w_strong] in HI. by rewrite Z.add_0_r in HI.
Qed.

Lemma borrow_end_inv s i o : arc_inv s -> aw_agents s !! i = Some (Borrowed o) ->
  arc_inv (set_agents (delete i (aw_agents s)) s).
Proof.
  intros I Hi. destruct (ai_borrow _ I _ _ Hi) as (b & Ho & Hb).
  destruct (alive_init s i _ I Hi eq_refl) as [v Hv]. unfold set_agents. rewrite Hv.
  eapply (delete_shared_inv s i _ v o b); eauto.
  - apply bool_decide_eq_true. intros k x Hk ->.
    destruct (ai_borrow _ I _ _ Hk) as (y & Hy & [-> | ->]); congruence.
  - intros ->. destruct Hb; congruence.
  - cbn. lia.
Qed.

(** An agent that has the cell for itself. *)
Lemma solo_inv s i a x d d' : arc_inv s -> aw_agents s !! i = Some a -> exclusive a = true ->
  aw_heap s = live (strong s) d -> w_strong x = w_strong a -> (forall o, x <> Borrowed o) ->
  (d' = None -> sees_uninit x = true) ->
  arc_inv (mkArcW (live (strong s) d') (<[i := x]> (aw_agents s)) (aw_bad s)).
Proof.
  intros I Hi Ha Hh Hx Hb Hd. pose proof (ai_excl _ I _ _ Hi Ha) as He.
  assert (strong s = w_strong x) as ->.
  { unfold strong. rewrite He, <- insert_empty, weigh_insert, weigh_empty by apply lookup_empty. lia. }
  rewrite He, insert_singleton, decide_True, (ai_bad _ I) by done. by apply alone_inv.
Qed.

(** Every event keeps the invariant while the count has room for one more. *)
Lemma arc_step_inv s e s' : arc_inv s -> strong s < 2 ^ 31 - 1 -> arc_step p s e = Some s' -> arc_inv s'.
Proof.
  intros I Hr. destruct e as [i j|i|i|i|i|i j|i j|i|i j|i|i v|i|i]; cbn [arc_step];
    try (destruct (unborrowed i (aw_agents s)) eqn:Hu; [|done]);
    destruct (aw_agents s !! i) as [a|] eqn:Hi; try done.
  - destruct a; try done. destruct (aw_agents s !! j) eqn:Hj; [done|]. intros [= <-]. by eapply clone_inv.
  - destruct a; try done; intros [= <-]; by eapply drop_inv.
  - destruct a; try done; intros [= <-]. by apply free_inv.
  - destruct a; try done; intros [= <-]. eapply retype_inv; eauto.
  - destruct a; try done; intros [= <-]. eapply retype_inv; eauto.
  - destruct a; try done; destruct (aw_agents s !! j) eqn:Hj; try done; intros [= <-]; eapply borrow_inv; eauto.
  - destruct a; try done; destruct (aw_agents s !! j) eqn:Hj; try done; intros [= <-].
    destruct (ai_borrow _ I _ _ Hi) as (b & Hb & Hs). eapply (borrow_inv s i _ j owner b); eauto.
  - destruct a; try done; intros [= <-]. eapply borrow_end_inv; eauto.
  - destruct a; try done; destruct (aw_agents s !! j) eqn:Hj; try done; intros [= <-]. eapply (clone_inv s i); eauto.
  - destruct a; try done; intros [= <-];
      destruct (alive_init s i _ I Hi eq_refl) as [v Hv]; by rewrite (deref_eq s _ v Hv).
  - destruct (cell_alive s i a I Hi) as (d & Hh & _). destruct a; try done; intros [= <-];
      rewrite (write_eq s _ d v Hh);
      pose proof (solo_inv s i _ _ d (Some v) I Hi eq_refl Hh eq_refl ltac:(done) ltac:(done)) as HI;
      by rewrite (insert_id _ _ _ Hi) in HI.
  - destruct a; try done. destruct (initialised p s) eqn:Ei; [|done]. intros [= <-].
    destruct (cell_alive s i _ I Hi) as (d & Hh & _). unfold initialised in Ei. rewrite Hh in Ei.
    cbn [cells] in Ei. rewrite lookup_insert_eq in Ei. destruct d as [v|]; [|done].
    rewrite (assume_eq s i _ v Hh). by eapply solo_inv.
  - destruct a; try done. intros [= <-]. destruct (alive_init s i _ I Hi eq_refl) as [v Hv].
    unfold set_agents. rewrite Hv. by eapply solo_inv.
Qed.

(** An [Arc] that was never a [UniqueArc] keeps the value it was created with. *)
Definition plain (a : arc_agent) : bool :=
  match a with Unique | UniqueUninit | MustFree true => false | _ => true end.

Definition val_inv (v : V) s : Prop :=
  map_Forall (fun _ a => plain a = true) (aw_agents s) /\
  if bool_decide (aw_agents s = ∅) then destroyed (aw_heap s) = mkInner 0 (Some v) :: destroyed h0
  else aw_heap s = live (strong s) (Some v).

Lemma val_inv_heap v s i a : val_inv v s -> aw_agents s !! i = Some a -> aw_heap s = live (strong s) (Some v).
Proof. intros [_ H] Hi. by rewrite bool_decide_eq_false_2 in H by eauto using agents_ne. Qed.

Lemma val_inv_new v s' i a n : map_Forall (fun _ a => plain a = true) (aw_agents s') -> aw_agents s' !! i = Some a ->
  arc_inv s' -> aw_heap s' = live n (Some v) -> val_inv v s'.
Proof.
  intros Hp Hi I Hh. split; [done|]. rewrite bool_decide_eq_false_2 by eauto using agents_ne.
  destruct (cell_alive s' i a I Hi) as (d & Hd & _). rewrite Hd in Hh |- *. injection Hh as Hh.
  assert (Some (Some (mkInner (strong s') d)) = Some (Some (mkInner n (Some v)))) as [= _ ->]; [|done].
  rewrite <- (lookup_insert_eq (cells h0) p (Some (mkInner (strong s') d))), Hh. apply lookup_insert_eq.
Qed.

Lemma val_step_inv v s e s' : arc_inv s -> strong s < 2 ^ 31 - 1 -> val_inv v s -> arc_step p s e = Some s' ->
  val_inv v s'.
Proof.
  intros I Hr Hv Hs. pose proof (arc_step_inv s e s' I Hr Hs) as I'. revert Hs. pose proof (proj1 Hv) as Hp.
  destruct e as [i j|i|i|i|i|i j|i j|i|i j|i|i w|i|i]; cbn [arc_step];
    try (destruct (unborrowed i (aw_agents s)) eqn:Hu; [|done]);
    destruct (aw_agents s !! i) as [a|] eqn:Hi; try done;
    pose proof (val_inv_heap v s i a Hv Hi) as Hh; pose proof (Hp i a Hi) as Hpi;
    destruct a as [| | | |o|u]; try done; try (destruct (aw_agents s !! j) eqn:Hj; [done|]);
    intros [= <-]; revert I'; rewrite ?(clone_eq s j _ _ Hh), ?(deref_eq s _ v Hh); intros I'; try done;
    try (eapply (val_inv_new v _ j); [by apply map_Forall_insert_2|apply lookup_insert_eq|done|eauto; fail]);
    try (eapply (val_inv_new v _ i); [by apply map_Forall_insert_2|apply lookup_insert_eq|done|eauto; fail]).
  - revert I'. rewrite (drop_eq s false i _ _ Hh). destruct (Z.eqb_spec (strong s) 1) as [H1|H1]; intros I'.
    + eapply (val_inv_new v _ i); [by apply map_Forall_insert_2|apply lookup_insert_eq|done|eauto].
    + destruct (weigh_other _ _ _ Hi eq_refl) as (j & b & Hj & Hji).
      { pose proof (weigh_member _ w_strong_nonneg _ _ _ Hi). fold (strong s) in *. cbn in *. lia. }
      eapply (val_inv_new v _ j); [by apply map_Forall_delete|cbn; by rewrite lookup_delete_ne|done|eauto].
  - destruct u; [done|]. pose proof (ai_excl _ I _ _ Hi eq_refl) as He.
    assert (strong s = 0) as H0 by (unfold strong; by rewrite He, <- insert_empty, weigh_insert, weigh_empty by apply lookup_empty).
    rewrite (free_eq s false i _ _ Hh), He, delete_singleton_eq, H0. by split.
  - destruct (ai_borrow _ I _ _ Hi) as (b & Ho & Hb).
    eapply (val_inv_new v _ o b); [by apply map_Forall_delete| |done|eauto].
    cbn. rewrite lookup_delete_ne; [done|]. intros ->. destruct Hb; congruence.
Qed.
End Invariant.

(** ** Reachable states *)

Section Reach.
Context {V : Type} {PL : Placement (ArcInner V)} {PO : PlacementOk (ArcInner V) PL}.

(** What can happen to one allocation, started on heap [h] at address [p], while fewer
    than 2^31 - 1 references to it exist at a time. *)
Inductive arc_reach (p : Z) (h : Heap (ArcInner V)) : arc_world V -> Prop :=
| arc_reach_new size v h1 k : 0 < size -> Arc_new size v h = (Ok p, h1) -> (k = Strong \/ k = Unique) ->
    arc_reach p h (arc_start k h1)
| arc_reach_uninit size h1 : 0 < size -> UniqueArc_new_uninit size h = (Ok p, h1) ->
    arc_reach p h (arc_start UniqueUninit h1)
| arc_reach_step s e s' : arc_reach p h s -> strong s < 2 ^ 31 - 1 -> arc_step p s e = Some s' ->
    arc_reach p h s'.

Lemma box_new_start p h h1 size c : 0 < size -> box_new size c h = (Ok p, h1) ->
  16 < p /\ cells h !! p = None /\ h1 = mkHeap (<[p := Some c]> (cells h)) (destroyed h).
Proof.
  intros Hs. unfold box_new, m_bind.
  destruct (box_alloc_cases size h Hs) as [(q & -> & Hq & Hn)| ->]; [|done].
  unfold box_store, m_ret. cbn [cells destroyed]. intros [= <- <-]. by rewrite insert_insert_eq.
Qed.

Lemma arc_reach_inv p h s : arc_reach p h s -> 16 < p /\ cells h !! p = None /\ arc_inv p h s.
Proof.
  induction 1 as [size v h1 k Hs Hn Hk|size h1 Hs Hn|s e s' _ (Hp & Hf & I) Hr Hstep].
  - destruct (box_new_start _ _ _ _ _ Hs Hn) as (? & ? & ->). split_and!; [done..|].
    destruct Hk as [-> | ->]; [by apply (alone_inv p h 0 Strong (Some v))|by apply (alone_inv p h 0 Unique (Some v))].
  - destruct (box_new_start _ _ _ _ _ Hs Hn) as (? & ? & ->). split_and!; [done..|].
    by apply (alone_inv p h 0 UniqueUninit None).
  - split_and!; [done..|]. by eapply arc_step_inv.
Qed.

(** The states between two points of a run. *)
Inductive arc_steps (p : Z) (s : arc_world V) : arc_world V -> Prop :=
| steps_none : arc_steps p s s
| steps_more s1 e s2 : arc_steps p s s1 -> strong s1 < 2 ^ 31 - 1 -> arc_step p s1 e = Some s2 ->
    arc_steps p s s2.

Lemma arc_steps_inv p h h1 size v s : 0 < size -> Arc_new size v h = (Ok p, h1) ->
  arc_steps p (arc_start Strong h1) s -> arc_reach p h s /\ val_inv p h v s.
Proof.
  intros Hs Hn. assert (arc_reach p h (arc_start Strong h1)) as H0 by (eapply arc_reach_new; eauto).
  induction 1 as [|s1 e s2 _ [IH Hv] Hr Hstep].
  - split; [done|]. destruct (box_new_start _ _ _ _ _ Hs Hn) as (? & ? & ->). split.
    + intros i a Hi. cbn in Hi. by apply lookup_singleton_Some in Hi as [_ <-].
    + done.
  - destruct (arc_reach_inv _ _ _ IH) as (? & ? & I). split; [by eapply arc_reach_step|].
    by eapply (val_step_inv p h).
Qed.

(** C30. No reference to an [Arc] outlives its allocation: in every interleaving of
    clones, drops, raw pointers, borrows and [UniqueArc]s, nobody touches freed or
    uninitialised memory, the count is the number of references as long as anybody refers
    to the object, the destructor has not run by then, and no other allocation changes. *)
Theorem arc_safe p h s : arc_reach p h s ->
  aw_bad s = false /\ delete p (cells (aw_heap s)) = cells h /\
  (forall i a, aw_agents s !! i = Some a ->
     exists d, cells (aw_heap s) !! p = Some (Some (mkInner (strong s) d)) /\ destroyed (aw_heap s) = destroyed h).
Proof.
  intros (Hp & Hf & I)%arc_reach_inv. split; [apply I|]. split.
  - pose proof (ai_cell _ _ _ I) as Hc. unfold cell_ok in Hc. case_bool_decide.
    + destruct Hc as [-> _]. by apply delete_id.
    + destruct Hc as (d & -> & _). by apply delete_insert_id.
  - intros i a Hi. destruct (cell_alive p h s i a I Hi) as (d & -> & _). exists d. split; [apply lookup_insert_eq|done].
Qed.

(** C31. The object created by [Arc::new] is released exactly once, by whoever drops the
    last reference: as long as an [Arc], raw pointer or borrow is left the object is there
    with its value, and when none is left its destructor has run once and the heap is as it
    was before. *)
Theorem arc_released_once p h h1 size v s :
  0 < size -> Arc_new size v h = (Ok p, h1) -> arc_steps p (arc_start Strong h1) s ->
  aw_heap s = if bool_decide (aw_agents s = ∅) then mkHeap (cells h) (mkInner 0 (Some v) :: destroyed h)
              else mkHeap (<[p := Some (mkInner (strong s) (Some v))]> (cells h)) (destroyed h).
Proof.
  intros Hs Hn Hst. destruct (arc_steps_inv p h h1 size v s Hs Hn Hst) as [(Hp & Hf & I)%arc_reach_inv [_ Hv]].
  pose proof (ai_cell _ _ _ I) as Hc. unfold cell_ok in Hc. case_bool_decide; [|done].
  destruct (aw_heap s); cbn in *. destruct Hc as [-> _]. by rewrite Hv.
Qed.

(** C32. A [UniqueArc] is what its type says: nothing else refers to the object and its
    count is one, so [deref_mut] never aliases. *)
Theorem unique_arc_exclusive p h s i a : arc_reach p h s -> aw_agents s !! i = Some a ->
  (a = Unique \/ a = UniqueUninit) ->
  aw_agents s = {[ i := a ]} /\ exists d, cells (aw_heap s) !! p = Some (Some (mkInner 1 d)).
Proof.
  intros (Hp & Hf & I)%arc_reach_inv Hi Ha.
  assert (aw_agents s = {[ i := a ]}) as He by (apply (ai_excl _ _ _ I _ _ Hi); by destruct Ha; subst).
  split; [done|]. destruct (cell_alive p h s i a I Hi) as (d & -> & _). exists d. cbn.
  rewrite lookup_insert_eq. unfold strong. rewrite He, <- insert_empty, weigh_insert, weigh_empty by apply lookup_empty.
  by destruct Ha; subst.
Qed.
End Reach.

(** ** Wrap-around *)

Lemma sext32_succ x : sext 32 (sext 32 x + 1) = sext 32 (x + 1).
Proof.
  assert (wrap 32 (sext 32 x + 1) = wrap 32 (x + 1)) as Hw.
  { unfold sext, wrap. change (2 ^ (32 - 1)) with 2147483648. change (2 ^ 32) with 4294967296.
    destruct (x mod 4294967296 <? 2147483648); Z.to_euclidean_division_equations; lia. }
  unfold sext at 1 3. by rewrite Hw.
Qed.

Section Overflow.
Context {V : Type} (p : Z) (h0 : Heap (ArcInner V)) (v : V).
Hypothesis p_valid : 16 < p.
Hypothesis p_fresh : cells h0 !! p = None.

Abbreviation live n := (mkHeap (<[p := Some (mkInner n (Some v))]> (cells h0)) (destroyed h0)).

Definition clones (n : nat) : list (arc_event V) := AClone 0 <$> seq 1 n.

(** [n] clones of the first handle, all kept. *)
Lemma clones_run n : exists a, exec (arc_step p) (arc_start Strong (live 1)) (clones n) =
    Some (mkArcW (live (sext 32 (1 + Z.of_nat n))) a false) /\
  (forall j, a !! j = if decide (j <= n)%nat then Some Strong else None).
Proof.
  induction n as [|n (a & IH & Ha)].
  - eexists. split; [reflexivity|]. intros j. destruct (decide (j <= 0)%nat) as [Hj|Hj].
    + by assert (j = 0)%nat as -> by lia.
    + apply lookup_singleton_ne. lia.
  - unfold clones in *. rewrite seq_S, fmap_app. cbn [fmap list_fmap]. rewrite exec_snoc, IH. cbn [arc_step aw_agents].
    rewrite !Ha. destruct (decide (0 <= n)%nat); [|lia]. destruct (decide (1 + n <= n)%nat); [lia|].
    erewrite (clone_eq p h0) by reflexivity. cbn [aw_agents aw_bad]. unfold refcount_inc. rewrite sext32_succ.
    replace (1 + Z.of_nat n + 1) with (1 + Z.of_nat (S n)) by lia.
    eexists. split; [reflexivity|]. intros j. destruct (decide (j = S n)) as [->|Hj].
    + rewrite lookup_insert_eq. by destruct (decide (S n <= S n)%nat); [|lia].
    + rewrite lookup_insert_ne, Ha by lia. by repeat case_decide; [|lia..|].
Qed.

(** The count wraps: after 2^32 clones of a handle it is one again, so the next drop
    frees the object although 2^32 handles are left, and the next use of one is a use after
    free.  (The comment on [clone] says that the count saturates.) *)
Theorem arc_count_wraps : exists es s s', exec (arc_step p) (arc_start Strong (live 1)) es = Some s /\
  aw_agents s !! 0%nat = Some Strong /\ cells (aw_heap s) !! p = None /\
  arc_step p s (ADeref 0) = Some s' /\ aw_bad s' = true.
Proof.
  assert (exists n, Z.of_nat n = 2 ^ 32) as [n Hn] by (exists (Z.to_nat (2 ^ 32)); apply Z2Nat.id; lia).
  destruct (clones_run n) as (a & Ha & Hl). rewrite Hn in Ha. exists (clones n ++ [ADrop 1; AFree 1]).
  change (sext 32 (1 + 2 ^ 32)) with 1 in Ha.
  assert (a !! 0%nat = Some Strong /\ a !! 1%nat = Some Strong) as [H0 H1].
  { rewrite !Hl. by rewrite !decide_True by lia. }
  assert (unborrowed 1 a = true) as Hu.
  { apply bool_decide_eq_true. intros k x. rewrite Hl. case_decide; [by intros [= <-]|done]. }
  rewrite exec_app, Ha. cbn [exec arc_step aw_agents]. rewrite Hu, H1. erewrite (drop_eq p h0) by reflexivity.
  cbn [aw_agents aw_bad]. change (1 =? 1) with true. cbn [arc_step aw_agents]. rewrite lookup_insert_eq.
  erewrite (free_eq p h0 p_valid p_fresh) by reflexivity. cbn [aw_agents aw_bad aw_heap cells].
  do 2 eexists. split; [reflexivity|]. cbn [aw_agents aw_heap cells]. 
  rewrite lookup_delete_ne, lookup_insert_ne, H0 by done. split; [done|]. split; [done|].
  unfold arc_deref, on_heap, m_bind, box_load. cbn [aw_heap cells]. rewrite p_fresh. done.
Qed.
End Overflow.

(** ** Wakers and work items

    [RawWaker] and [work_struct] carry an [Arc] as a bare pointer.  Each entry of the
    waker table, and queueing, is a sequence of the events above; [i] is the pointer it
    is given and [j] the new reference it makes. *)
Section Wakers.
Context {V : Type}.

(** [ref_waker]. *)
Definition ref_waker (i j : nat) : list (arc_event V) := [AClone i j; AIntoRaw j].

(** The four functions of [raw_waker_vtable]; [mem::forget] leaves the reference with
    the pointer again.  [ArcWake::wake] consumes the [Arc] that [waker_wake] and
    [waker_wake_by_ref] make. *)
Definition waker_clone (i j : nat) : list (arc_event V) := [AFromRaw i; AClone i j; AIntoRaw i; AIntoRaw j].
Definition waker_wake (i : nat) : list (arc_event V) := [AFromRaw i].
Definition waker_wake_by_ref (i j : nat) : list (arc_event V) := [AFromRaw i; AClone i j; AIntoRaw i].
Definition waker_drop (i : nat) : list (arc_event V) := [AFromRaw i; ADrop i].

(** [__enqueue] with what [queue_work_on] answered, and the start of the callback [run]. *)
Definition work_enqueue (queued : bool) (i : nat) : list (arc_event V) :=
  if queued then [AIntoRaw i] else [AIntoRaw i; AFromRaw i].
Definition work_run (i : nat) : list (arc_event V) := [AFromRaw i].
End Wakers.

Section WakerProofs.
Context {V : Type} (p : Z) (h0 : Heap (ArcInner V)).
Implicit Types s : arc_world V.

Lemma unborrowed_insert i j x a : unborrowed i a = true -> x <> Borrowed i -> unborrowed i (<[j := x]> a) = true.
Proof.
  intros Ha%bool_decide_eq_true Hx. apply bool_decide_eq_true. by apply map_Forall_insert_2.
Qed.

(** A new agent is not borrowed: borrows refer to agents that exist. *)
Lemma unborrowed_fresh s j : arc_inv p h0 s -> aw_agents s !! j = None -> unborrowed j (aw_agents s) = true.
Proof.
  intros I Hj. apply bool_decide_eq_true. intros k x Hk ->.
  destruct (ai_borrow _ _ _ I _ _ Hk) as (y & Hy & _). congruence.
Qed.

(** Taking the [Arc] behind a pointer, cloning it and putting it back. *)
Lemma peek_clone_run s i j v : aw_heap s = mkHeap (<[p := Some (mkInner (strong s) (Some v))]> (cells h0)) (destroyed h0) ->
  aw_agents s !! i = Some Raw -> unborrowed i (aw_agents s) = true -> aw_agents s !! j = None ->
  exec (arc_step p) s [AFromRaw i; AClone i j; AIntoRaw i] =
    Some (mkArcW (mkHeap (<[p := Some (mkInner (refcount_inc (strong s)) (Some v))]> (cells h0)) (destroyed h0))
            (<[j := Strong]> (aw_agents s)) (aw_bad s)).
Proof.
  intros Hh Hi Hu Hj. assert (i <> j) as Hij by congruence.
  cbn [exec arc_step]. rewrite Hi, Hu. unfold set_agents. cbn [exec arc_step aw_agents].
  rewrite lookup_insert_eq, (lookup_insert_ne _ i j), Hj by done.
  erewrite (clone_eq p h0) by exact Hh. cbn [exec arc_step aw_agents aw_bad].
  rewrite unborrowed_insert by (try apply unborrowed_insert; done). rewrite lookup_insert_ne, lookup_insert_eq by done.
  unfold set_agents. cbn [exec arc_step aw_agents aw_bad aw_heap]. do 2 f_equal.
  rewrite (insert_insert_ne _ i j), insert_insert_eq by done. f_equal. by apply insert_id.
Qed.

Lemma on_heap_strong {A} s (m : M _ _ A) k n : strong s <= n -> (forall x, weigh w_strong (k x) <= n) ->
  strong (on_heap s m k) <= n.
Proof. intros Hs Hk. unfold on_heap, strong. destruct (m (aw_heap s)) as [[] ?]; cbn; [apply Hk|done..]. Qed.

(** An event makes at most one reference. *)
Lemma strong_step s e s' : arc_step p s e = Some s' -> strong s' <= strong s + 1.
Proof.
  assert (forall i a x, aw_agents s !! i = Some a -> w_strong x <= w_strong a + 1 ->
            weigh w_strong (<[i := x]> (aw_agents s)) <= strong s + 1) as Hup
    by (intros i a x Hi Hx; weigh_step; unfold strong; lia).
  assert (forall j x, aw_agents s !! j = None -> w_strong x <= 1 ->
            weigh w_strong (<[j := x]> (aw_agents s)) <= strong s + 1) as Hnew
    by (intros j x Hj Hx; weigh_step; unfold strong; lia).
  assert (forall i a, aw_agents s !! i = Some a -> weigh w_strong (delete i (aw_agents s)) <= strong s + 1) as Hdel
    by (intros i a Hi; weigh_step; pose proof (w_strong_nonneg a); unfold strong; lia).
  destruct e as [i j|i|i|i|i|i j|i j|i|i j|i|i v|i|i]; cbn [arc_step];
    try (destruct (unborrowed i (aw_agents s)); [|done]);
    destruct (aw_agents s !! i) as [a|] eqn:Hi; try done; destruct a; try done;
    try (destruct (aw_agents s !! j) eqn:Hj; [done|]); try (destruct (initialised p s); [|done]); intros [= <-];
    try (apply on_heap_strong; [lia|intros x; try destruct x]); unfold strong; try lia;
    solve [by eapply Hdel | by eapply (Hup i) | by eapply (Hnew j)].
Qed.

Lemma arc_steps_app s1 s2 s3 : arc_steps p s1 s2 -> arc_steps p s2 s3 -> arc_steps p s1 s3.
Proof. intros H. induction 1; [done|]. by eapply steps_more. Qed.

Lemma arc_steps_exec es s s' : exec (arc_step p) s es = Some s' -> strong s + lenZ es < 2 ^ 31 -> arc_steps p s s'.
Proof.
  revert s. induction es as [|e es IH]; intros s; cbn [exec]; [intros [= <-] _; apply steps_none|].
  destruct (arc_step p s e) as [s1|] eqn:E; [|done]. intros Hx Hl. rewrite lenZ_cons in Hl.
  pose proof (strong_step _ _ _ E). pose proof (lenZ_nonneg es).
  eapply arc_steps_app; [|apply (IH s1); [done|lia]]. eapply steps_more; [apply steps_none|lia|done].
Qed.

Context {PL : Placement (ArcInner V)} {PO : PlacementOk (ArcInner V) PL}.

Lemma arc_reach_steps s s' : arc_reach p h0 s -> arc_steps p s s' -> arc_reach p h0 s'.
Proof. intros H. induction 1; [done|]. by eapply arc_reach_step. Qed.

Lemma arc_reach_exec es s s' : arc_reach p h0 s -> exec (arc_step p) s es = Some s' ->
  strong s + lenZ es < 2 ^ 31 -> arc_reach p h0 s'.
Proof. eauto using arc_reach_steps, arc_steps_exec. Qed.

(** The waker table keeps the reference counts right: on a pointer [i] that owns a
    reference, [clone] makes exactly one new owning pointer, [wake] turns the pointer into
    the [Arc] that it passes on, [wake_by_ref] passes on a new [Arc] and leaves the
    pointer as it was, and [drop] gives up the pointer's reference, whoever else works on
    the object in between; a work item that the queue refuses is given back unchanged. *)
Theorem waker_balanced s i j : arc_reach p h0 s -> strong s < 2 ^ 31 - 5 ->
  aw_agents s !! i = Some Raw -> unborrowed i (aw_agents s) = true -> aw_agents s !! j = None ->
  let gives es a := exists s', exec (arc_step p) s es = Some s' /\ aw_agents s' = a /\ arc_reach p h0 s' in
  gives (waker_clone i j) (<[j := Raw]> (aw_agents s)) /\
  gives (waker_wake i) (<[i := Strong]> (aw_agents s)) /\
  gives (waker_wake_by_ref i j) (<[j := Strong]> (aw_agents s)) /\
  gives (waker_drop i) (if strong s =? 1 then <[i := MustFree false]> (aw_agents s) else delete i (aw_agents s)) /\
  (forall q, gives (waker_wake i ++ work_enqueue q i) (<[i := if (q : bool) then Raw else Strong]> (aw_agents s))).
Proof.
  intros HR Hs Hi Hu Hj gives. destruct (arc_reach_inv _ _ _ HR) as (Hp & Hf & I).
  destruct (alive_init p h0 s i Raw I Hi eq_refl) as [v Hv].
  assert (forall es s' a, exec (arc_step p) s es = Some s' -> lenZ es <= 4 -> aw_agents s' = a -> gives es a) as Hg
    by (intros es s' a He Hl Ha; exists s'; split_and!; [done..|]; eapply arc_reach_exec; eauto; lia).
  pose proof (peek_clone_run s i j v Hv Hi Hu Hj) as Hpc.
  assert (forall x, x <> Borrowed i -> unborrowed i (<[i := x]> (aw_agents s)) = true) as Hub
    by (intros x; by apply unborrowed_insert).
  split_and!.
  - assert (waker_clone i j = [AFromRaw i; AClone i j; AIntoRaw i] ++ [AIntoRaw j]) as -> by done.
    eapply Hg; [|done|].
    + rewrite exec_app, Hpc. cbn [exec arc_step aw_agents].
      rewrite unborrowed_insert, lookup_insert_eq by (done || by eapply unborrowed_fresh). reflexivity.
    + cbn. apply insert_insert_eq.
  - eapply Hg; [|done|]; cbn [waker_wake exec arc_step]; [rewrite Hi, Hu; reflexivity|done].
  - by eapply Hg.
  - eapply Hg; [|done|].
    + cbn [waker_drop exec arc_step]. rewrite Hi, Hu. unfold set_agents. cbn [exec arc_step aw_agents].
      rewrite Hub, lookup_insert_eq by done. erewrite (drop_eq p h0) by exact Hv. reflexivity.
    + cbn [aw_agents]. by rewrite insert_insert_eq, delete_insert_eq.
  - intros [|]; (eapply Hg; [|done|]).
    + cbn [waker_wake work_enqueue app exec arc_step]. rewrite Hi, Hu. unfold set_agents. cbn [exec arc_step aw_agents].
      rewrite Hub, lookup_insert_eq by done. reflexivity.
    + cbn. apply insert_insert_eq.
    + cbn [waker_wake work_enqueue app exec arc_step]. rewrite Hi, Hu. unfold set_agents. cbn [exec arc_step aw_agents].
      rewrite Hub, lookup_insert_eq by done. unfold set_agents. cbn [exec arc_step aw_agents].
      rewrite insert_insert_eq, Hub, lookup_insert_eq by done. reflexivity.
    + cbn. apply insert_insert_eq.
Qed.
End WakerProofs.

(** ** Concrete runs *)
Definition demo_heap : Heap (ArcInner Z) := mkHeap ∅ [].
Definition demo_start (k : arc_agent) : arc_world Z :=
  arc_start k (mkHeap {[ 17 := Some (mkInner 1 (Some 5)) ]} []).

Lemma demo_new : @Arc_new Z bump_place 16 5 demo_heap = (Ok 17, mkHeap {[ 17 := Some (mkInner 1 (Some 5)) ]} []).
Proof. reflexivity. Qed.

Lemma demo_reach k es s : (k = Strong \/ k = Unique) -> exec (arc_step 17) (demo_start k) es = Some s -> lenZ es < 1000 ->
  arc_reach (PL := bump_place) 17 demo_heap s.
Proof.
  intros Hk He Hl. eapply arc_reach_exec; [|done|].
  - eapply (arc_reach_new _ _ 16 5); [done|exact demo_new|done].
  - assert (strong (demo_start k) = 1) as -> by (by destruct Hk; subst). lia.
Qed.

Lemma arc_safe_witness : exists s,
  exec (arc_step 17) (demo_start Strong) [AClone 0 1; AIntoRaw 1; ADrop 0; AFromRaw 1; ADeref 1] = Some s /\
  aw_bad s = false /\ delete 17 (cells (aw_heap s)) = ∅.
Proof.
  eexists. split; [reflexivity|].
  edestruct (arc_safe (PL := bump_place) 17 demo_heap) as (H1 & H2 & _); [|split; [exact H1|exact H2]].
  eapply (demo_reach Strong [AClone 0 1; AIntoRaw 1; ADrop 0; AFromRaw 1; ADeref 1]); [by left|reflexivity|done].
Defined.

Lemma arc_released_once_witness : exists s,
  exec (arc_step 17) (demo_start Strong) [AClone 0 1; ADrop 0; ADrop 1; AFree 1] = Some s /\
  aw_heap s = mkHeap ∅ [mkInner 0 (Some 5)].
Proof.
  eexists. split; [reflexivity|].
  etransitivity; [apply (arc_released_once (PL := bump_place) 17 demo_heap _ 16 5 _ eq_refl demo_new)|].
  - apply (arc_steps_exec 17 [AClone 0 1; ADrop 0; ADrop 1; AFree 1]); reflexivity.
  - vm_compute. reflexivity.
Defined.

Lemma unique_arc_exclusive_witness :
  aw_agents (demo_start Unique) = {[ 0%nat := Unique ]} /\
  exists d, cells (aw_heap (demo_start Unique)) !! 17 = Some (Some (mkInner 1 d)).
Proof.
  refine (unique_arc_exclusive (PL := bump_place) 17 demo_heap (demo_start Unique) 0 Unique _ eq_refl (or_introl eq_refl)).
  apply (demo_reach Unique []); [by right|reflexivity|done].
Defined.

Lemma waker_balanced_witness : exists s s',
  exec (arc_step 17) (demo_start Strong) (ref_waker 0 1) = Some s /\
  exec (arc_step 17) s (waker_clone 1 2) = Some s' /\ aw_agents s' = <[2%nat := Raw]> (aw_agents s).
Proof.
  eexists. edestruct (waker_balanced (PL := bump_place) 17 demo_heap) as ((s' & H1 & H2 & _) & _);
    [| | | | |exists s'; split; [reflexivity|split; [exact H1|exact H2]]].
  - eapply (demo_reach Strong (ref_waker 0 1)); [by left|reflexivity|done].
  - reflexivity.
  - reflexivity.
  - reflexivity.
  - reflexivity.
Defined.
