(* ===== verification/Blocking.v ===== *)
(** * Blocking hand-over (rko-core/src/sync/completion.rs, sync/oneshot.rs, and
      [block_on] of kasync/executor/workqueue.rs)

    A [Completion] is the kernel's: [complete] adds one to its count, [wait] blocks until
    the count is positive and takes one off, [wait_timeout] may also give up while it is
    zero.  Blocking is an event that is not enabled.  The one-shot channel and [block_on]
    both hand a value from one thread to another through plain memory, ordered by a
    completion.  One event is one access to that memory. *)
From Stdlib Require Import ZArith Lia Bool.
From stdpp Require Import base list option numbers sets.
From S2P Require Import Prelude Errors Pool.

(** ** The channel *)

(** The sender in [send] or in its [Drop]. *)
Inductive bs_pc (V : Type) : Type :=
| BsIdle | BsValue (v : V) | BsSent | BsComplete | BsDec | BsFree | BsGone.
Arguments BsIdle {V}.
Arguments BsValue {V}.
Arguments BsSent {V}.
Arguments BsComplete {V}.
Arguments BsDec {V}.
Arguments BsFree {V}.
Arguments BsGone {V}.

(** The receiver in [recv], in [recv_timeout] or in its [Drop]. *)
Inductive br_pc : Type := BrIdle | BrWait (timeout : bool) | BrRead | BrTake | BrDec | BrFree | BrGone.

Section Channel.
Context {V : Type}.

(** [Inner<T>] and both handles.  [b_frees], [b_bad], [b_outcome] and [b_result] are
    as in [Oneshot]: how often the cell was freed, an access to freed or uninitialised
    memory, what the sender does, what the receiver returned. *)
Record bchan : Type := mkB {
  b_value : option V; b_sent : bool; b_done : Z; b_refcount : Z;
  b_frees : Z; b_bad : bool; b_snd : bs_pc V; b_rcv : br_pc;
  b_outcome : option (option V); b_result : option (option V) }.

Inductive b_event : Type :=
| BSend (v : V) | BDropSender | BSndStep
| BRecv (timeout : bool) | BDropReceiver | BRcvStep
| BTimeout.   (** the wait of [recv_timeout] gives up *)

(** [channel]. *)
Definition channel : bchan := mkB None false 0 2 0 false BsIdle BrIdle None None.

(** Every step goes through the pointer to the shared cell. *)
Definition touch (c : bchan) : bool := b_bad c || (0 <? b_frees c).
Definition set_s (pc : bs_pc V) (c : bchan) : bchan :=
  mkB (b_value c) (b_sent c) (b_done c) (b_refcount c) (b_frees c) (touch c) pc (b_rcv c) (b_outcome c) (b_result c).
Definition set_r (pc : br_pc) (c : bchan) : bchan :=
  mkB (b_value c) (b_sent c) (b_done c) (b_refcount c) (b_frees c) (touch c) (b_snd c) pc (b_outcome c) (b_result c).
Definition b_return (r : option V) (c : bchan) : bchan :=
  mkB (b_value c) (b_sent c) (b_done c) (b_refcount c) (b_frees c) (b_bad c) (b_snd c) (b_rcv c) (b_outcome c) (Some r).
Definition b_start (o : option V) (c : bchan) : bchan :=
  mkB (b_value c) (b_sent c) (b_done c) (b_refcount c) (b_frees c) (b_bad c) (b_snd c) (b_rcv c) (Some o) (b_result c).

Definition put_value (v : option V) (c : bchan) : bchan :=
  mkB v (b_sent c) (b_done c) (b_refcount c) (b_frees c) (b_bad c) (b_snd c) (b_rcv c) (b_outcome c) (b_result c).
Definition put_sent (c : bchan) : bchan :=
  mkB (b_value c) true (b_done c) (b_refcount c) (b_frees c) (b_bad c) (b_snd c) (b_rcv c) (b_outcome c) (b_result c).

(** [Completion::complete], and the end of a wait. *)
Definition complete (c : bchan) : bchan :=
  mkB (b_value c) (b_sent c) (b_done c + 1) (b_refcount c) (b_frees c) (b_bad c) (b_snd c) (b_rcv c) (b_outcome c) (b_result c).
Definition waited (c : bchan) : bchan :=
  mkB (b_value c) (b_sent c) (b_done c - 1) (b_refcount c) (b_frees c) (b_bad c) (b_snd c) (b_rcv c) (b_outcome c) (b_result c).

(** [dec_ref]: the [fetch_sub], then the release by the one who saw one. *)
Definition b_dec (c : bchan) : bchan * bool :=
  (mkB (b_value c) (b_sent c) (b_done c) (wrap 8 (b_refcount c - 1)) (b_frees c) (b_bad c) (b_snd c) (b_rcv c)
     (b_outcome c) (b_result c), b_refcount c =? 1).
Definition b_free (c : bchan) : bchan :=
  mkB (b_value c) (b_sent c) (b_done c) (b_refcount c) (b_frees c + 1) (b_bad c) (b_snd c) (b_rcv c) (b_outcome c) (b_result c).

(** [Sender::send] and [Drop for Sender]. *)
Definition bsnd_step (c : bchan) : option bchan :=
  match b_snd c with
  | BsIdle | BsGone => None
  | BsValue v => Some (put_value (Some v) (set_s BsSent c))
  | BsSent => Some (put_sent (set_s BsComplete c))
  | BsComplete => Some (complete (set_s BsDec c))
  | BsDec => let '(c', last) := b_dec c in Some (set_s (if last then BsFree else BsGone) c')
  | BsFree => Some (b_free (set_s BsGone c))
  end.

(** [Receiver::recv] and [recv_timeout], with [read_value], and [Drop for Receiver].  A
    [wait_timeout] that succeeds returns at least one. *)
Definition brcv_step (c : bchan) : option bchan :=
  match b_rcv c with
  | BrIdle | BrGone => None
  | BrWait _ => if 0 <? b_done c then Some (waited (set_r BrRead c)) else None
  | BrRead => Some (if b_sent c then set_r BrTake c else b_return None (set_r BrDec c))
  | BrTake =>
      Some (match b_value c with
            | Some v => b_return (Some v) (put_value None (set_r BrDec c))
            | None => mkB None (b_sent c) (b_done c) (b_refcount c) (b_frees c) true (b_snd c) BrDec (b_outcome c) (b_result c)
            end)
  | BrDec => let '(c', last) := b_dec c in Some (set_r (if last then BrFree else BrGone) c')
  | BrFree => Some (b_free (set_r BrGone c))
  end.

Definition b_step (c : bchan) (e : b_event) : option bchan :=
  match e with
  | BSend v => match b_snd c with BsIdle => Some (b_start (Some v) (set_s (BsValue v) c)) | _ => None end
  | BDropSender => match b_snd c with BsIdle => Some (b_start None (set_s BsComplete c)) | _ => None end
  | BSndStep => bsnd_step c
  | BRecv t => match b_rcv c with BrIdle => Some (set_r (BrWait t) c) | _ => None end
  | BDropReceiver => match b_rcv c with BrIdle => Some (set_r BrDec c) | _ => None end
  | BRcvStep => brcv_step c
  | BTimeout =>
      match b_rcv c with
      | BrWait true => if b_done c =? 0 then Some (b_return None (set_r BrDec c)) else None
      | _ => None
      end
  end.

Definition b_reach (c : bchan) : Prop := exists es, exec b_step channel es = Some c.
End Channel.
Arguments bchan V : clear implicits.
Arguments b_event V : clear implicits.

(** ** Invariant of the channel *)
Section ChannelInv.
Context {V : Type}.
Implicit Types c : bchan V.

Definition bs_live (pc : bs_pc V) : Z := match pc with BsFree | BsGone => 0 | _ => 1 end.
Definition br_live (pc : br_pc) : Z := match pc with BrFree | BrGone => 0 | _ => 1 end.
Definition frees_owed c : Z :=
  (match b_snd c with BsFree => 1 | _ => 0 end) + (match b_rcv c with BrFree => 1 | _ => 0 end).
(** The sender has signalled. *)
Definition signalled (pc : bs_pc V) : bool := match pc with BsDec | BsFree | BsGone => true | _ => false end.
(** The receiver has not returned. *)
Definition receiving (pc : br_pc) : bool := match pc with BrIdle | BrWait _ | BrRead | BrTake => true | _ => false end.

(** What the sender did is in the cell. *)
Definition delivered c : Prop :=
  (exists v, b_outcome c = Some (Some v) /\ b_sent c = true /\ (receiving (b_rcv c) = true -> b_value c = Some v)) \/
  (b_outcome c = Some None /\ b_sent c = false).

Definition bsnd_ok c : Prop :=
  match b_snd c with
  | BsIdle => b_outcome c = None /\ b_done c = 0 /\ b_sent c = false
  | BsValue v => b_outcome c = Some (Some v) /\ b_done c = 0 /\ b_sent c = false
  | BsSent => (exists v, b_outcome c = Some (Some v) /\ (receiving (b_rcv c) = true -> b_value c = Some v)) /\
      b_done c = 0 /\ b_sent c = false
  | BsComplete => delivered c /\ b_done c = 0
  | _ => delivered c
  end.

(** [timeouts]: whether [recv_timeout] may have given up. *)
Definition brcv_ok (timeouts : bool) c : Prop :=
  match b_rcv c with
  | BrIdle => b_result c = None
  | BrWait _ => b_result c = None /\ (signalled (b_snd c) = true -> 0 < b_done c)
  | BrRead => b_result c = None /\ signalled (b_snd c) = true
  | BrTake => b_result c = None /\ signalled (b_snd c) = true /\ b_sent c = true
  | _ => b_result c = None \/ (signalled (b_snd c) = true /\ b_result c = b_outcome c) \/
      (timeouts = true /\ b_result c = Some None)
  end.

Record b_inv (timeouts : bool) c : Prop := {
  bi_ref : b_refcount c = bs_live (b_snd c) + br_live (b_rcv c);
  bi_frees : b_frees c + frees_owed c = if bool_decide (b_refcount c = 0) then 1 else 0;
  bi_frees_pos : 0 <= b_frees c;
  bi_bad : b_bad c = false;
  bi_done : 0 <= b_done c /\ (b_rcv c = BrIdle -> signalled (b_snd c) = true -> 0 < b_done c);
  bi_snd : bsnd_ok c;
  bi_rcv : brcv_ok timeouts c }.

Lemma channel_inv t : b_inv t channel.
Proof. split; cbn; auto; lia. Qed.

(** A thread that still has a step to take has a live cell. *)
Lemma cell_live t c : b_inv t c -> b_snd c <> BsGone \/ b_rcv c <> BrGone -> touch c = false.
Proof.
  intros [Hr Hf Hp Hb _ _ _] H. unfold touch. rewrite Hb. cbn.
  destruct (0 <? b_frees c) eqn:E; [|done]. unfold frees_owed in Hf.
  rewrite Hr in Hf. case_bool_decide; destruct (b_snd c), (b_rcv c); cbn in *; try blia; by destruct H.
Qed.

Ltac b_split c I :=
  destruct I as [Ir If Ip Ib Id Is Irc];
  destruct c as [val sent dn rc fr bad sp rp oc rs];
  cbn [b_value b_sent b_done b_refcount b_frees b_bad b_snd b_rcv b_outcome b_result] in *; subst bad.

Ltac b_done :=
  split; unfold bsnd_ok, brcv_ok, delivered, frees_owed, b_return, b_start, put_value, put_sent, complete, waited, b_dec, b_free, set_s, set_r in *;
  cbn -[Z.ltb Z.eqb wrap Z.add Z.sub] in *; subst; auto; try done; try lia.

(** Closes what is left, by the position of the other thread. *)
Ltac b_fin pc :=
  destruct pc; cbn in *; rewrite ?wrap_small in * by lia; repeat case_bool_decide; try lia; try done; naive_solver lia.

Lemma bsnd_step_inv t c c' : b_inv t c -> bsnd_step c = Some c' -> b_inv t c'.
Proof.
  intros I. pose proof (cell_live t c I) as Hl. b_split c I.
  destruct sp as [|v| | | | |]; unfold bsnd_step; cbn -[Z.ltb Z.eqb wrap Z.add Z.sub]; try done;
    intros [= <-]; unfold set_s; [..|]; try (rewrite Hl by (left; done)).
  all: b_done; b_fin rp.
Qed.

Lemma brcv_step_inv t c c' : b_inv t c -> brcv_step c = Some c' -> b_inv t c'.
Proof.
  intros I. pose proof (cell_live t c I) as Hl. b_split c I.
  destruct rp as [|to| | | | |]; unfold brcv_step; cbn -[Z.ltb Z.eqb wrap Z.add Z.sub]; try done.
  - destruct (0 <? dn) eqn:E; [|done]. intros [= <-]. unfold set_r. rewrite Hl by (right; done). apply Z.ltb_lt in E.
    b_done; b_fin sp.
  - destruct sent; intros [= <-]; unfold set_r; rewrite Hl by (right; done); b_done; b_fin sp.
  - unfold brcv_ok in Irc. cbn in Irc. destruct Irc as (-> & Hsg & ->).
    assert (exists v, oc = Some (Some v) /\ val = Some v) as (v & -> & ->).
    { unfold bsnd_ok, delivered in Is. destruct sp; cbn in *; try done; naive_solver. }
    intros [= <-]; unfold set_r; rewrite Hl by (right; done); b_done; b_fin sp.
  - intros [= <-]; unfold set_r. b_done; b_fin sp.
  - intros [= <-]; unfold set_r; rewrite Hl by (right; done); b_done; b_fin sp.
Qed.

(** [BTimeout] is allowed only with [timeouts]. *)
Lemma b_step_inv t c e c' : b_inv t c -> (e = BTimeout -> t = true) -> b_step c e = Some c' -> b_inv t c'.
Proof.
  intros I Ht. pose proof (cell_live t c I) as Hl.
  destruct e as [v| | |to| | |]; cbn [b_step]; [| |by apply bsnd_step_inv| | |by apply brcv_step_inv|]; b_split c I.
  - destruct sp; try done. intros [= <-]. unfold set_s. rewrite Hl by (left; done). b_done; b_fin rp.
  - destruct sp; try done. intros [= <-]. unfold set_s. rewrite Hl by (left; done). b_done; b_fin rp.
  - destruct rp; try done. intros [= <-]. unfold set_r. rewrite Hl by (right; done). b_done; b_fin sp.
  - destruct rp; try done. intros [= <-]. unfold set_r. rewrite Hl by (right; done). b_done; b_fin sp.
  - destruct rp as [|[]| | | | |]; try done. destruct (dn =? 0) eqn:E; [|done]. apply Z.eqb_eq in E. intros [= <-].
    unfold set_r. rewrite Hl by (right; done). specialize (Ht eq_refl). b_done; b_fin sp.
Qed.

Lemma b_run_inv t es c : (BTimeout ∈ es -> t = true) -> exec b_step channel es = Some c -> b_inv t c.
Proof.
  intros Ht. revert c. induction es as [|e es IH] using rev_ind; intros c.
  - intros [= <-]. apply channel_inv.
  - rewrite exec_snoc. destruct (exec b_step channel es) as [c1|]; [|done]. intros Hs.
    eapply b_step_inv; [apply IH; [set_solver|reflexivity]| |exact Hs]. intros ->. set_solver.
Qed.

Lemma b_reach_inv c : b_reach c -> b_inv true c.
Proof. intros [es H]. by eapply b_run_inv. Qed.

(** In every interleaving of sender and receiver, timeouts included, no access is to
    freed or uninitialised memory, the receiver never reads while the sender still
    writes, and the cell is freed exactly once, when both handles are gone. *)
Theorem blocking_channel_safe c : b_reach c ->
  b_bad c = false /\
  ~ (signalled (b_snd c) = false /\ (b_rcv c = BrRead \/ b_rcv c = BrTake)) /\
  b_frees c = (match b_snd c, b_rcv c with BsGone, BrGone => 1 | _, _ => 0 end).
Proof.
  intros I%b_reach_inv. destruct I as [Ir If Ip Ib Id Is Irc]. split; [done|]. split.
  - intros [Hs Hr]. unfold brcv_ok in Irc. destruct Hr as [Hr|Hr]; rewrite Hr in Irc; intuition congruence.
  - unfold frees_owed in If. rewrite Ir in If. case_bool_decide; destruct (b_snd c), (b_rcv c); cbn in *; lia.
Qed.

(** What a receiver that did not time out returned is what the sender did. *)
Lemma b_result_exact es c r : BTimeout ∉ es -> exec b_step channel es = Some c -> b_result c = Some r ->
  b_outcome c = Some r.
Proof.
  intros Ht He Hr. pose proof (b_run_inv false es c ltac:(done) He) as I.
  pose proof (bi_rcv _ _ I) as H. unfold brcv_ok in H. rewrite Hr in H. destruct (b_rcv c); naive_solver.
Qed.

Definition bs_rank (pc : bs_pc V) : nat :=
  match pc with BsValue _ => 5 | BsSent => 4 | BsComplete => 3 | BsDec => 2 | BsFree => 1 | _ => 0 end.
Definition br_rank (pc : br_pc) : nat :=
  match pc with BrWait _ => 5 | BrRead => 4 | BrTake => 3 | BrDec => 2 | BrFree => 1 | _ => 0 end.
Definition b_rank c : nat := (bs_rank (b_snd c) + br_rank (b_rcv c))%nat.

Definition in_recv (pc : br_pc) : bool := match pc with BrWait _ | BrRead | BrTake => true | _ => false end.

(** The two threads go on with what they have started. *)
Definition b_internal (e : b_event V) : bool := match e with BSndStep | BRcvStep => true | _ => false end.

(** Every step of theirs brings the end nearer, and [recv] is left only with the result. *)
Lemma b_internal_step c e c' o :
  b_inv false c -> b_internal e = true -> b_step c e = Some c' -> b_outcome c = Some o ->
  in_recv (b_rcv c) = true \/ b_result c = Some o ->
  b_inv false c' /\ b_outcome c' = Some o /\ (b_rank c' < b_rank c)%nat /\
  (in_recv (b_rcv c') = true \/ b_result c' = Some o).
Proof.
  intros I He Hs Ho Hr.
  assert (I' : b_inv false c') by (eapply b_step_inv; [exact I| |exact Hs]; by intros ->).
  split; [done|]. pose proof (bi_rcv _ _ I') as Hrcv. pose proof (bi_bad _ _ I') as Hbad.
  clear I I'. destruct c as [val sent dn rc fr bad sp rp oc rs].
  cbn [b_rcv b_result b_outcome] in *. subst oc. destruct e; try done; revert Hs; cbn [b_step].
  - destruct sp as [|v| | | | |]; unfold bsnd_step; cbn -[Z.ltb Z.eqb wrap Z.add Z.sub]; try done;
      intros [= <-]; cbn; repeat case_match; split_and!; try done; unfold b_rank; cbn; lia.
  - destruct rp as [|to| | | | |]; unfold brcv_step; cbn -[Z.ltb Z.eqb wrap Z.add Z.sub]; try done.
    + destruct (0 <? dn); [|done]. intros [= <-]. cbn. split_and!; [done|unfold b_rank; cbn; lia|by left].
    + destruct sent; intros [= <-]; cbn in *; (split_and!; [done|unfold b_rank; cbn; lia|]); [by left|].
      right. naive_solver.
    + destruct val as [v|]; intros [= <-]; cbn in *; [|done].
      split_and!; [done|unfold b_rank; cbn; lia|]. right. naive_solver.
    + intros [= <-]; cbn in *. destruct Hr as [|Hr]; [done|].
      case_match; (split_and!; [done|unfold b_rank; cbn; lia|by right]).
    + intros [= <-]; cbn in *. split_and!; [done|unfold b_rank; cbn; lia|by right; destruct Hr].
Qed.

(** While [recv] has not returned and the sender has started, one of them can go on. *)
Lemma b_progress c o : b_inv false c -> b_outcome c = Some o -> in_recv (b_rcv c) = true ->
  exists e c', b_internal e = true /\ b_step c e = Some c'.
Proof.
  intros I Ho Hr. destruct (signalled (b_snd c)) eqn:Hs.
  - exists BRcvStep. b_split c I. destruct rp as [|to| | | | |]; try done; cbn [b_step brcv_step b_rcv]; eauto.
    destruct Irc as [_ Hd]. specialize (Hd Hs). cbn in Hd. cbn [b_done]. destruct (0 <? dn) eqn:E; [|blia]. eauto.
  - exists BSndStep. b_split c I. destruct sp as [|v| | | | |]; try done; cbn [b_step bsnd_step b_snd]; eauto.
    destruct Is as [Ho' _]. cbn in *. congruence.
Qed.

Lemma b_internal_run fs : forall c c' o,
  b_inv false c -> forallb b_internal fs = true -> exec b_step c fs = Some c' -> b_outcome c = Some o ->
  in_recv (b_rcv c) = true \/ b_result c = Some o ->
  b_inv false c' /\ b_outcome c' = Some o /\ (length fs + b_rank c' <= b_rank c)%nat /\
  (in_recv (b_rcv c') = true \/ b_result c' = Some o).
Proof.
  induction fs as [|e fs IH]; intros c c' o I Hi Hx Ho Hr; cbn [exec forallb] in *.
  - injection Hx as <-. split_and!; auto.
  - apply andb_true_iff in Hi as [He Hi]. destruct (b_step c e) as [c1|] eqn:Hs; [|done].
    destruct (b_internal_step c e c1 o I He Hs Ho Hr) as (I1 & Ho1 & Hlt & Hr1).
    destruct (IH c1 c' o I1 Hi Hx Ho1 Hr1) as (? & ? & ? & ?). split_and!; try done. cbn. lia.
Qed.

(** C34. Without a timeout, whatever [recv] has returned, in any interleaving, is what the
    sender did: the value it sent, or [None] when it was dropped.  And it does return: once
    the sender has started and the receiver is in [recv], every schedule of the two threads
    is at most ten steps long, the receiver is still in [recv] or has returned exactly
    that, and as long as it is in [recv] one of the threads can go on. *)
Theorem blocking_channel_delivers es c : BTimeout ∉ es -> exec b_step channel es = Some c ->
  (forall r, b_result c = Some r -> b_outcome c = Some r) /\
  forall o, b_outcome c = Some o -> in_recv (b_rcv c) = true ->
  forall fs c', forallb b_internal fs = true -> exec b_step c fs = Some c' ->
    (length fs <= 10)%nat /\
    (b_result c' = Some o \/
     in_recv (b_rcv c') = true /\ exists e c2, b_internal e = true /\ b_step c' e = Some c2).
Proof.
  intros Ht He. split; [intros r; by apply (b_result_exact es)|]. intros o Ho Hr fs c' Hi Hx.
  pose proof (b_run_inv false es c ltac:(done) He) as I.
  destruct (b_internal_run fs c c' o I Hi Hx Ho (or_introl Hr)) as (I' & Ho' & Hlen & Hr'). split.
  - enough (b_rank c <= 10)%nat by lia. unfold b_rank. destruct (b_snd c), (b_rcv c); cbn; lia.
  - destruct Hr' as [Hr'|Hr']; [right|by left]. split; [done|]. by eapply b_progress.
Qed.
End ChannelInv.

(** A receiver that gave up leaves the value behind: the cell is a [MaybeUninit], so it
    is freed with the value in it and the value's destructor never runs. *)
Theorem blocking_channel_leaks : exists c : bchan Z,
  exec b_step channel [BRecv true; BTimeout; BRcvStep; BSend 7; BSndStep; BSndStep; BSndStep; BSndStep; BSndStep] = Some c /\
  b_frees c = 1 /\ b_value c = Some 7 /\ b_result c = Some None.
Proof. eexists. split; [vm_compute; reflexivity|]. split_and!; reflexivity. Qed.

Lemma blocking_channel_safe_witness : exists c : bchan Z,
  exec b_step channel [BRecv false; BSend 7; BSndStep; BSndStep; BSndStep; BRcvStep] = Some c /\ b_bad c = false.
Proof.
  eexists. split; [vm_compute; reflexivity|]. eapply blocking_channel_safe.
  exists [BRecv false; BSend 7; BSndStep; BSndStep; BSndStep; BRcvStep]. vm_compute. reflexivity.
Defined.

Lemma blocking_channel_delivers_witness : exists (c c' : bchan Z),
  exec b_step channel [BRecv false; BSend 7; BSndStep] = Some c /\ in_recv (b_rcv c) = true /\
  exec b_step c [BSndStep; BSndStep; BRcvStep; BRcvStep; BSndStep; BRcvStep] = Some c' /\
  (b_result c' = Some (Some 7) \/
   in_recv (b_rcv c') = true /\ exists e c2, b_internal e = true /\ b_step c' e = Some c2).
Proof.
  destruct (exec b_step channel [BRecv false; BSend 7; BSndStep]) as [c|] eqn:E; [|vm_compute in E; discriminate].
  destruct (exec b_step c [BSndStep; BSndStep; BRcvStep; BRcvStep; BSndStep; BRcvStep]) as [c'|] eqn:E';
    [|vm_compute in E; injection E as <-; vm_compute in E'; discriminate].
  exists c, c'. split; [done|].
  destruct (blocking_channel_delivers (V := Z) [BRecv false; BSend 7; BSndStep] c) as [_ H].
  - intros H. repeat (apply elem_of_cons in H as [H|H]; [discriminate|]). by apply not_elem_of_nil in H.
  - exact E.
  - assert (b_outcome c = Some (Some 7) /\ in_recv (b_rcv c) = true) as [Ho Hr]
      by (vm_compute in E; injection E as <-; split; reflexivity).
    split; [exact Hr|]. split; [exact E'|].
    exact (proj2 (H _ Ho Hr [BSndStep; BSndStep; BRcvStep; BRcvStep; BSndStep; BRcvStep] c' eq_refl E')).
Defined.

(** ** [block_on]

    The caller spawns the future with a pointer to a completion on its own stack and
    waits for at most 30 seconds. *)
Inductive caller_pc : Type := KWait | KLoad | KTake | KReturned.
Inductive btask_pc (V : Type) : Type := TRun | TValue (v : V) | TDone | TComplete | TGone.
Arguments TRun {V}.
Arguments TValue {V}.
Arguments TDone {V}.
Arguments TComplete {V}.
Arguments TGone {V}.

Section BlockOn.
Context `{KE : KernelErrno} {V : Type}.

(** [ResultCell] is kept alive by its [Arc]; [k_frame]: the caller has not returned, so
    its completion exists; [k_out]: the future's output. *)
Record bo : Type := mkBo {
  rc_done : bool; rc_value : option V; k_done : Z; k_frame : bool; k_bad : bool;
  k_pc : caller_pc; t_pc : btask_pc V; k_out : option V; k_ret : option (res Error V) }.

Inductive bo_event : Type :=
| FutureReady (v : V)   (** the worker's poll of the future returns [Ready(v)] *)
| TaskStep | TaskRevoked
| CallerStep | CallerTimeout.

(** What [block_on] does up to its wait, given how the allocation of the [ResultCell] and
    [spawn_inner] went. *)
Definition block_on (spawn : res Error unit) : bo :=
  match spawn with
  | Ok _ => mkBo false None 0 true false KWait TRun None None
  | Err e => mkBo false None 0 false false KReturned TGone None (Some (Err e))
  | _ => mkBo false None 0 false false KReturned TGone None (Some Panic)
  end.

(** The async block after [future.await]. *)
Definition task_step (s : bo) : option bo :=
  match t_pc s with
  | TRun | TGone => None
  | TValue v => Some (mkBo (rc_done s) (Some v) (k_done s) (k_frame s) (k_bad s) (k_pc s) TDone (k_out s) (k_ret s))
  | TDone => Some (mkBo true (rc_value s) (k_done s) (k_frame s) (k_bad s) (k_pc s) TComplete (k_out s) (k_ret s))
  | TComplete =>
      Some (mkBo (rc_done s) (rc_value s) (k_done s + 1) (k_frame s) (k_bad s || negb (k_frame s)) (k_pc s) TGone
              (k_out s) (k_ret s))
  end.

Definition bo_return (r : res Error V) (v : option V) (s : bo) : bo :=
  mkBo (rc_done s) v (k_done s) false (k_bad s) KReturned (t_pc s) (k_out s) (Some r).
Definition bo_caller (d : Z) (pc : caller_pc) (s : bo) : bo :=
  mkBo (rc_done s) (rc_value s) d (k_frame s) (k_bad s) pc (t_pc s) (k_out s) (k_ret s).

(** The caller after the wait. *)
Definition caller_step (s : bo) : option bo :=
  match k_pc s with
  | KWait => if 0 <? k_done s then Some (bo_caller (k_done s - 1) KLoad s) else None
  | KLoad => Some (if negb (rc_done s) then bo_return (Err EBUSY) (rc_value s) s else bo_caller (k_done s) KTake s)
  | KTake => Some (bo_return (ok_or (rc_value s) EINVAL) None s)
  | KReturned => None
  end.

Definition bo_step (s : bo) (e : bo_event) : option bo :=
  match e with
  | FutureReady v =>
      match t_pc s with
      | TRun => Some (mkBo (rc_done s) (rc_value s) (k_done s) (k_frame s) (k_bad s) (k_pc s) (TValue v) (Some v) (k_ret s))
      | _ => None
      end
  | TaskStep => task_step s
  | TaskRevoked =>
      match t_pc s with
      | TRun => Some (mkBo (rc_done s) (rc_value s) (k_done s) (k_frame s) (k_bad s) (k_pc s) TGone (k_out s) (k_ret s))
      | _ => None
      end
  | CallerStep => caller_step s
  | CallerTimeout => match k_pc s with KWait => if k_done s =? 0 then Some (bo_caller 0 KLoad s) else None | _ => None end
  end.
End BlockOn.
Arguments bo V : clear implicits.
Arguments bo_event V : clear implicits.

Section BlockOnProofs.
Context `{KE : KernelErrno} {V : Type}.
Implicit Types s : bo V.

(** The states of a call that does not time out. *)
Definition bo_inv s : Prop :=
  k_bad s = false /\ k_frame s = (match k_pc s with KReturned => false | _ => true end) /\
  match t_pc s with
  | TRun => k_out s = None /\ rc_done s = false /\ k_done s = 0 /\ k_pc s = KWait /\ k_ret s = None
  | TValue v => k_out s = Some v /\ rc_done s = false /\ k_done s = 0 /\ k_pc s = KWait /\ k_ret s = None
  | TDone => rc_value s = k_out s /\ k_out s <> None /\ rc_done s = false /\ k_done s = 0 /\ k_pc s = KWait /\ k_ret s = None
  | TComplete => rc_value s = k_out s /\ k_out s <> None /\ rc_done s = true /\ k_done s = 0 /\ k_pc s = KWait /\ k_ret s = None
  | TGone =>
      match k_out s with
      | None => k_done s = 0 /\ k_pc s = KWait /\ k_ret s = None
      | Some v => rc_done s = true /\
          match k_pc s with
          | KReturned => k_ret s = Some (Ok v)
          | KWait => k_done s = 1 /\ rc_value s = Some v /\ k_ret s = None
          | _ => rc_value s = Some v /\ k_ret s = None
          end
      end
  end.

Lemma bo_step_inv s e s' : bo_inv s -> e <> CallerTimeout -> bo_step s e = Some s' -> bo_inv s'.
Proof.
  unfold bo_inv. destruct s as [dn val kd fr bad kp tp out ret]. cbn [k_bad k_frame k_pc t_pc k_out rc_value rc_done k_done k_ret].
  intros (-> & -> & Ht) He. destruct e as [v| | | |]; cbn [bo_step task_step caller_step k_bad k_frame k_pc t_pc k_out rc_value rc_done k_done k_ret]; try done.
  - destruct tp; try done. intros [= <-]. cbn in *. naive_solver.
  - destruct tp as [|v| | |]; try done; intros [= <-]; cbn in *; destruct_and?; subst; cbn;
      first [naive_solver | destruct out; naive_solver].
  - destruct tp; try done. intros [= <-]. cbn in *. destruct_and?; subst. naive_solver.
  - destruct kp; cbn [caller_step k_pc k_done rc_done rc_value]; try done.
    + destruct (0 <? kd) eqn:E; [|intros [=]]. intros [= <-]. cbn.
      destruct tp as [|v| | |]; destruct_and?; subst; try done.
      destruct out; destruct_and?; subst; [naive_solver|done].
    + destruct tp as [|v| | |]; destruct_and?; try done. destruct out as [v|]; destruct_and?; try done. subst.
      intros [= <-]. cbn. done.
    + destruct tp as [|v| | |]; destruct_and?; try done. destruct out as [v|]; destruct_and?; try done. subst.
      intros [= <-]. cbn. done.
Qed.

Lemma bo_run_inv es s : CallerTimeout ∉ es -> exec bo_step (block_on (Ok tt)) es = Some s -> bo_inv s.
Proof.
  intros Ht. revert s. induction es as [|e es IH] using rev_ind; intros s.
  - intros [= <-]. split; [done|]. by split.
  - rewrite exec_snoc. destruct (exec bo_step _ es) as [s1|]; [|done]. intros Hs.
    eapply bo_step_inv; [apply IH; [set_solver|reflexivity]| |exact Hs]. set_solver.
Qed.

(** A given continuation of the run. *)
Ltac bo_run_by fs :=
  exists fs; eexists; split; [by repeat first [apply Forall_nil | apply Forall_cons; split; [auto; fail|]]|];
  split; [cbn; lia|split; reflexivity].

(** C35. When the wait does not time out, [block_on] returns exactly the future's output,
    the task never touches the caller's stack after it returned, and once the future is
    ready the call returns within six steps; a task that is revoked first leaves the caller
    waiting. *)
Theorem block_on_returns_output es s : CallerTimeout ∉ es -> exec bo_step (block_on (Ok tt)) es = Some s ->
  k_bad s = false /\ (forall r, k_ret s = Some r -> exists v, k_out s = Some v /\ r = Ok v) /\
  (forall v, k_out s = Some v -> exists fs s', Forall (fun e => e = TaskStep \/ e = CallerStep) fs /\ (length fs <= 6)%nat /\
     exec bo_step s fs = Some s' /\ k_ret s' = Some (Ok v)).
Proof.
  intros Hnt He. pose proof (bo_run_inv es s Hnt He) as (Hb & Hf & Ht). split; [done|]. clear He Hnt.
  destruct s as [dn val kd fr bad kp tp out ret]. cbn [k_bad k_frame k_pc t_pc k_out rc_value rc_done k_done k_ret] in *. subst bad.
  split.
  - intros r ->. destruct tp; destruct_and?; try done. destruct out as [v|]; destruct_and?; [|done].
    destruct kp; destruct_and?; try done. exists v. split; [done|congruence].
  - intros v ->. destruct tp as [|w| | |]; destruct_and?; try done; subst.
    + simplify_eq. bo_run_by ([TaskStep; TaskStep; TaskStep; CallerStep; CallerStep; CallerStep] : list (bo_event V)).
    + bo_run_by ([TaskStep; TaskStep; CallerStep; CallerStep; CallerStep] : list (bo_event V)).
    + bo_run_by ([TaskStep; CallerStep; CallerStep; CallerStep] : list (bo_event V)).
    + destruct kp; destruct_and?; subst.
      * bo_run_by ([CallerStep; CallerStep; CallerStep] : list (bo_event V)).
      * bo_run_by ([CallerStep; CallerStep] : list (bo_event V)).
      * bo_run_by ([CallerStep] : list (bo_event V)).
      * bo_run_by ([] : list (bo_event V)).
Qed.

(** After a timeout the task still has the pointer into the caller's stack: when the
    future becomes ready, the task signals a completion that no longer exists. *)
Theorem block_on_timeout_dangles (v : V) : exists s,
  exec bo_step (block_on (Ok tt)) [CallerTimeout; CallerStep; FutureReady v; TaskStep; TaskStep; TaskStep] = Some s /\
  k_ret s = Some (Err EBUSY) /\ k_bad s = true.
Proof. eexists. split; [reflexivity|]. split; reflexivity. Qed.

(** The same happens when the wait times out between the task's store of [done] and its
    signal, although [block_on] then returns the output. *)
Theorem block_on_late_signal (v : V) : exists s,
  exec bo_step (block_on (Ok tt))
    [FutureReady v; TaskStep; TaskStep; CallerTimeout; CallerStep; CallerStep; TaskStep] = Some s /\
  k_ret s = Some (Ok v) /\ k_bad s = true.
Proof. eexists. split; [reflexivity|]. split; reflexivity. Qed.
End BlockOnProofs.

Lemma block_on_returns_output_witness : exists fs (s s' : bo Z),
  exec (bo_step (KE := linux_errno)) (block_on (Ok tt)) [FutureReady 7; TaskStep] = Some s /\
  exec (bo_step (KE := linux_errno)) s fs = Some s' /\ k_ret s' = Some (Ok 7).
Proof.
  destruct (exec (bo_step (KE := linux_errno)) (block_on (Ok tt)) [FutureReady 7; TaskStep]) as [s|] eqn:E;
    [|vm_compute in E; discriminate].
  destruct (block_on_returns_output (KE := linux_errno) (V := Z) [FutureReady 7; TaskStep] s) as (_ & _ & H).
  - intros H. repeat (apply elem_of_cons in H as [H|H]; [discriminate|]). by apply not_elem_of_nil in H.
  - exact E.
  - destruct (H 7) as (fs & s' & _ & _ & H1 & H2).
    + vm_compute in E. injection E as <-. reflexivity.
    + exists fs, s, s'. split; [reflexivity|]. split; [exact H1|exact H2].
Defined.
