(* ===== verification/Locks.v ===== *)
(** * Locks and condition variables (rko-core/src/sync/lock/, sync/condvar.rs)

    The trait [Backend] is a class with its law class [BackendOk]: the lock knows its one
    owner.  [MutexBackend] and [SpinLockBackend] are its two instances, over the kernel's
    lock primitives ([RawLock]).  [Lock], [Guard] and [CondVar] are written against the
    trait only.  A thread that blocks is an event that is not enabled; one event is one
    call of the backend or of the wait queue, or one access through a guard. *)
From Stdlib Require Import ZArith Lia Bool.
From stdpp Require Import base list option numbers gmap sets.
From S2P Require Import Prelude Pool.

(** ** The kernel's primitives *)

(** [mutex_lock], [spin_lock] and their relatives; [None] while the caller blocks. *)
Class RawLock : Type := {
  raw_st : Type;
  raw_init : raw_st;
  raw_lock : nat -> raw_st -> option raw_st;
  raw_trylock : nat -> raw_st -> Z * raw_st;
  raw_unlock : raw_st -> raw_st;
  raw_is_locked : raw_st -> Z }.

Class RawLockOk (K : RawLock) (owner : raw_st -> option nat) : Prop := {
  raw_init_free : owner raw_init = None;
  raw_lock_takes t s s' : raw_lock t s = Some s' -> owner s = None /\ owner s' = Some t;
  raw_lock_free t s : owner s = None -> raw_lock t s <> None;
  raw_trylock_takes t s : (raw_trylock t s).1 <> 0 -> owner s = None /\ owner (raw_trylock t s).2 = Some t;
  raw_trylock_fails t s : (raw_trylock t s).1 = 0 -> owner (raw_trylock t s).2 = owner s;
  raw_unlock_frees s : owner (raw_unlock s) = None;
  raw_is_locked_iff s : raw_is_locked s <> 0 <-> owner s <> None }.

(** Wait queues: a head, entries on the sleepers' stacks.  [finish_wait] is a function of the
    queue as documented, for entries that were initialised; the kernel's own follows the null
    links of an entry that is all zeros and was never queued. *)
Class WaitQueue : Type := {
  wq_head : Type;
  wq_entry : Type;
  init_waitqueue_head : wq_head;
  entry_zeroed : wq_entry;
  prepare_to_wait_exclusive : nat -> wq_head -> wq_entry -> wq_head * wq_entry;
  wake_up : Z -> wq_head -> list nat * wq_head;
  finish_wait : wq_head -> wq_entry -> wq_head }.

(** ** The trait [Backend] *)
Class Backend : Type := {
  State : Type;
  GuardState : Type;
  be_init : State;
  be_lock : nat -> State -> option (GuardState * State);
  be_try_lock : nat -> State -> option GuardState * State;
  be_unlock : GuardState -> State -> State;
  be_assert_is_held : State -> res unit unit }.

Class BackendOk (B : Backend) (owner : State -> option nat) : Prop := {
  be_init_free : owner be_init = None;
  be_lock_takes t s g s' : be_lock t s = Some (g, s') -> owner s = None /\ owner s' = Some t;
  be_lock_free t s : owner s = None -> be_lock t s <> None;
  be_try_lock_takes t s g s' : be_try_lock t s = (Some g, s') -> owner s = None /\ owner s' = Some t;
  be_try_lock_fails t s s' : be_try_lock t s = (None, s') -> owner s' = owner s;
  be_unlock_frees g s : owner (be_unlock g s) = None;
  be_assert_ok s : be_assert_is_held s = Ok tt <-> owner s <> None }.

(** [MutexBackend]. *)
Definition mutex_lock {K : RawLock} (t : nat) (p : raw_st) : option (unit * raw_st) :=
  match raw_lock t p with Some p' => Some (tt, p') | None => None end.
Definition mutex_try_lock {K : RawLock} (t : nat) (p : raw_st) : option unit * raw_st :=
  let '(r, p') := raw_trylock t p in if negb (r =? 0) then (Some tt, p') else (None, p').
Definition mutex_unlock {K : RawLock} (_guard_state : unit) (p : raw_st) : raw_st := raw_unlock p.
Definition mutex_assert_is_held {K : RawLock} (p : raw_st) : res unit unit :=
  if negb (raw_is_locked p =? 0) then Ok tt else Panic.

Definition MutexBackend (K : RawLock) : Backend := {|
  State := raw_st; GuardState := unit; be_init := raw_init; be_lock := mutex_lock;
  be_try_lock := mutex_try_lock; be_unlock := mutex_unlock; be_assert_is_held := mutex_assert_is_held |}.

(** [SpinLockBackend]. *)
Definition spin_lock {K : RawLock} (t : nat) (p : raw_st) : option (unit * raw_st) :=
  match raw_lock t p with Some p' => Some (tt, p') | None => None end.
Definition spin_try_lock {K : RawLock} (t : nat) (p : raw_st) : option unit * raw_st :=
  let '(r, p') := raw_trylock t p in if negb (r =? 0) then (Some tt, p') else (None, p').
Definition spin_unlock {K : RawLock} (_guard_state : unit) (p : raw_st) : raw_st := raw_unlock p.
Definition spin_assert_is_held {K : RawLock} (p : raw_st) : res unit unit :=
  if negb (raw_is_locked p =? 0) then Ok tt else Panic.

Definition SpinLockBackend (K : RawLock) : Backend := {|
  State := raw_st; GuardState := unit; be_init := raw_init; be_lock := spin_lock;
  be_try_lock := spin_try_lock; be_unlock := spin_unlock; be_assert_is_held := spin_assert_is_held |}.

(** [SimpleMutex] of rko-util/src/http/uring.rs is an [AtomicBool]; here with the thread that
    set it.  One turn of the loop in [lock] is one compare-exchange; [unlock] is the guard's
    drop. *)
Definition sm_locked (s : option nat) : bool := match s with Some _ => true | None => false end.
Definition simple_mutex_new : option nat := None.
Definition simple_mutex_try (t : nat) (s : option nat) : option unit * option nat :=
  if sm_locked s then (None, s) else (Some tt, Some t).
Definition simple_mutex_lock (t : nat) (s : option nat) : option (unit * option nat) :=
  match simple_mutex_try t s with (Some g, s') => Some (g, s') | (None, _) => None end.
Definition simple_mutex_drop (_guard : unit) (s : option nat) : option nat := None.

Definition SimpleMutexBackend : Backend := {|
  State := option nat; GuardState := unit; be_init := simple_mutex_new; be_lock := simple_mutex_lock;
  be_try_lock := simple_mutex_try; be_unlock := simple_mutex_drop;
  be_assert_is_held s := if sm_locked s then Ok tt else Panic |}.

#[global] Instance simple_mutex_ok : BackendOk SimpleMutexBackend (fun s => s).
Proof.
  split; cbn; try done; unfold simple_mutex_lock, simple_mutex_try.
  - intros t [u|] g s'; cbn; [done|]. by intros [= <- <-].
  - intros t [u|]; cbn; done.
  - intros t [u|] g s'; cbn; [done|]. by intros [= <- <-].
  - intros t [u|] s'; cbn; [|done]. by intros [= <-].
  - intros [u|]; cbn; naive_solver.
Qed.

(** Both backends keep the trait's promise when the kernel's lock does. *)
#[global] Instance mutex_backend_ok (K : RawLock) owner : RawLockOk K owner -> BackendOk (MutexBackend K) owner.
Proof.
  intros HK. split; cbn.
  - apply HK.
  - intros t s g s'. unfold mutex_lock. destruct (raw_lock t s) eqn:E; [|done]. intros [= <- <-]. by apply HK.
  - intros t s H. unfold mutex_lock. pose proof (raw_lock_free t s H). by destruct (raw_lock t s).
  - intros t s g s'. unfold mutex_try_lock. pose proof (raw_trylock_takes t s) as H.
    destruct (raw_trylock t s) as [r p]. destruct (Z.eqb_spec r 0); cbn [negb fst snd] in *; [done|]. intros [= <- <-]. auto.
  - intros t s s'. unfold mutex_try_lock. pose proof (raw_trylock_fails t s) as H.
    destruct (raw_trylock t s) as [r p]. destruct (Z.eqb_spec r 0); cbn [negb fst snd] in *; [|done]. intros [= <-]. auto.
  - intros. apply HK.
  - intros s. unfold mutex_assert_is_held. rewrite <- raw_is_locked_iff. destruct (Z.eqb_spec (raw_is_locked s) 0); cbn; naive_solver.
Qed.

#[global] Instance spin_backend_ok (K : RawLock) owner : RawLockOk K owner -> BackendOk (SpinLockBackend K) owner.
Proof. intros HK. destruct (mutex_backend_ok K owner HK). split; assumption. Qed.

(** ** [Lock], [Guard] and [CondVar] *)
Section Lock.
Context {B : Backend} {Q : WaitQueue} {T : Type}.

Record Lock : Type := mkLock { lk_state : State; lk_data : T }.
Record Guard : Type := mkGuard { gd_state : GuardState }.

(** [Lock::new], [lock], [try_lock]. *)
Definition lock_new (t : T) : Lock := mkLock be_init t.
Definition lock_lock (i : nat) (l : Lock) : option (Guard * Lock) :=
  match be_lock i (lk_state l) with
  | Some (g, s) => Some (mkGuard g, mkLock s (lk_data l))
  | None => None
  end.
Definition lock_try_lock (i : nat) (l : Lock) : option Guard * Lock :=
  let '(r, s) := be_try_lock i (lk_state l) in (mkGuard <$> r, mkLock s (lk_data l)).

(** [Deref], [DerefMut] and [Drop] of the guard. *)
Definition guard_deref (l : Lock) : T := lk_data l.
Definition guard_deref_mut (v : T) (l : Lock) : Lock := mkLock (lk_state l) v.
Definition lock_guard_drop (g : Guard) (l : Lock) : Lock := mkLock (be_unlock (gd_state g) (lk_state l)) (lk_data l).

(** [CondVar::notify_one] and [notify_all]. *)
Definition notify_one (h : wq_head) : list nat * wq_head := wake_up 1 h.
Definition notify_all (h : wq_head) : list nat * wq_head := wake_up 0 h.

(** A thread with a guard, and what it last read through it, or inside [CondVar::wait]. *)
Inductive lk_pc : Type :=
| LkHolding (g : Guard) (seen : option T)
| CvPrepared (g : Guard) (e : wq_entry)  (** queued, about to unlock *)
| CvUnlocked (e : wq_entry)              (** in [schedule] *)
| CvRelock (e : wq_entry)                (** about to lock again *)
| CvFinish (g : Guard) (e : wq_entry).   (** about to leave the queue *)

(** [lw_asleep]: the tasks in state [TASK_INTERRUPTIBLE]; [lw_log]: the updates of the
    data, oldest first. *)
Record lk_world : Type := mkLw {
  lw_lock : Lock; lw_wq : wq_head; lw_asleep : gset nat; lw_threads : gmap nat lk_pc; lw_log : list (T -> T) }.

Inductive lk_event : Type :=
| LeLock (i : nat) | LeTryLock (i : nat) | LeRead (i : nat) | LeWrite (i : nat) (f : T -> T) | LeDrop (i : nat)
| LePrepare (i : nat) | LeUnlock (i : nat) | LeSchedule (i : nat) | LeRelock (i : nat) | LeFinish (i : nat)
| LeNotify (all : bool) | LeSignal (i : nat).

Definition set_thread (i : nat) (pc : lk_pc) (l : Lock) (w : lk_world) : lk_world :=
  mkLw l (lw_wq w) (lw_asleep w) (<[i := pc]> (lw_threads w)) (lw_log w).

(** One step of [CondVar::wait]: the entry is zeroed memory, the lock is released between
    queueing and sleeping, and taken again before the entry leaves the queue. *)
Definition wait_step (i : nat) (pc : lk_pc) (w : lk_world) : option lk_world :=
  match pc with
  | LkHolding g _ =>
      let '(h, e) := prepare_to_wait_exclusive i (lw_wq w) entry_zeroed in
      Some (mkLw (lw_lock w) h ({[i]} ∪ lw_asleep w) (<[i := CvPrepared g e]> (lw_threads w)) (lw_log w))
  | CvPrepared g e => Some (set_thread i (CvUnlocked e) (lock_guard_drop g (lw_lock w)) w)
  | CvUnlocked e => if decide (i ∈ lw_asleep w) then None else Some (set_thread i (CvRelock e) (lw_lock w) w)
  | CvRelock e => match lock_lock i (lw_lock w) with Some (g, l) => Some (set_thread i (CvFinish g e) l w) | None => None end
  | CvFinish g e =>
      Some (mkLw (lw_lock w) (finish_wait (lw_wq w) e) (lw_asleep w ∖ {[i]}) (<[i := LkHolding g None]> (lw_threads w)) (lw_log w))
  end.

Definition lk_step (w : lk_world) (ev : lk_event) : option lk_world :=
  match ev with
  | LeLock i =>
      match lw_threads w !! i, lock_lock i (lw_lock w) with
      | None, Some (g, l) => Some (set_thread i (LkHolding g None) l w)
      | _, _ => None
      end
  | LeTryLock i =>
      match lw_threads w !! i, lock_try_lock i (lw_lock w) with
      | None, (Some g, l) => Some (set_thread i (LkHolding g None) l w)
      | None, (None, l) => Some (mkLw l (lw_wq w) (lw_asleep w) (lw_threads w) (lw_log w))
      | _, _ => None
      end
  | LeRead i =>
      match lw_threads w !! i with
      | Some (LkHolding g _) => Some (set_thread i (LkHolding g (Some (guard_deref (lw_lock w)))) (lw_lock w) w)
      | _ => None
      end
  | LeWrite i f =>
      match lw_threads w !! i with
      | Some (LkHolding g (Some v)) =>
          Some (mkLw (guard_deref_mut (f v) (lw_lock w)) (lw_wq w) (lw_asleep w)
                  (<[i := LkHolding g (Some (f v))]> (lw_threads w)) (lw_log w ++ [f]))
      | _ => None
      end
  | LeDrop i =>
      match lw_threads w !! i with
      | Some (LkHolding g _) =>
          Some (mkLw (lock_guard_drop g (lw_lock w)) (lw_wq w) (lw_asleep w) (delete i (lw_threads w)) (lw_log w))
      | _ => None
      end
  | LePrepare i => match lw_threads w !! i with Some (LkHolding _ _ as pc) => wait_step i pc w | _ => None end
  | LeUnlock i => match lw_threads w !! i with Some (CvPrepared _ _ as pc) => wait_step i pc w | _ => None end
  | LeSchedule i => match lw_threads w !! i with Some (CvUnlocked _ as pc) => wait_step i pc w | _ => None end
  | LeRelock i => match lw_threads w !! i with Some (CvRelock _ as pc) => wait_step i pc w | _ => None end
  | LeFinish i => match lw_threads w !! i with Some (CvFinish _ _ as pc) => wait_step i pc w | _ => None end
  | LeNotify all =>
      let '(woken, h) := if all then notify_all (lw_wq w) else notify_one (lw_wq w) in
      Some (mkLw (lw_lock w) h (lw_asleep w ∖ list_to_set woken) (lw_threads w) (lw_log w))
  | LeSignal i => Some (mkLw (lw_lock w) (lw_wq w) (lw_asleep w ∖ {[i]}) (lw_threads w) (lw_log w))
  end.

(** [Lock::new] and [CondVar::new]. *)
Definition lk_new (t : T) : lk_world := mkLw (lock_new t) init_waitqueue_head ∅ ∅ [].
End Lock.
Arguments lk_world {_ _} _.
Arguments lk_event _ : clear implicits.

(** ** Mutual exclusion *)
Section Exclusion.
Context {B : Backend} {Q : WaitQueue} {T : Type} (owner : State -> option nat) {BOk : BackendOk B owner}.

Definition holds (pc : @lk_pc B Q T) : bool :=
  match pc with LkHolding _ _ | CvPrepared _ _ | CvFinish _ _ => true | _ => false end.

Definition apply_all (fs : list (T -> T)) (v : T) : T := foldl (fun v f => f v) v fs.

Record lk_inv (v0 : T) (w : lk_world T) : Prop := mkLkInv {
  li_owner : forall i, owner (lk_state (lw_lock w)) = Some i <-> exists pc, lw_threads w !! i = Some pc /\ holds pc = true;
  li_seen : forall i g v, lw_threads w !! i = Some (LkHolding g (Some v)) -> v = lk_data (lw_lock w);
  li_data : lk_data (lw_lock w) = apply_all (lw_log w) v0 }.

(** The owner after a step of thread [i] that takes, keeps or gives up the lock. *)
Lemma owner_insert (m : gmap nat lk_pc) o o' i pc :
  (forall j, o = Some j <-> exists q, m !! j = Some q /\ holds q = true) ->
  (o' = o /\ (o = Some i <-> holds pc = true) \/ o = None /\ o' = Some i /\ holds pc = true \/
   o = Some i /\ o' = None /\ holds pc = false) ->
  forall j, o' = Some j <-> exists q, <[i := pc]> m !! j = Some q /\ holds q = true.
Proof.
  intros H Hc j. destruct (decide (j = i)) as [->|Hne].
  - rewrite lookup_insert_eq. transitivity (holds pc = true).
    + destruct Hc as [[-> E]|[(_ & -> & E)|(_ & -> & E)]]; [done|done|by rewrite E].
    + split; [by exists pc|]. intros (q & [= <-] & E). done.
  - rewrite lookup_insert_ne by done. rewrite <- H.
    destruct Hc as [[-> _]|[(-> & -> & _)|(-> & -> & _)]]; [done| |]; split; congruence.
Qed.

Lemma owner_delete (m : gmap nat lk_pc) o i :
  (forall j, o = Some j <-> exists q, m !! j = Some q /\ holds q = true) -> o = Some i ->
  forall j, None = Some j <-> exists q, delete i m !! j = Some q /\ holds q = true.
Proof.
  intros H Ho j. split; [done|]. intros (q & Hq & E). apply lookup_delete_Some in Hq as [Hne Hq].
  assert (o = Some j) by (apply H; by exists q). congruence.
Qed.

(** What a holder knows. *)
Lemma li_holder v0 w i pc : lk_inv v0 w -> lw_threads w !! i = Some pc -> holds pc = true ->
  owner (lk_state (lw_lock w)) = Some i.
Proof. intros I Hi Hp. apply (li_owner _ _ I). by exists pc. Qed.

Lemma li_other v0 w i pc : lk_inv v0 w -> lw_threads w !! i = Some pc -> holds pc = false ->
  owner (lk_state (lw_lock w)) <> Some i.
Proof. intros I Hi Hp Ho. apply (li_owner _ _ I) in Ho as (q & Hq & E). congruence. Qed.

Lemma lock_lock_takes i l g l' : lock_lock i l = Some (g, l') ->
  owner (lk_state l) = None /\ owner (lk_state l') = Some i /\ lk_data (T:=T) l' = lk_data l.
Proof.
  unfold lock_lock. destruct (be_lock i (lk_state l)) as [[g' s]|] eqn:E; [|done]. intros [= <- <-].
  destruct (be_lock_takes i _ _ _ E). done.
Qed.

Lemma try_lock_takes i l r l' : lock_try_lock i l = (r, l') ->
  lk_data (T:=T) l' = lk_data l /\
  match r with Some _ => owner (lk_state l) = None /\ owner (lk_state l') = Some i | None => owner (lk_state l') = owner (lk_state l) end.
Proof.
  unfold lock_try_lock. destruct (be_try_lock i (lk_state l)) as [[g'|] s] eqn:E; intros [= <- <-]; (split; [done|]).
  - by destruct (be_try_lock_takes i _ _ _ E).
  - by destruct (be_try_lock_fails i _ _ E).
Qed.

(** A thread that is given a new program counter, with the data unchanged. *)
Lemma li_move v0 w i pc l h a : lk_inv v0 w -> lk_data l = lk_data (lw_lock w) ->
  (forall g v, pc = LkHolding g (Some v) -> v = lk_data l) ->
  (let o := owner (lk_state (lw_lock w)) in let o' := owner (lk_state l) in
   o' = o /\ (o = Some i <-> holds pc = true) \/ o = None /\ o' = Some i /\ holds pc = true \/
   o = Some i /\ o' = None /\ holds pc = false) ->
  lk_inv v0 (mkLw l h a (<[i := pc]> (lw_threads w)) (lw_log w)).
Proof.
  intros I Hd Hs Ho. split; cbn [lw_lock lw_threads lw_log].
  - exact (owner_insert _ _ _ _ _ (li_owner _ _ I) Ho).
  - intros j g v. destruct (decide (j = i)) as [->|Hne].
    + rewrite lookup_insert_eq. intros [= ->]. by eapply Hs.
    + rewrite lookup_insert_ne by done. rewrite Hd. apply (li_seen _ _ I).
  - rewrite Hd. apply (li_data _ _ I).
Qed.

Lemma wait_step_inv v0 w i pc w' : lk_inv v0 w -> lw_threads w !! i = Some pc -> wait_step i pc w = Some w' -> lk_inv v0 w'.
Proof.
  intros I Hi. destruct pc as [g o|g e|e|e|g e]; cbn [wait_step].
  - destruct (prepare_to_wait_exclusive _ _ _) as [h e]. intros [= <-]. apply li_move; [done..|].
    left. rewrite (li_holder _ _ _ _ I Hi eq_refl). done.
  - intros [= <-]. apply li_move; [done..|]. right. right. cbn. rewrite (li_holder _ _ _ _ I Hi eq_refl), be_unlock_frees. done.
  - case_decide; [done|]. intros [= <-]. apply li_move; [done..|]. left. split; [done|].
    pose proof (li_other _ _ _ _ I Hi eq_refl). by split.
  - destruct (lock_lock i (lw_lock w)) as [[g l]|] eqn:E; [|done]. intros [= <-].
    destruct (lock_lock_takes _ _ _ _ E) as (? & ? & ?). apply li_move; [done..|]. right. left. done.
  - intros [= <-]. apply li_move; [done..|]. left. rewrite (li_holder _ _ _ _ I Hi eq_refl). done.
Qed.

Lemma lk_step_inv v0 w e w' : lk_inv v0 w -> lk_step w e = Some w' -> lk_inv v0 w'.
Proof.
  intros I. destruct e as [i|i|i|i f|i|i|i|i|i|i|all|i]; cbn [lk_step].
  - destruct (lw_threads w !! i) eqn:Hi; [done|]. destruct (lock_lock i (lw_lock w)) as [[g l]|] eqn:E; [|done].
    intros [= <-]. destruct (lock_lock_takes _ _ _ _ E) as (? & ? & ?). apply li_move; [done..|]. right. left. done.
  - destruct (lw_threads w !! i) eqn:Hi; [done|]. destruct (lock_try_lock i (lw_lock w)) as [[g|] l] eqn:E;
      intros [= <-]; destruct (try_lock_takes _ _ _ _ E) as [Hd Ho].
    + destruct Ho. apply li_move; [done..|]. right. left. done.
    + destruct I as [I1 I2 I3]. split; cbn; rewrite ?Ho, ?Hd; done.
  - destruct (lw_threads w !! i) as [[g o|? ?|?|?|? ?]|] eqn:Hi; try done. intros [= <-].
    apply li_move; [done|done|by intros ? ? [= _ <-]|]. left. rewrite (li_holder _ _ _ _ I Hi eq_refl). done.
  - destruct (lw_threads w !! i) as [[g [v|]|? ?|?|?|? ?]|] eqn:Hi; try done. intros [= <-].
    pose proof (li_holder _ _ _ _ I Hi eq_refl) as Ho. split; cbn.
    + refine (owner_insert _ _ _ _ _ (li_owner _ _ I) _). left. rewrite Ho. done.
    + intros j g' v'. destruct (decide (j = i)) as [->|Hne]; [rewrite lookup_insert_eq; by intros [= _ <-]|].
      rewrite lookup_insert_ne by done. intros Hj. pose proof (li_holder _ _ _ _ I Hj eq_refl). congruence.
    + unfold apply_all. rewrite foldl_snoc, (li_seen _ _ I _ _ _ Hi), (li_data _ _ I). done.
  - destruct (lw_threads w !! i) as [[g o|? ?|?|?|? ?]|] eqn:Hi; try done. intros [= <-].
    pose proof (li_holder _ _ _ _ I Hi eq_refl) as Ho. destruct I as [I1 I2 I3]. split; cbn; [|intros j g' v Hj|done].
    + rewrite be_unlock_frees. exact (owner_delete _ _ _ I1 Ho).
    + apply lookup_delete_Some in Hj as [_ Hj]. by eapply I2.
  - destruct (lw_threads w !! i) as [[]|] eqn:Hi; try done. by apply wait_step_inv.
  - destruct (lw_threads w !! i) as [[]|] eqn:Hi; try done. by apply wait_step_inv.
  - destruct (lw_threads w !! i) as [[]|] eqn:Hi; try done. by apply wait_step_inv.
  - destruct (lw_threads w !! i) as [[]|] eqn:Hi; try done. by apply wait_step_inv.
  - destruct (lw_threads w !! i) as [[]|] eqn:Hi; try done. by apply wait_step_inv.
  - destruct (if all then _ else _) as [woken h]. intros [= <-]. by destruct I.
  - intros [= <-]. by destruct I.
Qed.

Lemma lk_new_inv v0 : lk_inv v0 (lk_new v0).
Proof.
  split; cbn; [|done|done]. intros i. rewrite be_init_free. split; [done|]. intros (q & Hq & _). done.
Qed.

(** C33. A lock protects its data whatever its backend: at every moment of every execution
    by any number of threads that lock, try, read and write through guards, drop them or
    sleep on a condition variable, at most one thread has the lock (a thread inside
    [CondVar::wait] only before it unlocks and after it locked again); a value read through
    a guard is still the data as long as the guard is not given up, and the data are all
    updates applied one after the other, so none is lost. *)
Theorem lock_protects_data v0 es w : exec lk_step (lk_new v0) es = Some w ->
  (forall i j p q, lw_threads w !! i = Some p -> lw_threads w !! j = Some q -> holds p = true -> holds q = true -> i = j) /\
  (forall i g v, lw_threads w !! i = Some (LkHolding g (Some v)) -> v = lk_data (lw_lock w)) /\
  lk_data (lw_lock w) = apply_all (lw_log w) v0.
Proof.
  intros He. pose proof (exec_invariant lk_step (lk_inv v0) (lk_step_inv v0) _ _ _ (lk_new_inv v0) He) as I.
  split; [|split; [apply (li_seen _ _ I)|apply (li_data _ _ I)]]. intros i j p q Hi Hj Hp Hq.
  pose proof (li_holder _ _ _ _ I Hi Hp). pose proof (li_holder _ _ _ _ I Hj Hq). congruence.
Qed.

(** A free lock is not refused: when no thread holds it, any idle thread's [lock] returns. *)
Lemma free_lock_granted v0 es w i : exec lk_step (lk_new v0) es = Some w ->
  (forall j p, lw_threads w !! j = Some p -> holds p = false) -> lw_threads w !! i = None -> lk_step w (LeLock i) <> None.
Proof.
  intros He Hf Hi. pose proof (exec_invariant lk_step (lk_inv v0) (lk_step_inv v0) _ _ _ (lk_new_inv v0) He) as I.
  assert (owner (lk_state (lw_lock w)) = None) as Ho.
  { destruct (owner _) as [j|] eqn:E; [|done]. apply (li_owner _ _ I) in E as (q & Hq & Hh). pose proof (Hf _ _ Hq). congruence. }
  cbn [lk_step]. rewrite Hi. unfold lock_lock. pose proof (be_lock_free i _ Ho). by destruct (be_lock i _) as [[]|].
Qed.
End Exclusion.

(** ** The sleeper's entry *)

(** [prepare_to_wait_exclusive] queues an entry only when its links are empty, that is, point
    to themselves; zeroed links are not; only queued tasks are woken. *)
Class WaitQueueOk (Q : WaitQueue) (queued : wq_head -> list nat) (link_empty : wq_entry -> bool) : Prop := {
  wq_init_empty : queued init_waitqueue_head = [];
  zeroed_not_empty : link_empty entry_zeroed = false;
  prepare_linked t h e : link_empty e = false -> queued (prepare_to_wait_exclusive t h e).1 = queued h;
  prepare_queues t h e : link_empty e = true -> queued (prepare_to_wait_exclusive t h e).1 = queued h ++ [t];
  wake_up_queued n h t : t ∈ (wake_up n h).1 -> t ∈ queued h;
  wake_up_shrinks n h t : t ∈ queued (wake_up n h).2 -> t ∈ queued h;
  finish_shrinks h e t : t ∈ queued (finish_wait h e) -> t ∈ queued h }.

Section NeverWoken.
Context {B : Backend} {Q : WaitQueue} {T : Type} (queued : wq_head -> list nat) (link_empty : wq_entry -> bool).
Context {QOk : WaitQueueOk Q queued link_empty}.

Definition no_signal (e : lk_event T) : bool := match e with LeSignal _ => false | _ => true end.

Definition stuck_inv (w : @lk_world B Q T) : Prop :=
  queued (lw_wq w) = [] /\
  forall i pc, lw_threads w !! i = Some pc ->
    match pc with LkHolding _ _ => True | CvPrepared _ _ | CvUnlocked _ => i ∈ lw_asleep w | CvRelock _ | CvFinish _ _ => False end.

(** Nothing is ever queued by [wait], so nothing is woken. *)
Lemma prepare_nothing i h : queued h = [] -> queued (prepare_to_wait_exclusive i h entry_zeroed).1 = [].
Proof. intros H. by rewrite (prepare_linked i h), H by apply zeroed_not_empty. Qed.

Lemma wake_nobody n h : queued h = [] -> (wake_up n h).1 = [] /\ queued (wake_up n h).2 = [].
Proof.
  intros H. split.
  - destruct (wake_up n h).1 as [|t r] eqn:E; [done|]. exfalso.
    pose proof (wake_up_queued n h t ltac:(rewrite E; apply elem_of_cons; by left)) as Ht. rewrite H in Ht. by apply not_elem_of_nil in Ht.
  - destruct (queued (wake_up n h).2) as [|t r] eqn:E; [done|]. exfalso.
    pose proof (wake_up_shrinks n h t ltac:(rewrite E; apply elem_of_cons; by left)) as Ht. rewrite H in Ht. by apply not_elem_of_nil in Ht.
Qed.

Lemma stuck_move w l i pc : stuck_inv w ->
  match pc with LkHolding _ _ => True | CvPrepared _ _ | CvUnlocked _ => i ∈ lw_asleep w | CvRelock _ | CvFinish _ _ => False end ->
  stuck_inv (set_thread i pc l w).
Proof.
  intros [H1 H2] Hpc. split; [done|]. intros j q. cbn [lw_threads lw_asleep set_thread].
  destruct (decide (j = i)) as [->|Hne]; [rewrite lookup_insert_eq; by intros [= <-]|].
  rewrite lookup_insert_ne by done. apply H2.
Qed.

Lemma stuck_step w e w' : stuck_inv w -> no_signal e = true -> lk_step w e = Some w' -> stuck_inv w'.
Proof.
  intros I He. pose proof I as [Hq Ht]. destruct e as [i|i|i|i f|i|i|i|i|i|i|all|i]; cbn [lk_step]; try done.
  - destruct (lw_threads w !! i); [done|]. destruct (lock_lock _ _) as [[g l]|]; [|done]. intros [= <-]. by apply stuck_move.
  - destruct (lw_threads w !! i); [done|]. destruct (lock_try_lock _ _) as [[g|] l]; intros [= <-]; [by apply stuck_move|done].
  - destruct (lw_threads w !! i) as [[]|]; try done. intros [= <-]. by apply stuck_move.
  - destruct (lw_threads w !! i) as [[? [v|]|? ?|?|?|? ?]|] eqn:Hi; try done. intros [= <-]. split; [done|].
    exact (proj2 (stuck_move w (lw_lock w) i (LkHolding g (Some (f v))) I Logic.I)).
  - destruct (lw_threads w !! i) as [[]|]; try done. intros [= <-]. split; [done|]. cbn. intros j q Hj.
    apply lookup_delete_Some in Hj as [_ Hj]. by apply Ht.
  - destruct (lw_threads w !! i) as [[]|]; try done. cbn [wait_step].
    pose proof (prepare_nothing i _ Hq) as Hp. destruct (prepare_to_wait_exclusive _ _ _) as [h e]. intros [= <-].
    split; [done|]. cbn. intros j q. destruct (decide (j = i)) as [->|Hne].
    + rewrite lookup_insert_eq. intros [= <-]. set_solver.
    + rewrite lookup_insert_ne by done. intros Hj. pose proof (Ht j q Hj). destruct q; set_solver.
  - destruct (lw_threads w !! i) as [[]|] eqn:Hi; try done. intros [= <-]. apply stuck_move; [done|]. exact (Ht _ _ Hi).
  - destruct (lw_threads w !! i) as [[]|] eqn:Hi; try done. cbn [wait_step]. rewrite decide_True; [done|]. exact (Ht _ _ Hi).
  - destruct (lw_threads w !! i) as [[]|] eqn:Hi; try done. destruct (Ht _ _ Hi).
  - destruct (lw_threads w !! i) as [[]|] eqn:Hi; try done. destruct (Ht _ _ Hi).
  - assert (exists n, (if all then notify_all (lw_wq w) else notify_one (lw_wq w)) = wake_up n (lw_wq w)) as [n ->]
      by (destruct all; by eexists).
    destruct (wake_nobody n _ Hq) as [Hw Hh]. destruct (wake_up n (lw_wq w)) as [woken h]. cbn in Hw, Hh. subst woken.
    intros [= <-]. split; [done|]. cbn. intros j q Hj. pose proof (Ht j q Hj). destruct q; set_solver.
Qed.

(** A thread that calls [CondVar::wait] is never woken by [notify_one] or [notify_all]: its
    entry is zeroed memory, whose links are not the empty list, so it is never queued; the
    thread sleeps, without the lock, until a signal reaches it. *)
Theorem condvar_never_notified v0 es w i e : exec lk_step (lk_new v0) es = Some w -> forallb no_signal es = true ->
  lw_threads w !! i = Some (CvUnlocked e) -> lk_step w (LeSchedule i) = None.
Proof.
  intros He Hn Hi. assert (stuck_inv w) as [_ Ht].
  { assert (stuck_inv (lk_new v0)) as I0 by (split; [apply wq_init_empty|done]). revert He Hn I0. generalize (lk_new v0).
    induction es as [|x r IH]; intros s; cbn [exec forallb]; [by intros [= <-]|].
    destruct (lk_step s x) as [s1|] eqn:E; [|done]. intros Hr [Hx Hr']%andb_prop I. eapply IH; [done|done|]. by eapply stuck_step. }
  cbn [lk_step]. rewrite Hi. cbn [wait_step]. rewrite decide_True; [done|]. exact (Ht _ _ Hi).
Qed.
End NeverWoken.

(** ** Instances *)
#[global] Instance toy_raw : RawLock := {|
  raw_st := option nat; raw_init := None;
  raw_lock t s := match s with None => Some (Some t) | Some _ => None end;
  raw_trylock t s := match s with None => (1, Some t) | Some _ => (0, s) end;
  raw_unlock _ := None;
  raw_is_locked s := match s with None => 0 | Some _ => 1 end |}.

#[global] Instance toy_raw_ok : RawLockOk toy_raw (fun s => s).
Proof. split; cbn; try done; intros; repeat match goal with s : option nat |- _ => destruct s end; naive_solver. Qed.

#[global] Instance toy_wq : WaitQueue := {|
  wq_head := list nat; wq_entry := bool; init_waitqueue_head := []; entry_zeroed := false;
  prepare_to_wait_exclusive t h e := if e then (h ++ [t], false) else (h, e);
  wake_up n h := if n =? 0 then (h, []) else (take (Z.to_nat n) h, drop (Z.to_nat n) h);
  finish_wait h e := h |}.

#[global] Instance toy_wq_ok : WaitQueueOk toy_wq (fun h => h) (fun e => e).
Proof.
  split; cbn; [done|done|by intros ? ? [] | by intros ? ? [] | | | done]; intros n h t;
    (destruct (n =? 0); cbn; [|first [apply subseteq_take|apply subseteq_drop]]); [done|by intros ?%not_elem_of_nil].
Qed.

(** Two threads add to a counter under the lock, one of them sleeps in between and a signal
    ends its sleep. *)
Definition lk_script : list (lk_event Z) :=
  [LeLock 0; LeRead 0; LeWrite 0 (Z.add 1); LePrepare 0; LeUnlock 0; LeLock 1; LeRead 1; LeWrite 1 (Z.add 10);
   LeSignal 0; LeSchedule 0; LeTryLock 2; LeDrop 1; LeRelock 0; LeFinish 0; LeRead 0; LeWrite 0 (Z.mul 2)].

Lemma lock_protects_data_witness : exists w : @lk_world (MutexBackend toy_raw) toy_wq Z,
  exec lk_step (lk_new 0) lk_script = Some w /\ lk_data (lw_lock w) = 22 /\ lk_data (lw_lock w) = apply_all (lw_log w) 0.
Proof.
  assert (option_map (fun w => lk_data (lw_lock w))
    (exec (lk_step (B := MutexBackend toy_raw) (Q := toy_wq)) (lk_new 0) lk_script) = Some 22) as H by (vm_compute; reflexivity).
  destruct (exec _ _ _) as [w|] eqn:E; [|discriminate]. injection H as H. exists w. split; [reflexivity|]. split; [exact H|].
  exact (proj2 (proj2 (lock_protects_data (B := MutexBackend toy_raw) (Q := toy_wq) (fun s => s) 0 lk_script w E))).
Defined.

Lemma condvar_never_notified_run : exists w : @lk_world (MutexBackend toy_raw) toy_wq Z,
  exec lk_step (lk_new 0) [LeLock 0; LePrepare 0; LeUnlock 0; LeNotify true; LeNotify false] = Some w /\
  lk_step w (LeSchedule 0) = None.
Proof.
  set (es := [LeLock 0; LePrepare 0; LeUnlock 0; LeNotify true; LeNotify false]).
  assert (option_map (fun w => lw_threads w !! 0%nat)
    (exec (lk_step (B := MutexBackend toy_raw) (Q := toy_wq)) (lk_new 0) es) = Some (Some (CvUnlocked false)))
    as H by (vm_compute; reflexivity).
  destruct (exec _ _ _) as [w|] eqn:E; [|discriminate]. injection H as H. exists w. split; [reflexivity|].
  exact (condvar_never_notified (B := MutexBackend toy_raw) (Q := toy_wq) (fun h => h) (fun e => e) 0 es w 0%nat false E
    eq_refl H).
Defined.
