(* ===== verification/Guards.v ===== *)
(** * References to kernel objects and scoped kernel state (types/aref.rs, types/locked.rs,
      [NoFsGuard] of alloc/mod.rs)

    [ARef] owns one reference of an object that the kernel counts, [Locked] a kernel lock or
    the knowledge that the VFS holds it, [NoFsGuard] a flag of the current task.  The kernel
    operations behind the traits [AlwaysRefCounted] and [Lockable] are classes with their
    documented laws. *)
From Stdlib Require Import ZArith Lia Bool.
From stdpp Require Import base list option numbers gmap.
From S2P Require Import Prelude Pool.

(** ** [ARef] *)

(** [inc_ref] and [dec_ref] ([ihold]/[iput], [get_task_struct]/[put_task_struct]); [rc] is
    the count, and an object whose count is zero is gone. *)
Class AlwaysRefCounted (K : Type) := { inc_ref : K -> K; dec_ref : K -> K; rc : K -> Z }.
Class AlwaysRefCountedOk {K} (A : AlwaysRefCounted K) : Prop := {
  inc_ref_rc k : 0 < rc k -> rc (inc_ref k) = rc k + 1;
  dec_ref_rc k : 0 < rc k -> rc (dec_ref k) = rc k - 1 }.

Section ARefs.
Context {K : Type} {A : AlwaysRefCounted K}.

(** The object, the live [ARef]s, the references owned by C code, and whether a call was
    made on an object that was gone. *)
Record aref_world : Type := mkAr { ar_obj : K; ar_refs : gset nat; ar_raw : Z; ar_bad : bool }.

Inductive aref_event : Type :=
| ArFromRaw (i : nat) | ArIntoRaw (i : nat) | ArClone (i j : nat) | ArDeref (i : nat) | ArDrop (i : nat)
| ArKernelGet | ArKernelPut.

Definition ar_gone (s : aref_world) : bool := ar_bad s || (rc (ar_obj s) <=? 0).

(** [ARef::from_raw] and [into_raw] only move the reference. *)
Definition aref_from_raw (i : nat) (s : aref_world) : aref_world :=
  mkAr (ar_obj s) ({[i]} ∪ ar_refs s) (ar_raw s - 1) (ar_bad s).
Definition aref_into_raw (i : nat) (s : aref_world) : aref_world :=
  mkAr (ar_obj s) (ar_refs s ∖ {[i]}) (ar_raw s + 1) (ar_bad s).
Definition aref_clone (j : nat) (s : aref_world) : aref_world :=
  mkAr (inc_ref (ar_obj s)) ({[j]} ∪ ar_refs s) (ar_raw s) (ar_gone s).
Definition aref_deref (s : aref_world) : aref_world := mkAr (ar_obj s) (ar_refs s) (ar_raw s) (ar_gone s).
Definition aref_drop (i : nat) (s : aref_world) : aref_world :=
  mkAr (dec_ref (ar_obj s)) (ar_refs s ∖ {[i]}) (ar_raw s) (ar_gone s).

Definition aref_step (s : aref_world) (e : aref_event) : option aref_world :=
  match e with
  | ArFromRaw i => if decide (i ∉ ar_refs s /\ 0 < ar_raw s) then Some (aref_from_raw i s) else None
  | ArIntoRaw i => if decide (i ∈ ar_refs s) then Some (aref_into_raw i s) else None
  | ArClone i j => if decide (i ∈ ar_refs s /\ j ∉ ar_refs s) then Some (aref_clone j s) else None
  | ArDeref i => if decide (i ∈ ar_refs s) then Some (aref_deref s) else None
  | ArDrop i => if decide (i ∈ ar_refs s) then Some (aref_drop i s) else None
  | ArKernelGet => if decide (0 < ar_raw s) then Some (mkAr (inc_ref (ar_obj s)) (ar_refs s) (ar_raw s + 1) (ar_gone s)) else None
  | ArKernelPut => if decide (0 < ar_raw s) then Some (mkAr (dec_ref (ar_obj s)) (ar_refs s) (ar_raw s - 1) (ar_gone s)) else None
  end.

Context {AO : AlwaysRefCountedOk A}.

Definition aref_inv (s : aref_world) : Prop :=
  ar_bad s = false /\ 0 <= ar_raw s /\ rc (ar_obj s) = ar_raw s + Z.of_nat (size (ar_refs s)).

Lemma size_add (i : nat) (X : gset nat) : i ∉ X -> Z.of_nat (size ({[i]} ∪ X)) = Z.of_nat (size X) + 1.
Proof. intros H. rewrite size_union by set_solver. rewrite size_singleton. lia. Qed.

Lemma size_del (i : nat) (X : gset nat) : i ∈ X -> Z.of_nat (size (X ∖ {[i]})) = Z.of_nat (size X) - 1 /\ 0 < Z.of_nat (size X).
Proof.
  intros H. rewrite size_difference by set_solver. rewrite size_singleton.
  assert (size X <> 0%nat) by (intros Hz; apply size_empty_iff in Hz; set_solver). lia.
Qed.

Lemma aref_step_inv s e s' : aref_inv s -> aref_step s e = Some s' -> aref_inv s'.
Proof.
  destruct s as [k X r b]. unfold aref_inv; cbn. intros (-> & Hr & Hc).
  destruct e; cbn; case_decide as Hd; try done; intros [= <-]; unfold ar_gone; cbn.
  - rewrite size_add by tauto. split; [done|lia].
  - destruct (size_del i X Hd). split; [done|lia].
  - destruct Hd as [Hi Hj]. destruct (size_del i X Hi). rewrite size_add, inc_ref_rc by (done || lia). split; [blia|lia].
  - destruct (size_del i X Hd). split; [blia|lia].
  - destruct (size_del i X Hd). rewrite dec_ref_rc by lia. split; [blia|lia].
  - rewrite inc_ref_rc by lia. split; [blia|lia].
  - rewrite dec_ref_rc by lia. split; [blia|lia].
Qed.

(** An [ARef] is a counted reference: however the program and the kernel pass references
    around, clone and drop them, the object's count is the number of references that exist,
    so no [ARef] ever refers to an object that is gone, and the object is gone as soon as
    nobody refers to it. *)
Theorem aref_counts k0 es s : 0 < rc k0 -> exec aref_step (mkAr k0 ∅ (rc k0) false) es = Some s ->
  ar_bad s = false /\ rc (ar_obj s) = ar_raw s + Z.of_nat (size (ar_refs s)) /\
  (rc (ar_obj s) = 0 <-> ar_refs s = ∅ /\ ar_raw s = 0).
Proof.
  intros Hk He. assert (aref_inv s) as (Hb & Hr & Hc).
  { refine (exec_invariant aref_step aref_inv aref_step_inv es _ s _ He). unfold aref_inv; cbn. rewrite size_empty. split; [done|lia]. }
  split; [done|]. split; [done|]. split.
  - intros H0. assert (size (ar_refs s) = 0%nat) as Hz by lia. split; [by apply leibniz_equiv, size_empty_iff|lia].
  - intros [H1 H0]. rewrite Hc, H1, H0, size_empty. done.
Qed.
End ARefs.
Arguments aref_world K : clear implicits.

(** ** [Locked] *)

(** [raw_lock] and [unlock] ([inode_lock_shared], [inode_unlock_shared]); [holds_of] is how
    often the lock is held, [None]: the caller blocks. *)
Class Lockable (K : Type) := { lb_lock : K -> option K; lb_unlock : K -> K; holds_of : K -> Z }.
Class LockableOk {K} (L : Lockable K) : Prop := {
  lb_lock_holds k k' : lb_lock k = Some k' -> holds_of k' = holds_of k + 1;
  lb_unlock_holds k : 0 < holds_of k -> holds_of (lb_unlock k) = holds_of k - 1 }.

Section Lockeds.
Context {K : Type} {L : Lockable K}.

(** [owns_lock]; [inner] is the object. *)
Record Locked : Type := mkLocked { owns_lock : bool }.

Definition locked_new (k : K) : option (Locked * K) :=
  match lb_lock k with Some k' => Some (mkLocked true, k') | None => None end.
Definition locked_borrowed : Locked := mkLocked false.
Definition locked_drop (g : Locked) (k : K) : K := if owns_lock g then lb_unlock k else k.

(** The object, the live guards, how often the VFS holds the lock, and whether an unlock was
    called without a hold. *)
Record lb_world : Type := mkLb { lb_obj : K; lb_guards : gmap nat Locked; lb_vfs : Z; lb_bad : bool }.
Inductive lb_event : Type := LbNew (i : nat) | LbBorrow (i : nat) | LbDrop (i : nat) | LbVfsLock | LbVfsUnlock.

(** A borrowed guard may exist only while the VFS keeps its hold. *)
Definition borrows (s : lb_world) : Z := weigh (fun g => if owns_lock g then 0 else 1) (lb_guards s).

Definition lb_step (s : lb_world) (e : lb_event) : option lb_world :=
  match e with
  | LbNew i =>
      match lb_guards s !! i, locked_new (lb_obj s) with
      | None, Some (g, k) => Some (mkLb k (<[i := g]> (lb_guards s)) (lb_vfs s) (lb_bad s))
      | _, _ => None
      end
  | LbBorrow i =>
      match lb_guards s !! i with
      | None => if 0 <? lb_vfs s then Some (mkLb (lb_obj s) (<[i := locked_borrowed]> (lb_guards s)) (lb_vfs s) (lb_bad s)) else None
      | Some _ => None
      end
  | LbDrop i =>
      match lb_guards s !! i with
      | Some g => Some (mkLb (locked_drop g (lb_obj s)) (delete i (lb_guards s)) (lb_vfs s)
                          (lb_bad s || (owns_lock g && (holds_of (lb_obj s) <=? 0))))
      | None => None
      end
  | LbVfsLock =>
      match lb_lock (lb_obj s) with Some k => Some (mkLb k (lb_guards s) (lb_vfs s + 1) (lb_bad s)) | None => None end
  | LbVfsUnlock =>
      if (0 <? lb_vfs s) && (borrows s =? 0)
      then Some (mkLb (lb_unlock (lb_obj s)) (lb_guards s) (lb_vfs s - 1) (lb_bad s || (holds_of (lb_obj s) <=? 0)))
      else None
  end.

Context {LO : LockableOk L}.

Definition w_owned (g : Locked) : Z := if owns_lock g then 1 else 0.
Lemma w_owned_nonneg g : 0 <= w_owned g.
Proof. unfold w_owned. by destruct (owns_lock g). Qed.

Definition lb_inv (s : lb_world) : Prop :=
  lb_bad s = false /\ 0 <= lb_vfs s /\ holds_of (lb_obj s) = lb_vfs s + weigh w_owned (lb_guards s).

Lemma lb_step_inv s e s' : lb_inv s -> lb_step s e = Some s' -> lb_inv s'.
Proof.
  intros (Hb & Hv & Hh). pose proof (weigh_nonneg w_owned w_owned_nonneg (lb_guards s)) as Hw.
  unfold lb_inv. destruct e as [i|i|i| |]; cbn [lb_step].
  - destruct (lb_guards s !! i) eqn:Hi; [done|]. unfold locked_new. destruct (lb_lock (lb_obj s)) as [k|] eqn:E; [|done].
    intros [= <-]. cbn. weigh_step. rewrite (lb_lock_holds _ _ E). cbn. split; [done|lia].
  - destruct (lb_guards s !! i) eqn:Hi; [done|]. destruct (0 <? lb_vfs s); [|done]. intros [= <-]. cbn. weigh_step. cbn. split; [done|lia].
  - destruct (lb_guards s !! i) as [g|] eqn:Hi; [|done]. intros [= <-]. cbn. weigh_step.
    pose proof (weigh_member w_owned w_owned_nonneg _ _ _ Hi) as Hm. unfold locked_drop, w_owned in *. rewrite Hb.
    destruct (owns_lock g); cbn; [rewrite lb_unlock_holds by lia; split; [blia|lia]|split; [done|lia]].
  - destruct (lb_lock (lb_obj s)) as [k|] eqn:E; [|done]. intros [= <-]. cbn. rewrite (lb_lock_holds _ _ E). split; [done|lia].
  - destruct (0 <? lb_vfs s) eqn:E; [|done]. destruct (borrows s =? 0); [|done]. intros [= <-]. cbn. rewrite Hb.
    rewrite lb_unlock_holds by blia. split; [blia|blia].
Qed.

(** A [Locked] guard releases exactly what it acquired: the lock is held once for every
    guard made by [new] and once for every hold of the VFS, so dropping a borrowed guard
    never gives up the VFS's lock and no unlock is without a lock. *)
Theorem locked_balanced k0 es s : holds_of k0 = 0 -> exec lb_step (mkLb k0 ∅ 0 false) es = Some s ->
  lb_bad s = false /\ holds_of (lb_obj s) = lb_vfs s + weigh w_owned (lb_guards s) /\
  (forall i g, lb_guards s !! i = Some g -> 0 < holds_of (lb_obj s) \/ owns_lock g = false).
Proof.
  intros Hk He. assert (lb_inv s) as (Hb & Hv & Hh).
  { refine (exec_invariant lb_step lb_inv lb_step_inv es _ s _ He). unfold lb_inv; cbn. rewrite weigh_empty. split; [done|lia]. }
  split; [done|]. split; [done|]. intros i g Hi. pose proof (weigh_member w_owned w_owned_nonneg _ _ _ Hi) as Hm.
  unfold w_owned at 1 in Hm. destruct (owns_lock g); [left; lia|by right].
Qed.
End Lockeds.

(** ** [NoFsGuard] *)

(** [memalloc_nofs_save] returns the old flag and sets it, [memalloc_nofs_restore] writes it
    back. *)
Class Memalloc (K : Type) := { nofs_save : K -> Z * K; nofs_restore : Z -> K -> K; nofs : K -> bool }.
Class MemallocOk {K} (Mm : Memalloc K) : Prop := {
  save_sets k : nofs (nofs_save k).2 = true;
  restore_saved k k' : nofs (nofs_restore (nofs_save k).1 k') = nofs k }.

Section NoFs.
Context {K : Type} {Mm : Memalloc K}.

Record NoFsGuard : Type := mkNoFs { nf_saved : Z }.
Definition nofs_new (k : K) : NoFsGuard * K := let '(saved, k') := nofs_save k in (mkNoFs saved, k').
Definition nofs_drop (g : NoFsGuard) (k : K) : K := nofs_restore (nf_saved g) k.

(** Code with allocations and guarded scopes, and the flag that each allocation sees. *)
Inductive nofs_prog : Type := NfAlloc | NfSeq (p q : nofs_prog) | NfScope (p : nofs_prog).

Fixpoint nofs_run (p : nofs_prog) (k : K) : list bool * K :=
  match p with
  | NfAlloc => ([nofs k], k)
  | NfSeq p q => let '(l, k1) := nofs_run p k in let '(l', k2) := nofs_run q k1 in (l ++ l', k2)
  | NfScope p => let '(g, k1) := nofs_new k in let '(l, k2) := nofs_run p k1 in (l, nofs_drop g k2)
  end.

Fixpoint nofs_spec (p : nofs_prog) (flag : bool) : list bool :=
  match p with
  | NfAlloc => [flag]
  | NfSeq p q => nofs_spec p flag ++ nofs_spec q flag
  | NfScope p => nofs_spec p true
  end.

(** Scopes nest: an allocation sees the flag exactly when it is inside a scope, or the code
    was already called in one, and afterwards the flag is what it was. *)
Theorem nofs_scopes_nest `{MO : !MemallocOk Mm} p k :
  (nofs_run p k).1 = nofs_spec p (nofs k) /\ nofs (nofs_run p k).2 = nofs k.
Proof.
  revert k. induction p as [|p IHp q IHq|p IH]; intros k; cbn [nofs_run nofs_spec]; [done|..].
  - destruct (IHp k) as [H1 H2]. destruct (nofs_run p k) as [l k1]. cbn in H1, H2. destruct (IHq k1) as [H3 H4].
    destruct (nofs_run q k1) as [l' k2]. cbn in *. split; congruence.
  - unfold nofs_new. pose proof (save_sets k) as Hs. pose proof (fun k' => restore_saved k k') as Hr.
    destruct (nofs_save k) as [sv k1]. cbn in Hs, Hr. destruct (IH k1) as [H1 H2]. destruct (nofs_run p k1) as [l k2]. cbn in *.
    split; [congruence|apply Hr].
Qed.

(** Guards that are dropped in the order they were made do not: once the first one is gone
    the flag is clear although the second one is alive. *)
Theorem nofs_out_of_order `{MO : !MemallocOk Mm} k : nofs k = false ->
  let '(a, k1) := nofs_new k in let '(b, k2) := nofs_new k1 in
  nofs k2 = true /\ nofs (nofs_drop a k2) = false /\ nofs (nofs_drop b (nofs_drop a k2)) = true.
Proof.
  intros Hk. unfold nofs_new. pose proof (save_sets k) as S1. pose proof (fun k' => restore_saved k k') as R1.
  destruct (nofs_save k) as [sa k1]. cbn in S1, R1. pose proof (save_sets k1) as S2. pose proof (fun k' => restore_saved k1 k') as R2.
  destruct (nofs_save k1) as [sb k2]. cbn in S2, R2. unfold nofs_drop. cbn. split; [done|]. by rewrite R1, R2, Hk, S1.
Qed.
End NoFs.

(** ** Instances and runs *)
#[global] Instance count_rc : AlwaysRefCounted Z := {| inc_ref := Z.succ; dec_ref := Z.pred; rc k := k |}.
#[global] Instance count_rc_ok : AlwaysRefCountedOk count_rc.
Proof. split; cbn; lia. Qed.
#[global] Instance shared_lock : Lockable Z := {| lb_lock k := Some (k + 1); lb_unlock k := k - 1; holds_of k := k |}.
#[global] Instance shared_lock_ok : LockableOk shared_lock.
Proof. split; cbn; [by intros k k' [= <-]|done]. Qed.
#[global] Instance task_flag : Memalloc bool :=
  {| nofs_save (k : bool) := (if k then 1 else 0, true); nofs_restore s _ := negb (s =? 0); nofs k := k |}.
#[global] Instance task_flag_ok : MemallocOk task_flag.
Proof. split; cbn; [done|]. by intros []. Qed.

Lemma aref_counts_run : exists s : aref_world Z, exec aref_step (mkAr 1 ∅ 1 false) [ArFromRaw 0; ArClone 0 1; ArDrop 0; ArDeref 1; ArDrop 1] = Some s /\
  ar_bad s = false /\ rc (ar_obj s) = 0.
Proof.
  assert (option_map (fun s => rc (ar_obj s)) (exec aref_step (mkAr 1 ∅ 1 false) [ArFromRaw 0; ArClone 0 1; ArDrop 0; ArDeref 1; ArDrop 1])
    = Some 0) as H by (vm_compute; reflexivity).
  destruct (exec _ _ _) as [s|] eqn:E; [|discriminate]. injection H as H. exists s. split; [done|]. split; [|done].
  exact (proj1 (aref_counts 1 _ s eq_refl E)).
Qed.
