(* ===== verification/Kernel.v ===== *)
(** * Thin wrappers of kernel services (rko-core/src/time.rs, sync/rcu.rs, io_uring.rs, task.rs,
      net/namespace.rs, and the reference counts of fs/)

    Times at their width; RCU read sections; the life of an io_uring command from the
    callback to its completion; and the kernel's own reference counts as instances of the
    trait [AlwaysRefCounted] of [Guards]. *)
From Stdlib Require Import ZArith Lia Bool.
From stdpp Require Import base list option numbers gmap.
From S2P Require Import Prelude Errors Pool Guards.

(** ** Times

    A [Ktime] is an [i64] of nanoseconds; [/] truncates towards zero. *)
Record Ktime : Type := mkKtime { to_ns : Z }.
Definition from_ns (ns : Z) : Ktime := mkKtime ns.
Definition from_ms (ms : Z) : Ktime := mkKtime (sext 64 (ms * 1000000)).
Definition from_secs (s : Z) : Ktime := mkKtime (sext 64 (s * 1000000000)).
Definition to_ms (k : Ktime) : Z := Z.quot (to_ns k) 1000000.

Definition ms_fits (ms : Z) : Prop := - 2 ^ 63 <= ms * 1000000 < 2 ^ 63.

(** Milliseconds that fit survive the round trip and keep their order, seconds agree with
    milliseconds, and reading in milliseconds loses less than one. *)
Theorem ktime_roundtrip (a b : Z) : ms_fits a -> ms_fits b ->
  to_ms (from_ms a) = a /\ (to_ns (from_ms a) < to_ns (from_ms b) <-> a < b) /\
  (forall s, a = 1000 * s -> from_secs s = from_ms a) /\
  (forall k, Z.abs (to_ns k - 1000000 * to_ms k) < 1000000).
Proof.
  unfold ms_fits. intros Ha Hb. unfold to_ms, from_ms, from_secs. cbn [to_ns]. rewrite (sext_id 64 (a * 1000000)), (sext_id 64 (b * 1000000)) by lia.
  split; [apply Z.quot_mul; lia|]. split; [lia|]. split.
  - intros s ->. rewrite sext_id by lia. f_equal. lia.
  - intros k. pose proof (Z.quot_rem' (to_ns k) 1000000) as E. pose proof (Z.rem_bound_abs (to_ns k) 1000000 ltac:(lia)) as R. lia.
Qed.
(** The largest number of seconds that fits, and the next one, which wraps. *)
Example ktime_overflow : to_ns (from_secs 9223372036) = 9223372036000000000 /\ to_ns (from_secs 9223372037) < 0.
Proof. vm_compute. done. Qed.

(** ** RCU read sections

    The task's nesting depth; a guard is a token that [drop] gives back, and [unlock] is its
    drop. *)
Class RcuKernel := { rcu : Type; rcu_depth : rcu -> Z; rcu_read_lock : rcu -> rcu; rcu_read_unlock : rcu -> rcu }.
Class RcuKernelOk (RC : RcuKernel) : Prop := {
  rcu_lock_depth k : rcu_depth (rcu_read_lock k) = rcu_depth k + 1;
  rcu_unlock_depth k : 0 < rcu_depth k -> rcu_depth (rcu_read_unlock k) = rcu_depth k - 1 }.

Section Rcu.
Context `{RC : RcuKernel}.
Record rcu_state : Type := mkRcu { rs_kernel : rcu; rs_guards : gset nat }.
Inductive rcu_event : Type := RcuNew (i : nat) | RcuDrop (i : nat).
Definition rcu_guard_new (i : nat) (s : rcu_state) : rcu_state := mkRcu (rcu_read_lock (rs_kernel s)) ({[i]} ∪ rs_guards s).
Definition rcu_guard_drop (i : nat) (s : rcu_state) : rcu_state := mkRcu (rcu_read_unlock (rs_kernel s)) (rs_guards s ∖ {[i]}).
Definition rcu_step (s : rcu_state) (e : rcu_event) : option rcu_state :=
  match e with
  | RcuNew i => if decide (i ∈ rs_guards s) then None else Some (rcu_guard_new i s)
  | RcuDrop i => if decide (i ∈ rs_guards s) then Some (rcu_guard_drop i s) else None
  end.

Context {RCok : RcuKernelOk RC}.
Lemma rcu_step_depth d0 s e s' : 0 <= d0 -> rcu_depth (rs_kernel s) = d0 + Z.of_nat (size (rs_guards s)) ->
  rcu_step s e = Some s' -> rcu_depth (rs_kernel s') = d0 + Z.of_nat (size (rs_guards s')).
Proof.
  intros H0 Hd. destruct e as [i|i]; cbn; case_decide as Hi; try done; intros [= <-]; cbn [rs_kernel rs_guards rcu_guard_new rcu_guard_drop].
  - rewrite rcu_lock_depth, size_add by done. lia.
  - destruct (size_del i _ Hi). rewrite rcu_unlock_depth; lia.
Qed.
(** The read-side lock is held exactly while guards exist, in any order of their drops: the
    depth is what it was before them plus their number. *)
Theorem rcu_guards_hold (k : rcu) (es : list rcu_event) (s : rcu_state) :
  0 <= rcu_depth k -> exec rcu_step (mkRcu k ∅) es = Some s ->
  rcu_depth (rs_kernel s) = rcu_depth k + Z.of_nat (size (rs_guards s)).
Proof.
  intros Hk He. refine (exec_invariant rcu_step (fun s => rcu_depth (rs_kernel s) = rcu_depth k + Z.of_nat (size (rs_guards s))) _ es _ s _ He).
  - intros s1 e s2 Hd Hs. by eapply rcu_step_depth.
  - cbn. rewrite size_empty. lia.
Qed.
End Rcu.

(** ** Completion of io_uring commands

    Who owns the command: the callback ([IoUringCmd]), a deferred completion
    ([IoUringCmdAsync]) or nobody; and the completions that were posted.  When the callback
    returns anything but -EIOCBQUEUED, the kernel posts that value itself. *)
Section Commands.
Context (EIOCBQUEUED : Z).

Inductive cmd_owner : Type := OwnCallback | OwnAsync | OwnNobody.
Record ucmd : Type := mkUcmd { uc_owner : cmd_owner; uc_returned : bool; uc_cqes : list Z }.

Inductive cmd_event : Type :=
| CmdDone (ret : Z)        (** [IoUringCmd::done] *)
| CmdDefer                 (** [IoUringCmd::defer] *)
| CmdForget                (** dropping either handle *)
| CmdAsyncDone (ret : Z)   (** [IoUringCmdAsync::done] *)
| CmdReturn (ret : Z).     (** the callback returns *)

Definition cmd_done (ret : Z) (c : ucmd) : ucmd := mkUcmd OwnNobody (uc_returned c) (uc_cqes c ++ [ret]).
Definition cmd_defer (c : ucmd) : ucmd := mkUcmd OwnAsync (uc_returned c) (uc_cqes c).
Definition async_done (ret : Z) (c : ucmd) : ucmd := mkUcmd OwnNobody (uc_returned c) (uc_cqes c ++ [ret]).

(** Ownership: each handle is used once, the callback's own before it returns. *)
Definition cmd_step (c : ucmd) (e : cmd_event) : option ucmd :=
  match e, uc_owner c with
  | CmdDone ret, OwnCallback => if uc_returned c then None else Some (cmd_done ret c)
  | CmdDefer, OwnCallback => if uc_returned c then None else Some (cmd_defer c)
  | CmdForget, _ => Some (mkUcmd OwnNobody (uc_returned c) (uc_cqes c))
  | CmdAsyncDone ret, OwnAsync => Some (async_done ret c)
  | CmdReturn ret, o =>
      if uc_returned c then None
      else Some (mkUcmd (match o with OwnCallback => OwnNobody | o => o end) true
                   (if ret =? - EIOCBQUEUED then uc_cqes c else uc_cqes c ++ [ret]))
  | _, _ => None
  end.
Definition new_cmd : ucmd := mkUcmd OwnCallback false [].

(** The rule of [MiscDevice::uring_cmd]: return a result without touching the command, or
    defer it, return -EIOCBQUEUED and complete it once, before or after that. *)
Definition follows_rule (es : list cmd_event) : Prop :=
  (exists ret, ret <> - EIOCBQUEUED /\ es = [CmdReturn ret]) \/
  (exists ret, es = [CmdDefer; CmdReturn (- EIOCBQUEUED); CmdAsyncDone ret]) \/
  (exists ret, es = [CmdDefer; CmdAsyncDone ret; CmdReturn (- EIOCBQUEUED)]).

(** A command that follows the rule is completed exactly once, with its result. *)
Theorem command_completed_once (es : list cmd_event) : follows_rule es ->
  exists c r, exec cmd_step new_cmd es = Some c /\ uc_returned c = true /\ uc_owner c = OwnNobody /\ uc_cqes c = [r] /\
    (CmdReturn r ∈ es \/ CmdAsyncDone r ∈ es).
Proof.
  intros [(r & Hr & ->)|[[r ->]|[r ->]]]; cbn; rewrite ?Z.eqb_refl.
  - destruct (r =? _) eqn:E; [blia|]. eexists _, r. split; [reflexivity|]. cbn. do 3 (split; [done|]). set_solver.
  - eexists _, r. split; [reflexivity|]. cbn. do 3 (split; [done|]). set_solver.
  - eexists _, r. split; [reflexivity|]. cbn. do 3 (split; [done|]). set_solver.
Qed.

(** Ownership alone does not prevent a double completion: a callback may complete the
    command with [done] and return a result. *)
Theorem done_then_return_completes_twice (r : Z) : r <> - EIOCBQUEUED ->
  exists c, exec cmd_step new_cmd [CmdDone r; CmdReturn r] = Some c /\ uc_cqes c = [r; r].
Proof. intros Hr. cbn. destruct (r =? _) eqn:E; [blia|]. eexists. split; [reflexivity|done]. Qed.
End Commands.

(** ** Counted kernel objects *)
Class CountedKernel (K : Type) := { k_get : K -> K; k_put : K -> K; k_count : K -> Z }.
Class CountedKernelOk {K} (C : CountedKernel K) : Prop := {
  k_get_count k : 0 < k_count k -> k_count (k_get k) = k_count k + 1;
  k_put_count k : 0 < k_count k -> k_count (k_put k) = k_count k - 1 }.

Section Counted.
Context {K : Type} {C : CountedKernel K}.
(** [ihold]/[iput], [dget]/[dput], [folio_get]/[folio_put],
    [get_task_struct]/[put_task_struct], [get_net]/[put_net]. *)
Definition inode_refcounted : AlwaysRefCounted K := {| inc_ref := k_get; dec_ref := k_put; rc := k_count |}.
Definition dentry_refcounted : AlwaysRefCounted K := {| inc_ref := k_get; dec_ref := k_put; rc := k_count |}.
Definition folio_refcounted : AlwaysRefCounted K := {| inc_ref := k_get; dec_ref := k_put; rc := k_count |}.
Definition task_refcounted : AlwaysRefCounted K := {| inc_ref := k_get; dec_ref := k_put; rc := k_count |}.
Definition namespace_refcounted : AlwaysRefCounted K := {| inc_ref := k_get; dec_ref := k_put; rc := k_count |}.

Context {COK : CountedKernelOk C}.
(** Each of them keeps the promise [ARef] relies on. *)
Lemma counted_ok : Forall (fun A => AlwaysRefCountedOk A)
  [inode_refcounted; dentry_refcounted; folio_refcounted; task_refcounted; namespace_refcounted].
Proof. repeat constructor; intros k Hk; by apply k_get_count || by apply k_put_count. Qed.
End Counted.

(** A kernel thread handle: [spawn] is a stub, and the handle of nothing has pid 0. *)
Section Threads.
Context `{KE : KernelErrno} (task_pid : Z -> Z).
Record KTask : Type := mkKTask { kt_task : Z }.
Definition ktask_spawn : res Error KTask := Err EINVAL.
Definition ktask_pid (t : KTask) : Z := if kt_task t =? 0 then 0 else task_pid (kt_task t).
End Threads.

Lemma ktime_roundtrip_witness : to_ms (from_ms 42) = 42 /\ (to_ns (from_ms 42) < to_ns (from_ms (-7)) <-> 42 < -7) /\
  (forall s, 42 = 1000 * s -> from_secs s = from_ms 42) /\ (forall k, Z.abs (to_ns k - 1000000 * to_ms k) < 1000000).
Proof. apply (ktime_roundtrip 42 (-7)); vm_compute; split; congruence. Defined.
