(* ===== verification/Workqueue.v ===== *)
(** * Work items (rko-core/src/workqueue.rs and samples/workqueue_test)

    A work item is reference counted and carries its [work_struct] inside.  [enqueue] gives
    the caller's [Arc] to the kernel, [run] takes it back out of the pointer the kernel
    passes, and a refused [enqueue] hands it back ([Pointers] shows that the pointers
    agree).  The kernel's side is what its documentation says: [queue_work_on] refuses an
    item that is pending, an item is no longer pending once it runs, and is not run by two
    workers at a time. *)
From Stdlib Require Import ZArith Lia Bool.
From stdpp Require Import base list option numbers gmap.
From S2P Require Import Prelude Errors Pool.

(** The system queues. *)
Inductive Queue : Type := system | system_highpri | system_long | system_unbound.

(** An item: its count, whether its [work_struct] has been set up, where it is pending, the
    [Arc]s that code holds, whether a worker is in [run]; and how often it was queued and
    run. *)
Record Item : Type := mkItem {
  it_refs : Z; it_init : bool; it_pending : option Queue; it_handles : Z; it_busy : bool;
  it_queued : Z; it_runs : Z }.

Definition set_pending_on (p : option Queue) (i : Item) : Item :=
  mkItem (it_refs i) (it_init i) p (it_handles i) (it_busy i) (it_queued i) (it_runs i).
Definition add_handles (n : Z) (i : Item) : Item :=
  mkItem (it_refs i) (it_init i) (it_pending i) (it_handles i + n) (it_busy i) (it_queued i) (it_runs i).

(** [UniqueArc::new_uninit], and then [Work::init], which stores the callback. *)
Definition unique_uninit : Item := mkItem 1 false None 1 false 0 0.
Definition work_init (i : Item) : Item :=
  mkItem (it_refs i) true (it_pending i) (it_handles i) (it_busy i) (it_queued i) (it_runs i).

(** The kernel's [queue_work_on]. *)
Definition queue_work_on (q : Queue) (i : Item) : bool * Item :=
  match it_pending i with
  | Some _ => (false, i)
  | None => (true, mkItem (it_refs i) (it_init i) (Some q) (it_handles i) (it_busy i) (it_queued i + 1) (it_runs i))
  end.

(** [Queue::enqueue] with an [Arc]: [into_raw] gives up the handle, [from_raw] takes it back.
    An item whose [work_struct] was never set up has no callback. *)
Definition queue_enqueue (q : Queue) (i : Item) : res Error bool * Item :=
  if negb (it_init i) then (Ub, i)
  else
    let '(queued, i') := queue_work_on q (add_handles (-1) i) in
    if queued then (Ok true, i') else (Ok false, add_handles 1 i').

(** A worker takes the item: it is no longer pending, and [run] owns the [Arc]. *)
Definition item_run (i : Item) : Item :=
  mkItem (it_refs i) (it_init i) None (it_handles i) true (it_queued i) (it_runs i + 1).
(** [T::run] returns the worker; its [Arc] goes to whoever [run] gave it, here a handle. *)
Definition work_done (i : Item) : Item :=
  mkItem (it_refs i) (it_init i) (it_pending i) (it_handles i + 1) false (it_queued i) (it_runs i).

(** Dropping an [Arc]; [None] frees the item. *)
Definition item_drop (i : Item) : option Item :=
  if it_refs i =? 1 then None
  else Some (mkItem (it_refs i - 1) (it_init i) (it_pending i) (it_handles i - 1) (it_busy i) (it_queued i) (it_runs i)).
Definition item_clone (i : Item) : Item :=
  mkItem (it_refs i + 1) (it_init i) (it_pending i) (it_handles i + 1) (it_busy i) (it_queued i) (it_runs i).

(** ** Interleaving *)
Inductive wq_event : Type :=
| WNew (id : nat)                  (** allocate and set up *)
| WClone (id : nat)
| WDrop (id : nat)
| WEnqueue (id : nat) (q : Queue)
| WRun (id : nat)                  (** a worker starts [run] *)
| WDone (id : nat)                 (** [run] returns, dropping its [Arc] *)
| WAgain (id : nat) (q : Queue).   (** [run] returns after it has enqueued its [Arc] again *)

Definition put (id : nat) (i : option Item) (s : gmap nat Item) : gmap nat Item :=
  match i with Some i => <[id := i]> s | None => delete id s end.

Definition wq_step (s : gmap nat Item) (e : wq_event) : option (gmap nat Item) :=
  match e with
  | WNew id =>
      match s !! id with
      | None => Some (<[id := work_init unique_uninit]> s)
      | Some _ => None
      end
  | WClone id =>
      match s !! id with
      | Some i => if 0 <? it_handles i then Some (<[id := item_clone i]> s) else None
      | None => None
      end
  | WDrop id =>
      match s !! id with
      | Some i => if 0 <? it_handles i then Some (put id (item_drop i) s) else None
      | None => None
      end
  | WEnqueue id q =>
      match s !! id with
      | Some i => if 0 <? it_handles i then Some (<[id := snd (queue_enqueue q i)]> s) else None
      | None => None
      end
  | WRun id =>
      match s !! id with
      | Some i => if bool_decide (is_Some (it_pending i)) && negb (it_busy i) then Some (<[id := item_run i]> s) else None
      | None => None
      end
  | WDone id =>
      match s !! id with
      | Some i => if it_busy i then Some (put id (item_drop (work_done i)) s) else None
      | None => None
      end
  | WAgain id q =>
      match s !! id with
      | Some i =>
          if it_busy i then
            match queue_enqueue q (work_done i) with
            | (Ok true, i') => Some (<[id := i']> s)
            | (_, i') => Some (put id (item_drop i') s)
            end
          else None
      | None => None
      end
  end.

(** ** samples/workqueue_test *)
Section Sample.
Context `{KE : KernelErrno}.

(** [MyWork::new], when the allocation is granted or not. *)
Definition mywork_new (granted : bool) : res Error Item :=
  if granted then Ok (work_init unique_uninit) else Err ENOMEM.
(** The module's [init]; what is left of the item is the kernel's. *)
Definition wq_test_init (granted : bool) : res Error unit * option Item :=
  match mywork_new granted with
  | Ok item =>
      match queue_enqueue system item with
      | (Ok true, item') => (Ok tt, Some item')
      | (Ok false, item') => (Err EBUSY, item_drop item')
      | (Err e, item') => (Err e, Some item')
      | (Panic, item') => (Panic, Some item')
      | (Ub, item') => (Ub, Some item')
      | (Pending, item') => (Pending, Some item')
      end
  | Err e => (Err e, None)
  | Panic => (Panic, None)
  | Ub => (Ub, None)
  | Pending => (Pending, None)
  end.
(** [exit] only logs. *)
Definition wq_test_exit (item : option Item) : option Item := item.
End Sample.

(** ** References and runs *)
Definition waiting (i : Item) : Z := match it_pending i with Some _ => 1 | None => 0 end.
Record item_inv (i : Item) : Prop := {
  ii_refs : it_refs i = it_handles i + waiting i + Z.b2z (it_busy i);
  ii_live : 0 < it_refs i;
  ii_handles : 0 <= it_handles i;
  ii_init : it_init i = true;
  ii_runs : it_queued i = it_runs i + waiting i
}.

Lemma new_item_inv : item_inv (work_init unique_uninit).
Proof. by split. Qed.
Lemma item_clone_inv i : item_inv i -> item_inv (item_clone i).
Proof. intros []. split; cbn in *; unfold waiting in *; cbn in *; try done; lia. Qed.
Lemma item_drop_inv i i' : item_inv i -> 0 < it_handles i -> item_drop i = Some i' -> item_inv i'.
Proof.
  intros [] Hh. unfold item_drop. destruct (it_refs i =? 1) eqn:E; [done|]. intros [= <-].
  split; cbn in *; unfold waiting in *; cbn in *; try done; blia.
Qed.
Lemma enqueue_cases q i : it_init i = true ->
  (it_pending i = None /\ queue_enqueue q i = (Ok true, mkItem (it_refs i) true (Some q) (it_handles i - 1) (it_busy i) (it_queued i + 1) (it_runs i))) \/
  (is_Some (it_pending i) /\ queue_enqueue q i = (Ok false, i)).
Proof.
  intros Hi. unfold queue_enqueue, queue_work_on. rewrite Hi. destruct i as [r t [p|] h b qd rn]; cbn in *; subst; [right|by left].
  split; [by eexists|]. unfold add_handles. cbn. do 2 f_equal. lia.
Qed.
Lemma item_enqueue_inv q i : item_inv i -> 0 < it_handles i -> item_inv (snd (queue_enqueue q i)).
Proof.
  intros HI Hh. destruct (enqueue_cases q i (ii_init i HI)) as [[Hp ->]|[_ ->]]; [|done].
  destruct HI. unfold waiting in *. rewrite Hp in *. split; cbn; unfold waiting; cbn; try done; lia.
Qed.
Lemma run_inv i : item_inv i -> is_Some (it_pending i) -> it_busy i = false -> item_inv (item_run i).
Proof.
  intros [] [q Hp] Hb. unfold waiting in *. rewrite Hp, Hb in *. split; cbn in *; unfold waiting; cbn in *; try done; lia.
Qed.
Lemma done_inv i : item_inv i -> it_busy i = true -> item_inv (work_done i) /\ 0 < it_handles (work_done i).
Proof. intros [] Hb. rewrite Hb in *. split; [split|]; cbn in *; unfold waiting in *; cbn in *; try done; lia. Qed.

Create HintDb work.
#[export] Hint Resolve new_item_inv item_clone_inv item_enqueue_inv run_inv : work.

Lemma put_inv id i s : (forall i', i = Some i' -> item_inv i') -> map_Forall (fun _ => item_inv) s -> map_Forall (fun _ => item_inv) (put id i s).
Proof. intros Hi Hs. destruct i as [i|]; cbn; [apply map_Forall_insert_2; auto with work|by apply map_Forall_delete]. Qed.

Lemma wq_step_inv s e s' : map_Forall (fun _ => item_inv) s -> wq_step s e = Some s' -> map_Forall (fun _ => item_inv) s'.
Proof.
  intros HF. destruct e as [id|id|id|id q|id|id|id q]; cbn [wq_step]; destruct (s !! id) as [i|] eqn:Hi; try done;
    try (pose proof (HF id i Hi) as HI; cbn in HI).
  - intros [= <-]. apply map_Forall_insert_2; auto with work.
  - destruct (0 <? _); [|done]. intros [= <-]. apply map_Forall_insert_2; auto with work.
  - destruct (0 <? _) eqn:E; [|done]. intros [= <-]. apply put_inv; [|done]. intros i' He. eapply item_drop_inv; [exact HI|blia|done].
  - destruct (0 <? _) eqn:E; [|done]. intros [= <-]. apply map_Forall_insert_2; [|done]. apply item_enqueue_inv; [done|blia].
  - case_bool_decide as Hp; [|done]. destruct (it_busy i) eqn:Eb; [done|]. intros [= <-]. apply map_Forall_insert_2; auto with work.
  - destruct (it_busy i) eqn:Eb; [|done]. intros [= <-]. destruct (done_inv i HI Eb) as [HI' Hh].
    apply put_inv; [|done]. intros i' He. by eapply item_drop_inv.
  - destruct (it_busy i) eqn:Eb; [|done]. destruct (done_inv i HI Eb) as [HI' Hh].
    pose proof (item_enqueue_inv q _ HI' Hh) as HE.
    destruct (enqueue_cases q _ (ii_init _ HI')) as [[_ Hq]|[_ Hq]]; rewrite Hq in *; intros [= <-].
    + apply map_Forall_insert_2; auto with work.
    + apply put_inv; [|done]. intros i' He. by eapply item_drop_inv.
Qed.

(** In every interleaving of code, queues and workers an item is alive while a handle exists,
    while it is pending and while it runs, its count is exactly these references, and it
    has been run once for every time it was accepted, but for the time it is still
    pending. *)
Theorem work_items_accounted (es : list wq_event) (s : gmap nat Item) :
  exec wq_step ∅ es = Some s ->
  map_Forall (fun _ i => it_refs i = it_handles i + waiting i + Z.b2z (it_busy i) /\ 0 < it_refs i /\
                         it_queued i = it_runs i + waiting i) s.
Proof.
  intros He. pose proof (exec_invariant wq_step (map_Forall (fun _ => item_inv)) wq_step_inv es ∅ s (map_Forall_empty _) He) as HF.
  intros id i Hi. destruct (HF id i Hi). done.
Qed.

(** A pending item whose last handle is gone is run by the next free worker and then freed. *)
Lemma pending_runs_and_frees s id i : item_inv i -> s !! id = Some i -> is_Some (it_pending i) -> it_busy i = false -> it_handles i = 0 ->
  exists s', exec wq_step s [WRun id; WDone id] = Some s' /\ s' !! id = None /\ forall j, j <> id -> s' !! j = s !! j.
Proof.
  intros HI Hi Hp Hb Hh. cbn [exec wq_step]. rewrite Hi, bool_decide_true, Hb by done. cbn [andb negb].
  rewrite lookup_insert_eq. cbn [item_run it_busy]. eexists. split; [reflexivity|].
  assert (it_refs i = 1) as Hr. { destruct HI as [Hr _ _ _ _]. destruct Hp as [q Hq]. unfold waiting in Hr. rewrite Hq, Hb, Hh in Hr. done. }
  unfold item_drop. cbn [work_done item_run it_refs]. rewrite Hr. cbn [Z.eqb Pos.eqb put].
  split; [apply lookup_delete_eq|]. intros j Hj. by rewrite lookup_delete_ne, lookup_insert_ne.
Qed.

(** The sample: loading it queues one item that only the kernel refers to.  Unloading does not
    wait for it: the item may still be pending when the module's code goes away. *)
Theorem workqueue_test_exit_leaves_work `{KE : KernelErrno} :
  wq_test_init false = (Err ENOMEM, None) /\
  exists i, wq_test_init true = (Ok tt, Some i) /\ item_inv i /\ it_handles i = 0 /\
    wq_test_exit (Some i) = Some i /\ it_pending i = Some system.
Proof. split; [done|]. eexists. split; [reflexivity|]. split; [by split|done]. Qed.

Lemma work_items_accounted_witness :
  match exec wq_step ∅ [WNew 0; WClone 0; WEnqueue 0 system; WEnqueue 0 system_long; WRun 0; WAgain 0 system; WDrop 0] with
  | Some s => map_Forall (fun _ i => it_refs i = it_handles i + waiting i + Z.b2z (it_busy i) /\ 0 < it_refs i /\
                                     it_queued i = it_runs i + waiting i) s
  | None => False
  end.
Proof.
  destruct (exec wq_step ∅ _) as [s|] eqn:E.
  - by apply (work_items_accounted [WNew 0; WClone 0; WEnqueue 0 system; WEnqueue 0 system_long; WRun 0; WAgain 0 system; WDrop 0] s).
  - assert (is_Some (exec wq_step ∅ [WNew 0; WClone 0; WEnqueue 0 system; WEnqueue 0 system_long; WRun 0; WAgain 0 system; WDrop 0])) as [s Hs]
      by (vm_compute; eauto). congruence.
Defined.
