(* ===== verification/Mount.v ===== *)
(** * From mount to unmount (rko-core/src/fs/vtable.rs, registration.rs)

    The kernel finds the filesystem type of a [Registration], asks it for a context, and
    calls [get_tree], which sets up a superblock of the filesystem's kind with
    [fill_super_callback] ([Vfs]); a superblock goes away through [kill_sb_callback].  The
    kernel's part is the interface [MountKernel], which counts the anonymous devices and the
    block devices that superblocks hold. *)
From Stdlib Require Import ZArith Lia Bool.
From stdpp Require Import base list option numbers gmap.
From S2P Require Import Prelude Errors KVec LeBytes Mapper Vfs.

(** [sb::Type]. *)
Inductive SuperType : Type := Independent | BlockDev.

(** ** Contexts

    A [Registration] is [repr(C)] with [fs_type] first; [ctx_ops_off] is where [ctx_ops] is. *)
Record fs_context : Type := mkFc { fc_fs_type : Z; fc_ops : Z }.
Definition fs_type_off : Z := 0.
Definition registration_of (fs_type : Z) : Z := wrap 64 (fs_type - fs_type_off).
Definition init_fs_context_trampoline (ctx_ops_off : Z) (fc : fs_context) : Z * fs_context :=
  (0, mkFc (fc_fs_type fc) (wrap 64 (registration_of (fc_fs_type fc) + ctx_ops_off))).

(** The registered callback points the context at the table inside the registration whose
    type the kernel found. *)
Lemma init_fs_context_finds reg ops_off fc : 0 <= reg -> reg + ops_off < 2 ^ 64 -> 0 <= ops_off -> fc_fs_type fc = reg + fs_type_off ->
  init_fs_context_trampoline ops_off fc = (0, mkFc (reg + fs_type_off) (reg + ops_off)).
Proof.
  intros Hr Ho Hp Ht. unfold init_fs_context_trampoline, registration_of. rewrite Ht. replace (reg + fs_type_off - fs_type_off) with reg by lia.
  by rewrite (wrap_small 64 reg), wrap_small by lia.
Qed.

(** ** Superblocks *)
Section Mounts.
Context `{KE : KernelErrno, KP : KernelErrPtr, BC : BlockCache, VA : VecAlloc}.
Context {D S : Type} `{VK : VfsKernel D} {FS : FileSystem D S}.
Implicit Types w : World (VW D S).

(** The kernel's set-up of a superblock of each kind, which may fail with an errno, and its
    shut-down, which evicts the inodes. *)
Class MountKernel := {
  setup_nodev : vst -> Z * vst;
  setup_bdev : vst -> Z * vst;
  kill_anon_super : gmap Z (KInode D) * vst -> gmap Z (KInode D) * vst;
  kill_block_super : gmap Z (KInode D) * vst -> gmap Z (KInode D) * vst;
  anon_devs : vst -> Z;
  block_devs : vst -> Z
}.
Definition devs `{MountKernel} (w : World (VW D S)) : Z * Z := (anon_devs (v_kern (w_ext w)), block_devs (v_kern (w_ext w))).

Class MountKernelOk (MK : MountKernel) : Prop := {
  setup_nodev_spec k r k' : setup_nodev k = (r, k') ->
    block_devs k' = block_devs k /\ anon_devs k' = anon_devs k + (if r =? 0 then 1 else 0) /\ r <= 0;
  setup_bdev_spec k r k' : setup_bdev k = (r, k') ->
    anon_devs k' = anon_devs k /\ block_devs k' = block_devs k + (if r =? 0 then 1 else 0) /\ r <= 0;
  kill_anon_spec s k s' k' : kill_anon_super (s, k) = (s', k') -> block_devs k' = block_devs k /\ anon_devs k' = anon_devs k - 1;
  kill_block_spec s k s' k' : kill_block_super (s, k) = (s', k') -> anon_devs k' = anon_devs k /\ block_devs k' = block_devs k - 1
}.

(** A filesystem's mount code opens and closes no devices. *)
Class FsDevsPreserved `{MountKernel} : Prop := {
  fill_super_devs w : devs (fs_fill_super w).2 = devs w;
  init_root_devs w : devs (fs_init_root w).2 = devs w
}.

Context {MK : MountKernel} (SUPER_TYPE : SuperType).

(** [kill_sb_callback] with the shut-down of the filesystem's kind. *)
Definition kill_sb : FM (D := D) (S := S) (option S) :=
  kill_sb_callback (match SUPER_TYPE with Independent => kill_anon_super | BlockDev => kill_block_super end).

(** [get_tree_nodev] and [get_tree_bdev]: a superblock that [fill] refuses is shut down
    through the type's [kill_sb]. *)
Definition get_tree (setup : vst -> Z * vst) (fill : FM (D := D) (S := S) Z) : FM (D := D) (S := S) Z :=
  r <-! on_vst setup ;;
  if negb (r =? 0) then m_ret r
  else
    e <-! fill ;;
    if e =? 0 then m_ret 0 else _ <-! kill_sb ;; m_ret e.

(** [get_tree_callback]. *)
Definition get_tree_callback : FM (D := D) (S := S) Z :=
  match SUPER_TYPE with
  | Independent => get_tree setup_nodev fill_super_callback
  | BlockDev => get_tree setup_bdev fill_super_callback
  end.

Context {MKO : MountKernelOk MK} {FD : FsDevsPreserved}.

(** One device more, of the filesystem's kind. *)
Definition one_dev (d : Z * Z) : Z * Z :=
  match SUPER_TYPE with Independent => (fst d + 1, snd d) | BlockDev => (fst d, snd d + 1) end.
Definition one_dev_less (d : Z * Z) : Z * Z :=
  match SUPER_TYPE with Independent => (fst d - 1, snd d) | BlockDev => (fst d, snd d - 1) end.
Lemma one_dev_less_one d : one_dev_less (one_dev d) = d.
Proof. unfold one_dev, one_dev_less. destruct d, SUPER_TYPE; cbn; f_equal; lia. Qed.

Lemma kill_sb_devs w : exists o w', kill_sb w = (Ok o, w') /\ devs w' = one_dev_less (devs w).
Proof.
  unfold kill_sb. set (kill := match SUPER_TYPE with Independent => _ | BlockDev => _ end).
  unfold kill_sb_callback, m_bind, on_kern_. destruct (kill (v_inodes (w_ext w), v_kern (w_ext w))) as [s k] eqn:E.
  erewrite on_kern_eq; [|by rewrite E]. cbn.
  assert ((anon_devs k, block_devs k) = one_dev_less (devs w)) as Hd.
  { unfold one_dev_less, devs. unfold kill in E. destruct SUPER_TYPE; cbn [fst snd].
    - destruct (kill_anon_spec _ _ _ _ E). by f_equal.
    - destruct (kill_block_spec _ _ _ _ E). by f_equal. }
  destruct (s_fs_info (v_sb (w_ext w))); cbn; eexists _, _; (split; [reflexivity|]); exact Hd.
Qed.

Lemma fill_super_callback_devs w : devs (fill_super_callback w).2 = devs w.
Proof.
  unfold fill_super_callback, m_bind at 1. destruct (set_ops_tables w) as [[?|?| | |] w0] eqn:E0; injection E0 as _ <-.
  all: match goal with |- context [errno_of _ _ ?w0] => set (w1 := w0) | _ => idtac end; try done.
  change (devs w) with (devs w1). unfold errno_of at 1. pose proof (fill_super_devs w1) as Hf.
  destruct (fs_fill_super w1) as [[d|e| | |] w2]; cbn [snd] in *; try done.
  unfold m_bind at 1. destruct (set_fs_info (Some d) w2) as [o w3] eqn:E3. assert (o = Ok tt /\ devs w3 = devs w2) as [-> H3] by (by injection E3 as <- <-).
  unfold errno_of. pose proof (init_root_devs w3) as Hi. destruct (fs_init_root w3) as [[r|e| | |] w4]; cbn [snd] in Hi; (transitivity (devs w4); [reflexivity|congruence]).
Qed.

(** Mounting and unmounting balance, for both kinds of filesystems: a mount that succeeds
    holds one device of its kind, which unmounting gives back; a mount that fails, in the
    kernel or in the filesystem, holds nothing; and a block device is never shut down as an
    anonymous one. *)
Theorem mount_balanced w r w1 : get_tree_callback w = (Ok r, w1) ->
  (r = 0 -> devs w1 = one_dev (devs w) /\ exists o w2, kill_sb w1 = (Ok o, w2) /\ devs w2 = devs w) /\
  (r <> 0 -> devs w1 = devs w).
Proof.
  assert (forall setup, (forall k r k', setup k = (r, k') ->
      (anon_devs k', block_devs k') = (if r =? 0 then one_dev (anon_devs k, block_devs k) else (anon_devs k, block_devs k))) ->
    get_tree setup fill_super_callback w = (Ok r, w1) ->
    (r = 0 -> devs w1 = one_dev (devs w)) /\ (r <> 0 -> devs w1 = devs w)) as Hg.
  { intros setup Hs. unfold get_tree, m_bind at 1, on_vst. destruct (setup (v_kern (w_ext w))) as [r0 k] eqn:E.
    erewrite on_kern_eq; [|by rewrite E]. specialize (Hs _ _ _ E). set (w0 := mkWorld _ _ _).
    assert (devs w0 = if r0 =? 0 then one_dev (devs w) else devs w) as H0 by exact Hs.
    destruct (r0 =? 0) eqn:E0; cbn [negb]; [|intros [= <- <-]; split; [blia|done]].
    unfold m_bind at 1. pose proof (fill_super_callback_devs w0) as Hf. destruct (fill_super_callback w0) as [[e|e| | |] w2]; cbn [snd] in Hf; try done.
    destruct (e =? 0) eqn:Ee; [intros [= <- <-]; split; [congruence|done]|].
    unfold m_bind at 1. destruct (kill_sb_devs w2) as (o & w3 & -> & H3). intros [= <- <-]. split; [blia|].
    intros _. rewrite H3, Hf, H0. apply one_dev_less_one. }
  intros He. assert ((r = 0 -> devs w1 = one_dev (devs w)) /\ (r <> 0 -> devs w1 = devs w)) as [H1 H2].
  { unfold get_tree_callback in He. destruct SUPER_TYPE eqn:Et; apply (Hg _) in He; try done; intros k r0 k' Hk; unfold one_dev; rewrite Et; cbn [fst snd].
    - destruct (setup_nodev_spec _ _ _ Hk) as (-> & -> & _). destruct (r0 =? 0); [done|]. by rewrite Z.add_0_r.
    - destruct (setup_bdev_spec _ _ _ Hk) as (-> & -> & _). destruct (r0 =? 0); [done|]. by rewrite Z.add_0_r. }
  split; [|done]. intros ->. split; [by apply H1|]. destruct (kill_sb_devs w1) as (o & w2 & Hk & Hd). exists o, w2. split; [done|].
  by rewrite Hd, H1, one_dev_less_one.
Qed.
End Mounts.
