(* ===== verification/Macros.v ===== *)
(** * The procedural macros (rko-macros/src) and the test runtime (rko-core/src/kunit.rs)

    [#[vtable]], [#[derive(FromBytes)]] and [#[rko_tests]] as functions on the items they are
    applied to, as far as they look at them; the rest of an item is carried along.  What the
    generated code then does is given a meaning: which [HAS_...] constant a type ends up
    with, what the runner of a test module reports, and what KUnit is told. *)
From Stdlib Require Import ZArith Lia Bool.
From Stdlib.Strings Require Import Ascii String.
From stdpp Require Import base list option numbers strings pretty.
From S2P Require Import Prelude Errors.

(** ** [#[vtable]] *)

(** [str::to_uppercase] on identifiers, which are ASCII in this code. *)
Definition upper_ascii (c : ascii) : ascii :=
  let n := Ascii.nat_of_ascii c in
  if ((97 <=? n) && (n <=? 122))%nat then Ascii.ascii_of_nat (n - 32) else c.
Fixpoint to_uppercase (s : string) : string :=
  match s with
  | EmptyString => EmptyString
  | String c s' => String (upper_ascii c) (to_uppercase s')
  end.
Definition has_const_name (method : string) : string := String.append "HAS_" (to_uppercase method).

(** Items of a trait, and of an impl block; [R] is the rest of the syntax. *)
Inductive TraitItem (R : Type) : Type :=
| TFn (name : string) (default : bool) (r : R)
| TConst (name : string) (value : bool)
| TOther (r : R).
Arguments TFn {R} name default r.
Arguments TConst {R} name value.
Arguments TOther {R} r.
Inductive ImplItem (R : Type) : Type :=
| IFn (name : string) (r : R)
| IConst (name : string) (value : bool)
| IOther (r : R).
Arguments IFn {R} name r.
Arguments IConst {R} name value.
Arguments IOther {R} r.
Inductive Item (R : Type) : Type :=
| ItemTrait (items : list (TraitItem R))
| ItemImpl (items : list (ImplItem R))
| ItemElse (r : R).
Arguments ItemTrait {R} items.
Arguments ItemImpl {R} items.
Arguments ItemElse {R} r.

(** The constants that are pushed behind a trait's items: [true] for required methods. *)
Definition trait_const {R} (i : TraitItem R) : option (TraitItem R) :=
  match i with TFn name default _ => Some (TConst (has_const_name name) (negb default)) | _ => None end.
Definition impl_const {R} (i : ImplItem R) : option (ImplItem R) :=
  match i with IFn name _ => Some (IConst (has_const_name name) true) | _ => None end.

(** [vtable]; anything else is a compile error. *)
Definition vtable {R} (i : Item R) : option (Item R) :=
  match i with
  | ItemTrait items => Some (ItemTrait (items ++ omap trait_const items))
  | ItemImpl items => Some (ItemImpl (items ++ omap impl_const items))
  | ItemElse _ => None
  end.

(** The value of an associated constant: the impl's, or else the trait's default. *)
Definition trait_value {R} (c : string) (items : list (TraitItem R)) : option bool :=
  head (omap (fun i => match i with TConst n v => if bool_decide (n = c) then Some v else None | _ => None end) items).
Definition impl_value {R} (c : string) (items : list (ImplItem R)) : option bool :=
  head (omap (fun i => match i with IConst n v => if bool_decide (n = c) then Some v else None | _ => None end) items).
Definition assoc_const {R} (c : string) (tr : list (TraitItem R)) (im : list (ImplItem R)) : option bool :=
  match impl_value c im with Some v => Some v | None => trait_value c tr end.

Definition trait_methods {R} (items : list (TraitItem R)) : list (string * bool) :=
  omap (fun i => match i with TFn n d _ => Some (n, d) | _ => None end) items.
Definition impl_methods {R} (items : list (ImplItem R)) : list string :=
  omap (fun i => match i with IFn n _ => Some n | _ => None end) items.

(** A trait and an impl as they are written: no constants of the macro's names, no two
    methods that differ only in case, and the impl has the required methods and only
    methods of the trait. *)
Record vtable_source {R} (tr : list (TraitItem R)) (im : list (ImplItem R)) : Prop := {
  vs_tr_plain : forall m, trait_value (has_const_name m) tr = None;
  vs_im_plain : forall m, impl_value (has_const_name m) im = None;
  vs_nodup : NoDup (has_const_name <$> (fst <$> trait_methods tr));
  vs_required : forall m, (m, false) ∈ trait_methods tr -> m ∈ impl_methods im;
  vs_members : forall m, m ∈ impl_methods im -> m ∈ fst <$> trait_methods tr
}.

(** ** [#[derive(FromBytes)]] *)

(** An attribute: its path, and its arguments as identifiers. *)
Record Attr : Type := mkAttr { at_path : string; at_args : list string }.
Inductive DataKind : Type := KStruct | KEnum | KUnion.
Record DeriveInput : Type := mkDerive { di_ident : string; di_attrs : list Attr; di_data : DataKind }.

(** [attr.parse_args::<Ident>()] accepts exactly one identifier. *)
Definition is_repr_c (a : Attr) : bool :=
  bool_decide (at_path a = "repr"%string) &&
  match at_args a with [i] => bool_decide (i = "C"%string) | _ => false end.
(** The type that gets an [unsafe impl FromBytes], or a compile error. *)
Definition derive_from_bytes (input : DeriveInput) : option string :=
  if existsb is_repr_c (di_attrs input) then Some (di_ident input) else None.

(** ** [#[rko_tests]] *)
Section Tests.
Context `{KE : KernelErrno} {St : Type}.

(** The body of a test: assertions, and everything else it does. *)
Inductive stmt : Type :=
| SAssert (text : string) (cond : St -> bool)
| SAssertEq (left right : string) (eq : St -> bool)
| SAssertNe (left right : string) (eq : St -> bool)
| SDo (f : St -> St)
| SFail (e : Error).

Inductive ret_type : Type := RetDefault | RetResult.

(** A function of the module; [tf_ok] is the [Ok(())] appended to its block. *)
Record TestFn : Type := mkFn { tf_attrs : list string; tf_name : string; tf_ret : ret_type; tf_block : list stmt; tf_ok : bool }.
Inductive TItem : Type := TiFn (f : TestFn) | TiOther (text : string).

(** The state the tests work on, and the lines of the kernel log (without the file and
    line that follow the text of a failed assertion). *)
Definition LW : Type := St * list string.

(** The shadowed assertions print and return [EINVAL]. *)
Definition log_line (s : string) (w : LW) : LW := (fst w, snd w ++ [s]).
Definition fail_line (text : string) : string := String.append "  FAIL: " text.
Definition run_stmt (s : stmt) : M LW Error unit := fun w =>
  match s with
  | SAssert text cond => if negb (cond (fst w)) then (Err EINVAL, log_line (fail_line text) w) else (Ok tt, w)
  | SAssertEq l r eq =>
      if negb (eq (fst w)) then (Err EINVAL, log_line (fail_line (String.append l (String.append " == " r))) w) else (Ok tt, w)
  | SAssertNe l r eq =>
      if eq (fst w) then (Err EINVAL, log_line (fail_line (String.append l (String.append " != " r))) w) else (Ok tt, w)
  | SDo f => (Ok tt, (f (fst w), snd w))
  | SFail e => (Err e, w)
  end.
Fixpoint run_block (b : list stmt) : M LW Error unit :=
  match b with
  | [] => m_ret tt
  | s :: b' => _ <-! run_stmt s ;; run_block b'
  end.
Definition call_test (f : TestFn) : M LW Error unit := run_block (tf_block f).

(** The transformation of one item: attributes, and the return type of unit functions. *)
Definition is_test (attr : string) : bool := bool_decide (attr = "test"%string).
Definition process (i : TItem) : TItem * option TestFn :=
  match i with
  | TiOther t => (TiOther t, None)
  | TiFn f =>
      let attrs := List.filter (fun a => negb (is_test a)) (tf_attrs f) in
      if Nat.eqb (length attrs) (length (tf_attrs f)) then (TiFn f, None)
      else
        let f' := match tf_ret f with
                  | RetDefault => mkFn attrs (tf_name f) RetResult (tf_block f) true
                  | RetResult => mkFn attrs (tf_name f) RetResult (tf_block f) (tf_ok f)
                  end in
        (TiFn f', Some f')
  end.

(** A [kunit_case]: its name and what it runs; the last one is zeroed. *)
Record kunit_case : Type := mkCase { kc_name : string; kc_run : option TestFn }.
Definition new_kunit_case (name : string) (run : TestFn) : kunit_case := mkCase name (Some run).
Definition kunit_case_null : kunit_case := mkCase EmptyString None.

Record Suite : Type := mkSuite {
  su_name : string; su_items : list TItem; su_tests : list TestFn; su_cases : list kunit_case }.

(** [rko_tests]: inline modules only; the three assertion macros come first. *)
Definition shadows : list TItem := [TiOther "assert"; TiOther "assert_eq"; TiOther "assert_ne"]%string.
Definition rko_tests (name : string) (content : option (list TItem)) : option Suite :=
  match content with
  | None => None
  | Some items =>
      let processed := process <$> items in
      let tests := omap snd processed in
      Some (mkSuite name (shadows ++ (fst <$> processed)) tests
              (((fun f => new_kunit_case (tf_name f) f) <$> tests) ++ [kunit_case_null]))
  end.

(** The generated [run]: the counters are [u32]. *)
Definition pass_line (f : TestFn) : string := String.append "  PASS: " (tf_name f).
Fixpoint run_tests (tests : list TestFn) (pass fail : Z) : M LW Error (Z * Z) :=
  match tests with
  | [] => m_ret (pass, fail)
  | f :: tests' => fun w =>
      match call_test f w with
      | (Ok _, w') => run_tests tests' (wrap 32 (pass + 1)) fail (log_line (pass_line f) w')
      | (Err _, w') => run_tests tests' pass (wrap 32 (fail + 1)) w'
      | (Panic, w') => (Panic, w')
      | (Ub, w') => (Ub, w')
      | (Pending, w') => (Pending, w')
      end
  end.
Definition log (s : string) : M LW Error unit := fun w => (Ok tt, log_line s w).
Definition cat (l : list string) : string := foldr String.append EmptyString l.
Definition header_line (name : string) (n : nat) : string := cat ["---- "; name; " ("; pretty n; " tests) ----"]%string.
Definition summary_line (name : string) (pass fail : Z) : string :=
  cat ["---- "; name; ": "; pretty pass; " passed, "; pretty fail; " failed ----"]%string.
Definition suite_run (s : Suite) : M LW Error unit :=
  _ <-! log (header_line (su_name s) (length (su_tests s))) ;;
  counts <-! run_tests (su_tests s) 0 0 ;;
  _ <-! log (summary_line (su_name s) (fst counts) (snd counts)) ;;
  if 0 <? snd counts then m_err EINVAL else m_ret tt.

(** The generated wrapper of one case, called with KUnit's test: did it mark the test as
    failed? *)
Definition kunit_wrapper (f : TestFn) : LW -> bool * LW := fun w =>
  let '(r, w') := call_test f w in (match r with Err _ => true | _ => false end, w').
(** KUnit runs the cases of a suite up to the zeroed one and keeps a verdict for each. *)
Fixpoint kunit_run (cases : list kunit_case) (w : LW) : list (string * bool) * LW :=
  match cases with
  | [] => ([], w)
  | c :: cases' =>
      match kc_run c with
      | None => ([], w)
      | Some f =>
          let '(failed, w1) := kunit_wrapper f w in
          let '(rest, w2) := kunit_run cases' w1 in
          ((kc_name c, failed) :: rest, w2)
      end
  end.

(** [kunit_tests.rs]: the suites one after the other, up to the first that fails. *)
Fixpoint suites_run (ss : list Suite) : M LW Error unit :=
  match ss with
  | [] => m_ret tt
  | s :: ss' => _ <-! suite_run s ;; suites_run ss'
  end.
End Tests.

(** [TestResult]. *)
Definition is_test_result_ok {A E} (r : A + E) : bool := match r with inl _ => true | inr _ => false end.

(** [kunit_unsafe_test_suite!]: the 256-byte name, and a compile error for longer ones. *)
Definition suite_name (src : list Byte.byte) : option (list Byte.byte) :=
  if 255 <? lenZ src then None else Some (src ++ replicate (256 - length src) Byte.x00).

(** ** [HAS_...] constants say what a type implements *)
Lemma impl_value_consts {R} c (im : list (ImplItem R)) :
  impl_value c (omap impl_const im) = if bool_decide (c ∈ has_const_name <$> impl_methods im) then Some true else None.
Proof.
  induction im as [|[n r|n v|r] im IH]; [done| |done|done]. cbn [omap list_omap impl_const impl_methods].
  unfold impl_value. cbn [omap list_omap]. destruct (bool_decide (has_const_name n = c)) eqn:E.
  - apply bool_decide_eq_true in E. rewrite bool_decide_true; [done|]. rewrite fmap_cons, E. constructor.
  - apply bool_decide_eq_false in E. unfold impl_value in IH. rewrite IH. clear IH. unfold impl_methods.
    rewrite (bool_decide_ext (c ∈ has_const_name <$> n :: _) (c ∈ has_const_name <$> omap (fun i : ImplItem R => match i with IFn n _ => Some n | _ => None end) im)); [done|].
    rewrite fmap_cons, elem_of_cons. naive_solver.
Qed.

Lemma trait_value_consts {R} m d (tr : list (TraitItem R)) :
  NoDup (has_const_name <$> (fst <$> trait_methods tr)) -> (m, d) ∈ trait_methods tr ->
  trait_value (has_const_name m) (omap trait_const tr) = Some (negb d).
Proof.
  induction tr as [|[n d' r|n v|r] tr IH]; intros Hn Hin; [by apply not_elem_of_nil in Hin| |by apply IH|by apply IH].
  cbn [trait_methods omap list_omap] in Hn, Hin. rewrite !fmap_cons in Hn. apply NoDup_cons in Hn as [Hx Hn].
  unfold trait_value. cbn [omap list_omap trait_const]. apply elem_of_cons in Hin as [[= <- <-]|Hin].
  - by rewrite bool_decide_true.
  - rewrite bool_decide_false; [by apply IH|]. intros E. apply Hx. cbn [fst]. rewrite E. apply list_elem_of_fmap_2.
    by apply (list_elem_of_fmap_2 fst _ (m, d)).
Qed.

Lemma impl_value_app {R} c (a b : list (ImplItem R)) : impl_value c a = None -> impl_value c (a ++ b) = impl_value c b.
Proof. unfold impl_value. rewrite omap_app. by destruct (omap _ a). Qed.
Lemma trait_value_app {R} c (a b : list (TraitItem R)) : trait_value c a = None -> trait_value c (a ++ b) = trait_value c b.
Proof. unfold trait_value. rewrite omap_app. by destruct (omap _ a). Qed.

(** The constant of a method of the trait is true exactly when the impl block defines the
    method, so a table built from it never points to a default body. *)
Theorem vtable_has_implemented {R} (tr tr' : list (TraitItem R)) (im im' : list (ImplItem R)) (m : string) :
  vtable_source tr im -> vtable (ItemTrait tr) = Some (ItemTrait tr') -> vtable (ItemImpl im) = Some (ItemImpl im') ->
  m ∈ fst <$> trait_methods tr ->
  assoc_const (has_const_name m) tr' im' = Some (bool_decide (m ∈ impl_methods im)).
Proof.
  intros [Htp Hip Hnd Hreq Hmem] [= <-] [= <-] Hm. unfold assoc_const.
  rewrite impl_value_app, impl_value_consts by apply Hip. rewrite trait_value_app by apply Htp.
  apply list_elem_of_fmap_1 in Hm as ([m' d] & -> & Hin). cbn [fst].
  assert (has_const_name m' ∈ has_const_name <$> impl_methods im <-> m' ∈ impl_methods im) as Hiff.
  { split; [|apply list_elem_of_fmap_2]. intros (n & E & Hn')%list_elem_of_fmap_1.
    pose proof (Hmem n Hn') as Hn. apply list_elem_of_lookup in Hn as [i Hi].
    assert (m' ∈ fst <$> trait_methods tr) as Hm' by by apply (list_elem_of_fmap_2 fst _ (m', d)).
    apply list_elem_of_lookup in Hm' as [j Hj].
    assert (i = j) as <-; [|congruence].
    eapply NoDup_lookup; [exact Hnd| |]; rewrite list_lookup_fmap; [by rewrite Hi|rewrite Hj; cbn; by rewrite E]. }
  destruct (decide (m' ∈ impl_methods im)) as [Hi|Hi].
  - rewrite !bool_decide_true by (done || by apply Hiff). done.
  - rewrite !bool_decide_false by (done || by rewrite Hiff). rewrite (trait_value_consts m' d) by done.
    destruct d; [done|]. by apply Hreq in Hin.
Qed.

(** ** [derive(FromBytes)] asks for a [#[repr(C)]] attribute of its own, and for nothing else: a
    packed layout given in the same attribute is refused, an enum is accepted. *)
Lemma derive_from_bytes_spec input :
  derive_from_bytes input = Some (di_ident input) <-> mkAttr "repr" ["C"%string] ∈ di_attrs input.
Proof.
  unfold derive_from_bytes. destruct (existsb is_repr_c (di_attrs input)) eqn:E.
  - split; [intros _|done]. apply existsb_exists in E as ([p args] & Hin & Hr). apply list_elem_of_In in Hin.
    unfold is_repr_c in Hr. cbn in Hr. apply andb_true_iff in Hr as [Hp Ha]. apply bool_decide_eq_true in Hp as ->.
    destruct args as [|i [|]]; try done. by apply bool_decide_eq_true in Ha as ->.
  - split; [done|]. intros Hin. exfalso. apply not_true_iff_false in E. apply E, existsb_exists.
    exists (mkAttr "repr" ["C"%string]). split; [by apply list_elem_of_In|done].
Qed.
Example derive_accepts_enum :
  derive_from_bytes (mkDerive "E" [mkAttr "repr" ["C"%string]] KEnum) = Some "E"%string /\
  derive_from_bytes (mkDerive "S" [mkAttr "repr" ["C"; "packed"]%string] KStruct) = None.
Proof. done. Qed.

(** ** The two ways to run a test module agree *)
Section TestFacts.
Context `{KE : KernelErrno} {St : Type}.

(** The reference: what each test does in the state its predecessors left. *)
Definition passes (f : TestFn) (st : St) : bool := match fst (call_test f (st, [])) with Ok _ => true | _ => false end.
Definition after (f : TestFn) (st : St) : St := fst (snd (call_test f (st, []))).
Definition printed (f : TestFn) (st : St) : list string := snd (snd (call_test f (st, []))).
Fixpoint verdicts (tests : list TestFn) (st : St) : list (TestFn * bool) :=
  match tests with
  | [] => []
  | f :: tests' => (f, passes f st) :: verdicts tests' (after f st)
  end.

(** A test's behaviour does not depend on the log, to which it only adds, and it returns. *)
Lemma run_block_log (b : list stmt) : forall (st : St) l, exists r st' l', (r = Ok tt \/ exists e, r = Err e) /\
  run_block b (st, l) = (r, (st', l ++ l')) /\ run_block b (st, []) = (r, (st', l')).
Proof.
  induction b as [|s b IH]; intros st l.
  - exists (Ok tt), st, []. rewrite app_nil_r. by auto.
  - cbn [run_block]. unfold m_bind. assert (exists r st1 l1, (r = Ok tt \/ exists e, r = Err e) /\
      run_stmt s (st, l) = (r, (st1, l ++ l1)) /\ run_stmt s (st, []) = (r, (st1, l1))) as (r & st1 & l1 & Hr & -> & ->).
    { destruct s as [t c|x y c|x y c|f|e]; cbn [run_stmt fst]; try (destruct (c st); cbn [negb]); unfold log_line; cbn [fst snd app];
        do 3 eexists; (split; [|split; [|reflexivity]]); try (by left); try (by right; eexists); by rewrite ?app_nil_r. }
    destruct Hr as [->|[e ->]].
    + destruct (IH st1 (l ++ l1)) as (r & st2 & l2 & Hr & -> & H2). destruct (IH st1 l1) as (r' & st2' & l2' & _ & -> & H2').
      rewrite H2 in H2'. injection H2' as <- <- <-. exists r, st2, (l1 ++ l2). by rewrite <- app_assoc.
    + exists (Err e), st1, l1. split; [by right; eexists|done].
Qed.

Lemma call_test_eq f (st : St) l : exists r, (if passes f st then r = Ok tt else exists e, r = Err e) /\
  call_test f (st, l) = (r, (after f st, l ++ printed f st)).
Proof.
  unfold passes, after, printed, call_test. destruct (run_block_log (tf_block f) st l) as (r & st' & l' & Hr & -> & ->).
  exists r. cbn [fst snd]. split; [|done]. destruct Hr as [->|[e ->]]; eauto.
Qed.

Definition count_ok (v : list (TestFn (St := St) * bool)) : Z := lenZ (List.filter snd v).

Lemma run_tests_counts tests : forall p f (st : St) l, 0 <= p -> 0 <= f -> p + f + lenZ tests < 2 ^ 32 ->
  exists st' l', run_tests tests p f (st, l) =
    (Ok (p + count_ok (verdicts tests st), f + (lenZ tests - count_ok (verdicts tests st))), (st', l')).
Proof.
  induction tests as [|t tests IH]; intros p f st l Hp Hf Hn.
  - exists st, l. unfold count_ok, m_ret. cbn. by rewrite !Z.add_0_r.
  - rewrite lenZ_cons in Hn. pose proof (lenZ_nonneg tests). cbn [run_tests verdicts].
    destruct (call_test_eq t st l) as (r & Hr & ->). unfold count_ok. cbn [List.filter snd]. destruct (passes t st).
    + subst r. unfold log_line. cbn [fst snd]. rewrite wrap_small by lia.
      destruct (IH (p + 1) f (after t st) ((l ++ printed t st) ++ [pass_line t]) ltac:(lia) Hf ltac:(lia)) as (st' & l' & ->).
      exists st', l'. unfold count_ok. rewrite !lenZ_cons. do 3 f_equal; lia.
    + destruct Hr as [e ->]. rewrite wrap_small by lia.
      destruct (IH p (f + 1) (after t st) (l ++ printed t st) Hp ltac:(lia) ltac:(lia)) as (st' & l' & ->).
      exists st', l'. unfold count_ok. rewrite lenZ_cons. do 3 f_equal; lia.
Qed.

Lemma verdicts_length tests : forall st : St, length (verdicts tests st) = length tests.
Proof. induction tests as [|t tests IH]; intros st; [done|]. cbn. by rewrite IH. Qed.

Lemma count_ok_all v : count_ok v <= lenZ v /\ (count_ok v = lenZ v <-> Forall (fun x => snd x = true) v).
Proof.
  unfold count_ok. induction v as [|[t b] v [IH1 IH2]]; [by split; [done|]; split|].
  cbn [List.filter snd]. destruct b; rewrite ?lenZ_cons, Forall_cons; cbn [snd]; (split; [lia|]); split.
  - intros E. split; [done|]. apply IH2. lia.
  - intros [_ Hv]. apply IH2 in Hv. lia.
  - lia.
  - by intros [? _].
Qed.

Lemma kunit_run_cases tests : forall (st : St) l,
  fst (kunit_run (((fun f => new_kunit_case (tf_name f) f) <$> tests) ++ [kunit_case_null]) (st, l)) =
  (fun x => (tf_name (fst x), negb (snd x))) <$> verdicts tests st.
Proof.
  induction tests as [|t tests IH]; intros st l; [done|]. rewrite fmap_cons. cbn [app kunit_run kc_run new_kunit_case kc_name verdicts].
  unfold kunit_wrapper. destruct (call_test_eq t st l) as (r & Hr & ->). rewrite fmap_cons. cbn [fst snd].
  specialize (IH (after t st) (l ++ printed t st)). destruct (kunit_run _ _) as [rest w2]. cbn [fst] in *. rewrite IH. f_equal.
  destruct (passes t st); [by rewrite Hr|by destruct Hr as [e ->]].
Qed.

(** The functions that are run are exactly those marked as tests, in the order of the
    module, and everything else stays in place. *)
Lemma rko_tests_tests name items s : rko_tests (St := St) name (Some items) = Some s ->
  (tf_name <$> su_tests s) =
    omap (fun i => match i with TiFn f => if bool_decide ("test"%string ∈ tf_attrs f) then Some (tf_name f) else None | _ => None end) items /\
  length (su_items s) = (3 + length items)%nat.
Proof.
  intros [= <-]. cbn [su_tests su_items]. split; [|cbn; by rewrite !length_fmap].
  induction items as [|[f|t] items IH]; [done| |exact IH]. rewrite fmap_cons. cbn [omap list_omap process].
  assert (Nat.eqb (length (List.filter (fun a => negb (is_test a)) (tf_attrs f))) (length (tf_attrs f)) =
    negb (bool_decide ("test"%string ∈ tf_attrs f))) as ->.
  { clear. induction (tf_attrs f) as [|a l IH]; [done|]. cbn [List.filter].
    destruct (is_test a) eqn:Ea; unfold is_test in Ea; cbn [negb length].
    - apply bool_decide_eq_true in Ea as ->. rewrite bool_decide_true by constructor.
      pose proof (List.filter_length_le (fun a => negb (is_test a)) l). apply Nat.eqb_neq. lia.
    - apply bool_decide_eq_false in Ea. cbn [Nat.eqb]. rewrite IH. f_equal. apply bool_decide_ext. rewrite elem_of_cons. naive_solver. }
  destruct (bool_decide _); cbn [negb snd]; [|exact IH].
  destruct (tf_ret f); cbn [snd fmap list_fmap tf_name]; f_equal; exact IH.
Qed.

(** A test module has one verdict: for fewer than 2^32 tests its runner returns [Ok] exactly
    when every test passed in the state the tests before it left, [EINVAL] otherwise, and
    KUnit, which calls the same functions through the case table, is told the same for each
    test, by name and in order. *)
Theorem test_module_verdict (name : string) (items : list TItem) (s : Suite) (st : St) (l l' : list string) :
  rko_tests name (Some items) = Some s -> lenZ (su_tests s) < 2 ^ 32 ->
  let v := verdicts (su_tests s) st in
  (fst (suite_run s (st, l)) = if bool_decide (Forall (fun x => snd x = true) v) then Ok tt else Err EINVAL) /\
  fst (kunit_run (su_cases s) (st, l')) = (fun x => (tf_name (fst x), negb (snd x))) <$> v /\
  (fst (suite_run s (st, l)) = Ok tt <-> Forall (fun c => snd c = false) (fst (kunit_run (su_cases s) (st, l')))).
Proof.
  intros Hs Hn. cbv zeta. assert (su_cases s = ((fun f => new_kunit_case (tf_name f) f) <$> su_tests s) ++ [kunit_case_null]) as ->
    by (by injection Hs as <-). rewrite kunit_run_cases. set (v := verdicts (su_tests s) st).
  assert (fst (suite_run s (st, l)) = if bool_decide (Forall (fun x => snd x = true) v) then Ok tt else Err EINVAL) as Hrun.
  { unfold suite_run, m_bind, log. destruct (run_tests_counts (su_tests s) 0 0 (fst (log_line (header_line (su_name s) (length (su_tests s))) (st, l)))
      (snd (log_line (header_line (su_name s) (length (su_tests s))) (st, l))) ltac:(lia) ltac:(lia) ltac:(lia)) as (st' & l2 & Hc).
    rewrite <- surjective_pairing in Hc. rewrite Hc. cbn [fst snd log_line]. fold v.
    pose proof (count_ok_all v) as [Hle Hall]. replace (lenZ v) with (lenZ (su_tests s)) in * by (unfold lenZ, v; by rewrite verdicts_length).
    case_bool_decide as Hb.
    - apply Hall in Hb. destruct (0 <? _) eqn:E; [blia|done].
    - destruct (0 <? _) eqn:E; [done|]. exfalso. apply Hb, Hall. blia. }
  split; [done|]. split; [done|]. rewrite Hrun, Forall_fmap. case_bool_decide as Hb.
  - split; [intros _|done]. eapply Forall_impl; [exact Hb|]. intros [t b] Hx. cbn in *. by subst.
  - split; [done|]. intros Hv. exfalso. apply Hb. eapply Forall_impl; [exact Hv|]. intros [t b]. by destruct b.
Qed.

(** The suites of the test module stop at the first one that fails. *)
Lemma suites_run_ok (ss : list (Suite (St := St))) w w' : suites_run ss w = (Ok tt, w') ->
  forall s, s ∈ ss -> exists w1 w2, suite_run s w1 = (Ok tt, w2).
Proof.
  revert w. induction ss as [|x ss IH]; intros w Hr s Hs; [by apply not_elem_of_nil in Hs|]. cbn [suites_run] in Hr. unfold m_bind in Hr.
  destruct (suite_run x w) as [[[]|e| | |] w1] eqn:E; try done. apply elem_of_cons in Hs as [->|Hs]; [by eauto|by eapply IH].
Qed.
End TestFacts.

(** The suite's name in its buffer is NUL-terminated. *)
Lemma suite_name_terminated src b : suite_name src = Some b ->
  length b = 256%nat /\ take (length src) b = src /\ b !! length src = Some Byte.x00.
Proof.
  unfold suite_name. destruct (255 <? lenZ src) eqn:E; [done|]. intros [= <-]. assert (length src <= 255)%nat by (unfold lenZ in E; blia).
  split; [rewrite length_app, length_replicate; lia|]. split; [by rewrite take_app_length|].
  rewrite lookup_app_r by lia. rewrite lookup_replicate_2; [done|lia].
Qed.

(** ** A module with a passing and a failing test *)
Definition toy_items : list (@TItem nat) :=
  [TiOther "use core::mem"%string;
   TiFn (mkFn ["test"%string] "counts" RetDefault [SDo S; SAssertEq "n" "1" (Nat.eqb 1)] false);
   TiFn (mkFn [] "helper" RetDefault [] false);
   TiFn (mkFn ["inline"; "test"]%string "fails" RetDefault [SAssert "n > 1" (fun n => Nat.ltb 1 n); SDo S] false)].
Definition toy_suite : @Suite nat := default (mkSuite EmptyString [] [] []) (rko_tests "toy" (Some toy_items)).

Lemma test_module_verdict_witness :
  let v := @verdicts linux_errno nat (su_tests toy_suite) 0%nat in
  (fst (@suite_run linux_errno nat toy_suite (0%nat, [])) = if bool_decide (Forall (fun x => snd x = true) v) then Ok tt else Err (@EINVAL linux_errno)) /\
  fst (@kunit_run linux_errno nat (su_cases toy_suite) (0%nat, [])) = (fun x => (tf_name (fst x), negb (snd x))) <$> v /\
  (fst (@suite_run linux_errno nat toy_suite (0%nat, [])) = Ok tt <-> Forall (fun c => snd c = false) (fst (@kunit_run linux_errno nat (su_cases toy_suite) (0%nat, [])))).
Proof.
  apply (@test_module_verdict linux_errno nat "toy" toy_items toy_suite 0%nat [] []); [reflexivity|]. vm_compute. reflexivity.
Defined.
Example toy_log : @suite_run linux_errno nat toy_suite (0%nat, []) = (Err (@EINVAL linux_errno), (1%nat,
  ["---- toy (2 tests) ----"; "  PASS: counts"; "  FAIL: n > 1"; "---- toy: 1 passed, 1 failed ----"]%string)).
Proof. vm_compute. reflexivity. Qed.
