(* ===== verification/Echo.v ===== *)
(** * The echo servers (samples/tcp_echo, samples/async_echo)

    Both samples run the same loop on a connection, one over the blocking sockets and one
    over the awaited calls: [echo_client] is written against [ByteStream], which
    [blocking_byte_stream] and [AsyncNet.tcp_byte_stream] implement.  [run] is the work item
    of tcp_echo, [async_accept_loop] the task of async_echo.  [unload] is the hand-over
    between the module's exit and the work item that is still running. *)
From Stdlib Require Import ZArith Lia Bool.
From Stdlib.Strings Require Import Byte String.
From stdpp Require Import base list option numbers.
From S2P Require Import Prelude Errors KVec Stream Net AsyncNet Pool.

Definition BUF_SIZE : Z := 4096.

(** ** One connection *)
Section Client.
Context `{BS : ByteStream}.

(** The loop of [echo_client]; [buf] is its array, which keeps what earlier reads left. *)
Fixpoint echo_loop (fuel : nat) (buf : list byte) : M st Error unit :=
  match fuel with
  | O => m_lift Pending
  | S fuel' => fun s =>
      match st_read (lenZ buf) s with
      | (Ok d, s1) =>
          let buf := d ++ drop (length d) buf in
          let n := lenZ d in
          if n =? 0 then (Ok tt, s1)
          else (data <-! m_lift (slice buf 0 n) ;; fun s1 =>
                match st_write_all data s1 with
                | (Ok _, s2) => echo_loop fuel' buf s2
                | (Err _, s2) => (Ok tt, s2)
                | (r, s2) => (r, s2)
                end) s1
      | (Err _, s1) => (Ok tt, s1)
      | (Panic, s1) => (Panic, s1)
      | (Ub, s1) => (Ub, s1)
      | (Pending, s1) => (Pending, s1)
      end
  end.

(** Each round but the last takes a byte off the connection. *)
Definition echo_client : M st Error unit := fun s =>
  echo_loop (S (length (st_incoming s))) (replicate (Z.to_nat BUF_SIZE) x00) s.
End Client.

(** ** The blocking socket as a stream *)
Definition blocking_byte_stream `{KE : KernelErrno, KN : KernelNet} (so : sock) : ByteStream := {|
  st := knet;
  st_read := tcp_read so;
  st_write_all := tcp_write_all so;
  st_incoming := k_incoming so;
  st_sent := k_sent so |}.

(** ** Accept loops *)
Section Accept.
Context `{KE : KernelErrno, VA : VecAlloc, KW : KernelWait}.

(** [WorkItem::run] of tcp_echo; [stops] are the values the loads of [stop] return.  The
    stream is dropped at the end of its arm. *)
Fixpoint run (stops : list bool) (listener : sock) : M knet Error unit :=
  match stops with
  | [] => m_lift Pending
  | stop :: rest => fun k =>
      if stop then (Ok tt, k)
      else match listener_accept listener true k with
           | (Ok stream, k1) =>
               match echo_client (BS := blocking_byte_stream stream) k1 with
               | (Ok _, k2) => run rest listener (tcp_drop stream k2)
               | (r, k2) => (r, k2)
               end
           | (_, k1) => (Ok tt, k1)
           end
  end.

(** [accept_loop] of async_echo. *)
Fixpoint async_accept_loop (fuel polls : nat) (listener : sock) : M AsyncWorld Error unit :=
  match fuel with
  | O => m_lift Pending
  | S fuel' => fun w =>
      match async_accept polls listener w with
      | (Ok stream, w1) =>
          match echo_client (BS := tcp_byte_stream polls stream) w1 with
          | (Ok _, w2) =>
              async_accept_loop fuel' polls listener
                (mkAW VA KN (aw_alloc w2) (tcp_drop stream (aw_net w2)) (aw_queued w2) (aw_cbs w2))
          | (r, w2) => (r, w2)
          end
      | (Err _, w1) => (Ok tt, w1)
      | (Panic, w1) => (Panic, w1)
      | (Ub, w1) => (Ub, w1)
      | (Pending, w1) => (Pending, w1)
      end
  end.
End Accept.

(** ** Facts *)
Section ClientFacts.
Context `{BS : ByteStream} {BSok : ByteStreamOk BS}.

(** What a connection did: it took [d] off the incoming bytes and sent [e]. *)
Definition echoed (s s' : st) (d e : list byte) : Prop :=
  st_incoming s = d ++ st_incoming s' /\ st_sent s' = st_sent s ++ e.

(** One round: the connection ends, having sent a prefix of the last chunk, or goes on
    having sent the chunk. *)
Lemma echo_round fuel buf s : lenZ buf = BUF_SIZE ->
  (exists s' d k, echo_loop (S fuel) buf s = (Ok tt, s') /\ echoed s s' d (take k d) /\
     (ByteStreamLive BS -> st_incoming s' = [] /\ d = [])) \/
  (exists s1 d buf', d <> [] /\ lenZ buf' = BUF_SIZE /\ echoed s s1 d d /\ echo_loop (S fuel) buf s = echo_loop fuel buf' s1).
Proof.
  intros Hb. cbn [echo_loop]. assert (0 <= lenZ buf) as H0 by (unfold BUF_SIZE in Hb; lia).
  pose proof (read_total (lenZ buf) s H0) as Ht. pose proof (read_sent (lenZ buf) s H0) as Hs.
  destruct (st_read (lenZ buf) s) as [[d|e| | |] s1] eqn:Er; cbn [fst snd] in *; try done.
  2: { left. exists s1, [], O. split; [done|]. split; [split; [by rewrite (read_err _ _ _ _ H0 Er)|by rewrite Hs, app_nil_r]|].
       intros L. destruct (st_incoming s) eqn:Ei; [rewrite (read_err _ _ _ _ H0 Er); done|].
       destruct (read_live (lenZ buf) s) as (d' & s2 & Hr & _); [unfold BUF_SIZE in Hb; lia|by rewrite Ei|congruence]. }
  destruct (read_ok _ _ _ _ H0 Er) as [Hi Hd]. destruct (lenZ d =? 0) eqn:E0.
  { apply Z.eqb_eq in E0. assert (d = []) as -> by (destruct d; [done|by rewrite lenZ_cons in E0; pose proof (lenZ_nonneg d); lia]).
    left. exists s1, [], O. split; [done|]. split; [split; [done|by rewrite Hs, app_nil_r]|].
    intros L. split; [|done]. cbn in Hi. rewrite <- Hi. destruct (st_incoming s) eqn:Ei; [done|].
    destruct (read_live (lenZ buf) s) as (d' & s2 & Hr & Hne); [unfold BUF_SIZE in Hb; lia|by rewrite Ei|congruence]. }
  unfold m_bind, m_lift. set (buf' := d ++ drop (length d) buf).
  assert (lenZ buf' = BUF_SIZE) as Hb'.
  { unfold buf'. rewrite lenZ_app. unfold lenZ in *. rewrite length_drop. lia. }
  rewrite slice_ok by (pose proof (lenZ_nonneg d); lia).
  replace (take (Z.to_nat (lenZ d - 0)) (drop (Z.to_nat 0) buf')) with d.
  2: { change (Z.to_nat 0) with O. unfold buf', lenZ. rewrite drop_0, Z.sub_0_r, Nat2Z.id. by rewrite take_app_length. }
  assert (lenZ d <= isize_max) as Hmax by (unfold isize_max, BUF_SIZE in *; lia).
  pose proof (write_total d s1 Hmax) as Hw. pose proof (write_incoming d s1 Hmax) as Hwi.
  destruct (st_write_all d s1) as [[[]|e| | |] s2] eqn:Ew; cbn [fst snd] in *; try done.
  - right. exists s2, d, buf'. split; [by destruct d|]. split; [done|]. split; [|done].
    split; [by rewrite Hwi|]. by rewrite (write_ok _ _ _ _ Hmax Ew), Hs.
  - left. destruct (write_err _ _ _ _ Hmax Ew) as [k Hk]. exists s2, d, k. split; [done|].
    split; [split; [by rewrite Hwi|by rewrite Hk, Hs]|]. intros L. destruct (write_live d s1). congruence.
Qed.

Lemma echo_loop_echoes fuel buf s : lenZ buf = BUF_SIZE -> (length (st_incoming s) < fuel)%nat ->
  exists s' d e, echo_loop fuel buf s = (Ok tt, s') /\ echoed s s' d e /\ e `prefix_of` d /\
    (ByteStreamLive BS -> st_incoming s' = [] /\ e = d).
Proof.
  revert buf s. induction fuel as [|fuel IH]; intros buf s Hb Hf; [lia|].
  destruct (echo_round fuel buf s Hb) as [(s' & d & k & -> & [H1 H2] & HL)|(s1 & d & buf' & Hne & Hb' & [H1 H2] & ->)].
  - exists s', d, (take k d). split; [done|]. split; [done|]. split; [apply prefix_take|].
    intros L. destruct (HL L) as [? ->]. by rewrite take_nil.
  - assert (length (st_incoming s1) < fuel)%nat as Hl.
    { rewrite H1, length_app in Hf. destruct d; [done|]. cbn in Hf. lia. }
    destruct (IH buf' s1 Hb' Hl) as (s' & d' & e' & -> & [H3 H4] & Hp & HL). exists s', (d ++ d'), (d ++ e').
    split; [done|]. split; [split; [by rewrite H1, H3, app_assoc|by rewrite H4, H2, app_assoc]|].
    split; [by apply prefix_app|]. intros L. by destruct (HL L) as [? ->].
Qed.

(** The echo server echoes: on any connection [echo_client] ends, without panicking,
    after a number of rounds bounded by the bytes the peer sends, and what it has sent back
    is the bytes it took off the connection, in order, cut short only when a write failed;
    on a connection without faults it is everything the peer sent. *)
Theorem echo_client_echoes s :
  exists s' d e, echo_client s = (Ok tt, s') /\ st_incoming s = d ++ st_incoming s' /\ st_sent s' = st_sent s ++ e /\
    e `prefix_of` d /\ (ByteStreamLive BS -> st_incoming s' = [] /\ e = d).
Proof.
  destruct (echo_loop_echoes (S (length (st_incoming s))) (replicate (Z.to_nat BUF_SIZE) x00) s) as (s' & d & e & H & [H1 H2] & H3);
    [unfold lenZ; by rewrite length_replicate|lia|]. by exists s', d, e.
Qed.

(** Whatever a stream's calls keep of its state, a connection keeps. *)
Lemma echo_loop_keeps {X} (view : st -> X) fuel buf s :
  (forall n s, view (st_read n s).2 = view s) -> (forall d s, view (st_write_all d s).2 = view s) ->
  view (echo_loop fuel buf s).2 = view s.
Proof.
  intros Hr Hw. revert buf s. induction fuel as [|fuel IH]; intros buf s; [done|]. cbn [echo_loop].
  specialize (Hr (lenZ buf) s). destruct (st_read _ s) as [[d|e| | |] s1]; cbn [snd] in *; try done.
  destruct (lenZ d =? 0); [done|]. unfold m_bind, m_lift. destruct (slice _ _ _); try done.
  specialize (Hw a s1). destruct (st_write_all _ s1) as [[]]; cbn [snd] in *; rewrite ?IH; congruence.
Qed.
End ClientFacts.

(** The blocking socket keeps the stream contract, too. *)
Section BlockingFacts.
Context `{KE : KernelErrno, KN : KernelNet}.

Lemma tcp_write_all_keeps {X} (view : knet -> X) so fuel off buf k :
  (forall d k, view (kernel_sendmsg so d k).2 = view k) ->
  view (write_all_loop (tcp_write so) fuel off buf k).2 = view k.
Proof.
  intros Hw. revert off k. induction fuel as [|fuel IH]; intros off k; cbn [write_all_loop]; destruct (off <? lenZ buf); try done.
  unfold m_bind, m_lift. destruct (slice buf off (lenZ buf)) as [tl|e| | |]; try done.
  unfold tcp_write at 1. specialize (Hw tl k). destruct (kernel_sendmsg so tl k) as [ret k']. cbn [snd] in Hw.
  destruct (check_err ret); cbn [res_bind]; try done. destruct (_ =? 0); [done|]. by rewrite IH.
Qed.

Context {KNok : KernelNetOk KN}.

#[global] Instance blocking_stream_ok so : ByteStreamOk (blocking_byte_stream so).
Proof.
  assert (forall d k, lenZ d <= isize_max -> match tcp_write_all so d k with
    | (Ok _, k') => k_sent so k' = k_sent so k ++ d
    | (Err _, k') => exists j, k_sent so k' = k_sent so k ++ take j d | _ => False end) as Hall.
  { intros d k Hd. unfold tcp_write_all. unfold isize_max in Hd. pose proof (lenZ_nonneg d).
    assert (forall x v, match fst (tcp_write so x v) with Ok _ | Err _ => True | _ => False end) as Hset.
    { intros x v. destruct (tcp_write_spec so x v) as [H1 _]. by destruct (tcp_write so x v) as [[]]. }
    opose proof* (write_all_loop_spec (tcp_write so) (k_sent so) _ _ _ _ (length d) 0 d k) as Hw; [..|lia|unfold lenZ; lia|lia|].
    - intros x v n v' He. destruct (tcp_write_spec so x v) as [H1 _]. by rewrite He in H1.
    - intros x v e v' He. destruct (tcp_write_spec so x v) as [H1 _]. by rewrite He in H1.
    - intros x v v' He. specialize (Hset x v). by rewrite He in Hset.
    - intros x v. specialize (Hset x v). by destruct (fst (tcp_write so x v)).
    - match goal with |- context [write_all_loop ?a ?b ?c ?e ?g] => destruct (write_all_loop a b c e g) as [[]] end; try done.
      destruct Hw as [_ (x & v & Hp)]. specialize (Hset x v). by rewrite Hp in Hset. }
  split; cbn.
  - intros n s d s' Hn He. destruct (tcp_read_spec so n s Hn) as [H _]. by rewrite He in H.
  - intros n s e s' Hn He. destruct (tcp_read_spec so n s Hn) as [H _]. by rewrite He in H.
  - intros n s Hn. destruct (tcp_read_spec so n s Hn) as [H _]. by destruct (tcp_read so n s) as [[]].
  - intros n s Hn. by destruct (tcp_read_spec so n s Hn).
  - intros d s u s' Hd He. specialize (Hall d s Hd). by rewrite He in Hall.
  - intros d s e s' Hd He. specialize (Hall d s Hd). by rewrite He in Hall.
  - intros d s Hd. specialize (Hall d s Hd). by destruct (tcp_write_all so d s) as [[]].
  - intros d s Hd. unfold tcp_write_all. apply tcp_write_all_keeps. intros d' k.
    destruct (kernel_sendmsg so d' k) eqn:E. by eapply send_frame.
Qed.

Context {KNopen : KernelNetOpen KN}.

Lemma echo_client_ends so k : exists k', echo_client (BS := blocking_byte_stream so) k = (Ok tt, k').
Proof.
  destruct (echo_loop_echoes (BS := blocking_byte_stream so) (S (length (k_incoming so k))) (replicate (Z.to_nat BUF_SIZE) x00) k)
    as (k' & d & e & H & _); [unfold lenZ; by rewrite length_replicate|cbn; lia|]. by exists k'.
Qed.

Lemma echo_client_open so k k' : echo_client (BS := blocking_byte_stream so) k = (Ok tt, k') -> k_open k' = k_open k.
Proof.
  intros He. change k' with (@Ok Error unit tt, k').2. rewrite <- He. unfold echo_client.
  apply (echo_loop_keeps (BS := blocking_byte_stream so) k_open).
  - intros n s. cbn. unfold tcp_read. pose proof (recv_open so n s) as H. by destruct (kernel_recvmsg so n s) as [[] ?].
  - intros d s. cbn. unfold tcp_write_all. apply tcp_write_all_keeps. apply send_open.
Qed.

(** The work item ends as soon as a load of [stop] returns true or [accept] fails, whatever
    its clients do, and has closed every connection it accepted. *)
Theorem run_serves stops l k : let '(r, k') := run stops l k in
  k_open k' = k_open k /\ (r = Ok tt \/ r = Pending /\ true ∉ stops).
Proof.
  revert k. induction stops as [|[] rest IH]; intros k; cbn [run].
  - split; [done|]. right. split; [done|apply not_elem_of_nil].
  - by split; [|left].
  - pose proof (listener_accept_owns l true k) as Ho. unfold owns_result in Ho.
    destruct (listener_accept l true k) as [[so|e| | |] k1]; cbn [fst snd] in Ho; try done; [|by split; [|left]].
    destruct (echo_client_ends so k1) as [k2 He]. rewrite He. apply echo_client_open in He.
    specialize (IH (tcp_drop so k2)). destruct (run rest l (tcp_drop so k2)) as [r k']. destruct IH as [Hk Hr].
    unfold tcp_drop in Hk. rewrite (release_open so k2 (k_open k)) in Hk by congruence. split; [done|].
    destruct Hr as [->|[-> Hn]]; [by left|right]. split; [done|]. by apply not_elem_of_cons.
Qed.
End BlockingFacts.

(** ** Unloading tcp_echo

    The module and its work item share the server: [em_refs] counts their [Arc]s, and the
    last one that is dropped releases the listening socket.  [accept] returns when a peer
    connects or when the socket is gone. *)
Inductive ew_pc : Type := EwCheck | EwAccept | EwEcho | EwDone.
Record echo_mod : Type := mkEm { em_refs : Z; em_stop : bool; em_closed : bool; em_loaded : bool; em_worker : ew_pc }.
Inductive em_event : Type := EmWorker | EmConnect | EmExit.

(** [TcpEcho::init]: the [Arc] from the [UniqueArc] and the clone given to the queue. *)
Definition em_init : echo_mod := mkEm 2 false false true EwCheck.

Definition em_drop (s : echo_mod) : echo_mod :=
  mkEm (em_refs s - 1) (em_stop s) (em_closed s || (em_refs s =? 1)) (em_loaded s) (em_worker s).
Definition em_at (pc : ew_pc) (s : echo_mod) : echo_mod :=
  mkEm (em_refs s) (em_stop s) (em_closed s) (em_loaded s) pc.

Definition em_step (s : echo_mod) (e : em_event) : option echo_mod :=
  match e, em_worker s with
  | EmWorker, EwCheck => Some (if em_stop s then em_drop (em_at EwDone s) else em_at EwAccept s)
  | EmWorker, EwAccept => if em_closed s then Some (em_drop (em_at EwDone s)) else None
  | EmWorker, EwEcho => Some (em_at EwCheck s)
  | EmWorker, EwDone => None
  | EmConnect, EwAccept => Some (em_at EwEcho s)
  | EmConnect, _ => None
  | EmExit, _ =>
      if em_loaded s then Some (em_drop (mkEm (em_refs s) true (em_closed s) false (em_worker s))) else None
  end.

Definition em_inv (s : echo_mod) : Prop :=
  em_refs s = (if em_loaded s then 1 else 0) + (match em_worker s with EwDone => 0 | _ => 1 end) /\
  em_closed s = (em_refs s =? 0).

Lemma em_step_inv s e s' : em_inv s -> em_step s e = Some s' -> em_inv s'.
Proof.
  destruct s as [r st cl ld pc]. unfold em_inv; cbn. intros [-> ->].
  destruct e, pc, ld, st; cbn; intros H; try discriminate; injection H as <-; done.
Qed.

(** The module's exit does not end a pending [accept]: the comment says that dropping the
    module's reference releases the socket and so unblocks it, but the work item that waits
    in [accept] holds a reference of its own.  The module can be gone while its code still
    runs, until some peer connects. *)
Theorem tcp_echo_exit_leaves_worker es s : exec em_step em_init es = Some s ->
  (em_worker s <> EwDone -> em_closed s = false) /\ (em_worker s = EwAccept -> em_step s EmWorker = None).
Proof.
  intros He. pose proof (exec_invariant em_step em_inv em_step_inv es em_init s ltac:(done) He) as [Hr Hc].
  assert (em_worker s <> EwDone -> em_closed s = false) as H.
  { intros Hw. rewrite Hc, Hr. destruct (em_loaded s), (em_worker s); done. }
  split; [done|]. intros Ha. unfold em_step. rewrite Ha, H; [done|by rewrite Ha].
Qed.

Lemma tcp_echo_exit_leaves_worker_run :
  exec em_step em_init [EmWorker; EmExit] = Some (mkEm 1 true false false EwAccept) /\
  em_step (mkEm 1 true false false EwAccept) EmWorker = None /\
  exec em_step em_init [EmWorker; EmExit; EmConnect; EmWorker; EmWorker] = Some (mkEm 0 true true false EwDone).
Proof.
  split; [done|]. split; [|done].
  exact (proj2 (tcp_echo_exit_leaves_worker [EmWorker; EmExit] _ eq_refl) eq_refl).
Qed.

(** ** Runs *)
Lemma echo_client_echoes_witness : exists s',
  echo_client (BS := scripted) (mkScript (bs "hello, world") [1; 4; 0]%nat []) = (Ok tt, s') /\
  sc_in s' = [] /\ sc_out s' = bs "hello, world".
Proof.
  destruct (echo_client_echoes (BS := scripted) (mkScript (bs "hello, world") [1; 4; 0]%nat []))
    as (s' & d & e & H & H1 & H2 & _ & H3). exists s'. destruct (H3 scripted_live) as [H4 ->].
  split; [exact H|]. split; [exact H4|]. rewrite H4, app_nil_r in H1. exact (eq_trans H2 (eq_sym H1)).
Defined.
