(* ===== verification/Starts.v ===== *)
(** * Starting and stopping the servers

    [HttpServer::start] and [start_on] (rko-util/src/http/server.rs) and the [init] of
    samples/tcp_echo and samples/async_echo: what each of them owns when it succeeds and
    gives back when a step fails.  An executor is represented by the sockets its tasks'
    futures own: dropping an [AutoStopHandle] stops the executor, which revokes each task
    and so drops its future ([Executor] proves that). *)
From Stdlib Require Import ZArith Lia Bool.
From stdpp Require Import base list option numbers.
From S2P Require Import Prelude Errors KVec Net AsyncNet HttpServer Workqueue Echo.

Section Starts.
Context `{KE : KernelErrno, VA : VecAlloc, KN : KernelNet, KW : !KernelWait, EX : !ExecutorSpawn}.

(** The handle of an executor: what its tasks own. *)
Abbreviation handle := (list sock).
Abbreviation AM := (M AsyncWorld Error).

(** [WorkqueueExecutor::new]. *)
Definition executor_new : AM handle := _ <-! aw_arc_new ;; m_ret [].
(** The drop of an [AutoStopHandle]. *)
Definition auto_stop_drop (h : handle) (w : AsyncWorld) : AsyncWorld := foldl (fun w so => aw_release so w) w h.
(** [spawn] of a future that owns [so]; a future that is not spawned is dropped. *)
Definition spawn_owning (h : handle) (so : sock) : AM handle := fun w =>
  match exec_spawn w with
  | (Ok _, w1) => (Ok (so :: h), w1)
  | (Err e, w1) => (Err e, aw_release so w1)
  | (Panic, w1) => (Panic, w1)
  | (Ub, w1) => (Ub, w1)
  | (Pending, w1) => (Pending, w1)
  end.
(** A value [drop] gives back when the rest of a function fails. *)
Definition or_drop {A} (drop : AsyncWorld -> AsyncWorld) (m : AM A) : AM A := fun w =>
  match m w with (Err e, w1) => (Err e, drop w1) | r => r end.

(** [HttpServer::start]: a server with an executor of its own. *)
Definition http_server_start (addr : SocketAddr) : AM (option handle) :=
  h <-! executor_new ;;
  or_drop (auto_stop_drop h) (l <-! start_inner addr ;; m_ret (Some (l :: h))).
(** [HttpServer::start_on]: the executor, with the listener in it, is the caller's. *)
Definition http_server_start_on (addr : SocketAddr) (h : handle) : AM (option handle * handle) :=
  l <-! start_inner addr ;; m_ret (None, l :: h).
Definition http_server_drop (s : option handle) (w : AsyncWorld) : AsyncWorld :=
  match s with Some h => auto_stop_drop h w | None => w end.

Definition LISTEN_PORT : Z := 8080.

(** [AsyncEcho::init] *)
Definition async_echo_init : AM handle :=
  listener <-! on_net (listener_try_new (new_v4 Ipv4_ANY LISTEN_PORT)) ;;
  h <-! or_drop (aw_release listener) executor_new ;;
  or_drop (auto_stop_drop h) (spawn_owning h listener).

(** [TcpEcho::init]: the socket in the server, and the work item with the references of the
    module and of the queue. *)
Definition tcp_echo_init : AM (sock * Item) :=
  listener <-! on_net (listener_try_new (new_v4 Ipv4_ANY LISTEN_PORT)) ;;
  _ <-! or_drop (aw_release listener) aw_arc_new ;;
  let server := work_init unique_uninit in
  match queue_enqueue system (item_clone server) with
  | (Ok true, server') => m_ret (listener, server')
  | (Ok false, server') =>
      match item_drop server' with Some server'' => m_ret (listener, server'') | None => m_lift Ub end
  | (r, _) => m_lift (_ <-? r ;; Ub)
  end.

(** ** What they own *)
Context {KNopen : KernelNetOpen KN} {EXok : ExecutorSpawnOk EX}.

Definition opened (w : AsyncWorld) : list sock := k_open (aw_net w).

(** [m] succeeds owning the sockets [own] of its result, or fails owning nothing. *)
Definition acquires {A} (own : A -> list sock) (m : AM A) : Prop :=
  forall w, match m w with
            | (Ok a, w') => opened w' = own a ++ opened w
            | (Err _, w') => opened w' = opened w
            | _ => False
            end.

Lemma release_opened so w l : opened w = so :: l -> opened (aw_release so w) = l.
Proof. apply release_open. Qed.
Lemma auto_stop_opened h w l : opened w = h ++ l -> opened (auto_stop_drop h w) = l.
Proof.
  revert w. induction h as [|so h IH]; intros w Hw; [done|]. apply IH, release_opened, Hw.
Qed.
Lemma bind_acquires {A B} (own1 : A -> list sock) (own2 : B -> list sock) (m : AM A) (k : A -> AM B) :
  acquires own1 m ->
  (forall a w l, opened w = own1 a ++ l -> match k a w with
     | (Ok b, w') => opened w' = own2 b ++ l | (Err _, w') => opened w' = l | _ => False end) ->
  acquires own2 (m_bind m k).
Proof.
  intros Hm Hk w. specialize (Hm w). unfold m_bind. destruct (m w) as [[a|e| | |] w1]; try done. by apply Hk.
Qed.
Lemma arc_acquires : acquires (fun _ => []) aw_arc_new.
Proof. intros w. unfold aw_arc_new. by destruct (kv_try_cases tt (aw_alloc w)) as [a [-> | ->]]. Qed.
Lemma executor_new_acquires : acquires (fun h => h) executor_new.
Proof. eapply bind_acquires; [apply arc_acquires|]. by intros a w l Hw. Qed.
Lemma listen_acquires addr : acquires (fun so => [so]) (on_net (listener_try_new addr)).
Proof.
  intros w. unfold on_net. pose proof (listener_try_new_owns addr (aw_net w)) as Ho. unfold owns_result in Ho.
  by destruct (listener_try_new addr (aw_net w)) as [[so|e| | |] k].
Qed.
Lemma spawn_acquires h so w l : opened w = so :: l ->
  match spawn_owning h so w with
  | (Ok h', w') => h' = so :: h /\ opened w' = so :: l | (Err _, w') => opened w' = l | _ => False end.
Proof.
  intros Hw. unfold spawn_owning. pose proof (spawn_net w) as Hn. pose proof (spawn_settles w) as Hs.
  destruct (exec_spawn w) as [[u|e| | |] w1]; try done; cbn in Hn; unfold opened in *; [by rewrite Hn|].
  apply release_opened. unfold opened. by rewrite Hn.
Qed.
Lemma start_inner_acquires addr : acquires (fun so => [so]) (start_inner addr).
Proof.
  intros w. pose proof (start_inner_owns addr w) as Ho. unfold owns_result in Ho.
  by destruct (start_inner addr w) as [[so|e| | |] w1].
Qed.
Lemma start_acquires addr : acquires (from_option id []) (http_server_start addr).
Proof.
  eapply bind_acquires; [apply executor_new_acquires|]. intros h w l Hw. unfold or_drop, m_bind.
  pose proof (start_inner_acquires addr w) as Hs. destruct (start_inner addr w) as [[so|e| | |] w1]; try done.
  - cbn in *. by rewrite Hs, Hw.
  - apply auto_stop_opened. rewrite Hs. exact Hw.
Qed.
Lemma start_on_acquires addr h : acquires (fun '(_, h') => take (length h' - length h) h') (http_server_start_on addr h).
Proof.
  eapply bind_acquires; [apply start_inner_acquires|]. intros so w l Hw. cbn [m_ret length].
  replace (S (length h) - length h)%nat with 1%nat by lia. done.
Qed.
Lemma async_echo_acquires : acquires id async_echo_init.
Proof.
  eapply bind_acquires; [apply listen_acquires|]. intros so w l Hw. unfold m_bind, or_drop at 1.
  pose proof (executor_new_acquires w) as He. unfold executor_new, m_bind in *. destruct (aw_arc_new w) as [[[]|e| | |] w1]; try done; cbn in He |- *.
  - unfold or_drop. pose proof (spawn_acquires [] so w1 l ltac:(rewrite He; exact Hw)) as Hs.
    destruct (spawn_owning [] so w1) as [[h'|e| | |] w2]; try done. by destruct Hs as [-> ->].
  - apply release_opened. rewrite He. exact Hw.
Qed.
Lemma tcp_echo_acquires : acquires (fun '(so, _) => [so]) tcp_echo_init.
Proof.
  eapply bind_acquires; [apply listen_acquires|]. intros so w l Hw. unfold m_bind, or_drop.
  pose proof (arc_acquires w) as Ha. destruct (aw_arc_new w) as [[[]|e| | |] w1]; try done; cbn in Ha |- *.
  - by rewrite Ha.
  - apply release_opened. rewrite Ha. exact Hw.
Qed.

(** A server that starts owns exactly its listening socket, through its executor, and dropping
    it closes the socket again; a start that fails at any step (the allocation of the
    executor, the socket, its address, the configuration, the task) leaves no socket open. *)
Theorem servers_start_and_stop addr w :
  (match http_server_start addr w with
   | (Ok s, w') => (exists l, s = Some [l] /\ opened w' = l :: opened w) /\ opened (http_server_drop s w') = opened w
   | (Err _, w') => opened w' = opened w | _ => False end) /\
  (match async_echo_init w with
   | (Ok h, w') => (exists l, h = [l] /\ opened w' = l :: opened w) /\ opened (auto_stop_drop h w') = opened w
   | (Err _, w') => opened w' = opened w | _ => False end).
Proof.
  split.
  - pose proof (start_acquires addr w) as H. unfold http_server_start, m_bind, or_drop in *.
    destruct (executor_new w) as [[h|e| | |] w1] eqn:Eh; try done.
    assert (h = []) as -> by (unfold executor_new, m_bind, m_ret in Eh; destruct (aw_arc_new w) as [[]]; congruence).
    destruct (start_inner addr w1) as [[l|e| | |] w2]; try done. cbn in H |- *.
    split; [by exists l|]. by apply release_opened.
  - pose proof (async_echo_acquires w) as H. destruct (async_echo_init w) as [[h|e| | |] w'] eqn:E; try done. cbn in H.
    assert (exists l, h = [l]) as [l ->].
    { unfold async_echo_init, executor_new, m_bind, or_drop, spawn_owning in E.
      destruct (on_net _ w) as [[so|e| | |] w1]; try done. destruct (aw_arc_new w1) as [[u|e| | |] w2]; try done. cbn in E.
      destruct (exec_spawn w2) as [[u'|e| | |] w3]; try done. injection E as <- <-. by exists so. }
    split; [by exists l|]. by apply auto_stop_opened.
Qed.

(** What the module of tcp_echo has after [init]: the socket open, the item queued, and two
    references, its own and the queue's: the state from which its exit is studied. *)
Theorem tcp_echo_started w : match tcp_echo_init w with
  | (Ok (l, server), w') => opened w' = l :: opened w /\ item_inv server /\ it_pending server = Some system /\
      it_handles server = 1 /\ it_refs server = em_refs em_init
  | (Err _, w') => opened w' = opened w
  | _ => False
  end.
Proof.
  pose proof (tcp_echo_acquires w) as H. unfold tcp_echo_init, m_bind in *. destruct (on_net _ w) as [[so|e| | |] w1]; try done.
  destruct (or_drop _ _ w1) as [[u|e| | |] w2]; done.
Qed.

End Starts.
