(* ===== verification/Revocable.v ===== *)
(** * Revocable values (rko-core/src/revocable.rs)

    [AsyncRevocable<T>]: a counter whose low 31 bits count the guards and whose
    top bit says that the value was revoked.  Calls and guards are the agents of a
    pool; each event is one atomic access of [usage_count], one dereference or one
    [drop_in_place].  [debug_assertions] says whether the [debug_assert!] of
    [try_access] is compiled in. *)
From Stdlib Require Import ZArith Lia Bool.
From stdpp Require Import base list option numbers gmap.
From S2P Require Import Prelude Pool.

Definition REVOKED_BIT : Z := Z.shiftl 1 31.

(** Where a call or a guard stands. *)
Inductive rv_agent : Type :=
| TaLoop                 (** [try_access], about to load *)
| TaLoaded (val : Z)     (** [try_access], about to exchange [val] for [val + 1] *)
| Guard                  (** a live [AsyncRevocableGuard] *)
| MustDrop.              (** [revoke] or a guard's [drop], about to drop the data *)

#[global] Instance rv_agent_eq_dec : EqDecision rv_agent.
Proof. solve_decision. Defined.

(** [dropped] counts the runs of [T]'s destructor, [misused] records a
    dereference of a dropped value, [gone] that the wrapper itself was dropped. *)
Record AsyncRevocable : Type := mkRv {
  usage_count : Z; dropped : Z; misused : bool; rv_agents : gmap nat rv_agent; gone : bool }.

Inductive rv_event : Type :=
| TryAccess (i : nat)                       (** a call of [try_access] starts *)
| TryLoad (i : nat)                         (** its load *)
| TryExchange (i : nat) (spurious : bool)   (** its weak compare-exchange *)
| Deref (i : nat)                           (** [deref] or [as_mut_ptr] of a guard *)
| GuardDrop (i : nat)                       (** the [fetch_sub] of a guard's [drop] *)
| Revoke (i : nat)                          (** the [fetch_or] of [revoke] *)
| DropInPlace (i : nat)                     (** the destructor a call owes *)
| DropWrapper.                              (** [Drop for AsyncRevocable] *)

(** [AsyncRevocable::new]. *)
Definition rv_new : AsyncRevocable := mkRv 0 0 false ∅ false.

Definition is_revoked_word (v : Z) : bool := negb (Z.land v REVOKED_BIT =? 0).

(** [is_revoked]. *)
Definition is_revoked (s : AsyncRevocable) : bool := is_revoked_word (usage_count s).

Section Steps.
Variable debug_assertions : bool.

Definition rv_set (s : AsyncRevocable) (u : Z) (p : gmap nat rv_agent) : AsyncRevocable :=
  mkRv u (dropped s) (misused s) p (gone s).

(** [try_access], one iteration: the load and the checks; an assertion that fails
    ends the call with a panic. *)
Definition try_access_load (i : nat) (s : AsyncRevocable) : AsyncRevocable :=
  let val := usage_count s in
  rv_set s val
    (if is_revoked_word val then delete i (rv_agents s)
     else if debug_assertions && negb (val <? REVOKED_BIT - 1) then delete i (rv_agents s)
     else <[i := TaLoaded val]> (rv_agents s)).

(** The exchange; a weak exchange may fail though the values agree. *)
Definition try_access_exchange (i : nat) (val : Z) (spurious : bool) (s : AsyncRevocable)
    : AsyncRevocable :=
  if (usage_count s =? val) && negb spurious
  then rv_set s (wrap 32 (val + 1)) (<[i := Guard]> (rv_agents s))
  else rv_set s (usage_count s) (<[i := TaLoop]> (rv_agents s)).

(** [revoke]: the value of [fetch_or] decides whether the caller owes the drop;
    the result says whether it was. *)
Definition revoke (i : nat) (s : AsyncRevocable) : AsyncRevocable * bool :=
  let prev := usage_count s in
  let u := Z.lor prev REVOKED_BIT in
  if is_revoked_word prev then (rv_set s u (rv_agents s), false)
  else if prev =? 0 then (rv_set s u (<[i := MustDrop]> (rv_agents s)), true)
  else (rv_set s u (rv_agents s), false).

(** [Drop for AsyncRevocableGuard]. *)
Definition guard_drop (i : nat) (s : AsyncRevocable) : AsyncRevocable :=
  let prev := usage_count s in
  rv_set s (wrap 32 (prev - 1))
    (if prev =? Z.lor REVOKED_BIT 1 then <[i := MustDrop]> (rv_agents s)
     else delete i (rv_agents s)).

(** [drop_in_place]. *)
Definition drop_in_place (i : nat) (s : AsyncRevocable) : AsyncRevocable :=
  mkRv (usage_count s) (dropped s + 1) (misused s) (delete i (rv_agents s)) (gone s).

(** A guard's [deref] and [as_mut_ptr]: the data must not have been dropped. *)
Definition deref (s : AsyncRevocable) : AsyncRevocable :=
  mkRv (usage_count s) (dropped s) (misused s || (0 <? dropped s)) (rv_agents s) (gone s).

(** [Drop for AsyncRevocable]. *)
Definition wrapper_drop (s : AsyncRevocable) : AsyncRevocable :=
  mkRv (usage_count s) (if is_revoked s then dropped s else dropped s + 1)
       (misused s) (rv_agents s) true.

(** What may happen next: an event of an agent that stands where the event needs
    it, a new call under a fresh identifier, and the drop of the wrapper once
    nothing borrows it. *)
Definition rv_step (s : AsyncRevocable) (e : rv_event) : option AsyncRevocable :=
  if gone s then None else
  match e with
  | TryAccess i =>
      match rv_agents s !! i with
      | None => Some (rv_set s (usage_count s) (<[i := TaLoop]> (rv_agents s)))
      | Some _ => None
      end
  | TryLoad i =>
      match rv_agents s !! i with Some TaLoop => Some (try_access_load i s) | _ => None end
  | TryExchange i spurious =>
      match rv_agents s !! i with
      | Some (TaLoaded val) => Some (try_access_exchange i val spurious s)
      | _ => None
      end
  | Deref i => match rv_agents s !! i with Some Guard => Some (deref s) | _ => None end
  | GuardDrop i => match rv_agents s !! i with Some Guard => Some (guard_drop i s) | _ => None end
  | Revoke i => match rv_agents s !! i with None => Some (revoke i s).1 | Some _ => None end
  | DropInPlace i =>
      match rv_agents s !! i with Some MustDrop => Some (drop_in_place i s) | _ => None end
  | DropWrapper =>
      if decide (rv_agents s = ∅) then Some (wrapper_drop s) else None
  end.
End Steps.

(** ** Invariant *)

Definition w_guard (a : rv_agent) : Z := match a with Guard => 1 | _ => 0 end.
Definition w_drop (a : rv_agent) : Z := match a with MustDrop => 1 | _ => 0 end.

Definition guards (s : AsyncRevocable) : Z := weigh w_guard (rv_agents s).
Definition owed (s : AsyncRevocable) : Z := weigh w_drop (rv_agents s).

(** The counter counts the guards, a loaded value has no revoked bit and room for
    one more guard, and the destructor has run or is owed exactly when the value
    is revoked and the last guard is gone. *)
Record rv_inv (dbg : bool) (s : AsyncRevocable) : Prop := {
  inv_guards : 0 <= guards s < 2 ^ 31;
  inv_count : usage_count s = guards s \/ usage_count s = guards s + 2 ^ 31;
  inv_loaded i v : rv_agents s !! i = Some (TaLoaded v) ->
                   0 <= v < 2 ^ 31 /\ (dbg = true -> v < 2 ^ 31 - 1);
  inv_misused : misused s = false;
  inv_owed : gone s = false ->
    dropped s + owed s =
      if bool_decide (usage_count s = 2 ^ 31 /\ guards s = 0) then 1 else 0;
  inv_dropped : 0 <= dropped s;
  inv_gone : gone s = true -> rv_agents s = ∅ /\ dropped s = 1 }.

Lemma w_guard_nonneg a : 0 <= w_guard a.
Proof. by destruct a. Qed.
Lemma w_drop_nonneg a : 0 <= w_drop a.
Proof. by destruct a. Qed.
#[export] Hint Resolve w_guard_nonneg w_drop_nonneg : rko.

Lemma land_low g : 0 <= g < 2 ^ 31 -> Z.land g REVOKED_BIT = 0.
Proof.
  intros Hg. apply Z.bits_inj'. intros n Hn. rewrite Z.land_spec, Z.bits_0.
  destruct (decide (n = 31)) as [->|Hne].
  - rewrite (proj2 (Z.testbit_false g 31 ltac:(lia))); [done|]. by rewrite Z.div_small by lia.
  - unfold REVOKED_BIT. rewrite Z.shiftl_1_l, Z.pow2_bits_false by lia. apply andb_false_r.
Qed.

Lemma lor_low g : 0 <= g < 2 ^ 31 -> Z.lor g REVOKED_BIT = g + 2 ^ 31.
Proof.
  intros Hg. pose proof (land_low g Hg) as Hl.
  rewrite <- Z.lxor_lor, <- Z.add_nocarry_lxor by exact Hl. done.
Qed.

Lemma lor_high g : 0 <= g < 2 ^ 31 -> Z.lor (g + 2 ^ 31) REVOKED_BIT = g + 2 ^ 31.
Proof. intros Hg. by rewrite <- lor_low, <- Z.lor_assoc, Z.lor_diag by done. Qed.

Lemma revoked_low g : 0 <= g < 2 ^ 31 -> is_revoked_word g = false.
Proof. intros Hg. unfold is_revoked_word. by rewrite land_low. Qed.

Lemma revoked_high g : 0 <= g < 2 ^ 31 -> is_revoked_word (g + 2 ^ 31) = true.
Proof.
  intros Hg. unfold is_revoked_word. rewrite <- lor_low, Z.land_lor_distr_l, Z.land_diag by done.
  by rewrite land_low.
Qed.

(** The two readings of the counter. *)
Lemma rv_cases dbg s (I : rv_inv dbg s) :
  (usage_count s = guards s /\ is_revoked s = false) \/
  (usage_count s = guards s + 2 ^ 31 /\ is_revoked s = true).
Proof.
  pose proof (inv_guards _ _ I) as Hg. unfold is_revoked.
  destruct (inv_count _ _ I) as [->| ->]; [left|right]; split; try done.
  - by apply revoked_low.
  - by apply revoked_high.
Qed.

(** Unfolds the counts of a state and computes the changed weights. *)
Ltac rv_counts :=
  unfold guards, owed, rv_set in *; cbn [usage_count dropped misused rv_agents gone] in *;
  weigh_step; cbn [w_guard w_drop] in *.

Ltac rv_decide := repeat case_bool_decide; try lia.

Lemma lookup_insert_loaded (p : gmap nat rv_agent) i j a v :
  <[i := a]> p !! j = Some (TaLoaded v) -> a = TaLoaded v \/ p !! j = Some (TaLoaded v).
Proof. rewrite lookup_insert_Some. intros [[_ ?]|[_ ?]]; auto. Qed.

Lemma lookup_delete_loaded (p : gmap nat rv_agent) i j v :
  delete i p !! j = Some (TaLoaded v) -> p !! j = Some (TaLoaded v).
Proof. rewrite lookup_delete_Some. by intros [_ ?]. Qed.

(** An update that keeps the counter and adds no guard, drop or loaded value. *)
Lemma rv_inv_same dbg s p (I : rv_inv dbg s) :
  gone s = false ->
  weigh w_guard p = guards s -> weigh w_drop p = owed s ->
  (forall i v, p !! i = Some (TaLoaded v) ->
     rv_agents s !! i = Some (TaLoaded v) \/ (0 <= v < 2 ^ 31 /\ (dbg = true -> v < 2 ^ 31 - 1))) ->
  rv_inv dbg (rv_set s (usage_count s) p).
Proof.
  intros Hg Hw Hd Hl. destruct I as [I1 I2 I3 I4 I5 I6 I7].
  split; unfold rv_set in *; unfold guards, owed in *;
    cbn [usage_count dropped misused rv_agents gone] in *;
    rewrite ?Hw, ?Hd; try done; [|congruence].
  intros i v Hi. destruct (Hl i v Hi) as [H|H]; [eauto|done].
Qed.

Section Invariance.
Variable dbg : bool.

Lemma rv_new_inv : rv_inv dbg rv_new.
Proof.
  split; unfold guards, owed, rv_new; cbn [usage_count dropped misused rv_agents gone];
    rewrite ?weigh_empty; try done; try lia.
Qed.

Lemma try_load_inv s i :
  rv_inv dbg s -> gone s = false -> rv_agents s !! i = Some TaLoop ->
  rv_inv dbg (try_access_load dbg i s).
Proof.
  intros I Hg Hi. unfold try_access_load. pose proof (inv_guards _ _ I) as Hgs.
  destruct (rv_cases _ _ I) as [[Hu Hr]|[Hu Hr]]; unfold is_revoked in Hr; rewrite Hr.
  - destruct (dbg && negb (usage_count s <? REVOKED_BIT - 1)) eqn:Ha.
    + apply rv_inv_same; rv_counts; try done; try lia.
      intros j v Hj. left. by apply lookup_delete_loaded in Hj.
    + apply rv_inv_same; rv_counts; try done; try lia.
      intros j v [Hj|Hj]%lookup_insert_loaded; [right|by left].
      injection Hj as <-. split; [lia|]. intros ->. cbn in Ha. unfold REVOKED_BIT in Ha.
      change (Z.shiftl 1 31) with (2 ^ 31) in Ha. blia.
  - apply rv_inv_same; rv_counts; try done; try lia.
    intros j v Hj. left. by apply lookup_delete_loaded in Hj.
Qed.

Lemma try_exchange_inv s i v spurious :
  rv_inv dbg s -> gone s = false -> dbg = true \/ guards s < 2 ^ 31 - 1 ->
  rv_agents s !! i = Some (TaLoaded v) -> rv_inv dbg (try_access_exchange i v spurious s).
Proof.
  intros I Hg Hb Hi. unfold try_access_exchange. pose proof (inv_guards _ _ I) as Hgs.
  destruct (inv_loaded _ _ I i v Hi) as [Hv Hvd].
  destruct ((usage_count s =? v) && negb spurious) eqn:Hc.
  - apply andb_prop in Hc as [Hc _]. apply Z.eqb_eq in Hc.
    destruct (rv_cases _ _ I) as [[Hu Hr]|[Hu Hr]]; [|lia].
    assert (Hroom : guards s < 2 ^ 31 - 1) by (destruct Hb as [Hb|Hb]; [specialize (Hvd Hb)|]; lia).
    pose proof (inv_owed _ _ I Hg) as Ho. pose proof (inv_dropped _ _ I) as Hd.
    pose proof (weigh_nonneg _ w_drop_nonneg (rv_agents s)) as Hod.
    rewrite wrap_small by lia.
    split; rv_counts; try done; try lia.
    + intros j w [Hj|Hj]%lookup_insert_loaded; [done|]. by apply (inv_loaded _ _ I j w).
    + by apply (inv_misused _ _ I).
    + intros _. revert Ho. rv_decide.
    + congruence.
  - apply rv_inv_same; rv_counts; try done; try lia.
    intros j w [Hj|Hj]%lookup_insert_loaded; [done|by left].
Qed.

Lemma guard_held s i : rv_inv dbg s -> gone s = false -> rv_agents s !! i = Some Guard ->
  1 <= guards s /\ dropped s = 0 /\ owed s = 0.
Proof.
  intros I Hg Hi. pose proof (inv_owed _ _ I Hg) as Ho. pose proof (inv_dropped _ _ I) as Hd.
  pose proof (weigh_member _ w_guard_nonneg _ _ _ Hi) as Hm. cbn in Hm. fold (guards s) in Hm.
  pose proof (weigh_nonneg _ w_drop_nonneg (rv_agents s)) as Hod. fold (owed s) in Hod.
  case_bool_decide; lia.
Qed.

Lemma guard_drop_inv s i :
  rv_inv dbg s -> gone s = false -> rv_agents s !! i = Some Guard -> rv_inv dbg (guard_drop i s).
Proof.
  intros I Hg Hi. destruct (guard_held s i I Hg Hi) as (H1 & Hd & Ho).
  pose proof (inv_guards _ _ I) as Hgs. pose proof (inv_count _ _ I) as Hc.
  unfold guard_drop. change (Z.lor REVOKED_BIT 1) with (2 ^ 31 + 1).
  rewrite wrap_small by lia.
  destruct (Z.eqb_spec (usage_count s) (2 ^ 31 + 1)) as [Hu|Hu]; split; rv_counts; try done; try lia.
  - intros j w [Hj|Hj]%lookup_insert_loaded; [done|]. by apply (inv_loaded _ _ I j w).
  - by apply (inv_misused _ _ I).
  - intros _. rv_decide.
  - congruence.
  - intros j w Hj%lookup_delete_loaded. by apply (inv_loaded _ _ I j w).
  - by apply (inv_misused _ _ I).
  - intros _. rv_decide.
  - congruence.
Qed.

Lemma revoke_inv s i :
  rv_inv dbg s -> gone s = false -> rv_agents s !! i = None -> rv_inv dbg (revoke i s).1.
Proof.
  intros I Hg Hi. pose proof (inv_guards _ _ I) as Hgs. pose proof (inv_owed _ _ I Hg) as Ho.
  pose proof (inv_dropped _ _ I) as Hd.
  pose proof (weigh_nonneg _ w_drop_nonneg (rv_agents s)) as Hod.
  unfold revoke. destruct (rv_cases _ _ I) as [[Hu Hr]|[Hu Hr]]; unfold is_revoked in Hr; rewrite Hr.
  - assert (Hl : Z.lor (usage_count s) REVOKED_BIT = guards s + 2 ^ 31)
      by (rewrite Hu; by apply lor_low).
    rewrite Hl. destruct (Z.eqb_spec (usage_count s) 0) as [H0|H0]; cbn [fst];
      split; rv_counts; try done; try lia.
    + intros j w [Hj|Hj]%lookup_insert_loaded; [done|]. by apply (inv_loaded _ _ I j w).
    + by apply (inv_misused _ _ I).
    + intros _. revert Ho. rv_decide.
    + congruence.
    + intros j w Hj. by apply (inv_loaded _ _ I j w).
    + by apply (inv_misused _ _ I).
    + intros _. revert Ho. rv_decide.
    + congruence.
  - assert (Hl : Z.lor (usage_count s) REVOKED_BIT = usage_count s)
      by (rewrite Hu; by apply lor_high).
    rewrite Hl. cbn [fst]. apply rv_inv_same; try done. intros j v Hj. by left.
Qed.

Lemma drop_in_place_inv s i :
  rv_inv dbg s -> gone s = false -> rv_agents s !! i = Some MustDrop ->
  rv_inv dbg (drop_in_place i s).
Proof.
  intros I Hg Hi. pose proof (inv_guards _ _ I) as Hgs. pose proof (inv_count _ _ I) as Hc.
  pose proof (inv_owed _ _ I Hg) as Ho. pose proof (inv_dropped _ _ I) as Hd.
  split; unfold drop_in_place; rv_counts; try done; try lia.
  - intros j w Hj%lookup_delete_loaded. by apply (inv_loaded _ _ I j w).
  - by apply (inv_misused _ _ I).
  - intros _. revert Ho. rv_decide.
  - congruence.
Qed.

Lemma deref_inv s i :
  rv_inv dbg s -> gone s = false -> rv_agents s !! i = Some Guard -> rv_inv dbg (deref s).
Proof.
  intros I Hg Hi. destruct (guard_held s i I Hg Hi) as (_ & Hd & _).
  destruct I as [I1 I2 I3 I4 I5 I6 I7].
  split; unfold deref; rv_counts; try done. by rewrite I4, Hd.
Qed.

Lemma wrapper_drop_inv s :
  rv_inv dbg s -> gone s = false -> rv_agents s = ∅ -> rv_inv dbg (wrapper_drop s).
Proof.
  intros I Hg He. pose proof (inv_owed _ _ I Hg) as Ho. pose proof (inv_dropped _ _ I) as Hd.
  assert (Hdr : dropped (wrapper_drop s) = 1).
  { unfold wrapper_drop. cbn [dropped]. revert Ho. unfold guards, owed. rewrite He, !weigh_empty.
    destruct (rv_cases _ _ I) as [[Hu ->]|[Hu ->]]; revert Hu; unfold guards;
      rewrite He, weigh_empty; intros ->; rv_decide. }
  destruct I as [I1 I2 I3 I4 I5 I6 I7].
  split; try done; try (cbn; done). rewrite Hdr. lia.
Qed.

(** Every event keeps the invariant while there is room for one more guard. *)
Lemma rv_step_inv s e s' :
  rv_inv dbg s -> dbg = true \/ guards s < 2 ^ 31 - 1 -> rv_step dbg s e = Some s' -> rv_inv dbg s'.
Proof.
  intros I Hb. unfold rv_step. destruct (gone s) eqn:Hg; [done|].
  destruct e as [i|i|i sp|i|i|i|i|]; try (destruct (rv_agents s !! i) as [[]|] eqn:Hi); try done;
    try (case_decide; [|done]); intros [= <-];
    eauto using try_load_inv, try_exchange_inv, deref_inv, guard_drop_inv, revoke_inv,
      drop_in_place_inv, wrapper_drop_inv.
  apply rv_inv_same; rv_counts; try done; try lia.
  intros j v [Hj|Hj]%lookup_insert_loaded; [done|by left].
Qed.

(** The states an [AsyncRevocable] goes through.  Without the assertion in
    [try_access], fewer than 2^31 - 1 guards must be live at a time. *)
Inductive rv_reach : AsyncRevocable -> Prop :=
| reach_new : rv_reach rv_new
| reach_step s e s' :
    rv_reach s -> dbg = true \/ guards s < 2 ^ 31 - 1 -> rv_step dbg s e = Some s' -> rv_reach s'.

Lemma rv_reach_inv s : rv_reach s -> rv_inv dbg s.
Proof. induction 1; eauto using rv_new_inv, rv_step_inv. Qed.

Lemma rv_reach_exec es s s' :
  dbg = true -> rv_reach s -> exec (rv_step dbg) s es = Some s' -> rv_reach s'.
Proof. intros Hd. apply exec_invariant. eauto using reach_step. Qed.
End Invariance.

(** ** Properties *)

(** The destructor runs at most once, and not while a guard is held. *)
Lemma inv_drop_range dbg s :
  rv_inv dbg s ->
  0 <= dropped s <= 1 /\ (forall i, rv_agents s !! i = Some Guard -> dropped s = 0).
Proof.
  intros I. pose proof (inv_dropped _ _ I) as Hd.
  pose proof (weigh_nonneg _ w_drop_nonneg (rv_agents s)) as Hod. fold (owed s) in Hod. split.
  - destruct (gone s) eqn:Hg; [destruct (inv_gone _ _ I Hg); lia|].
    pose proof (inv_owed _ _ I Hg). case_bool_decide; lia.
  - intros i Hi. destruct (gone s) eqn:Hg.
    + destruct (inv_gone _ _ I Hg) as [He _]. by rewrite He, lookup_empty in Hi.
    + by destruct (guard_held _ _ _ I Hg Hi) as (_ & H & _).
Qed.

(** C22. Under every interleaving of [try_access], [revoke], guard drops and
    dereferences, the value is dropped at most once, is alive and not dropped while
    any guard is held, and no guard ever dereferences a dropped value. *)
Theorem revocable_safe dbg s :
  rv_reach dbg s ->
  misused s = false /\ 0 <= dropped s <= 1 /\
  (forall i, rv_agents s !! i = Some Guard -> dropped s = 0).
Proof.
  intros I%rv_reach_inv. destruct (inv_drop_range _ _ I) as [H1 H2].
  split_and!; [apply I|apply H1|apply H1|exact H2].
Qed.

(** Nothing leaks: once the value is revoked and every call and guard has
    finished, its destructor has run exactly once; the same holds when the wrapper
    itself has been dropped, revoked or not. *)
Theorem revocable_dropped_exactly_once dbg s :
  rv_reach dbg s -> rv_agents s = ∅ -> is_revoked s = true \/ gone s = true -> dropped s = 1.
Proof.
  intros I%rv_reach_inv He H. destruct (gone s) eqn:Hg; [by destruct (inv_gone _ _ I Hg)|].
  destruct H as [Hr|]; [|done]. pose proof (inv_owed _ _ I Hg) as Ho. revert Ho.
  destruct (rv_cases _ _ I) as [[_ Hr']|[Hu _]]; [congruence|]. revert Hu.
  unfold guards, owed. rewrite He, !weigh_empty. intros ->. rv_decide.
Qed.

(** Revocation is final: after it no event clears the bit, and no event adds a
    guard, so [try_access] fails from then on. *)
Lemma revocation_is_final dbg s e s' :
  rv_reach dbg s -> is_revoked s = true -> rv_step dbg s e = Some s' ->
  is_revoked s' = true /\ guards s' <= guards s.
Proof.
  intros I%rv_reach_inv Hr. pose proof (inv_guards _ _ I) as Hgs.
  destruct (rv_cases _ _ I) as [[_ Hr']|[Hu _]]; [congruence|].
  assert (Hlow : forall g, 0 <= g < 2 ^ 31 -> forall p,
            is_revoked (rv_set s (g + 2 ^ 31) p) = true) by (intros; by apply revoked_high).
  unfold rv_step. destruct (gone s) eqn:Hg; [done|].
  destruct e as [i|i|i sp|i|i|i|i|]; try (destruct (rv_agents s !! i) as [[]|] eqn:Hi); try done;
    try (case_decide; [|done]); intros [= <-];
    try (split; [done|]; unfold deref, drop_in_place, wrapper_drop; rv_counts; lia).
  - unfold try_access_load. unfold is_revoked in Hr. rewrite Hr.
    split; [exact Hr|]. rv_counts. lia.
  - destruct (inv_loaded _ _ I i val Hi) as [Hv _]. unfold try_access_exchange.
    replace (usage_count s =? val) with false by (symmetry; apply Z.eqb_neq; lia).
    cbn [andb]. split; [exact Hr|]. rv_counts. lia.
  - destruct (guard_held _ _ _ I Hg Hi) as (H1 & _ & _).
    unfold guard_drop. rewrite wrap_small by lia. split.
    + rewrite Hu. replace (guards s + 2 ^ 31 - 1) with (guards s - 1 + 2 ^ 31) by lia.
      apply Hlow. lia.
    + destruct (usage_count s =? Z.lor REVOKED_BIT 1); rv_counts; lia.
  - unfold revoke. unfold is_revoked in Hr. rewrite Hr. cbn [fst]. split; [|rv_counts; lia].
    rewrite Hu, lor_high by done. by apply Hlow.
Qed.

(** [revoke] leaves the value revoked. *)
Lemma revoke_sets_bit dbg s i s' :
  rv_reach dbg s -> rv_step dbg s (Revoke i) = Some s' -> is_revoked s' = true.
Proof.
  intros I%rv_reach_inv. pose proof (inv_guards _ _ I) as Hgs.
  unfold rv_step. destruct (gone s); [done|]. destruct (rv_agents s !! i); [done|]. intros [= <-].
  assert (Hw : is_revoked_word (Z.lor (usage_count s) REVOKED_BIT) = true).
  { destruct (inv_count _ _ I) as [->| ->]; rewrite ?lor_low, ?lor_high by done; by apply revoked_high. }
  unfold revoke, is_revoked. by repeat case_match.
Qed.

(** A run: a guard is taken and used, the value revoked under it, and the guard
    dropped, which runs the destructor. *)
Definition rv_trace : list rv_event :=
  [TryAccess 0; TryLoad 0; TryExchange 0 true; TryLoad 0; TryExchange 0 false; Deref 0;
   Revoke 1; TryAccess 2; TryLoad 2; GuardDrop 0].

Definition rv_after (es : list rv_event) : AsyncRevocable :=
  match exec (rv_step true) rv_new es with Some s => s | None => rv_new end.

Lemma rv_after_reach es :
  is_Some (exec (rv_step true) rv_new es) -> rv_reach true (rv_after es).
Proof.
  unfold rv_after. intros [s Hs]. rewrite Hs.
  exact (rv_reach_exec true es rv_new s eq_refl (reach_new true) Hs).
Qed.

Lemma revocable_safe_witness :
  misused (rv_after (take 7 rv_trace)) = false /\ is_revoked (rv_after (take 7 rv_trace)) = true /\
  dropped (rv_after (take 7 rv_trace)) = 0.
Proof.
  destruct (revocable_safe true (rv_after (take 7 rv_trace))) as (H & _ & Hg).
  { apply rv_after_reach. vm_compute. eauto. }
  split; [exact H|]. split; [by vm_compute|].
  apply (Hg 0%nat). by vm_compute.
Defined.

Lemma revocable_dropped_exactly_once_witness :
  dropped (rv_after (rv_trace ++ [DropInPlace 0])) = 1.
Proof.
  apply (revocable_dropped_exactly_once true).
  - apply rv_after_reach. vm_compute. eauto.
  - by vm_compute.
  - left. by vm_compute.
Defined.
