(* ===== verification/NoWaitLock.v ===== *)
(** * The try-only lock (rko-core/src/sync/nowaitlock.rs)

    [NoWaitLock]: [try_lock] is one compare-exchange, and on failure a second one
    that marks the lock contended; [unlock] swaps the state back and reports the
    mark.  The state is the source's [AtomicU8]; each exchange is one event, and
    [nl_log] keeps the results of the calls in the order they returned. *)
From Stdlib Require Import ZArith Lia Bool.
From stdpp Require Import base list option numbers gmap.
From S2P Require Import Prelude Pool.

Definition UNLOCKED : Z := 0.
Definition LOCKED : Z := 1.
Definition LOCKED_CONTENDED : Z := 2.

(** [AtomicU8::compare_exchange]: whether it succeeded, and the new value. *)
Definition compare_exchange (cur expected new : Z) : bool * Z :=
  if cur =? expected then (true, new) else (false, cur).

(** The two exchanges of [try_lock] and the swap of [unlock]. *)
Definition try_lock_fast (state : Z) : bool * Z := compare_exchange state UNLOCKED LOCKED.
Definition try_lock_slow (state : Z) : Z := (compare_exchange state LOCKED LOCKED_CONTENDED).2.
Definition unlock (state : Z) : bool * Z := (state =? LOCKED_CONTENDED, UNLOCKED).

Inductive nl_agent : Type :=
| NlSlow       (** [try_lock] whose first exchange failed *)
| NlHolding.   (** a live [NoWaitLockGuard] *)

#[global] Instance nl_agent_eq_dec : EqDecision nl_agent.
Proof. solve_decision. Defined.

Inductive nl_result : Type :=
| Acquired (i : nat)                     (** [try_lock] returned a guard *)
| Refused (i : nat)                      (** [try_lock] returned [None] *)
| Released (i : nat) (contended : bool). (** [unlock] returned [contended] *)

Record NoWaitLock : Type := mkNl {
  nl_state : Z; nl_agents : gmap nat nl_agent; nl_log : list nl_result }.

(** [NoWaitLock::new]. *)
Definition nl_new : NoWaitLock := mkNl UNLOCKED ∅ [].

Inductive nl_event : Type :=
| TryLock (i : nat)        (** the first exchange of [try_lock] *)
| MarkContended (i : nat)  (** its second exchange, and the return *)
| Unlock (i : nat)         (** [unlock] *)
| DropGuard (i : nat).     (** [Drop for NoWaitLockGuard] *)

Definition nl_step (s : NoWaitLock) (e : nl_event) : option NoWaitLock :=
  match e with
  | TryLock i =>
      match nl_agents s !! i with
      | Some _ => None
      | None =>
          let '(ok, st) := try_lock_fast (nl_state s) in
          Some (if ok then mkNl st (<[i := NlHolding]> (nl_agents s)) (nl_log s ++ [Acquired i])
                else mkNl st (<[i := NlSlow]> (nl_agents s)) (nl_log s))
      end
  | MarkContended i =>
      match nl_agents s !! i with
      | Some NlSlow =>
          Some (mkNl (try_lock_slow (nl_state s)) (delete i (nl_agents s)) (nl_log s ++ [Refused i]))
      | _ => None
      end
  | Unlock i =>
      match nl_agents s !! i with
      | Some NlHolding =>
          let '(contended, st) := unlock (nl_state s) in
          Some (mkNl st (delete i (nl_agents s)) (nl_log s ++ [Released i contended]))
      | _ => None
      end
  | DropGuard i =>
      match nl_agents s !! i with
      | Some NlHolding => Some (mkNl (unlock (nl_state s)).2 (delete i (nl_agents s)) (nl_log s))
      | _ => None
      end
  end.

Definition w_holding (a : nl_agent) : Z := match a with NlHolding => 1 | NlSlow => 0 end.

(** The lock word says exactly whether somebody holds the lock. *)
Definition nl_inv (s : NoWaitLock) : Prop :=
  (nl_state s = UNLOCKED /\ weigh w_holding (nl_agents s) = 0) \/
  ((nl_state s = LOCKED \/ nl_state s = LOCKED_CONTENDED) /\ weigh w_holding (nl_agents s) = 1).

Definition nl_reach (s : NoWaitLock) : Prop := exists es, exec nl_step nl_new es = Some s.

Lemma w_holding_nonneg a : 0 <= w_holding a.
Proof. by destruct a. Qed.

Ltac nl_crush :=
  unfold nl_inv, try_lock_fast, try_lock_slow, unlock, compare_exchange,
    UNLOCKED, LOCKED, LOCKED_CONTENDED in *;
  cbn [nl_state nl_agents nl_log fst snd] in *; weigh_step; cbn [w_holding] in *; try lia.

Lemma nl_step_inv s e s' : nl_inv s -> nl_step s e = Some s' -> nl_inv s'.
Proof.
  intros I. pose proof (weigh_nonneg _ w_holding_nonneg (nl_agents s)) as Hn.
  destruct e as [i|i|i|i]; cbn [nl_step]; destruct (nl_agents s !! i) as [[]|] eqn:Hi; try done.
  - unfold try_lock_fast, compare_exchange.
    destruct (Z.eqb_spec (nl_state s) UNLOCKED); intros [= <-]; nl_crush.
  - unfold try_lock_slow, compare_exchange.
    destruct (Z.eqb_spec (nl_state s) LOCKED); intros [= <-]; nl_crush.
  - pose proof (weigh_member _ w_holding_nonneg _ _ _ Hi) as Hm. cbn in Hm.
    intros [= <-]. nl_crush.
  - pose proof (weigh_member _ w_holding_nonneg _ _ _ Hi) as Hm. cbn in Hm.
    intros [= <-]. nl_crush.
Qed.

Lemma nl_reach_inv s : nl_reach s -> nl_inv s.
Proof.
  intros [es Hes]. refine (exec_invariant nl_step nl_inv nl_step_inv es nl_new s _ Hes).
  left. split; [done|apply weigh_empty].
Qed.

(** Once contended, the word stays so until the holder releases it. *)
Lemma contended_stays h es s s' :
  nl_state s = LOCKED_CONTENDED -> nl_agents s !! h = Some NlHolding -> nl_inv s ->
  Unlock h ∉ es -> DropGuard h ∉ es -> exec nl_step s es = Some s' ->
  nl_state s' = LOCKED_CONTENDED /\ nl_agents s' !! h = Some NlHolding.
Proof.
  intros Hs Hh I Hu Hd. revert s Hs Hh I. induction es as [|e r IH]; intros s Hs Hh I; cbn [exec].
  - intros [= <-]. done.
  - rewrite not_elem_of_cons in Hu, Hd. destruct Hu as [Hu Hu'], Hd as [Hd Hd'].
    destruct (nl_step s e) as [s1|] eqn:Hst; [|done]. pose proof (nl_step_inv _ _ _ I Hst) as I1.
    apply (IH Hu' Hd'); [| |done].
    + revert Hst. destruct e as [i|i|i|i]; cbn [nl_step];
        destruct (nl_agents s !! i) as [[]|] eqn:Hi; try done.
      * rewrite Hs. cbn. intros [= <-]. done.
      * rewrite Hs. cbn. intros [= <-]. done.
      * pose proof (weigh_two _ w_holding_nonneg _ i h _ _ Hi Hh ltac:(congruence)) as Hm.
        exfalso. nl_crush.
      * pose proof (weigh_two _ w_holding_nonneg _ i h _ _ Hi Hh ltac:(congruence)) as Hm.
        exfalso. nl_crush.
    + revert Hst. destruct e as [i|i|i|i]; cbn [nl_step];
        destruct (nl_agents s !! i) as [[]|] eqn:Hi; try done.
      * rewrite Hs. cbn. intros [= <-]. cbn. rewrite lookup_insert_ne by congruence. done.
      * intros [= <-]. cbn. rewrite lookup_delete_ne by congruence. done.
      * intros [= <-]. cbn. rewrite lookup_delete_ne by congruence. done.
      * intros [= <-]. cbn. rewrite lookup_delete_ne by congruence. done.
Qed.

(** ** Properties *)

(** Mutual exclusion: two live guards of one lock are the same guard, and
    the lock word is [UNLOCKED] exactly when there is none. *)
Theorem nowait_mutual_exclusion s :
  nl_reach s ->
  (forall i j, nl_agents s !! i = Some NlHolding -> nl_agents s !! j = Some NlHolding -> i = j) /\
  (nl_state s = UNLOCKED <-> forall i, nl_agents s !! i <> Some NlHolding).
Proof.
  intros I%nl_reach_inv. pose proof (weigh_nonneg _ w_holding_nonneg (nl_agents s)) as Hn. split.
  - intros i j Hi Hj. destruct (decide (i = j)) as [|Hne]; [done|].
    pose proof (weigh_two _ w_holding_nonneg _ _ _ _ _ Hi Hj Hne) as Hm. nl_crush.
  - split.
    + intros Hs i Hi. pose proof (weigh_member _ w_holding_nonneg _ _ _ Hi) as Hm. nl_crush.
    + intros Hno. destruct I as [[I _]|[_ I]]; [done|].
      destruct (weigh_pos w_holding (nl_agents s)) as (i & a & Hi & Ha); [lia|].
      destruct a; [cbn in Ha; lia|]. by destruct (Hno i).
Qed.

(** Contention is reported: a [try_lock] whose second exchange happens while
    [h] holds the lock makes [h]'s [unlock] return true, whatever other calls
    come in between. *)
Theorem nowait_contention_reported s i s1 es s2 h :
  nl_reach s -> nl_agents s !! h = Some NlHolding ->
  nl_step s (MarkContended i) = Some s1 ->
  Unlock h ∉ es -> DropGuard h ∉ es -> exec nl_step s1 es = Some s2 ->
  (unlock (nl_state s2)).1 = true.
Proof.
  intros I%nl_reach_inv Hh Hst Hu Hd Hes. pose proof (nl_step_inv _ _ _ I Hst) as I1.
  revert Hst. cbn [nl_step]. destruct (nl_agents s !! i) as [[]|] eqn:Hi; try done.
  intros [= <-].
  assert (Hst : try_lock_slow (nl_state s) = LOCKED_CONTENDED).
  { pose proof (weigh_member _ w_holding_nonneg _ _ _ Hh) as Hm. cbn in Hm.
    unfold try_lock_slow, compare_exchange. destruct I as [I|[[->| ->] _]]; [lia|done|done]. }
  eapply contended_stays in Hes as [-> _]; try done.
  cbn. rewrite lookup_delete_ne by congruence. done.
Qed.

(** A call whose first exchange fails against a holder that releases the lock
    before the second one: the call returns [None], the holder's [unlock] has
    returned false, and the lock is free. *)
Theorem nowait_contention_missed :
  exists s, exec nl_step nl_new [TryLock 0; TryLock 1; Unlock 0; MarkContended 1] = Some s /\
    nl_log s = [Acquired 0; Released 0 false; Refused 1] /\ nl_state s = UNLOCKED.
Proof. eexists. split; [reflexivity|]. split; reflexivity. Qed.

Lemma nowait_mutual_exclusion_witness :
  exists s, exec nl_step nl_new [TryLock 0; TryLock 1; MarkContended 1] = Some s /\
    nl_state s = LOCKED_CONTENDED /\
    (forall i j, nl_agents s !! i = Some NlHolding -> nl_agents s !! j = Some NlHolding -> i = j).
Proof.
  eexists. split; [reflexivity|]. split; [reflexivity|].
  eapply (nowait_mutual_exclusion _).
  exists [TryLock 0; TryLock 1; MarkContended 1]. reflexivity.
Defined.

Lemma nowait_contention_reported_witness :
  exists s2, exec nl_step nl_new [TryLock 0; TryLock 1; MarkContended 1; TryLock 2] = Some s2 /\
    (unlock (nl_state s2)).1 = true.
Proof.
  eexists. split; [reflexivity|].
  eapply (nowait_contention_reported
            (mkNl LOCKED (<[1%nat := NlSlow]> (<[0%nat := NlHolding]> ∅)) [Acquired 0])
            1 _ [TryLock 2] _ 0); try reflexivity.
  - exists [TryLock 0; TryLock 1]. reflexivity.
  - intros H. apply list_elem_of_singleton in H. discriminate.
  - intros H. apply list_elem_of_singleton in H. discriminate.
Defined.
