(* ===== verification/SocketWake.v ===== *)
(** * Polling against the wake callback (rko-core/src/kasync/net/mod.rs)

    [SocketFuture::poll] runs on a workqueue thread while [wake_callback] runs in
    the softirq that delivers the socket's events; they share [CallbackState],
    whose waker is behind a [NoWaitLock].  The state below has both program
    counters; each event is one atomic access of either side, or an event of the
    network.  What the socket's state is and which events it reports are independent:
    the kernel also wakes the wait queue with the key 0 (a change of state) and with
    [EPOLLERR], which [wake_callback] compares with the future's mask like any other
    key.  The wait queue's own lock runs its callbacks one at a time and makes
    [remove_wait_queue] wait for a running callback, which is what [sw_events] (the
    calls waiting for that lock) and the guard of [DropFuture] say. *)
From Stdlib Require Import ZArith Lia Bool.
From stdpp Require Import base list option numbers gmap.
From S2P Require Import Prelude Pool NoWaitLock.

(** Where [poll] stands. *)
Inductive poll_pc : Type :=
| Parked     (** not running; the task polls again once it is woken *)
| PollTry    (** before [try_lock] *)
| PollSlow   (** in [try_lock], its first exchange failed *)
| PollStore  (** holds the lock, before the store of the waker *)
| PollUnlock (** holds the lock, before the guard's drop *)
| PollQueue  (** before the registration *)
| PollOp     (** before the operation *)
| PollDone.  (** returned [Poll::Ready] *)

(** Where [wake_callback] stands. *)
Inductive cb_pc : Type :=
| CbIdle
| CbTry      (** the event matched, before [try_lock] *)
| CbSlow     (** in [try_lock], its first exchange failed *)
| CbClone    (** holds the lock, before the test and the clone *)
| CbUnlock   (** holds the lock and a clone of the waker *)
| CbWake.    (** released the lock, before [wake] *)

#[global] Instance poll_pc_eq_dec : EqDecision poll_pc.
Proof. solve_decision. Defined.
#[global] Instance cb_pc_eq_dec : EqDecision cb_pc.
Proof. solve_decision. Defined.

(** [sw_waker]: a waker is stored; [sw_ready]: the operation would not block;
    [sw_woken]: the task is queued for another poll; [sw_freed]: the future was
    dropped, and its [CallbackState] with it; [sw_due]: an event that matches the mask
    came after the operation was last tried. *)
Record sock_wait : Type := mkSw {
  sw_lock : Z; sw_waker : bool; sw_registered : bool; sw_ready : bool; sw_woken : bool;
  sw_poll : poll_pc; sw_cb : cb_pc; sw_events : list Z; sw_freed : bool; sw_due : bool }.

Inductive sw_event : Type :=
| Run              (** the workqueue polls the task *)
| PollStep         (** the next access of [poll] *)
| NetEvent (m : Z) (ready : bool) (** the socket reports the events [m]; whether it is now ready *)
| CbStart          (** the wait queue calls [wake_callback] *)
| CbStep           (** its next access *)
| DropFuture.      (** [Drop for SocketFuture] *)

(** A future that was just awaited; the socket may be ready already. *)
Definition sw_new (ready : bool) : sock_wait :=
  mkSw UNLOCKED false false ready true Parked CbIdle [] false false.

Definition set_poll (s : sock_wait) (lock : Z) (waker registered : bool) (pc : poll_pc) : sock_wait :=
  mkSw lock waker registered (sw_ready s) (sw_woken s) pc (sw_cb s) (sw_events s) (sw_freed s) (sw_due s).
Definition set_cb (s : sock_wait) (lock : Z) (woken : bool) (pc : cb_pc) (evs : list Z) : sock_wait :=
  mkSw lock (sw_waker s) (sw_registered s) (sw_ready s) woken (sw_poll s) pc evs (sw_freed s) (sw_due s).

(** [SocketFuture::poll]: store the waker if the lock is free, register on the
    first poll, try the operation. *)
Definition poll_step (s : sock_wait) : option sock_wait :=
  match sw_poll s with
  | Parked | PollDone => None
  | PollTry =>
      let '(ok, l) := try_lock_fast (sw_lock s) in
      Some (set_poll s l (sw_waker s) (sw_registered s) (if ok then PollStore else PollSlow))
  | PollSlow =>
      Some (set_poll s (try_lock_slow (sw_lock s)) (sw_waker s) (sw_registered s) PollQueue)
  | PollStore => Some (set_poll s (sw_lock s) true (sw_registered s) PollUnlock)
  | PollUnlock => Some (set_poll s (unlock (sw_lock s)).2 (sw_waker s) (sw_registered s) PollQueue)
  | PollQueue => Some (set_poll s (sw_lock s) (sw_waker s) true PollOp)
  | PollOp =>
      Some (mkSw (sw_lock s) (sw_waker s) (sw_registered s) (sw_ready s) (sw_woken s)
                 (if sw_ready s then PollDone else Parked) (sw_cb s) (sw_events s) (sw_freed s) false)
  end.

(** [wake_callback] after the mask test. *)
Definition cb_step (s : sock_wait) : option sock_wait :=
  let keep l := set_cb s l (sw_woken s) in
  match sw_cb s with
  | CbIdle => None
  | CbTry =>
      let '(ok, l) := try_lock_fast (sw_lock s) in
      Some (keep l (if ok then CbClone else CbSlow) (sw_events s))
  | CbSlow => Some (keep (try_lock_slow (sw_lock s)) CbIdle (sw_events s))
  | CbClone =>
      Some (if sw_waker s then keep (sw_lock s) CbUnlock (sw_events s)
            else keep (unlock (sw_lock s)).2 CbIdle (sw_events s))
  | CbUnlock => Some (keep (unlock (sw_lock s)).2 CbWake (sw_events s))
  | CbWake => Some (set_cb s (sw_lock s) true CbIdle (sw_events s))
  end.

Section SocketWake.
(** The interest mask of the future. *)
Variable mask : Z.

(** The test of [wake_callback]: the key it is called with is cut to 32 bits. *)
Definition matching (m : Z) : bool := negb (Z.land (wrap 32 m) mask =? 0).

Definition sw_step (s : sock_wait) (e : sw_event) : option sock_wait :=
  match e with
  | Run =>
      match sw_poll s, sw_woken s, sw_freed s with
      | Parked, true, false =>
          Some (mkSw (sw_lock s) (sw_waker s) (sw_registered s) (sw_ready s) false
                     PollTry (sw_cb s) (sw_events s) false (sw_due s))
      | _, _, _ => None
      end
  | PollStep => poll_step s
  | NetEvent m ready =>
      Some (mkSw (sw_lock s) (sw_waker s) (sw_registered s) ready (sw_woken s) (sw_poll s) (sw_cb s)
                 (if sw_registered s then sw_events s ++ [m] else sw_events s) (sw_freed s)
                 (sw_due s || matching m))
  | CbStart =>
      match sw_cb s, sw_events s with
      | CbIdle, m :: r =>
          Some (set_cb s (sw_lock s) (sw_woken s) (if matching m then CbTry else CbIdle) r)
      | _, _ => None
      end
  | CbStep => cb_step s
  | DropFuture =>
      match sw_poll s, sw_cb s, sw_freed s with
      | (Parked | PollDone), CbIdle, false =>
          Some (mkSw (sw_lock s) (sw_waker s) false (sw_ready s) (sw_woken s) (sw_poll s) CbIdle [] true (sw_due s))
      | _, _, _ => None
      end
  end.

Definition sw_reach (s : sock_wait) : Prop :=
  exists ready es, exec sw_step (sw_new ready) es = Some s.

(** ** Invariant *)

Definition poll_locked (pc : poll_pc) : bool :=
  match pc with PollStore | PollUnlock => true | _ => false end.
Definition cb_locked (pc : cb_pc) : bool :=
  match pc with CbClone | CbUnlock => true | _ => false end.

(** A callback that has matched an event and has not failed to take the lock. *)
Definition cb_waking (pc : cb_pc) : bool :=
  match pc with CbTry | CbClone | CbUnlock | CbWake => true | _ => false end.

Definition will_wake (s : sock_wait) : bool :=
  cb_waking (sw_cb s) || existsb matching (sw_events s).

(** [poll] runs and has not tried the operation yet. *)
Definition will_try (pc : poll_pc) : bool := negb (bool_decide (pc = Parked)).

Definition first_poll (pc : poll_pc) : bool :=
  match pc with PollTry | PollStore => true | _ => false end.

(** Where [poll] stands only when the future is registered. *)
Definition late (pc : poll_pc) : bool :=
  match pc with PollSlow | PollOp | PollDone => true | _ => false end.

(** The operation is going to be tried (again): [poll] runs, the task is woken, or a
    callback is going to wake it. *)
Definition attentive (s : sock_wait) : bool := will_try (sw_poll s) || sw_woken s || will_wake s.

(** The lock word and the two holders agree; a registered future has its waker
    stored; and an event that matched is followed by another try. *)
Record sw_inv (s : sock_wait) : Prop := {
  swi_lock : negb (sw_lock s =? UNLOCKED) = poll_locked (sw_poll s) || cb_locked (sw_cb s);
  swi_excl : poll_locked (sw_poll s) && cb_locked (sw_cb s) = false;
  swi_waker : sw_registered s = true -> sw_waker s = true;
  swi_first : sw_registered s = false -> sw_freed s = false ->
    (sw_poll s = Parked /\ sw_woken s = true) \/ first_poll (sw_poll s) = true \/ sw_waker s = true;
  swi_idle : sw_registered s = false -> sw_cb s = CbIdle /\ sw_events s = [];
  swi_unreg : sw_registered s = false -> sw_freed s = false -> sw_poll s = Parked -> sw_woken s = true;
  swi_slow : sw_registered s = false -> sw_freed s = false -> late (sw_poll s) = false;
  swi_due : sw_due s = true -> sw_freed s = false -> attentive s = true;
  swi_freed : sw_freed s = true -> sw_registered s = false /\
    (sw_poll s = Parked \/ sw_poll s = PollDone) }.

Lemma slow_keeps_zero l : (try_lock_slow l =? UNLOCKED) = (l =? UNLOCKED).
Proof.
  unfold try_lock_slow, compare_exchange, LOCKED, LOCKED_CONTENDED, UNLOCKED.
  destruct (Z.eqb_spec l 1) as [->|]; done.
Qed.

Lemma sw_new_inv ready : sw_inv (sw_new ready).
Proof. split; cbn; auto; try done. Qed.

(** Splits the invariant's clauses over booleans and program counters. *)
Ltac sw_cases :=
  repeat match goal with
  | H : _ /\ _ |- _ => destruct H
  | H : _ \/ _ |- _ => destruct H
  | H : ?a = true -> _, H' : ?a = true |- _ => specialize (H H')
  | H : true = true -> _ |- _ => specialize (H eq_refl)
  | H : false = false -> _ |- _ => specialize (H eq_refl)
  end; subst; try done; try congruence.

Ltac sw_solve :=
  split; unfold attentive in *; cbn in *; intros; sw_cases; rewrite ?slow_keeps_zero, ?orb_true_r;
  try match goal with H : (?l =? _) = _ |- context [?l =? _] => rewrite H end; auto; sw_cases.

Lemma poll_step_inv s s' : sw_inv s -> poll_step s = Some s' -> sw_inv s'.
Proof.
  destruct s as [l wk rg rd wo pp cp evs fr du]. intros [I1 I2 I3 I4 I5 I6 I7 I8 I9].
  unfold poll_step; cbn [sw_lock sw_waker sw_registered sw_ready sw_woken sw_poll sw_cb
    sw_events sw_freed sw_due] in *; destruct pp; try done.
  - unfold try_lock_fast, compare_exchange.
    destruct (l =? UNLOCKED) eqn:Hl; intros [= <-]; destruct rg, fr; sw_solve.
  - intros [= <-]; destruct rg, fr; sw_solve.
  - intros [= <-]; destruct rg, fr; sw_solve.
  - intros [= <-]; destruct rg, fr; sw_solve.
  - intros [= <-]; destruct rg, fr; sw_solve.
  - destruct rd; intros [= <-]; destruct rg, fr; sw_solve.
Qed.

Lemma cb_step_inv s s' : sw_inv s -> cb_step s = Some s' -> sw_inv s'.
Proof.
  destruct s as [l wk rg rd wo pp cp evs fr du]. intros [I1 I2 I3 I4 I5 I6 I7 I8 I9].
  unfold cb_step; cbn [sw_lock sw_waker sw_registered sw_ready sw_woken sw_poll sw_cb
    sw_events sw_freed sw_due] in *; destruct cp; try done.
  - unfold try_lock_fast, compare_exchange.
    destruct (l =? UNLOCKED) eqn:Hl; intros [= <-]; destruct rg, fr, pp; sw_solve.
  - intros [= <-]; destruct rg, fr, pp; sw_solve.
  - destruct wk; intros [= <-]; destruct rg, fr, pp; sw_solve.
  - intros [= <-]; destruct rg, fr, pp; sw_solve.
  - intros [= <-]; destruct rg, fr, pp; sw_solve.
Qed.

Lemma sw_step_inv s e s' : sw_inv s -> sw_step s e = Some s' -> sw_inv s'.
Proof.
  intros I. destruct e as [| |m b| | |]; cbn [sw_step];
    [|by apply poll_step_inv| | |by apply cb_step_inv|]; revert I;
    destruct s as [l wk rg rd wo pp cp evs fr du]; intros [I1 I2 I3 I4 I5 I6 I7 I8 I9];
    cbn [sw_lock sw_waker sw_registered sw_ready sw_woken sw_poll sw_cb sw_events sw_freed sw_due] in *.
  - destruct pp, wo, fr; try done. intros [= <-]. destruct rg; sw_solve.
  - intros [= <-]. destruct rg, fr; sw_solve.
    all: unfold attentive, will_wake in *; cbn in *; destruct pp; try done; cbn [will_try] in *.
    + rewrite existsb_app. cbn.
      destruct wo, (cb_waking cp), (existsb matching evs), (matching m), du; cbn in *; auto.
    + by rewrite I6.
  - destruct cp, evs as [|m r]; try done. intros [= <-].
    destruct rg, fr; unfold attentive, will_wake in *; cbn in *; destruct (matching m) eqn:Hm; sw_solve.
  - destruct pp, cp, fr; try done; intros [= <-]; destruct rg; sw_solve.
Qed.

Lemma sw_reach_inv s : sw_reach s -> sw_inv s.
Proof. intros (r & es & H). exact (exec_invariant _ _ sw_step_inv es _ s (sw_new_inv r) H). Qed.

(** ** Progress *)

(** Attention is not lost: the only way out is a try that finds the socket not ready. *)
Lemma attentive_step s e s' :
  sw_inv s -> sw_step s e = Some s' -> sw_freed s' = false -> sw_ready s' = true ->
  attentive s = true -> attentive s' = true.
Proof.
  intros I. destruct s as [l wk rg rd wo pp cp evs fr du]. destruct I as [I1 I2 I3 I4 I5 I6 I7 I8 I9].
  unfold attentive, will_wake;
  cbn [sw_lock sw_waker sw_registered sw_ready sw_woken sw_poll sw_cb sw_events sw_freed sw_due] in *.
  destruct e as [| |m b| | |]; cbn [sw_step sw_poll sw_woken sw_freed sw_cb sw_events].
  - destruct pp, wo, fr; try done. by intros [= <-].
  - unfold poll_step; cbn [sw_lock sw_waker sw_registered sw_ready sw_woken sw_poll sw_cb sw_events sw_freed sw_due].
    destruct pp; try done.
    + destruct (try_lock_fast l) as [[] l']; by intros [= <-].
    + by intros [= <-].
    + by intros [= <-].
    + by intros [= <-].
    + by intros [= <-].
    + destruct rd; by intros [= <-].
  - intros [= <-] _ _ H. cbn in *. destruct rg; cbn; [|done]. rewrite existsb_app.
    destruct (will_try pp), wo, (cb_waking cp); cbn in *; try done. by rewrite H.
  - destruct cp, evs as [|m r]; try done. intros [= <-]. cbn. by destruct (matching m).
  - unfold cb_step; cbn [sw_lock sw_waker sw_registered sw_ready sw_woken sw_poll sw_cb sw_events sw_freed sw_due].
    destruct cp; try done.
    + unfold try_lock_fast, compare_exchange. destruct (l =? UNLOCKED) eqn:Hl; intros [= <-]; cbn in *.
      * done.
      * intros. destruct pp; cbn in *; done.
    + by intros [= <-].
    + assert (wk = true) as ->; [|by intros [= <-]]. destruct rg; [auto|]. by destruct (I5 eq_refl).
    + by intros [= <-].
    + intros [= <-] _ _ _. cbn. by rewrite orb_true_r.
  - destruct pp, cp, fr; try done; intros [= <-]; done.
Qed.

(** The events that make the socket ready match the mask. *)
Definition announced (e : sw_event) : bool :=
  match e with NetEvent m true => matching m | _ => true end.

Lemma announced_step s e s' :
  sw_inv s -> sw_step s e = Some s' -> announced e = true -> sw_freed s' = false ->
  (sw_ready s = true -> attentive s = true) -> sw_ready s' = true -> attentive s' = true.
Proof.
  intros I Hs Ha Hf IH Hr. destruct (sw_ready s) eqn:Hrs.
  - eapply attentive_step; eauto.
  - apply (swi_due _ (sw_step_inv _ _ _ I Hs)); [|done]. revert Hs Hr.
    destruct e as [| |m b| | |]; cbn [sw_step].
    + destruct (sw_poll s), (sw_woken s), (sw_freed s); try done. intros [= <-]. cbn. congruence.
    + unfold poll_step. destruct (sw_poll s); try done; try (intros [= <-]; cbn; congruence).
      destruct (try_lock_fast _) as [[] ?]; intros [= <-]; cbn; congruence.
    + intros [= <-]. cbn. intros ->. cbn in Ha. rewrite Ha. apply orb_true_r.
    + destruct (sw_cb s), (sw_events s); try done. intros [= <-]. cbn. congruence.
    + unfold cb_step. destruct (sw_cb s); try done; try (intros [= <-]; cbn; congruence).
      * destruct (try_lock_fast _) as [[] ?]; intros [= <-]; cbn; congruence.
      * destruct (sw_waker s); intros [= <-]; cbn; congruence.
    + destruct (sw_poll s), (sw_cb s), (sw_freed s); try done; intros [= <-]; cbn in *; congruence.
Qed.

Lemma freed_stays s e s' : sw_step s e = Some s' -> sw_freed s' = false -> sw_freed s = false.
Proof.
  destruct (sw_freed s) eqn:Hf; [|done]. destruct e as [| |m b| | |]; cbn [sw_step].
  - rewrite Hf. by destruct (sw_poll s), (sw_woken s).
  - unfold poll_step. destruct (sw_poll s); try done; try (intros [= <-]; cbn; congruence).
    destruct (try_lock_fast _) as [[] ?]; intros [= <-]; cbn; congruence.
  - intros [= <-]. cbn. congruence.
  - destruct (sw_cb s), (sw_events s); try done. intros [= <-]. cbn. congruence.
  - unfold cb_step. destruct (sw_cb s); try done; try (intros [= <-]; cbn; congruence).
    + destruct (try_lock_fast _) as [[] ?]; intros [= <-]; cbn; congruence.
    + destruct (sw_waker s); intros [= <-]; cbn; congruence.
  - rewrite Hf. by destruct (sw_poll s), (sw_cb s).
Qed.

Lemma announced_run es : forall s s',
  sw_inv s -> exec sw_step s es = Some s' -> forallb announced es = true ->
  (sw_freed s = false -> sw_ready s = true -> attentive s = true) ->
  sw_freed s' = false -> sw_ready s' = true -> attentive s' = true.
Proof.
  induction es as [|e r IH]; intros s s' I; cbn [exec forallb]; [by intros [= <-]|].
  destruct (sw_step s e) as [s1|] eqn:Hs; [|done]. intros Hx [Ha Hr]%andb_true_iff Hat.
  eapply IH; [by eapply sw_step_inv|exact Hx|done|].
  intros Hf1 Hr1. eapply announced_step; eauto. intros Hrs. apply Hat; [|done]. by eapply freed_stays.
Qed.

(** The steps of the task and of the callbacks already due. *)
Definition internal (e : sw_event) : bool :=
  match e with Run | PollStep | CbStart | CbStep => true | _ => false end.

Definition poll_rank (pc : poll_pc) : nat :=
  match pc with
  | PollDone => 0 | PollOp => 1 | PollQueue => 2 | PollUnlock => 3 | PollSlow => 3
  | PollStore => 4 | PollTry => 5 | Parked => 6
  end.
Definition cb_rank (pc : cb_pc) : nat :=
  match pc with CbIdle => 0 | CbWake => 1 | CbSlow => 1 | CbUnlock => 2 | CbClone => 3 | CbTry => 4 end.

Definition sw_rank (s : sock_wait) : nat :=
  (poll_rank (sw_poll s) + cb_rank (sw_cb s) + 5 * length (sw_events s))%nat.

(** On a ready socket every such step brings the end nearer. *)
Lemma internal_step s e s' :
  internal e = true -> sw_step s e = Some s' -> sw_ready s = true -> sw_freed s = false ->
  sw_ready s' = true /\ sw_freed s' = false /\ (sw_rank s' < sw_rank s)%nat.
Proof.
  intros Hi Hs Hr Hf. destruct s as [l wk rg rd wo pp cp evs fr du].
  cbn [sw_ready sw_freed] in *. subst rd fr. destruct e as [| |m b| | |]; try done; revert Hs; cbn [sw_step].
  - cbn. destruct pp, wo; try done. intros [= <-]. unfold sw_rank; cbn. split_and!; try done; lia.
  - unfold poll_step; cbn. destruct pp; try done;
      try (intros [= <-]; unfold sw_rank; cbn; split_and!; try done; lia).
    destruct (try_lock_fast l) as [[] ?]; intros [= <-]; unfold sw_rank; cbn; split_and!; try done; lia.
  - cbn. destruct cp, evs as [|m r]; try done. intros [= <-].
    destruct (matching m); unfold sw_rank; cbn; split_and!; try done; lia.
  - unfold cb_step; cbn. destruct cp; try done;
      try (intros [= <-]; unfold sw_rank; cbn; split_and!; try done; lia).
    + destruct (try_lock_fast l) as [[] ?]; intros [= <-]; unfold sw_rank; cbn; split_and!; try done; lia.
    + destruct wk; intros [= <-]; unfold sw_rank; cbn; split_and!; try done; lia.
Qed.

Lemma internal_run es : forall s s',
  sw_inv s -> forallb internal es = true -> exec sw_step s es = Some s' ->
  sw_ready s = true -> sw_freed s = false -> attentive s = true ->
  sw_inv s' /\ attentive s' = true /\ (length es + sw_rank s' <= sw_rank s)%nat.
Proof.
  induction es as [|e r IH]; intros s s' I Hi Hx Hr Hf Ha; cbn [exec forallb] in *.
  - injection Hx as <-. split_and!; [done|done|cbn; lia].
  - apply andb_true_iff in Hi as [He Hi]. destruct (sw_step s e) as [s1|] eqn:Hs; [|done].
    destruct (internal_step _ _ _ He Hs Hr Hf) as (Hr1 & Hf1 & Hlt).
    destruct (IH s1 s') as (I' & Ha' & Hle); try done; [by eapply sw_step_inv|by eapply attentive_step|].
    split_and!; [done|done|]. cbn. lia.
Qed.

(** An attentive future that has not completed has a step to take. *)
Lemma attentive_progress s :
  sw_inv s -> sw_freed s = false -> attentive s = true -> sw_poll s <> PollDone ->
  exists e s', internal e = true /\ sw_step s e = Some s'.
Proof.
  intros I Hf Ha Hd. destruct s as [l wk rg rd wo pp cp evs fr du].
  cbn [sw_lock sw_waker sw_registered sw_ready sw_woken sw_poll sw_cb sw_events sw_freed] in *. subst fr.
  destruct (decide (pp = Parked)) as [->|Hp].
  - destruct wo; [by exists Run; eexists|]. unfold attentive, will_wake in Ha. cbn in Ha.
    destruct cp; [destruct evs as [|m r]; [done|by exists CbStart; eexists]|exists CbStep; cbn; unfold cb_step; cbn..];
      repeat case_match; eauto.
  - exists PollStep. cbn. unfold poll_step. destruct pp; cbn; repeat case_match; eauto; done.
Qed.

(** ** Properties *)

(** C28. No event is lost: in every interleaving of [poll] with [wake_callback], when an
    event that matches the mask has come since the operation was last tried and the task
    is parked, with no callback running or due, the task has been woken.  So when the
    events that make the socket ready match the mask, a ready socket never leaves its task
    parked.  A callback only ever runs while the future's [CallbackState] is alive and
    holds a waker.  (Events that do not match are [unmatched_event_parks].) *)
Theorem no_lost_wakeup s :
  sw_reach s ->
  (sw_due s = true -> sw_freed s = false -> sw_poll s = Parked ->
   sw_cb s = CbIdle -> sw_events s = [] -> sw_woken s = true) /\
  (forall ready es, exec sw_step (sw_new ready) es = Some s -> forallb announced es = true ->
   sw_ready s = true -> sw_freed s = false -> sw_poll s = Parked ->
   sw_cb s = CbIdle -> sw_events s = [] -> sw_woken s = true) /\
  (sw_cb s <> CbIdle -> sw_freed s = false /\ sw_waker s = true).
Proof.
  intros I%sw_reach_inv.
  assert (Hw : attentive s = true -> sw_poll s = Parked -> sw_cb s = CbIdle -> sw_events s = [] ->
    sw_woken s = true).
  { unfold attentive, will_wake. intros H Hp Hc He. rewrite Hp, Hc, He in H. cbn in H. by rewrite orb_false_r in H. }
  split_and!.
  - intros Hd Hf. apply Hw. by apply (swi_due _ I).
  - intros rd es Hx Ha Hr Hf. apply Hw. by eapply announced_run; [apply sw_new_inv|exact Hx|..].
  - intros Hc. destruct (sw_registered s) eqn:Hreg.
    + split; [|by apply (swi_waker _ I)]. destruct (sw_freed s) eqn:Hf; [|done].
      destruct (swi_freed _ I Hf). congruence.
    + by destruct (swi_idle _ I Hreg).
Qed.

(** C29. A ready socket that was announced completes its future: in every reachable state
    where the socket is ready and a matching event has come since the operation was last
    tried, or [poll] runs, or the task is woken, every schedule of the task and of the
    callbacks already due is bounded and ends, when no such step is left, with
    [Poll::Ready], without any further event of the network. *)
Theorem socket_future_completes s :
  sw_reach s -> sw_ready s = true -> sw_freed s = false ->
  sw_due s = true \/ sw_woken s = true \/ sw_poll s <> Parked ->
  forall es s', forallb internal es = true -> exec sw_step s es = Some s' ->
    (length es <= 10 + 5 * length (sw_events s))%nat /\
    (sw_poll s' = PollDone \/ exists e s2, internal e = true /\ sw_step s' e = Some s2).
Proof.
  intros I%sw_reach_inv Hr Hf Hcase es s' Hi Hx.
  assert (Ha : attentive s = true).
  { destruct Hcase as [Hd|[Hw|Hp]]; [by apply (swi_due _ I)| |]; unfold attentive.
    - rewrite Hw. by rewrite orb_true_r.
    - unfold will_try. by rewrite bool_decide_eq_false_2. }
  destruct (internal_run es s s' I Hi Hx Hr Hf Ha) as (I' & Ha' & Hle). split.
  - enough (sw_rank s <= 10 + 5 * length (sw_events s))%nat by lia.
    unfold sw_rank. destruct (sw_poll s), (sw_cb s); cbn; lia.
  - destruct (decide (sw_poll s' = PollDone)) as [|Hd]; [by left|right].
    apply attentive_progress; try done. clear -Hi Hx Hf Hr. revert s Hx Hf Hr Hi.
    induction es as [|e r IH]; intros s Hx Hf Hr Hi; cbn [exec forallb] in *; [by injection Hx as <-|].
    apply andb_true_iff in Hi as [He Hi]. destruct (sw_step s e) as [s1|] eqn:Hs; [|done].
    destruct (internal_step _ _ _ He Hs Hr Hf) as (Hr1 & Hf1 & _). eauto.
Qed.

(** The callback ignores an event outside the mask, the empty one included: the
    task is not woken by it. *)
Lemma unmatched_event_ignored s m r :
  matching m = false -> sw_cb s = CbIdle -> sw_events s = m :: r ->
  sw_step s CbStart = Some (set_cb s (sw_lock s) (sw_woken s) CbIdle r).
Proof. intros Hm Hc He. cbn. by rewrite Hc, He, Hm. Qed.

(** A first poll that would block. *)
Definition first_block : list sw_event := [Run; PollStep; PollStep; PollStep; PollStep; PollStep].

(** A socket that becomes ready by an event outside the mask leaves its future parked, with
    no wake-up under way: nothing but another event can move it. *)
Theorem unmatched_event_parks m :
  matching m = false ->
  exists s, exec sw_step (sw_new false) (first_block ++ [NetEvent m true; CbStart]) = Some s /\
    sw_ready s = true /\ sw_poll s = Parked /\ sw_woken s = false /\
    forall e, internal e = true -> sw_step s e = None.
Proof.
  intros Hm. eexists. split; [cbn; rewrite Hm; reflexivity|]. split_and!; try done. by intros [].
Qed.
End SocketWake.

(** [POLLIN] and [POLLOUT] do not match the key of an error or of a change of state. *)
Definition linux_POLLIN : Z := 1.
Definition linux_POLLOUT : Z := 4.
Definition linux_POLLERR : Z := 8.

Lemma error_wakeups_unmatched :
  Forall (fun m => matching linux_POLLIN m = false /\ matching linux_POLLOUT m = false) [0; linux_POLLERR].
Proof. repeat constructor. Qed.

(** A first poll that would block, then data arrives and the callback wakes the
    task. *)
Definition sw_trace : list sw_event :=
  [Run; PollStep; PollStep; PollStep; PollStep; PollStep; NetEvent 1 true; CbStart; CbStep; CbStep;
   CbStep; CbStep].

Definition sw_after (es : list sw_event) : sock_wait :=
  match exec (sw_step 1) (sw_new false) es with Some s => s | None => sw_new false end.

Lemma no_lost_wakeup_witness :
  sw_ready (sw_after sw_trace) = true /\ sw_poll (sw_after sw_trace) = Parked /\
  sw_due (sw_after sw_trace) = true /\ sw_woken (sw_after sw_trace) = true.
Proof.
  split; [by vm_compute|]. split; [by vm_compute|]. split; [by vm_compute|].
  destruct (no_lost_wakeup 1 (sw_after sw_trace)) as [H _].
  - exists false, sw_trace. by vm_compute.
  - apply H; by vm_compute.
Defined.

Lemma socket_future_completes_witness :
  let s := sw_after (take 8 sw_trace) in
  sw_ready s = true /\ sw_due s = true /\
  (sw_poll s = PollDone \/ exists e s2, internal e = true /\ sw_step 1 s e = Some s2).
Proof.
  cbv zeta. split; [by vm_compute|]. split; [by vm_compute|].
  apply (socket_future_completes 1 (sw_after (take 8 sw_trace))) with (es := []).
  - exists false, (take 8 sw_trace). by vm_compute.
  - by vm_compute.
  - by vm_compute.
  - left. by vm_compute.
  - reflexivity.
  - reflexivity.
Defined.

Lemma unmatched_event_parks_witness :
  exists s, exec (sw_step linux_POLLIN) (sw_new false) (first_block ++ [NetEvent linux_POLLERR true; CbStart]) = Some s /\
    sw_ready s = true /\ sw_poll s = Parked /\ sw_woken s = false.
Proof.
  destruct (unmatched_event_parks linux_POLLIN linux_POLLERR) as (s & H1 & H2 & H3 & H4 & _); [reflexivity|].
  exists s. auto.
Defined.
