(* ===== verification/Oneshot.v ===== *)
(** * The async one-shot channel (rko-core/src/kasync/oneshot.rs)

    Sender and receiver share one heap cell with a value, a waker, an atomic state
    and an atomic reference count.  Each side has a program counter, and each event
    is one access of the cell.  A store first enters the buffer of the thread that
    makes it and reaches memory in order: with [tso] the buffer may hold stores
    back (total store order, what x86 does with the source's release stores and
    plain stores), without it every store is immediate (sequential consistency).
    The read-modify-write of the reference count drains the thread's buffer. *)
From Stdlib Require Import ZArith Lia Bool.
From stdpp Require Import base list option numbers.
From S2P Require Import Prelude Pool.

Definition STATE_EMPTY : Z := 0.
Definition STATE_SENT : Z := 1.
Definition STATE_CLOSED : Z := 2.

(** Where the sender stands in [send] or in its [Drop]. *)
Inductive snd_pc : Type :=
| SndIdle | SndStoreState (st : Z) | SndTake | SndWake (found : bool) | SndDecRef | SndGone.

(** Where the receiver stands in [poll]. *)
Inductive rcv_pc : Type :=
| RcvParked | RcvLoad | RcvStoreWaker | RcvRecheck | RcvRead | RcvReady | RcvDecRef | RcvGone.

#[global] Instance snd_pc_eq_dec : EqDecision snd_pc.
Proof. solve_decision. Defined.
#[global] Instance rcv_pc_eq_dec : EqDecision rcv_pc.
Proof. solve_decision. Defined.

Section Oneshot.
Context {V : Type}.

(** The stores a buffer can hold. *)
Inductive store : Type := StValue (v : V) | StState (st : Z) | StWaker (present : bool).

(** [o_value]: written and not yet moved out; [o_frees]: how often the cell was
    freed; [o_bad]: an access to the freed cell or a read of a value that is not
    there; [o_woken]: the receiver's task is queued; [o_outcome]: what the sender
    does (a value, or dropped without one); [o_result]: what [poll] returned. *)
Record chan : Type := mkChan {
  o_value : option V; o_waker : bool; o_state : Z; o_refcount : Z; o_frees : Z; o_bad : bool;
  o_snd : snd_pc; o_rcv : rcv_pc; o_sbuf : list store; o_rbuf : list store;
  o_woken : bool; o_outcome : option (option V); o_result : option (option V) }.

Inductive o_event : Type :=
| Send (v : V)      (** [Sender::send] starts *)
| DropSender        (** the sender is dropped unused *)
| SndStep           (** the sender's next access *)
| Poll              (** the executor polls the receiver *)
| RcvStep           (** the receiver's next access *)
| DropReceiver      (** [Drop for Receiver] *)
| FlushSnd          (** the sender's oldest buffered store reaches memory *)
| FlushRcv.         (** the receiver's *)

(** [channel]; the receiver's task is about to poll. *)
Definition o_new : chan :=
  mkChan None false STATE_EMPTY 2 0 false SndIdle RcvParked [] [] true None None.

Definition write (s : store) (c : chan) : chan :=
  match s with
  | StValue v => mkChan (Some v) (o_waker c) (o_state c) (o_refcount c) (o_frees c) (o_bad c)
      (o_snd c) (o_rcv c) (o_sbuf c) (o_rbuf c) (o_woken c) (o_outcome c) (o_result c)
  | StState z => mkChan (o_value c) (o_waker c) z (o_refcount c) (o_frees c) (o_bad c)
      (o_snd c) (o_rcv c) (o_sbuf c) (o_rbuf c) (o_woken c) (o_outcome c) (o_result c)
  | StWaker b => mkChan (o_value c) b (o_state c) (o_refcount c) (o_frees c) (o_bad c)
      (o_snd c) (o_rcv c) (o_sbuf c) (o_rbuf c) (o_woken c) (o_outcome c) (o_result c)
  end.

(** Every access goes through the pointer to the shared cell. *)
Definition set_snd (pc : snd_pc) (c : chan) : chan :=
  mkChan (o_value c) (o_waker c) (o_state c) (o_refcount c) (o_frees c)
    (o_bad c || (0 <? o_frees c)) pc (o_rcv c) (o_sbuf c) (o_rbuf c) (o_woken c)
    (o_outcome c) (o_result c).
Definition set_rcv (pc : rcv_pc) (c : chan) : chan :=
  mkChan (o_value c) (o_waker c) (o_state c) (o_refcount c) (o_frees c)
    (o_bad c || (0 <? o_frees c)) (o_snd c) pc (o_sbuf c) (o_rbuf c) (o_woken c)
    (o_outcome c) (o_result c).

(** [dec_ref]: the count goes down, and the one who takes it to zero frees. *)
Definition dec_ref (c : chan) : chan :=
  mkChan (o_value c) (o_waker c) (o_state c) (wrap 8 (o_refcount c - 1))
    (if o_refcount c =? 1 then o_frees c + 1 else o_frees c) (o_bad c)
    (o_snd c) (o_rcv c) (o_sbuf c) (o_rbuf c) (o_woken c) (o_outcome c) (o_result c).

Definition set_woken (b : bool) (c : chan) : chan :=
  mkChan (o_value c) (o_waker c) (o_state c) (o_refcount c) (o_frees c) (o_bad c)
    (o_snd c) (o_rcv c) (o_sbuf c) (o_rbuf c) b (o_outcome c) (o_result c).
Definition set_outcome (o : option V) (c : chan) : chan :=
  mkChan (o_value c) (o_waker c) (o_state c) (o_refcount c) (o_frees c) (o_bad c)
    (o_snd c) (o_rcv c) (o_sbuf c) (o_rbuf c) (o_woken c) (Some o) (o_result c).

(** [assume_init_read] moves the value out; the cell must hold one. *)
Definition finish (r : option V) (c : chan) : chan :=
  mkChan (o_value c) (o_waker c) (o_state c) (o_refcount c) (o_frees c) (o_bad c)
    (o_snd c) RcvReady (o_sbuf c) (o_rbuf c) (o_woken c) (o_outcome c) (Some r).
Definition read_value (c : chan) : chan :=
  match o_value c with
  | Some v => finish (Some v)
      (mkChan None (o_waker c) (o_state c) (o_refcount c) (o_frees c)
         (o_bad c || (0 <? o_frees c)) (o_snd c) (o_rcv c) (o_sbuf c) (o_rbuf c) (o_woken c)
         (o_outcome c) (o_result c))
  | None => mkChan None (o_waker c) (o_state c) (o_refcount c) (o_frees c) true
      (o_snd c) RcvReady (o_sbuf c) (o_rbuf c) (o_woken c) (o_outcome c) (o_result c)
  end.

Section Steps.
Variable tso : bool.

(** A store of either thread. *)
Definition snd_store (s : store) (c : chan) : chan :=
  if tso then mkChan (o_value c) (o_waker c) (o_state c) (o_refcount c) (o_frees c) (o_bad c)
      (o_snd c) (o_rcv c) (o_sbuf c ++ [s]) (o_rbuf c) (o_woken c) (o_outcome c) (o_result c)
  else write s c.
Definition rcv_store (s : store) (c : chan) : chan :=
  if tso then mkChan (o_value c) (o_waker c) (o_state c) (o_refcount c) (o_frees c) (o_bad c)
      (o_snd c) (o_rcv c) (o_sbuf c) (o_rbuf c ++ [s]) (o_woken c) (o_outcome c) (o_result c)
  else write s c.

(** [wake]: take the waker, and call it if there was one. *)
Definition wake_take (c : chan) : chan := set_snd (SndWake (o_waker c)) (snd_store (StWaker false) c).
Definition wake_call (found : bool) (c : chan) : chan :=
  set_snd SndDecRef (if found then set_woken true c else c).

(** [Sender::send] and [Drop for Sender]: the state, then [wake], then [dec_ref]. *)
Definition snd_step (c : chan) : option chan :=
  match o_snd c with
  | SndIdle | SndGone => None
  | SndStoreState st => Some (set_snd SndTake (snd_store (StState st) c))
  | SndTake => Some (wake_take c)
  | SndWake found => Some (wake_call found c)
  | SndDecRef =>
      match o_sbuf c with [] => Some (dec_ref (set_snd SndGone c)) | _ => None end
  end.

(** [Receiver::poll]; the receiver stores nothing that it reads back. *)
Definition rcv_match (empty : rcv_pc) (ret : chan -> chan) (c : chan) : chan :=
  if o_state c =? STATE_SENT then set_rcv RcvRead c
  else if o_state c =? STATE_CLOSED then finish None (set_rcv RcvReady c)
  else ret (set_rcv empty c).

Definition rcv_step (c : chan) : option chan :=
  match o_rcv c with
  | RcvParked | RcvReady | RcvGone => None
  | RcvLoad => Some (rcv_match RcvStoreWaker (fun c => c) c)
  | RcvStoreWaker => Some (set_rcv RcvRecheck (rcv_store (StWaker true) c))
  | RcvRecheck => Some (rcv_match RcvParked (fun c => c) c)
  | RcvRead => Some (read_value c)
  | RcvDecRef =>
      match o_rbuf c with [] => Some (dec_ref (set_rcv RcvGone c)) | _ => None end
  end.

Definition o_step (c : chan) (e : o_event) : option chan :=
  match e with
  | Send v =>
      match o_snd c with
      | SndIdle =>
          Some (set_outcome (Some v) (set_snd (SndStoreState STATE_SENT) (snd_store (StValue v) c)))
      | _ => None
      end
  | DropSender =>
      match o_snd c with
      | SndIdle => Some (set_outcome None (set_snd (SndStoreState STATE_CLOSED) c))
      | _ => None
      end
  | SndStep => snd_step c
  | Poll =>
      match o_rcv c, o_woken c with
      | RcvParked, true => Some (set_woken false (set_rcv RcvLoad c))
      | _, _ => None
      end
  | RcvStep => rcv_step c
  | DropReceiver =>
      match o_rcv c with
      | RcvParked | RcvReady => Some (set_rcv RcvDecRef c)
      | _ => None
      end
  | FlushSnd =>
      match o_sbuf c with
      | [] => None
      | s :: r => Some (write s (mkChan (o_value c) (o_waker c) (o_state c) (o_refcount c)
          (o_frees c) (o_bad c) (o_snd c) (o_rcv c) r (o_rbuf c) (o_woken c) (o_outcome c) (o_result c)))
      end
  | FlushRcv =>
      match o_rbuf c with
      | [] => None
      | s :: r => Some (write s (mkChan (o_value c) (o_waker c) (o_state c) (o_refcount c)
          (o_frees c) (o_bad c) (o_snd c) (o_rcv c) (o_sbuf c) r (o_woken c) (o_outcome c) (o_result c)))
      end
  end.
End Steps.

Definition o_reach (tso : bool) (c : chan) : Prop := exists es, exec (o_step tso) o_new es = Some c.
End Oneshot.
Arguments chan V : clear implicits.
Arguments o_event V : clear implicits.

(** ** Three runs *)

(** Under total store order the sender can read the waker before its state store is
    visible, while the receiver re-reads the state before it sees that store: the
    value is sent, the receiver is parked, and nobody wakes it. *)
Definition lost_wakeup_run : list (o_event Z) :=
  [Poll; RcvStep; RcvStep; Send 7; SndStep; SndStep; FlushRcv; RcvStep;
   SndStep; FlushSnd; FlushSnd; FlushSnd; SndStep].

Theorem oneshot_wakeup_lost_under_tso :
  exists c, exec (o_step true) o_new lost_wakeup_run = Some c /\
    o_snd c = SndGone /\ o_state c = STATE_SENT /\ o_value c = Some 7 /\
    o_rcv c = RcvParked /\ o_woken c = false /\ o_sbuf c = [] /\ o_rbuf c = [].
Proof. eexists. split; [vm_compute; reflexivity|]. split_and!; reflexivity. Qed.

(** The sender's take and the receiver's store of the waker, both plain accesses of
    the same cell, can be the next step of both sides at once. *)
Theorem oneshot_waker_race :
  exists c : chan Z, exec (o_step false) o_new [Poll; RcvStep; Send 7; SndStep] = Some c /\
    o_snd c = SndTake /\ o_rcv c = RcvStoreWaker.
Proof. eexists. split; [vm_compute; reflexivity|]. split_and!; reflexivity. Qed.

(** A receiver dropped after the value was sent: the cell is freed with the value
    still in it. *)
Theorem oneshot_value_leaked :
  exists c, exec (o_step false) o_new
      [Send 7; SndStep; SndStep; SndStep; SndStep; DropReceiver; RcvStep] = Some c /\
    o_frees c = 1 /\ o_value c = Some 7 /\ o_result c = None.
Proof. eexists. split; [vm_compute; reflexivity|]. split_and!; reflexivity. Qed.

(** ** Invariant without store buffering *)

Section Invariant.
Context {V : Type}.

Definition snd_live (pc : snd_pc) : Z := match pc with SndGone => 0 | _ => 1 end.
Definition rcv_live (pc : rcv_pc) : Z := match pc with RcvGone => 0 | _ => 1 end.

(** What the sender's position says of the state, the outcome and the value. *)
Definition snd_ok (c : chan V) : Prop :=
  match o_snd c with
  | SndIdle => o_state c = STATE_EMPTY /\ o_outcome c = None
  | SndStoreState st =>
      o_state c = STATE_EMPTY /\
      ((st = STATE_SENT /\ exists v, o_outcome c = Some (Some v) /\ o_value c = Some v) \/
       (st = STATE_CLOSED /\ o_outcome c = Some None))
  | _ =>
      (o_state c = STATE_SENT /\
       exists v, o_outcome c = Some (Some v) /\ (o_result c = None -> o_value c = Some v)) \/
      (o_state c = STATE_CLOSED /\ o_outcome c = Some None)
  end.

(** What the receiver's position says of its result. *)
Definition rcv_ok (c : chan V) : Prop :=
  match o_rcv c with
  | RcvReady => exists r, o_result c = Some r /\ o_outcome c = Some r
  | RcvRead => o_state c = STATE_SENT /\ o_result c = None
  | RcvDecRef | RcvGone => o_result c = None \/ o_result c = o_outcome c
  | _ => o_result c = None
  end.

(** A parked receiver is queued, or its waker is there for a sender that has yet to
    take it, or is in the hands of the sender. *)
Definition wake_ok (c : chan V) : Prop :=
  match o_rcv c with
  | RcvParked =>
      o_woken c = true \/ o_snd c = SndWake true \/
      (o_waker c = true /\ match o_snd c with SndIdle | SndStoreState _ | SndTake => True | _ => False end)
  | RcvRecheck => o_state c = STATE_EMPTY -> o_waker c = true
  | _ => True
  end.

Record o_inv (c : chan V) : Prop := {
  oi_bufs : o_sbuf c = [] /\ o_rbuf c = [];
  oi_ref : o_refcount c = snd_live (o_snd c) + rcv_live (o_rcv c);
  oi_frees : o_frees c = if bool_decide (o_refcount c = 0) then 1 else 0;
  oi_bad : o_bad c = false;
  oi_snd : snd_ok c;
  oi_rcv : rcv_ok c;
  oi_wake : wake_ok c }.

Lemma o_new_inv : o_inv o_new.
Proof. split; cbn; auto. Qed.

(** While a handle is live the cell has not been freed. *)
Lemma live_not_freed c :
  o_inv c -> o_snd c <> SndGone \/ o_rcv c <> RcvGone -> (0 <? o_frees c) = false.
Proof.
  intros I H. rewrite (oi_frees _ I). rewrite bool_decide_eq_false_2; [done|].
  rewrite (oi_ref _ I). destruct (o_snd c), (o_rcv c); cbn; try lia. by destruct H.
Qed.

Ltac o_split c I :=
  destruct I as [[Ib1 Ib2] Ir If Ibad Is Irc Iw];
  destruct c as [val wk st rc fr bad sp rp sb rb wo oc rs];
  cbn [o_value o_waker o_state o_refcount o_frees o_bad o_snd o_rcv o_sbuf o_rbuf o_woken
       o_outcome o_result] in *; subst sb rb bad.

Ltac o_done :=
  split; unfold snd_ok, rcv_ok, wake_ok in *; cbn -[Z.ltb Z.eqb wrap] in *; subst; auto; try done; try lia.

Lemma snd_step_inv c c' : o_inv c -> snd_step false c = Some c' -> o_inv c'.
Proof.
  intros I. pose proof (live_not_freed c I) as Hl. o_split c I.
  destruct sp as [|z| |[]| |]; unfold snd_step, wake_take, wake_call, set_snd, dec_ref; cbn -[Z.ltb Z.eqb wrap]; try done;
    rewrite Hl by (left; done); intros [= <-].
  - o_done.
    + destruct Is as [_ [[-> (v & H1 & H2)]|[-> H]]]; [left|right]; [split; [done|]; eauto|done].
    + destruct rp; auto. destruct Irc as [-> _]. by destruct Is.
    + destruct rp; auto; [destruct Iw as [?|[?|[? _]]]; auto; discriminate|].
      destruct Is as [_ [[-> _]|[-> _]]]; done.
  - o_done; destruct rp; auto; destruct Is as [[-> _]|[-> _]]; try done;
      destruct Iw as [?|[?|[? _]]]; subst; auto; discriminate.
  - o_done; destruct rp; auto; destruct Iw as [?|[?|[? []]]]; auto; discriminate.
  - o_done; destruct rp; auto; destruct Iw as [?|[?|[? []]]]; auto; discriminate.
  - o_done.
    + destruct rp; cbn; by rewrite wrap_small.
    + destruct rp; cbn in *; rewrite wrap_small by lia; done.
    + destruct rp; auto; destruct Iw as [?|[?|[? []]]]; auto; discriminate.
Qed.

Definition snd_early (pc : snd_pc) : bool :=
  match pc with SndIdle | SndStoreState _ => true | _ => false end.

Lemma snd_ok_cases c :
  snd_ok c ->
  (o_state c = STATE_EMPTY /\ snd_early (o_snd c) = true) \/
  (o_state c = STATE_SENT /\ snd_early (o_snd c) = false /\
   exists v, o_outcome c = Some (Some v) /\ (o_result c = None -> o_value c = Some v)) \/
  (o_state c = STATE_CLOSED /\ snd_early (o_snd c) = false /\ o_outcome c = Some None).
Proof. unfold snd_ok. destruct (o_snd c); cbn; tauto. Qed.

Lemma rcv_step_inv c c' : o_inv c -> rcv_step false c = Some c' -> o_inv c'.
Proof.
  intros I. pose proof (live_not_freed c I) as Hl. pose proof (snd_ok_cases c (oi_snd _ I)) as Hc.
  o_split c I.
  destruct rp; unfold rcv_step, rcv_match, read_value, finish, set_rcv, dec_ref;
    cbn -[Z.ltb Z.eqb wrap]; try done; rewrite ?Hl by (right; done).
  - destruct Hc as [[-> He]|[(-> & He & v & Ho & Hv)|(-> & He & Ho)]]; cbn -[Z.ltb wrap];
      intros [= <-]; o_done; [destruct sp; try done; by right|eauto].
  - intros [= <-]; o_done.
  - destruct Hc as [[-> He]|[(-> & He & v & Ho & Hv)|(-> & He & Ho)]]; cbn -[Z.ltb wrap];
      intros [= <-]; o_done.
    + right; right. destruct sp; auto; done.
    + destruct sp; try done; by right.
    + eauto.
  - unfold rcv_ok in Irc. cbn in Irc. destruct Irc as [-> ->].
    destruct Hc as [[? _]|[(_ & He & v & Ho & Hv)|(? & _)]]; try done.
    rewrite (Hv eq_refl). cbn -[Z.ltb wrap]. intros [= <-]. o_done; [|eauto].
    destruct sp; try done; left; split; eauto; exists v; done.
  - intros [= <-]; o_done; destruct sp; cbn in *; by rewrite ?wrap_small.
Qed.

(** Starting to send does not disturb a parked receiver. *)
Lemma wake_kept rp wo wk z :
  match rp with
  | RcvParked => wo = true \/ SndIdle = SndWake true \/ (wk = true /\ True)
  | RcvRecheck => STATE_EMPTY = STATE_EMPTY -> wk = true
  | _ => True
  end ->
  match rp with
  | RcvParked => wo = true \/ SndStoreState z = SndWake true \/ (wk = true /\ True)
  | RcvRecheck => STATE_EMPTY = STATE_EMPTY -> wk = true
  | _ => True
  end.
Proof. destruct rp; auto. intros [?|[?|?]]; auto. discriminate. Qed.

Lemma o_step_inv c e c' : o_inv c -> o_step false c e = Some c' -> o_inv c'.
Proof.
  intros I. pose proof (live_not_freed c I) as Hl. pose proof (snd_ok_cases c (oi_snd _ I)) as Hc.
  destruct e as [v| | | | | | |]; cbn [o_step]; [| |by apply snd_step_inv| |by apply rcv_step_inv| | |].
  - o_split c I. destruct sp; try done. unfold set_outcome, set_snd. cbn -[Z.ltb wrap].
    rewrite Hl by (left; done). intros [= <-]. unfold snd_ok in Is. cbn in Is. destruct Is as [-> ->].
    o_done; [split; [done|]; left; eauto| |by apply wake_kept].
    destruct rp; auto; try (destruct Irc as (r & _ & ?)); try (destruct Irc); try done; auto.
  - o_split c I. destruct sp; try done. unfold set_outcome, set_snd. cbn -[Z.ltb wrap].
    rewrite Hl by (left; done). intros [= <-]. unfold snd_ok in Is. cbn in Is. destruct Is as [-> ->].
    o_done; [|by apply wake_kept].
    destruct rp; auto; try (destruct Irc as (r & _ & ?)); try (destruct Irc); try done; auto.
  - o_split c I. destruct rp, wo; try done. unfold set_woken, set_rcv. cbn -[Z.ltb wrap].
    rewrite Hl by (right; done). intros [= <-]. o_done.
  - o_split c I. destruct rp; try done; unfold set_rcv; cbn -[Z.ltb wrap];
      rewrite Hl by (right; done); intros [= <-]; o_done.
    right. destruct Irc as (r & -> & ->). done.
  - o_split c I. done.
  - o_split c I. done.
Qed.

Lemma o_reach_inv c : o_reach false c -> o_inv c.
Proof. intros [es H]. exact (exec_invariant _ _ o_step_inv es _ c o_new_inv H). Qed.

(** ** Progress *)

Definition snd_rank (pc : snd_pc) : nat :=
  match pc with SndIdle => 5 | SndStoreState _ => 4 | SndTake => 3 | SndWake _ => 2 | SndDecRef => 1 | SndGone => 0 end.
Definition rcv_rank (pc : rcv_pc) : nat :=
  match pc with RcvParked => 5 | RcvLoad => 4 | RcvStoreWaker => 3 | RcvRecheck => 2 | RcvRead => 1 | _ => 0 end.
Definition o_rank (c : chan V) : nat := snd_rank (o_snd c) + rcv_rank (o_rcv c).

(** The receiver is still awaited, and the sender has started. *)
Definition awaited (c : chan V) : bool :=
  match o_rcv c with RcvDecRef | RcvGone => false | _ => true end &&
  match o_outcome c with Some _ => true | None => false end.

Definition o_internal (e : o_event V) : bool :=
  match e with SndStep | Poll | RcvStep => true | _ => false end.

Lemma o_progress c :
  o_inv c -> awaited c = true -> o_rcv c <> RcvReady ->
  exists e c', o_internal e = true /\ o_step false c e = Some c' /\
    awaited c' = true /\ o_outcome c' = o_outcome c /\ (o_rank c' < o_rank c)%nat.
Proof.
  intros I Ha Hr. pose proof (snd_ok_cases c (oi_snd _ I)) as Hc. o_split c I.
  unfold awaited in Ha. cbn in Ha. destruct sp as [|z| |[]| |];
    try (exists SndStep; eexists; split_and!; [done|reflexivity|exact Ha|done|cbn; lia]).
  - destruct Is as [_ Ho]. cbn in Ho. subst oc. destruct rp; done.
  - assert (Hst : st <> STATE_EMPTY) by (destruct Hc as [[_ ?]|[(-> & _)|(-> & _)]]; done).
    destruct rp; try done.
    + unfold wake_ok in Iw. cbn in Iw. destruct Iw as [->|[?|[_ []]]]; [|done].
      exists Poll. eexists. split_and!; [done|reflexivity|done|done|cbn; lia].
    + exists RcvStep. destruct Hc as [[? _]|[(-> & _)|(-> & _)]]; [done| |];
        eexists; (split_and!; [done|reflexivity|done|done|cbn; lia]).
    + exists RcvStep. eexists. split_and!; [done|reflexivity|done|done|cbn; lia].
    + exists RcvStep. destruct Hc as [[? _]|[(-> & _)|(-> & _)]]; [done| |];
        eexists; (split_and!; [done|reflexivity|done|done|cbn; lia]).
    + exists RcvStep. destruct val;
        eexists; (split_and!; [done|reflexivity|done|done|cbn; lia]).
Qed.

Lemma o_completes n : forall c,
  (o_rank c <= n)%nat -> o_inv c -> awaited c = true ->
  exists es c', forallb o_internal es = true /\ (length es <= n)%nat /\
    exec (o_step false) c es = Some c' /\ o_rcv c' = RcvReady /\ o_result c' = o_outcome c.
Proof.
  induction n as [|n IH]; intros c Hn I Ha;
    (destruct (decide (o_rcv c = RcvReady)) as [Hd|Hd];
     [exists [], c; pose proof (oi_rcv _ I) as Hr; unfold rcv_ok in Hr; rewrite Hd in Hr;
      destruct Hr as (r & -> & ->); cbn; split_and!; [done|lia|done|done|done]|]);
    destruct (o_progress c I Ha Hd) as (e & c1 & He & Hs & Ha1 & Ho & Hlt); [lia|].
  destruct (IH c1) as (es & c' & Hes & Hlen & Hex & Hdone & Hres); [lia|by eapply o_step_inv|done|].
  exists (e :: es), c'. cbn. rewrite He, Hs. rewrite Ho in Hres. split_and!; try done; lia.
Qed.
End Invariant.

(** ** Properties *)

(** C26. Memory safety of the channel: in every interleaving of the two handles the
    reference count is the number of live handles, nobody touches the cell after it
    was freed or reads a value that is not there, and the cell is freed exactly
    once, when both handles are gone. *)
Theorem oneshot_safe {V} (c : chan V) :
  o_reach false c ->
  o_bad c = false /\ o_refcount c = snd_live (o_snd c) + rcv_live (o_rcv c) /\
  o_frees c = (if bool_decide (o_snd c = SndGone /\ o_rcv c = RcvGone) then 1 else 0).
Proof.
  intros I%o_reach_inv. split_and!; [apply I|apply I|].
  rewrite (oi_frees _ I), (oi_ref _ I).
  destruct (o_snd c), (o_rcv c); repeat case_bool_decide; cbn in *; try done; naive_solver lia.
Qed.

(** C27. The receiver gets what was sent, without delay: from every reachable state
    in which the sender has started to send [v] (or to drop), at most ten steps of
    the two threads make [poll] return [Some v] (or [None]); no wake-up is lost on
    the way. *)
Theorem oneshot_delivers {V} (c : chan V) :
  o_reach false c -> awaited c = true ->
  exists es c', forallb o_internal es = true /\ (length es <= 10)%nat /\
    exec (o_step false) c es = Some c' /\ o_rcv c' = RcvReady /\ o_result c' = o_outcome c.
Proof.
  intros I%o_reach_inv Ha. apply o_completes; [|done|done].
  unfold o_rank. destruct (o_snd c), (o_rcv c); cbn; lia.
Qed.

Definition o_run : list (o_event Z) := [Poll; RcvStep; Send 7; SndStep; RcvStep].

Definition o_after (es : list (o_event Z)) : chan Z :=
  match exec (o_step false) o_new es with Some c => c | None => o_new end.

Lemma oneshot_safe_witness : o_bad (o_after o_run) = false /\ o_refcount (o_after o_run) = 2.
Proof.
  destruct (oneshot_safe (o_after o_run)) as (H1 & H2 & _).
  - exists o_run. by vm_compute.
  - split; [exact H1|]. rewrite H2. by vm_compute.
Defined.

Lemma oneshot_delivers_witness :
  exists es c', exec (o_step false) (o_after o_run) es = Some c' /\ o_rcv c' = RcvReady /\
    o_result c' = Some (Some 7).
Proof.
  destruct (oneshot_delivers (o_after o_run)) as (es & c' & _ & _ & H1 & H2 & H3).
  - exists o_run. by vm_compute.
  - by vm_compute.
  - exists es, c'. split; [exact H1|]. split; [exact H2|]. rewrite H3. by vm_compute.
Defined.
