(* ===== verification/UnsafeList.v ===== *)
(** * The intrusive list (rko-core/src/unsafe_list.rs)

    [Links] live in memory at addresses; the memory keeps the [next] and the
    [prev] cell of every live [Links] in a map of its own, so a store through one
    field leaves the other alone.  Each operation is the source's sequence of loads
    and stores; [None] is an access to an address that holds no [Links].  The ring
    of a list is a [chain] of [next] cells from the sentinel to itself, and the
    reversed chain of [prev] cells. *)
From Stdlib Require Import ZArith Lia Bool.
From stdpp Require Import base list option numbers gmap sets.
From S2P Require Import Prelude.

(** ** Memory *)

Abbreviation ptr := Z.
Definition null : ptr := 0.

Record links_mem : Type := mkMem { nexts : gmap Z ptr; prevs : gmap Z ptr }.

Definition get_next (m : links_mem) (p : ptr) : option ptr := nexts m !! p.
Definition get_prev (m : links_mem) (p : ptr) : option ptr := prevs m !! p.

Definition set_cell (c : gmap Z ptr) (p v : ptr) : option (gmap Z ptr) :=
  match c !! p with Some _ => Some (<[p := v]> c) | None => None end.
Definition set_next (m : links_mem) (p v : ptr) : option links_mem :=
  c ← set_cell (nexts m) p v; Some (mkMem c (prevs m)).
Definition set_prev (m : links_mem) (p v : ptr) : option links_mem :=
  c ← set_cell (prevs m) p v; Some (mkMem (nexts m) c).

(** [Links::new] at a fresh address. *)
Definition links_new (m : links_mem) (p : ptr) : links_mem :=
  mkMem (<[p := null]> (nexts m)) (<[p := null]> (prevs m)).

(** [Links::is_linked]. *)
Definition is_linked (m : links_mem) (p : ptr) : option bool :=
  n ← get_next m p; Some (negb (n =? null)).

(** [Adapter]: where an entry's links are, and back. *)
Class Adapter (entry : Type) := {
  entry_to_links : entry -> ptr;
  links_to_entry : ptr -> entry
}.
Class AdapterOk {entry : Type} (A : Adapter entry) : Prop := {
  links_entry e : links_to_entry (entry_to_links e) = e
}.

(** ** Operations *)

Section Ops.
Context {entry : Type} `{A : Adapter entry}.

(** [List::new]: the sentinel is built and linked to itself at [tmp], and the
    list is returned by value, which moves it to [dst]. *)
Definition list_new_at (m : links_mem) (tmp : ptr) : option links_mem :=
  let m := links_new m tmp in
  m ← set_next m tmp tmp;
  set_prev m tmp tmp.

Definition move_links (m : links_mem) (src dst : ptr) : option links_mem :=
  n ← get_next m src; p ← get_prev m src;
  Some (mkMem (<[dst := n]> (delete src (nexts m))) (<[dst := p]> (delete src (prevs m)))).

Definition list_new (m : links_mem) (tmp dst : ptr) : option links_mem :=
  m ← list_new_at m tmp; move_links m tmp dst.

(** [is_empty]. *)
Definition list_is_empty (m : links_mem) (head : ptr) : option bool :=
  n ← get_next m head; Some (n =? head).

(** [push_back]. *)
Definition push_back (m : links_mem) (head : ptr) (e : entry) : option links_mem :=
  let links := entry_to_links e in
  tail ← get_prev m head;
  m ← set_prev m links tail;
  m ← set_next m links head;
  m ← set_next m tail links;
  set_prev m head links.

(** [pop_front]. *)
Definition pop_front (m : links_mem) (head : ptr) : option (option entry * links_mem) :=
  empty ← list_is_empty m head;
  if (empty : bool) then Some (None, m) else
    first ← get_next m head;
    second ← get_next m first;
    m ← set_next m head second;
    m ← set_prev m second head;
    m ← set_next m first null;
    m ← set_prev m first null;
    Some (Some (links_to_entry first), m).

(** [front]. *)
Definition front (m : links_mem) (head : ptr) : option (option entry) :=
  empty ← list_is_empty m head;
  if (empty : bool) then Some None else
    first ← get_next m head; Some (Some (links_to_entry first)).

(** [remove]. *)
Definition list_remove (m : links_mem) (head : ptr) (e : entry) : option links_mem :=
  let links := entry_to_links e in
  prev ← get_prev m links;
  next ← get_next m links;
  m ← set_next m prev next;
  m ← set_prev m next prev;
  m ← set_next m links null;
  set_prev m links null.
End Ops.

(** ** Chains *)

(** [chain c p l q]: following [c] from [p] visits [l] and arrives at [q]. *)
Fixpoint chain (c : gmap Z ptr) (p : ptr) (l : list ptr) (q : ptr) : Prop :=
  match l with
  | [] => c !! p = Some q
  | x :: r => c !! p = Some x /\ chain c x r q
  end.

Definition last_of (p : ptr) (l : list ptr) : ptr := List.last l p.
Definition head_of (l : list ptr) (q : ptr) : ptr := List.hd q l.

Lemma chain_head c p l q : chain c p l q -> c !! p = Some (head_of l q).
Proof. destruct l; cbn; [done|by intros []]. Qed.

Lemma chain_app c p l x r q : chain c p (l ++ x :: r) q <-> chain c p l x /\ chain c x r q.
Proof.
  revert p. induction l as [|y l IH]; intros p; cbn; [done|]. rewrite IH. tauto.
Qed.

Lemma last_of_cons p x l : last_of p (x :: l) = last_of x l.
Proof.
  unfold last_of. revert p x. induction l as [|y l IH]; intros p x; [done|].
  change (List.last (x :: y :: l) p) with (List.last (y :: l) p). by rewrite !IH.
Qed.

Lemma last_of_in p l : last_of p l ∈ p :: l.
Proof.
  revert p. induction l as [|x l IH]; intros p; [set_solver|].
  rewrite last_of_cons. specialize (IH x). set_solver.
Qed.

Lemma head_of_in l q : head_of l q ∈ q :: l.
Proof. destruct l; set_solver. Qed.

Lemma last_of_rev p l : last_of p (rev l) = head_of l p.
Proof. unfold last_of. destruct l as [|x l]; [done|]. cbn. by rewrite last_last. Qed.

Lemma head_of_rev l q : head_of (rev l) q = last_of q l.
Proof. rewrite <- last_of_rev. by rewrite rev_involutive. Qed.

(** Cells off the chain do not matter. *)
Lemma chain_frame c p l q z v : z ∉ p :: l -> chain c p l q -> chain (<[z := v]> c) p l q.
Proof.
  revert p. induction l as [|x l IH]; intros p Hz; cbn.
  - intros H. rewrite lookup_insert_ne; [done|set_solver].
  - intros [H1 H2]. split; [rewrite lookup_insert_ne; [done|set_solver]|].
    apply IH; [set_solver|done].
Qed.

(** Redirecting the last cell. *)
Lemma chain_redirect c p l q q' :
  NoDup (p :: l) -> chain c p l q -> chain (<[last_of p l := q']> c) p l q'.
Proof.
  revert p. induction l as [|x l IH]; intros p Hnd; [intros _; apply lookup_insert_eq|].
  cbn [chain]. intros [H1 H2]. rewrite last_of_cons. apply NoDup_cons in Hnd as [Hp Hnd].
  split; [|by apply IH]. rewrite lookup_insert_ne; [done|].
  intros He. apply Hp. rewrite <- He. apply last_of_in.
Qed.

(** Unlinking [x]. *)
Lemma chain_bypass c p l x r q :
  NoDup (p :: l ++ x :: r) -> chain c p (l ++ x :: r) q ->
  chain (<[last_of p l := head_of r q]> c) p (l ++ r) q.
Proof.
  rewrite chain_app. intros Hnd [H1 H2].
  assert (Hpl : NoDup (p :: l)).
  { apply (NoDup_app (p :: l) (x :: r)) in Hnd as (H & _). exact H. }
  pose proof (chain_redirect c p l x (head_of r q) Hpl H1) as H3.
  destruct r as [|y r]; cbn [head_of List.hd] in *; [by rewrite app_nil_r|].
  apply chain_app. split; [done|]. destruct H2 as [_ H2]. apply chain_frame; [|done].
  apply (NoDup_app (p :: l) (x :: y :: r)) in Hnd as (_ & Hd & _).
  intros Hin. apply (Hd (last_of p l)); [apply last_of_in|set_solver].
Qed.

(** Linking [x] at either end. *)
Lemma chain_snoc c p l x q :
  NoDup (p :: l) -> x ∉ p :: l -> chain c p l q -> c !! x = Some q ->
  chain (<[last_of p l := x]> c) p (l ++ [x]) q.
Proof.
  intros Hnd Hx Hc Hq. apply chain_app. split; [by eapply chain_redirect|].
  cbn. rewrite lookup_insert_ne; [done|]. intros He. apply Hx. rewrite <- He. apply last_of_in.
Qed.

Lemma chain_push c p l x q :
  NoDup (p :: l) -> x ∉ p :: l -> chain c p l q -> c !! x = Some (head_of l q) ->
  chain (<[p := x]> c) p (x :: l) q.
Proof.
  intros [Hp Hnd]%NoDup_cons Hx Hc Hq. split; [apply lookup_insert_eq|].
  assert (Hpx : p <> x) by set_solver.
  destruct l as [|y l]; cbn in *; rewrite lookup_insert_ne by done; [done|].
  split; [done|]. destruct Hc as [_ Hc]. apply chain_frame; [|done]. set_solver.
Qed.

Lemma chain_last c p l q : chain c p l q -> c !! last_of p l = Some q.
Proof.
  revert p. induction l as [|x l IH]; intros p; [done|].
  cbn [chain]. intros [_ H]. rewrite last_of_cons. by apply IH.
Qed.

(** ** Lists in memory *)

(** The sentinel [h] and the links [l] form a ring. *)
Record dll (m : links_mem) (h : ptr) (l : list ptr) : Prop := {
  dll_nodup : NoDup (h :: l);
  dll_null : null ∉ h :: l;
  dll_next : chain (nexts m) h l h;
  dll_prev : chain (prevs m) h (rev l) h }.

(** The cells outside [zs] are the same. *)
Definition same_outside (zs : list ptr) (m m' : links_mem) : Prop :=
  forall z, z ∉ zs -> nexts m' !! z = nexts m !! z /\ prevs m' !! z = prevs m !! z.

Lemma chain_same c c' p l q :
  (forall z, z ∈ p :: l -> c' !! z = c !! z) -> chain c p l q -> chain c' p l q.
Proof.
  revert p. induction l as [|x l IH]; intros p Hz; cbn.
  - by rewrite Hz by set_solver.
  - rewrite Hz by set_solver. intros [H1 H2]. split; [done|]. apply IH; [set_solver|done].
Qed.

(** A list whose nodes are elsewhere is not affected. *)
Lemma dll_frame zs m m' h l :
  same_outside zs m m' -> (forall z, z ∈ h :: l -> z ∉ zs) -> dll m h l -> dll m' h l.
Proof.
  intros Hs Hd [H1 H2 H3 H4]. split; [done|done| |].
  - eapply chain_same; [|exact H3]. intros z Hz. by apply Hs, Hd.
  - eapply chain_same; [|exact H4]. intros z Hz. apply Hs, Hd.
    revert Hz. rewrite !elem_of_cons, !list_elem_of_In, <- in_rev. done.
Qed.

Lemma set_cell_ok c p v w : c !! p = Some w -> set_cell c p v = Some (<[p := v]> c).
Proof. unfold set_cell. by intros ->. Qed.

Lemma lookup_insert_some (c : gmap Z ptr) z v p : is_Some (c !! p) -> is_Some (<[z := v]> c !! p).
Proof. rewrite lookup_insert_is_Some'. auto. Qed.

Lemma set_next_ok m p v : is_Some (nexts m !! p) ->
  set_next m p v = Some (mkMem (<[p := v]> (nexts m)) (prevs m)).
Proof. intros [w Hw]. unfold set_next. by rewrite (set_cell_ok _ _ _ w Hw). Qed.

Lemma set_prev_ok m p v : is_Some (prevs m !! p) ->
  set_prev m p v = Some (mkMem (nexts m) (<[p := v]> (prevs m))).
Proof. intros [w Hw]. unfold set_prev. by rewrite (set_cell_ok _ _ _ w Hw). Qed.

(** Runs a sequence of stores whose addresses are live. *)
Ltac run_sets :=
  repeat (first [rewrite set_next_ok | rewrite set_prev_ok]; cbn [nexts prevs mbind option_bind];
          [|first [by (cbn; rewrite lookup_insert_eq; eauto)
                  | repeat apply lookup_insert_some; eauto]]).

Lemma dll_is_empty m h l : dll m h l -> list_is_empty m h = Some (bool_decide (l = [])).
Proof.
  intros [Hnd _ Hn _]. unfold list_is_empty, get_next. rewrite (chain_head _ _ _ _ Hn). cbn.
  destruct l as [|x l]; cbn; [by rewrite Z.eqb_refl|].
  f_equal. apply Z.eqb_neq. intros ->.
  apply NoDup_cons in Hnd as [Hnd _]. set_solver.
Qed.

(** The memory after [x] between [p] and [n] is unlinked. *)
Definition unlinked (m : links_mem) (p n x : ptr) : links_mem :=
  mkMem (<[x := null]> (<[p := n]> (nexts m))) (<[x := null]> (<[n := p]> (prevs m))).

Lemma dll_rev m h l1 x l2 :
  dll m h (l1 ++ x :: l2) -> chain (prevs m) h (rev l2 ++ x :: rev l1) h.
Proof. intros [_ _ _ H]. by rewrite rev_app_distr in H; cbn in H; rewrite <- app_assoc in H. Qed.

Lemma NoDup_rev_mid (h x : ptr) l1 l2 :
  NoDup (h :: l1 ++ x :: l2) -> NoDup (h :: rev l2 ++ x :: rev l1).
Proof.
  rewrite !NoDup_cons. intros [Hh Hnd].
  assert (Hp : rev l2 ++ x :: rev l1 ≡ₚ l1 ++ x :: l2).
  { rewrite <- !Permutation_middle, <- (Permutation_rev l1), <- (Permutation_rev l2).
    by rewrite (Permutation_app_comm l2 l1). }
  by rewrite Hp.
Qed.

Lemma dll_unlink m h l1 x l2 :
  dll m h (l1 ++ x :: l2) ->
  let p := last_of h l1 in let n := head_of l2 h in
  prevs m !! x = Some p /\ nexts m !! x = Some n /\
  is_Some (nexts m !! p) /\ is_Some (prevs m !! n) /\
  dll (unlinked m p n x) h (l1 ++ l2) /\
  same_outside (h :: l1 ++ x :: l2) m (unlinked m p n x).
Proof.
  intros D p n. pose proof (dll_rev _ _ _ _ _ D) as Hp. destruct D as [Hnd Hnull Hn _].
  pose proof (NoDup_rev_mid _ _ _ _ Hnd) as Hnd'.
  pose proof (chain_bypass _ _ _ _ _ _ Hnd Hn) as Bn.
  pose proof (chain_bypass _ _ _ _ _ _ Hnd' Hp) as Bp.
  rewrite last_of_rev, head_of_rev in Bp. fold n p in Bp. fold p n in Bn.
  apply chain_app in Hn as [Hn1 Hn2]. apply chain_app in Hp as [Hp1 Hp2].
  assert (Hx : x ∉ h :: l1 ++ l2).
  { apply NoDup_cons in Hnd as [Hh Hnd]. apply NoDup_app in Hnd as (_ & Hd & Hr).
    apply NoDup_cons in Hr as [Hr _]. specialize (Hd x). set_solver. }
  split_and!.
  - apply chain_head in Hp2. by rewrite head_of_rev in Hp2.
  - by apply chain_head in Hn2.
  - apply chain_last in Hn1. eauto.
  - apply chain_last in Hp1. rewrite last_of_rev in Hp1. eauto.
  - split.
    + revert Hnd. rewrite !NoDup_cons. intros [Hh Hnd]. split; [set_solver|].
      apply NoDup_app in Hnd as (H1 & H2 & H3). apply NoDup_cons in H3 as [_ H3].
      apply NoDup_app. split_and!; [done| |done]. intros z Hz. specialize (H2 z Hz). set_solver.
    + set_solver.
    + by apply chain_frame.
    + cbn. rewrite rev_app_distr. apply chain_frame; [|done].
      revert Hx. rewrite !elem_of_cons, !elem_of_app, !list_elem_of_In, <- !in_rev. tauto.
  - pose proof (last_of_in h l1) as Hlp. pose proof (head_of_in l2 h) as Hln. fold p in Hlp. fold n in Hln.
    intros z Hz. cbn. rewrite !lookup_insert_ne; [done|set_solver..].
Qed.

(** ** The operations on a list of entries *)

Section Refinement.
Context {entry : Type} {A : Adapter entry} {AOk : AdapterOk A}.

(** The entries a client may link: each has live links that are not the
    sentinel. *)
Variable client : entry -> Prop.

Record repr (m : links_mem) (h : ptr) (es : list entry) : Prop := {
  repr_dll : dll m h (map entry_to_links es);
  repr_client e : client e ->
    is_Some (nexts m !! entry_to_links e) /\ is_Some (prevs m !! entry_to_links e) /\
    entry_to_links e <> h /\ entry_to_links e <> null }.

#[local] Instance links_inj : Inj (=) (=) entry_to_links.
Proof. intros a b H. by rewrite <- (links_entry a), <- (links_entry b), H. Qed.

Lemma links_not_in e es : e ∉ es -> entry_to_links e ∉ map entry_to_links es.
Proof.
  intros He [a [Ha Hin]]%list_elem_of_fmap. apply links_inj in Ha. by subst a.
Qed.

(** Stores keep every cell that was there. *)
Definition live_kept (m m' : links_mem) : Prop :=
  forall z, (is_Some (nexts m !! z) -> is_Some (nexts m' !! z)) /\
            (is_Some (prevs m !! z) -> is_Some (prevs m' !! z)).

Lemma repr_kept m m' h es es' :
  repr m h es -> live_kept m m' -> dll m' h (map entry_to_links es') -> repr m' h es'.
Proof.
  intros [_ Hc] Hk D. split; [done|]. intros e He. destruct (Hc e He) as (H1 & H2 & H3).
  split_and!; [by apply Hk|by apply Hk|apply H3..].
Qed.

Lemma unlinked_kept m p n x : live_kept m (unlinked m p n x).
Proof. intros z; split; intros H; cbn; by repeat apply lookup_insert_some. Qed.

Lemma push_back_ok m h es e :
  repr m h es -> client e -> e ∉ es ->
  exists m', push_back m h e = Some m' /\ repr m' h (es ++ [e]) /\
    same_outside (h :: entry_to_links e :: map entry_to_links es) m m'.
Proof.
  intros R He Hin. destruct (repr_client _ _ _ R e He) as (Ln & Lp & Hh & H0).
  pose proof (links_not_in e es Hin) as Hx. set (x := entry_to_links e) in *.
  set (l := map entry_to_links es) in *. pose proof (repr_dll _ _ _ R) as D. fold l in D.
  destruct D as [Hnd Hnull Hn Hp].
  pose proof (chain_head _ _ _ _ Hp) as Ht. rewrite head_of_rev in Ht.
  pose proof (chain_last _ _ _ _ Hn) as Hl. pose proof (last_of_in h l) as Hlast.
  set (t := last_of h l) in *.
  exists (mkMem (<[t := x]> (<[x := h]> (nexts m))) (<[h := x]> (<[x := t]> (prevs m)))).
  split; [|split].
  - unfold push_back, get_prev. rewrite Ht. cbn [mbind option_bind]. fold x. run_sets. done.
  - eapply repr_kept; [exact R| |].
    + intros z; split; intros H; cbn; by repeat apply lookup_insert_some.
    + rewrite map_app. cbn [map]. fold x l. split.
      * rewrite app_comm_cons. apply NoDup_app. split_and!; [done| |apply NoDup_singleton].
        intros z Hz ->%list_elem_of_singleton. set_solver.
      * set_solver.
      * cbn. apply chain_snoc; [done|set_solver| |apply lookup_insert_eq].
        apply chain_frame; [set_solver|done].
      * cbn. rewrite rev_app_distr. cbn.
        assert (Hnr : NoDup (h :: rev l)).
        { apply NoDup_cons in Hnd as [H1 H2]. apply NoDup_cons.
          by rewrite <- Permutation_rev. }
        assert (Hxr : x ∉ h :: rev l).
        { rewrite elem_of_cons, list_elem_of_In, <- in_rev, <- list_elem_of_In. tauto. }
        apply chain_push; [done|done|by apply chain_frame|].
        rewrite lookup_insert_eq, head_of_rev. done.
  - intros z Hz. cbn. rewrite !lookup_insert_ne; [done|set_solver..].
Qed.

Lemma pop_front_empty m h : repr m h [] -> pop_front m h = Some (@None entry, m).
Proof. intros R. unfold pop_front. by rewrite (dll_is_empty _ _ _ (repr_dll _ _ _ R)). Qed.

Lemma pop_front_ok m h e es :
  repr m h (e :: es) ->
  exists m', pop_front m h = Some (Some e, m') /\ repr m' h es /\
    is_linked m' (entry_to_links e) = Some false /\
    same_outside (h :: map entry_to_links (e :: es)) m m'.
Proof.
  intros R. pose proof (repr_dll _ _ _ R) as D. cbn [map] in D.
  destruct (dll_unlink m h [] _ _ D) as (H1 & H2 & [v H3] & [w H4] & H5 & H6).
  cbn [last_of List.last app] in *.
  eexists. split; [|split; [|split; [|exact H6]]].
  - unfold pop_front. rewrite (dll_is_empty _ _ _ D). cbn [mbind option_bind bool_decide].
    rewrite bool_decide_eq_false_2 by done.
    unfold get_next. rewrite (chain_head _ _ _ _ (dll_next _ _ _ D)).
    cbn [mbind option_bind head_of List.hd]. rewrite H2. cbn [mbind option_bind]. run_sets.
    by rewrite links_entry.
  - eapply repr_kept; [exact R|apply unlinked_kept|exact H5].
  - unfold is_linked, get_next. cbn. by rewrite lookup_insert_eq.
Qed.

Lemma front_ok m h es : repr m h es -> front m h = Some (hd_error es).
Proof.
  intros R. pose proof (repr_dll _ _ _ R) as D. unfold front.
  rewrite (dll_is_empty _ _ _ D). cbn [mbind option_bind]. destruct es as [|e es]; [done|].
  cbn [map]. rewrite bool_decide_eq_false_2 by done. unfold get_next.
  rewrite (chain_head _ _ _ _ (dll_next _ _ _ D)). cbn. by rewrite links_entry.
Qed.

Lemma list_remove_ok m h es1 e es2 :
  repr m h (es1 ++ e :: es2) ->
  exists m', list_remove m h e = Some m' /\ repr m' h (es1 ++ es2) /\
    is_linked m' (entry_to_links e) = Some false /\
    same_outside (h :: map entry_to_links (es1 ++ e :: es2)) m m'.
Proof.
  intros R. pose proof (repr_dll _ _ _ R) as D. rewrite map_app in *. cbn [map] in *.
  destruct (dll_unlink m h _ _ _ D) as (H1 & H2 & H3 & H4 & H5 & H6).
  eexists. split; [|split; [|split; [|exact H6]]].
  - unfold list_remove, get_prev, get_next. rewrite H1, H2. cbn [mbind option_bind]. run_sets. done.
  - eapply repr_kept; [exact R|apply unlinked_kept|]. by rewrite map_app.
  - unfold is_linked, get_next. cbn. by rewrite lookup_insert_eq.
Qed.

(** ** The contract: a sequence of entries *)

Inductive list_op : Type :=
| OpPushBack (e : entry) | OpPopFront | OpFront | OpRemove (e : entry) | OpIsEmpty.
Inductive list_ret : Type :=
| RetUnit | RetEntry (o : option entry) | RetBool (b : bool).

(** What each operation does to the sequence, under its safety comment: an entry
    is pushed only when it is not in the list, and removed only when it is. *)
Inductive spec_op : list entry -> list_op -> list_ret -> list entry -> Prop :=
| spec_push es e : client e -> e ∉ es -> spec_op es (OpPushBack e) RetUnit (es ++ [e])
| spec_pop_empty : spec_op [] OpPopFront (RetEntry None) []
| spec_pop e es : spec_op (e :: es) OpPopFront (RetEntry (Some e)) es
| spec_front es : spec_op es OpFront (RetEntry (hd_error es)) es
| spec_remove es1 e es2 : spec_op (es1 ++ e :: es2) (OpRemove e) RetUnit (es1 ++ es2)
| spec_is_empty es : spec_op es OpIsEmpty (RetBool (bool_decide (es = []))) es.

Inductive spec_run : list entry -> list list_op -> list list_ret -> list entry -> Prop :=
| spec_nil es : spec_run es [] [] es
| spec_cons es op r es1 ops rs es2 :
    spec_op es op r es1 -> spec_run es1 ops rs es2 -> spec_run es (op :: ops) (r :: rs) es2.

(** The same operations in memory. *)
Definition run_op (m : links_mem) (h : ptr) (op : list_op) : option (list_ret * links_mem) :=
  match op with
  | OpPushBack e => m' ← push_back m h e; Some (RetUnit, m')
  | OpPopFront => '(o, m') ← pop_front m h; Some (RetEntry o, m')
  | OpFront => o ← front m h; Some (RetEntry o, m)
  | OpRemove e => m' ← list_remove m h e; Some (RetUnit, m')
  | OpIsEmpty => b ← list_is_empty m h; Some (RetBool b, m)
  end.

Fixpoint run_ops (m : links_mem) (h : ptr) (ops : list list_op) : option (list list_ret * links_mem) :=
  match ops with
  | [] => Some ([], m)
  | op :: r =>
      '(x, m) ← run_op m h op;
      '(xs, m) ← run_ops m h r;
      Some (x :: xs, m)
  end.

Lemma run_op_refines m h es op r es' :
  repr m h es -> spec_op es op r es' ->
  exists m', run_op m h op = Some (r, m') /\ repr m' h es'.
Proof.
  intros R H. destruct H as [es e He Hin| |e es|es|es1 e es2|es]; cbn [run_op].
  - destruct (push_back_ok _ _ _ _ R He Hin) as (m' & -> & R' & _). eauto.
  - rewrite (pop_front_empty _ _ R). eauto.
  - destruct (pop_front_ok _ _ _ _ R) as (m' & -> & R' & _). eauto.
  - rewrite (front_ok _ _ _ R). eauto.
  - destruct (list_remove_ok _ _ _ _ _ R) as (m' & -> & R' & _). eauto.
  - rewrite (dll_is_empty _ _ _ (repr_dll _ _ _ R)). cbn. eexists. split; [|exact R].
    do 3 f_equal. apply bool_decide_ext. by destruct es.
Qed.

(** C40. The list implements a sequence: from a sentinel linked to itself, every
    run of pushes, pops, front, removals and emptiness tests that respects the
    safety comments performs only valid accesses, returns what the sequence of
    entries returns, and ends with the entries that are left, in order. *)
Theorem list_refines_sequence m h es ops rs es' :
  repr m h es -> spec_run es ops rs es' ->
  exists m', run_ops m h ops = Some (rs, m') /\ repr m' h es'.
Proof.
  intros R H. revert m R. induction H as [es|es op r es1 ops rs es2 H _ IH]; intros m R; cbn [run_ops].
  - eauto.
  - destruct (run_op_refines _ _ _ _ _ _ R H) as (m1 & -> & R1). cbn.
    destruct (IH m1 R1) as (m2 & -> & R2). cbn. eauto.
Qed.

(** Unlinking is local and leaves no dangling link: after [remove] or
    [pop_front] the entry's own links are null, so it can be linked again, and
    every other list in memory is as it was. *)
Theorem removed_entry_unlinked m h es1 e es2 h' es' :
  repr m h (es1 ++ e :: es2) -> dll m h' (map entry_to_links es') ->
  (forall z, z ∈ h' :: map entry_to_links es' -> z ∉ h :: map entry_to_links (es1 ++ e :: es2)) ->
  exists m', list_remove m h e = Some m' /\ is_linked m' (entry_to_links e) = Some false /\
    repr m' h (es1 ++ es2) /\ dll m' h' (map entry_to_links es') /\
    (es1 = [] -> pop_front m h = Some (Some e, m')).
Proof.
  intros R D Hd. destruct (list_remove_ok _ _ _ _ _ R) as (m' & Hm & R' & L & S).
  exists m'. split_and!; [done|done|done|by eapply dll_frame|].
  intros ->. pose proof (repr_dll _ _ _ R) as D0. cbn [map app] in *.
  destruct (dll_unlink m h [] _ _ D0) as (H1 & H2 & H3 & H4 & _). cbn [last_of List.last] in *.
  revert Hm. unfold list_remove, pop_front, get_prev, get_next. rewrite (dll_is_empty _ _ _ D0), H1, H2.
  rewrite (chain_head _ _ _ _ (dll_next _ _ _ D0)).
  cbn [mbind option_bind head_of List.hd]. rewrite bool_decide_eq_false_2 by done.
  rewrite H2. cbn [mbind option_bind]. run_sets. intros [= <-]. by rewrite links_entry.
Qed.

(** [List::new] linked where it stays is the empty list. *)
Lemma list_new_in_place m h m' :
  h <> null ->
  (forall e, client e -> is_Some (nexts m !! entry_to_links e) /\
     is_Some (prevs m !! entry_to_links e) /\ entry_to_links e <> h /\ entry_to_links e <> null) ->
  list_new_at m h = Some m' -> repr m' h [].
Proof.
  intros H0 Hc. unfold list_new_at, links_new. run_sets.
  intros [= <-]. split.
  - split; cbn; [apply NoDup_singleton|set_solver|apply lookup_insert_eq..].
  - intros e He. destruct (Hc e He) as (H1 & H2 & H3 & H4). cbn.
    split_and!; try done; by repeat apply lookup_insert_some.
Qed.

(** [List::new] moves the list it returns, and the sentinel keeps pointing at the
    place it was built in: when that is not where the list ends up, the new list
    does not look empty, and [pop_front] follows the stale pointer to memory that
    holds no links. *)
Theorem moved_list_dangles m tmp dst m' :
  tmp <> dst -> nexts m !! tmp = None -> list_new m tmp dst = Some m' ->
  list_is_empty m' dst = Some false /\ @pop_front entry A m' dst = None.
Proof.
  intros Hne Hfresh. unfold list_new, list_new_at, links_new. run_sets.
  cbn [mbind option_bind]. unfold move_links, get_next, get_prev. cbn [nexts prevs].
  rewrite !lookup_insert_eq. cbn [mbind option_bind]. intros [= <-].
  assert (Hemp : forall p, list_is_empty (mkMem (<[dst := tmp]>
    (delete tmp (<[tmp := tmp]> (<[tmp := null]> (nexts m))))) p) dst = Some false).
  { intros p. unfold list_is_empty, get_next. cbn. rewrite lookup_insert_eq. cbn.
    f_equal. by apply Z.eqb_neq. }
  split; [apply Hemp|]. unfold pop_front. rewrite Hemp. cbn [mbind option_bind].
  unfold get_next. cbn [nexts]. rewrite lookup_insert_eq. cbn [mbind option_bind].
  rewrite lookup_insert_ne by congruence. by rewrite lookup_delete_eq.
Qed.
End Refinement.

(** ** A concrete memory: entries 1, 2 and 3 whose links are at 101, 102, 103 *)

#[global] Instance demo_adapter : Adapter Z :=
  {| entry_to_links e := e + 100; links_to_entry p := p - 100 |}.
#[global] Instance demo_adapter_ok : AdapterOk demo_adapter.
Proof. constructor. intros e. cbn. lia. Qed.

Definition demo_client (e : Z) : Prop := e = 1 \/ e = 2 \/ e = 3.

Definition demo_mem : links_mem :=
  let m := links_new (links_new (links_new (mkMem ∅ ∅) 101) 102) 103 in
  mkMem (<[100 := 100]> (nexts m)) (<[100 := 100]> (prevs m)).

Lemma demo_repr : repr demo_client demo_mem 100 [].
Proof.
  split; [split|].
  - apply NoDup_singleton.
  - cbn. unfold null. rewrite list_elem_of_singleton. lia.
  - by vm_compute.
  - by vm_compute.
  - intros e [-> | [-> | ->]]; (split_and!; [vm_compute; eauto|vm_compute; eauto|done|done]).
Qed.

Definition demo_ops : list (@list_op Z) :=
  [OpPushBack 1; OpPushBack 2; OpPushBack 3; OpRemove 2; OpFront; OpPopFront; OpPushBack 2;
   OpPopFront; OpPopFront; OpPopFront; OpIsEmpty].

Lemma demo_run : spec_run demo_client [] demo_ops
  [RetUnit; RetUnit; RetUnit; RetUnit; RetEntry (Some 1); RetEntry (Some 1); RetUnit;
   RetEntry (Some 3); RetEntry (Some 2); RetEntry None; RetBool true] [].
Proof.
  unfold demo_ops, demo_client.
  repeat (eapply spec_cons;
    [first [apply (spec_remove _ [1] 2 [3]) | constructor; [auto|set_solver] | constructor]|]).
  cbn. constructor.
Qed.

Lemma list_refines_sequence_witness :
  exists m', run_ops demo_mem 100 demo_ops =
    Some ([RetUnit; RetUnit; RetUnit; RetUnit; RetEntry (Some 1); RetEntry (Some 1); RetUnit;
           RetEntry (Some 3); RetEntry (Some 2); RetEntry None; RetBool true], m').
Proof.
  destruct (list_refines_sequence demo_client demo_mem 100 [] demo_ops _ [] demo_repr demo_run)
    as (m' & H & _). exists m'. exact H.
Defined.

(** A second, empty list in the same memory. *)
Definition demo_mem2 : links_mem :=
  mkMem (<[200 := 200]> (nexts demo_mem)) (<[200 := 200]> (prevs demo_mem)).

Lemma demo_repr2 : repr demo_client demo_mem2 100 [].
Proof.
  split; [split|].
  - apply NoDup_singleton.
  - cbn. unfold null. rewrite list_elem_of_singleton. lia.
  - by vm_compute.
  - by vm_compute.
  - intros e [-> | [-> | ->]]; (split_and!; [vm_compute; eauto|vm_compute; eauto|done|done]).
Qed.

Lemma demo_push2 : exists m, push_back demo_mem2 100 1 = Some m /\ repr demo_client m 100 [1] /\ dll m 200 [].
Proof.
  destruct (push_back_ok demo_client demo_mem2 100 [] 1 demo_repr2) as (m & Hm & R & S);
    [by left|set_solver|].
  exists m. split_and!; [done|done|]. eapply dll_frame; [exact S| |].
  - cbn. intros z ->%list_elem_of_singleton. rewrite !elem_of_cons, elem_of_nil. lia.
  - split; [apply NoDup_singleton|cbn; unfold null; rewrite list_elem_of_singleton; lia|by vm_compute..].
Qed.

Lemma removed_entry_unlinked_witness :
  exists m m', list_remove m 100 1 = Some m' /\ is_linked m' 101 = Some false /\ dll m' 200 [] /\
    pop_front m 100 = Some (Some 1, m').
Proof.
  destruct demo_push2 as (m & _ & R & D). exists m.
  destruct (removed_entry_unlinked demo_client m 100 [] 1 [] 200 [] R D) as (m' & H1 & H2 & _ & H3 & H4).
  - cbn. intros z ->%list_elem_of_singleton. rewrite !elem_of_cons, elem_of_nil. lia.
  - exists m'. split_and!; [exact H1|exact H2|exact H3|by apply H4].
Defined.
