(* ===== verification/Executor.v ===== *)
(** * The workqueue executor (rko-core/src/kasync/executor/workqueue.rs)

    Tasks are polled by workqueue threads, woken from anywhere, revoked by their
    handles and by [stop], and spawned concurrently.  A task embeds the
    [AsyncRevocable] of Revocable.v around its future: the worker acts on it as
    agent 0, every other caller of [revoke] under an identifier of its own.  The
    kernel's workqueue: an item is queued at most once ([queue_work_on] says false
    when it is pending), runs on one thread at a time, is no longer pending once it
    runs, and [cancel_work_sync] takes it off the queue and waits for its run to
    end. *)
From Stdlib Require Import ZArith Lia Bool.
From stdpp Require Import base list option numbers gmap sets.
From S2P Require Import Prelude Errors Pool Revocable.

(** Where a worker stands in [Task::run]. *)
Inductive run_pc : Type :=
| RunIdle               (** no worker runs the task *)
| RunAccess             (** in [try_access] *)
| RunPoll               (** holds the guard, before [poll] *)
| RunGuard (ready : bool) (** [poll] returned, before the guard's drop *)
| RunAfter (ready : bool) (** after it *)
| RunEnd.               (** after [revoke], before the [Arc] is dropped *)

#[global] Instance run_pc_eq_dec : EqDecision run_pc.
Proof. solve_decision. Defined.

(** [Task]: the future, whether the work item is pending, the worker; [k_given]
    counts the [Arc]s the queue owns, [k_registered] that the task went on the
    executor's list. *)
Record Task : Type := mkTask {
  k_future : AsyncRevocable; k_pending : bool; k_run : run_pc; k_polls : Z; k_given : Z;
  k_registered : bool }.

(** Where a call of [spawn_inner] stands. *)
Inductive spawn_pc : Type :=
| SpAlloc | SpRegister | SpRevoke | SpEnqueue | SpReturned (r : res Error unit).

(** A call of [stop]: the tasks it took from the list that are still to be handled, and
    what comes next for the first of them.  [first]: this call found the executor
    running, no other call of [stop] had set the flag before it. *)
Inductive stop_phase : Type := StRevoke | StOwed | StFlush.
Inductive stop_pc : Type :=
| Stopping (first : bool) (todo : list nat) (ph : stop_phase)
| Stopped (first : bool).

Record Executor : Type := mkEx {
  ex_stopped : bool; ex_list : list nat; ex_tasks : gmap nat Task; ex_spawns : gmap nat spawn_pc;
  ex_stops : gmap nat stop_pc }.

Inductive ex_event : Type :=
| SpawnCheck (i : nat)                 (** [spawn_inner], the first test of [stopped] *)
| SpawnAlloc (i : nat) (ok : bool)     (** the allocation of the task *)
| SpawnRegister (i : nat) (ok : bool)  (** the critical section; [ok]: the push *)
| SpawnRevoke (i : nat) (e : rv_event) (** [revoke] of a task that came too late *)
| SpawnReturn (i : nat)                (** its return, which drops the task *)
| SpawnEnqueue (i : nat)               (** the first enqueue *)
| Wake (i : nat)                       (** a waker of the task is called *)
| WorkStart (i : nat)                  (** a worker takes the item *)
| WorkAccess (i : nat) (e : rv_event)  (** a step of [try_access] in [run] *)
| WorkPoll (i : nat) (ready : bool)    (** [poll], and what it returns *)
| WorkStep (i : nat)                   (** the rest of [run] *)
| HandleRevoke (i n : nat) (e : rv_event) (** [revoke] called on a handle *)
| HandleFlush (i : nat)                (** [flush] called on a handle *)
| StopTake (s : nat)                   (** a call of [stop], the critical section *)
| StopStep (s : nat).                  (** its loop, and its return *)

Section Executor.
Context `{KE : KernelErrno}.

(** [WorkqueueExecutor::new]. *)
Definition ex_new : Executor := mkEx false [] ∅ ∅ ∅.

Definition task_new : Task := mkTask rv_new false RunIdle 0 0 false.

Definition set_task (i : nat) (t : Task) (x : Executor) : Executor :=
  mkEx (ex_stopped x) (ex_list x) (<[i := t]> (ex_tasks x)) (ex_spawns x) (ex_stops x).
Definition set_spawn (i : nat) (p : spawn_pc) (x : Executor) : Executor :=
  mkEx (ex_stopped x) (ex_list x) (ex_tasks x) (<[i := p]> (ex_spawns x)) (ex_stops x).

Definition with_future (t : Task) (f : AsyncRevocable) : Task :=
  mkTask f (k_pending t) (k_run t) (k_polls t) (k_given t) (k_registered t).
Definition with_run (t : Task) (pc : run_pc) : Task :=
  mkTask (k_future t) (k_pending t) pc (k_polls t) (k_given t) (k_registered t).

(** One access to the future's counter; release builds have no assertion. *)
Definition on_future (t : Task) (e : rv_event) : option Task :=
  f ← rv_step false (k_future t) e; Some (with_future t f).

(** The kernel's [queue_work_on]: false when the item is already pending. *)
Definition queue_work_on (t : Task) : bool * Task :=
  if k_pending t then (false, t)
  else (true, mkTask (k_future t) true (k_run t) (k_polls t) (k_given t) (k_registered t)).

(** [__enqueue] of an [Arc]: the queue owns the [Arc] when the item was queued;
    otherwise the caller gets it back. *)
Definition arc_enqueue (t : Task) : bool * Task :=
  let '(queued, t) := queue_work_on t in
  if queued then
    (true, mkTask (k_future t) (k_pending t) (k_run t) (k_polls t) (k_given t + 1) (k_registered t))
  else (false, t).

(** [Queue::enqueue], whose result [spawn_inner] and [wake] discard. *)
Definition enqueue (t : Task) : Task := (arc_enqueue t).2.

(** [ArcWake::wake]. *)
Definition task_wake (t : Task) : Task := enqueue t.

(** [WorkItemPointer::run] takes the [Arc] back and enters [Task::run], which
    calls [try_access]. *)
Definition work_start (t : Task) : option Task :=
  match k_pending t, k_run t with
  | true, RunIdle =>
      on_future (mkTask (k_future t) false RunAccess (k_polls t) (k_given t - 1) (k_registered t))
                (TryAccess 0)
  | _, _ => None
  end.

(** [try_access] as [run] calls it: [None] ends the run. *)
Definition work_access (t : Task) (e : rv_event) : option Task :=
  match k_run t, e with
  | RunAccess, (TryLoad 0 | TryExchange 0 _) =>
      t ← on_future t e;
      Some (with_run t (match rv_agents (k_future t) !! 0%nat with
                        | Some Guard => RunPoll
                        | Some _ => RunAccess
                        | None => RunIdle
                        end))
  | _, _ => None
  end.

(** The poll, through the guard. *)
Definition work_poll (t : Task) (ready : bool) : option Task :=
  match k_run t with
  | RunPoll =>
      t ← on_future t (Deref 0);
      Some (mkTask (k_future t) (k_pending t) (RunGuard ready) (k_polls t + 1) (k_given t)
                   (k_registered t))
  | _ => None
  end.

(** The guard is dropped; a future that is ready is revoked; a destructor that
    falls to this thread runs; then the [Arc] is dropped. *)
Definition work_step (t : Task) : option Task :=
  let owed := match rv_agents (k_future t) !! 0%nat with Some MustDrop => true | _ => false end in
  match k_run t with
  | RunGuard ready => t ← on_future t (GuardDrop 0); Some (with_run t (RunAfter ready))
  | RunAfter ready =>
      if owed then on_future t (DropInPlace 0)
      else if ready then t ← on_future t (Revoke 0); Some (with_run t RunEnd)
      else Some (with_run t RunEnd)
  | RunEnd => if owed then on_future t (DropInPlace 0) else Some (with_run t RunIdle)
  | _ => None
  end.

(** [RevocableTask::revoke] by agent [n]: the step of [revoke], or its destructor. *)
Definition revoke_call (n : nat) (t : Task) (e : rv_event) : option Task :=
  match e with
  | Revoke m | DropInPlace m => if decide (m = n) then on_future t e else None
  | _ => None
  end.

(** [cancel_work_sync]: waits for the run to end and takes the item off the
    queue; the [Arc] that the queue owned is not reclaimed. *)
Definition flush (t : Task) : option Task :=
  match k_run t with
  | RunIdle => Some (mkTask (k_future t) false RunIdle (k_polls t) (k_given t) (k_registered t))
  | _ => None
  end.

(** [stop(&self)]: any number of calls may be under way at the same time.  Each takes
    what is on the list at that moment. *)
Definition stop_take (s : nat) (x : Executor) : option Executor :=
  match ex_stops x !! s with
  | Some _ => None
  | None => Some (mkEx true [] (ex_tasks x) (ex_spawns x)
                       (<[s := Stopping (negb (ex_stopped x)) (ex_list x) StRevoke]> (ex_stops x)))
  end.

Definition set_stop (s : nat) (p : stop_pc) (x : Executor) : Executor :=
  mkEx (ex_stopped x) (ex_list x) (ex_tasks x) (ex_spawns x) (<[s := p]> (ex_stops x)).

Definition stop_step (s : nat) (x : Executor) : option Executor :=
  match ex_stops x !! s with
  | None | Some (Stopped _) => None
  | Some (Stopping first [] _) => Some (set_stop s (Stopped first) x)
  | Some (Stopping first (i :: r) ph) =>
      t ← ex_tasks x !! i;
      match ph with
      | StRevoke =>
          t' ← on_future t (Revoke 1);
          Some (set_stop s (Stopping first (i :: r) StOwed) (set_task i t' x))
      | StOwed =>
          match rv_agents (k_future t) !! 1%nat with
          | Some MustDrop =>
              t' ← on_future t (DropInPlace 1);
              Some (set_stop s (Stopping first (i :: r) StFlush) (set_task i t' x))
          | _ => Some (set_stop s (Stopping first (i :: r) StFlush) x)
          end
      | StFlush =>
          t' ← flush t;
          Some (set_stop s (Stopping first r StRevoke) (set_task i t' x))
      end
  end.

(** [spawn_inner]. *)
Definition spawn_check (i : nat) (x : Executor) : option Executor :=
  match ex_spawns x !! i with
  | Some _ => None
  | None => Some (set_spawn i (if ex_stopped x then SpReturned (Err EBUSY) else SpAlloc) x)
  end.

Definition spawn_alloc (i : nat) (ok : bool) (x : Executor) : option Executor :=
  match ex_spawns x !! i with
  | Some SpAlloc =>
      Some (if ok then set_spawn i SpRegister (set_task i task_new x)
            else set_spawn i (SpReturned (Err ENOMEM)) x)
  | _ => None
  end.

Definition spawn_register (i : nat) (ok : bool) (x : Executor) : option Executor :=
  match ex_spawns x !! i, ex_tasks x !! i with
  | Some SpRegister, Some t =>
      if ex_stopped x then
        t' ← on_future t (Revoke 2);
        Some (set_spawn i SpRevoke (set_task i t' x))
      else if ok then
        let x' := set_spawn i SpEnqueue
          (set_task i (mkTask (k_future t) (k_pending t) (k_run t) (k_polls t) (k_given t) true) x) in
        Some (mkEx (ex_stopped x') (ex_list x' ++ [i]) (ex_tasks x') (ex_spawns x') (ex_stops x'))
      else
        t' ← on_future t DropWrapper;
        Some (set_spawn i (SpReturned (Err ENOMEM)) (set_task i t' x))
  | _, _ => None
  end.

(** The late [revoke], and the return that drops the task's last [Arc]. *)
Definition spawn_revoke (i : nat) (e : rv_event) (x : Executor) : option Executor :=
  match ex_spawns x !! i, ex_tasks x !! i, e with
  | Some SpRevoke, Some t, DropInPlace 2 => t' ← on_future t e; Some (set_task i t' x)
  | _, _, _ => None
  end.
Definition spawn_return (i : nat) (x : Executor) : option Executor :=
  match ex_spawns x !! i, ex_tasks x !! i with
  | Some SpRevoke, Some t =>
      t' ← on_future t DropWrapper;
      Some (set_spawn i (SpReturned (Err EBUSY)) (set_task i t' x))
  | _, _ => None
  end.

Definition spawn_enqueue (i : nat) (x : Executor) : option Executor :=
  match ex_spawns x !! i, ex_tasks x !! i with
  | Some SpEnqueue, Some t => Some (set_spawn i (SpReturned (Ok tt)) (set_task i (enqueue t) x))
  | _, _ => None
  end.

(** An event of one registered task: only those have wakers, handles and workers. *)
Definition on_task (i : nat) (f : Task -> option Task) (x : Executor) : option Executor :=
  match ex_tasks x !! i with
  | Some t => if k_registered t then t' ← f t; Some (set_task i t' x) else None
  | None => None
  end.

Definition ex_step (x : Executor) (e : ex_event) : option Executor :=
  match e with
  | SpawnCheck i => spawn_check i x
  | SpawnAlloc i ok => spawn_alloc i ok x
  | SpawnRegister i ok => spawn_register i ok x
  | SpawnRevoke i e => spawn_revoke i e x
  | SpawnReturn i => spawn_return i x
  | SpawnEnqueue i => spawn_enqueue i x
  | Wake i => on_task i (fun t => Some (task_wake t)) x
  | WorkStart i => on_task i work_start x
  | WorkAccess i e => on_task i (fun t => work_access t e) x
  | WorkPoll i ready => on_task i (fun t => work_poll t ready) x
  | WorkStep i => on_task i work_step x
  | HandleRevoke i n e => on_task i (fun t => revoke_call (3 + n) t e) x
  | HandleFlush i => on_task i flush x
  | StopTake s => stop_take s x
  | StopStep s => stop_step s x
  end.

Definition ex_reach (x : Executor) : Prop := exists es, exec ex_step ex_new es = Some x.

(** ** What a step does to the agents of a future *)

Definition ev_agent (e : rv_event) : option nat :=
  match e with
  | TryAccess i | TryLoad i | TryExchange i _ | Deref i | GuardDrop i | Revoke i | DropInPlace i => Some i
  | DropWrapper => None
  end.

Lemma rv_step_others s e s' j :
  rv_step false s e = Some s' -> ev_agent e <> Some j -> rv_agents s' !! j = rv_agents s !! j.
Proof.
  unfold rv_step. destruct (gone s); [done|].
  destruct e as [i|i|i sp|i|i|i|i|]; cbn [ev_agent]; intros Hs Hne;
    try (assert (Hij : i <> j) by congruence);
    try (destruct (rv_agents s !! i) as [[]|]; try done); try (case_decide; [|done]);
    injection Hs as <-; unfold try_access_load, try_access_exchange, guard_drop, revoke; cbn;
    repeat case_match; cbn; rewrite ?lookup_insert_ne, ?lookup_delete_ne by done; done.
Qed.

(** Where the agent itself goes. *)
Definition self_ok (e : rv_event) (a' : option rv_agent) : Prop :=
  match e with
  | TryAccess _ => a' = Some TaLoop
  | TryLoad _ => a' = None \/ exists v, a' = Some (TaLoaded v)
  | TryExchange _ _ => a' = Some Guard \/ a' = Some TaLoop
  | Deref _ => a' = Some Guard
  | GuardDrop _ | Revoke _ => a' = None \/ a' = Some MustDrop
  | DropInPlace _ => a' = None
  | DropWrapper => True
  end.

Lemma rv_step_self s e s' i :
  rv_step false s e = Some s' -> ev_agent e = Some i -> self_ok e (rv_agents s' !! i).
Proof.
  unfold rv_step. destruct (gone s); [done|].
  destruct e as [j|j|j sp|j|j|j|j|]; cbn [ev_agent]; intros Hs; intros [= ->];
    destruct (rv_agents s !! i) as [[]|] eqn:Hi; try done;
    injection Hs as <-; unfold try_access_load, try_access_exchange, guard_drop, revoke; cbn;
    repeat case_match; cbn; rewrite ?lookup_insert_eq, ?lookup_delete_eq; eauto.
Qed.

Lemma rv_step_gone s e s' :
  rv_step false s e = Some s' -> gone s = false /\ (e <> DropWrapper -> gone s' = false).
Proof.
  unfold rv_step. destruct (gone s) eqn:Hg; [done|]. intros Hs. split; [done|].
  destruct e as [j|j|j sp|j|j|j|j|]; intros Hne; try done;
    destruct (rv_agents s !! j) as [[]|]; try done; injection Hs as <-;
    unfold try_access_load, try_access_exchange, guard_drop, revoke; cbn;
    repeat case_match; cbn; done.
Qed.

(** ** The invariant of a task *)

Definition agent0_ok (pc : run_pc) (a : option rv_agent) : Prop :=
  match pc with
  | RunIdle => a = None
  | RunAccess => a = Some TaLoop \/ exists v, a = Some (TaLoaded v)
  | RunPoll | RunGuard _ => a = Some Guard
  | RunAfter _ | RunEnd => a = None \/ a = Some MustDrop
  end.

Record task_ok (t : Task) : Prop := {
  tk_rv : rv_reach false (k_future t);
  tk_agent0 : agent0_ok (k_run t) (rv_agents (k_future t) !! 0%nat);
  tk_others j a : j <> 0%nat -> rv_agents (k_future t) !! j = Some a -> a = MustDrop;
  tk_unreg : k_registered t = false -> k_pending t = false /\ k_run t = RunIdle /\ k_polls t = 0;
  tk_alive : k_registered t = true -> gone (k_future t) = false }.

Definition polling (pc : run_pc) : bool := match pc with RunPoll | RunGuard _ => true | _ => false end.

(** Only the worker holds a guard, and only around the poll. *)
Lemma task_guards t : task_ok t -> guards (k_future t) = if polling (k_run t) then 1 else 0.
Proof.
  intros T. pose proof (tk_agent0 _ T) as H0. unfold guards.
  assert (Hz : weigh w_guard (delete 0%nat (rv_agents (k_future t))) = 0).
  { apply weigh_zero. intros j a [Hne Hj]%lookup_delete_Some.
    by rewrite (tk_others _ T j a) by done. }
  destruct (rv_agents (k_future t) !! 0%nat) as [a|] eqn:Ha.
  - rewrite (weigh_delete _ _ _ _ Ha), Hz.
    destruct (k_run t); cbn in H0; try done; naive_solver.
  - rewrite delete_id in Hz by done. rewrite Hz.
    destruct (k_run t); cbn in H0; try done; naive_solver.
Qed.

Lemma on_future_reach t e f :
  task_ok t -> rv_step false (k_future t) e = Some f -> rv_reach false f.
Proof.
  intros T Hs. eapply reach_step; [apply (tk_rv _ T)| |exact Hs].
  right. rewrite (task_guards t T). destruct (polling (k_run t)); lia.
Qed.

(** ** Steps of one task *)

(** What a step may do to a task: the invariant, the registration and a revocation
    stay, and only a task whose future is guarded is polled. *)
Record task_moves (t t' : Task) : Prop := {
  mv_ok : task_ok t';
  mv_reg : k_registered t' = k_registered t;
  mv_revoked : is_revoked (k_future t) = true ->
    is_revoked (k_future t') = true /\ guards (k_future t') <= guards (k_future t);
  mv_polls : k_polls t' = k_polls t \/ polling (k_run t) = true }.

Lemma moves_same t p pc n g :
  task_ok t -> k_registered t = true -> agent0_ok pc (rv_agents (k_future t) !! 0%nat) -> n = k_polls t ->
  task_moves t (mkTask (k_future t) p pc n g (k_registered t)).
Proof.
  intros [T1 T2 T3 T4 T5] Hr H0 ->. split; cbn; auto; [|done].
  split; cbn; auto; congruence.
Qed.

(** A step on the future by any agent. *)
Lemma moves_future t e f p pc n g :
  task_ok t -> k_registered t = true -> rv_step false (k_future t) e = Some f -> e <> DropWrapper ->
  agent0_ok pc (rv_agents f !! 0%nat) ->
  (forall j, ev_agent e = Some j -> j <> 0%nat ->
     rv_agents f !! j = None \/ rv_agents f !! j = Some MustDrop) ->
  n = k_polls t \/ polling (k_run t) = true ->
  task_moves t (mkTask f p pc n g (k_registered t)).
Proof.
  intros T Hr Hs He H0 Hj Hn. split; cbn; auto.
  - split; cbn; auto.
    + by eapply on_future_reach.
    + intros j a Hne Ha. destruct (decide (ev_agent e = Some j)) as [Hej|Hej].
      * destruct (Hj j Hej Hne) as [H|H]; congruence.
      * rewrite (rv_step_others _ _ _ _ Hs Hej) in Ha. by apply (tk_others _ T j).
    + congruence.
    + intros _. by apply (rv_step_gone _ _ _ Hs).
  - intros Hrev. exact (revocation_is_final false _ _ _ (tk_rv _ T) Hrev Hs).
Qed.

Lemma enqueue_moves t : task_ok t -> k_registered t = true -> task_moves t (enqueue t).
Proof.
  intros T Hr. unfold enqueue, arc_enqueue, queue_work_on. destruct t as [f [] pc n g r]; cbn in *; subst r.
  - apply (moves_same (mkTask f true pc n g true)); try done. apply (tk_agent0 _ T).
  - apply (moves_same (mkTask f false pc n g true)); try done. apply (tk_agent0 _ T).
Qed.

Lemma flush_moves t t' : task_ok t -> k_registered t = true -> flush t = Some t' -> task_moves t t'.
Proof.
  intros T Hr. unfold flush. destruct (k_run t) eqn:Hrun; try done. intros [= <-].
  apply moves_same; try done. pose proof (tk_agent0 _ T) as H. by rewrite Hrun in H.
Qed.

(** The worker's own steps: agent 0 stands where the new position needs it. *)
Lemma worker_moves t e f p pc n g :
  task_ok t -> k_registered t = true -> rv_step false (k_future t) e = Some f -> ev_agent e = Some 0%nat ->
  (self_ok e (rv_agents f !! 0%nat) -> agent0_ok pc (rv_agents f !! 0%nat)) ->
  n = k_polls t \/ polling (k_run t) = true ->
  task_moves t (mkTask f p pc n g (k_registered t)).
Proof.
  intros T Hr Hs He H0 Hn. eapply moves_future; try done.
  - by destruct e.
  - exact (H0 (rv_step_self _ _ _ _ Hs He)).
  - intros j Hj Hne. congruence.
Qed.

Lemma work_start_moves t t' :
  task_ok t -> k_registered t = true -> work_start t = Some t' -> task_moves t t'.
Proof.
  intros T Hr. unfold work_start, on_future. destruct (k_pending t), (k_run t) eqn:Hrun; try done.
  cbn [k_future]. destruct (rv_step false (k_future t) (TryAccess 0)) as [f|] eqn:Hs; [|done].
  intros [= <-]. unfold with_future. cbn. eapply worker_moves; try done; cbn; auto.
Qed.

Lemma work_access_moves t e t' :
  task_ok t -> k_registered t = true -> work_access t e = Some t' -> task_moves t t'.
Proof.
  intros T Hr. unfold work_access, on_future.
  destruct (k_run t) eqn:Hrun; try done. destruct e as [|[]|[] sp| | | | |]; try done.
  all: match goal with |- context [rv_step false ?f0 ?e] =>
         destruct (rv_step false f0 e) as [f|] eqn:Hs; [|done] end.
  all: cbn; intros [= <-]; unfold with_run, with_future; cbn; eapply worker_moves; try done; cbn; auto.
  - intros [->|[v ->]]; cbn; eauto.
  - intros [->| ->]; cbn; eauto.
Qed.

Lemma work_poll_moves t ready t' :
  task_ok t -> k_registered t = true -> work_poll t ready = Some t' -> task_moves t t'.
Proof.
  intros T Hr. unfold work_poll, on_future. destruct (k_run t) eqn:Hrun; try done.
  destruct (rv_step false (k_future t) (Deref 0)) as [f|] eqn:Hs; [|done].
  cbn. intros [= <-]. eapply worker_moves; try done; cbn; auto. right. by rewrite Hrun.
Qed.

Lemma work_step_moves t t' :
  task_ok t -> k_registered t = true -> work_step t = Some t' -> task_moves t t'.
Proof.
  intros T Hr. pose proof (tk_agent0 _ T) as H0.
  unfold work_step, on_future. destruct (k_run t) as [| | |ready|ready|] eqn:Hrun; try done; cbn in H0.
  - destruct (rv_step false (k_future t) (GuardDrop 0)) as [f|] eqn:Hs; [|done].
    cbn. intros [= <-]. unfold with_run, with_future. cbn. eapply worker_moves; try done; cbn; auto.
  - destruct H0 as [H0|H0]; rewrite H0.
    + destruct ready; cbn; [|intros [= <-]; apply moves_same; rewrite ?H0; cbn; auto].
      destruct (rv_step false (k_future t) (Revoke 0)) as [f|] eqn:Hs; [|done].
      cbn. intros [= <-]. unfold with_run, with_future. cbn. eapply worker_moves; try done; cbn; auto.
    + destruct (rv_step false (k_future t) (DropInPlace 0)) as [f|] eqn:Hs; [|done].
      cbn. intros [= <-]. unfold with_future. rewrite Hrun.
      eapply worker_moves; try done; cbn; auto.
  - destruct H0 as [H0|H0]; rewrite H0.
    + cbn; intros [= <-]; apply moves_same; rewrite ?H0; cbn; auto.
    + destruct (rv_step false (k_future t) (DropInPlace 0)) as [f|] eqn:Hs; [|done].
      cbn. intros [= <-]. unfold with_future. rewrite Hrun.
      eapply worker_moves; try done; cbn; auto.
Qed.

(** [revoke] by somebody else. *)
Lemma revoke_moves t e n f :
  task_ok t -> k_registered t = true -> e = Revoke n \/ e = DropInPlace n -> n <> 0%nat ->
  rv_step false (k_future t) e = Some f -> task_moves t (with_future t f).
Proof.
  intros T Hr He Hn Hs.
  assert (Hea : ev_agent e = Some n) by (by destruct He as [-> | ->]).
  pose proof (rv_step_self _ _ _ _ Hs Hea) as Hself.
  eapply moves_future; try done; auto.
  - by destruct He as [-> | ->].
  - rewrite (rv_step_others _ _ _ _ Hs) by congruence. apply (tk_agent0 _ T).
  - intros j Hj Hne. assert (j = n) as -> by congruence. destruct He as [-> | ->]; cbn in Hself; auto.
Qed.

Lemma revoke_call_moves n t e t' :
  task_ok t -> k_registered t = true -> n <> 0%nat -> revoke_call n t e = Some t' -> task_moves t t'.
Proof.
  intros T Hr Hn. unfold revoke_call, on_future. destruct e; try done; (case_decide as Hm; [subst i|done]).
  all: match goal with |- context [rv_step false ?f0 ?e] =>
         destruct (rv_step false f0 e) as [f|] eqn:Hs; [|done] end.
  all: cbn; intros [= <-]; eapply revoke_moves; [done|done| |exact Hn|exact Hs]; auto.
Qed.

(** ** The invariant of the executor *)

(** No guard is held and none can be taken again. *)
Definition cancelled (t : Task) : Prop := is_revoked (k_future t) = true /\ guards (k_future t) = 0.

(** A call of [stop] still has to handle the task. *)
Definition taken (x : Executor) (i : nat) : Prop :=
  exists s first r ph, ex_stops x !! s = Some (Stopping first r ph) /\ i ∈ r.

Definition is_first (p : stop_pc) : bool :=
  match p with Stopping first _ _ | Stopped first => first end.

Record ex_ok (x : Executor) : Prop := {
  xo_tasks i t : ex_tasks x !! i = Some t -> task_ok t;
  xo_cover i t : ex_tasks x !! i = Some t -> k_registered t = true ->
    i ∈ ex_list x \/ taken x i \/ cancelled t;
  xo_listed i : i ∈ ex_list x \/ taken x i ->
    exists t, ex_tasks x !! i = Some t /\ k_registered t = true;
  xo_revoked s first i r ph t : ex_stops x !! s = Some (Stopping first (i :: r) ph) -> ph <> StRevoke ->
    ex_tasks x !! i = Some t -> is_revoked (k_future t) = true;
  xo_stopped : ex_stopped x = true ->
    ex_list x = [] /\ exists s p, ex_stops x !! s = Some p /\ is_first p = true;
  xo_stop s p : ex_stops x !! s = Some p -> ex_stopped x = true;
  xo_calls s1 s2 p1 p2 : ex_stops x !! s1 = Some p1 -> ex_stops x !! s2 = Some p2 ->
    is_first p1 = true -> is_first p2 = true -> s1 = s2;
  xo_later s r ph : ex_stops x !! s = Some (Stopping false r ph) -> r = [];
  xo_spawn i : match ex_spawns x !! i with
    | None | Some SpAlloc => ex_tasks x !! i = None
    | Some (SpRegister | SpRevoke) =>
        exists t, ex_tasks x !! i = Some t /\ k_registered t = false /\ gone (k_future t) = false
    | Some SpEnqueue => exists t, ex_tasks x !! i = Some t /\ k_registered t = true
    | Some (SpReturned (Ok _)) => True
    | Some (SpReturned _) => forall t, ex_tasks x !! i = Some t ->
        k_registered t = false /\ gone (k_future t) = true
    end }.

Lemma ex_new_ok : ex_ok ex_new.
Proof.
  split; cbn; try done; try set_solver.
  intros i [H|(s & first & r & ph & Hs & _)]; [set_solver|done].
Qed.

Lemma cancelled_moves t t' : cancelled t -> task_moves t t' -> cancelled t' /\ task_ok t'.
Proof.
  intros [H1 H2] M. destruct (mv_revoked _ _ M H1) as [H3 H4]. split; [|apply M].
  split; [done|]. pose proof (task_guards _ (mv_ok _ _ M)). destruct (polling (k_run t')); lia.
Qed.

(** A move of one registered task. *)
Lemma ex_ok_task x i t t' :
  ex_ok x -> ex_tasks x !! i = Some t -> k_registered t = true -> task_moves t t' ->
  ex_ok (set_task i t' x).
Proof.
  intros [O1 O2 O3 O4 O5 O6 O7 O8 O9] Hi Hr M. split; cbn; try done.
  - intros j u. rewrite lookup_insert_Some. intros [[<- <-]|[Hne Hj]]; [apply M|eauto].
  - intros j u. rewrite lookup_insert_Some. intros [[<- <-]|[Hne Hj]] Hreg; [|eauto].
    destruct (O2 i t Hi Hr) as [H|[H|H]]; auto. right; right. by apply (cancelled_moves t).
  - intros j Hj. destruct (O3 j Hj) as (u & Hu & Hur). destruct (decide (i = j)) as [<-|Hne].
    + exists t'. rewrite lookup_insert_eq. split; [done|]. rewrite (mv_reg _ _ M). congruence.
    + exists u. by rewrite lookup_insert_ne.
  - intros s first j r ph u Hs Hph. rewrite lookup_insert_Some. intros [[<- <-]|[Hne Hj]]; [|eauto].
    apply (mv_revoked _ _ M). eauto.
  - intros j. specialize (O9 j). destruct (decide (i = j)) as [<-|Hne].
    + destruct (ex_spawns x !! i) as [[]|]; try congruence; try done.
      * destruct O9 as (u & Hu & H1 & _). congruence.
      * destruct O9 as (u & Hu & H1 & _). congruence.
      * exists t'. rewrite lookup_insert_eq, (mv_reg _ _ M). done.
      * destruct r; try done; destruct (O9 t Hi); congruence.
    + by rewrite lookup_insert_ne by done.
Qed.

Lemma on_task_ok i f x x' :
  (forall t t', task_ok t -> k_registered t = true -> f t = Some t' -> task_moves t t') ->
  ex_ok x -> on_task i f x = Some x' -> ex_ok x'.
Proof.
  intros Hf O. unfold on_task. destruct (ex_tasks x !! i) as [t|] eqn:Hi; [|done].
  destruct (k_registered t) eqn:Hr; [|done]. destruct (f t) as [t'|] eqn:Ht; [|done].
  cbn. intros [= <-]. eapply ex_ok_task; eauto. apply Hf; [|done|done]. by eapply xo_tasks.
Qed.

(** Calls of [stop]. *)
Lemma taken_insert x s p i :
  taken (set_stop s p x) i ->
  (exists first r ph, p = Stopping first r ph /\ i ∈ r) \/ taken x i.
Proof.
  intros (s' & first & r & ph & Hs & Hi). cbn in Hs. apply lookup_insert_Some in Hs as [[_ Hs]|[_ Hs]].
  - left. eauto.
  - right. by exists s', first, r, ph.
Qed.

Lemma taken_keep x s p q i :
  ex_stops x !! s = Some q -> taken x i ->
  taken (set_stop s p x) i \/ exists first r ph, q = Stopping first r ph /\ i ∈ r.
Proof.
  intros Hq (s' & first & r & ph & Hs & Hi). destruct (decide (s = s')) as [<-|Hne].
  - right. exists first, r, ph. split; [congruence|done].
  - left. exists s', first, r, ph. cbn. by rewrite lookup_insert_ne.
Qed.

(** A call moves on: it stays the first or a later one, and lets go of cancelled tasks only. *)
Lemma set_stop_ok x s q p :
  ex_ok x -> ex_stops x !! s = Some q -> is_first p = is_first q ->
  (forall first r ph, p = Stopping first r ph ->
     exists ph' r', q = Stopping first r' ph' /\ r ⊆ r' /\
       (forall i r0 t, r = i :: r0 -> ph <> StRevoke -> ex_tasks x !! i = Some t ->
          is_revoked (k_future t) = true)) ->
  (forall first r ph i t, q = Stopping first r ph -> i ∈ r -> ex_tasks x !! i = Some t ->
     taken (set_stop s p x) i \/ cancelled t) ->
  ex_ok (set_stop s p x).
Proof.
  intros [O1 O2 O3 O4 O5 O6 O7 O8 O9] Hq Hf Hp Hgo.
  assert (Htk : forall i, taken (set_stop s p x) i -> taken x i).
  { intros i [(first & r & ph & -> & Hi)|H]%taken_insert; [|done].
    destruct (Hp _ _ _ eq_refl) as (ph' & r' & -> & Hsub & _). exists s, first, r', ph'. auto. }
  split; cbn; try done.
  - intros i t Hi Hr. destruct (O2 i t Hi Hr) as [H|[H|H]]; [by left| |by auto].
    right. destruct (taken_keep x s p q i Hq H) as [H'|(first & r & ph & Hst & Hin)]; [by left|eauto].
  - intros i Hi. apply O3. destruct Hi as [Hi|Hi]; [by left|right; by apply Htk].
  - intros s' first i r ph t. rewrite lookup_insert_Some. intros [[-> Hs]|[Hne Hs]]; [|by eauto].
    destruct (Hp _ _ _ Hs) as (ph' & r' & _ & _ & Hrv). eauto.
  - intros Hst. destruct (O5 Hst) as (Hl & s' & p' & Hs' & Hf'). split; [done|].
    destruct (decide (s = s')) as [<-|Hne].
    + exists s, p. rewrite lookup_insert_eq. split; [done|]. congruence.
    + exists s', p'. by rewrite lookup_insert_ne.
  - intros s' p'. rewrite lookup_insert_Some. intros [[-> Hs]|[Hne Hs]]; eauto.
  - assert (Hold : forall s' p', <[s := p]> (ex_stops x) !! s' = Some p' -> is_first p' = true ->
      exists q', ex_stops x !! s' = Some q' /\ is_first q' = true).
    { intros s' p'. rewrite lookup_insert_Some. intros [[<- <-]|[Hne Hs]] Hf'; [|eauto].
      exists q. split; [done|]. congruence. }
    intros s1 s2 p1 p2 H1 H2 F1 F2. destruct (Hold _ _ H1 F1) as (q1 & ? & ?).
    destruct (Hold _ _ H2 F2) as (q2 & ? & ?). eauto.
  - intros s' r ph. rewrite lookup_insert_Some. intros [[-> Hs]|[Hne Hs]]; [|eauto].
    destruct (Hp _ _ _ Hs) as (ph' & r' & -> & Hsub & _). rewrite (O8 _ _ _ Hq) in Hsub.
    destruct r; [done|]. set_solver.
Qed.

Lemma stop_take_ok s x x' : ex_ok x -> stop_take s x = Some x' -> ex_ok x'.
Proof.
  intros [O1 O2 O3 O4 O5 O6 O7 O8 O9]. unfold stop_take. destruct (ex_stops x !! s) as [|] eqn:Hst; [done|].
  intros [= <-]. set (p := Stopping (negb (ex_stopped x)) (ex_list x) StRevoke).
  assert (Hnew : forall i, taken (set_stop s p x) i -> i ∈ ex_list x \/ taken x i).
  { intros i [(first & r & ph & [= <- <- <-] & Hi)|H]%taken_insert; auto. }
  assert (Hkeep : forall i, i ∈ ex_list x \/ taken x i -> taken (set_stop s p x) i).
  { intros i [Hi|(s' & first & r & ph & Hs & Hi)].
    - exists s, (negb (ex_stopped x)), (ex_list x), StRevoke. cbn. by rewrite lookup_insert_eq.
    - exists s', first, r, ph. cbn. rewrite lookup_insert_ne by congruence. done. }
  split; cbn; try done.
  - intros i t Hi Hr. right. destruct (O2 i t Hi Hr) as [H|[H|H]]; auto; left; apply Hkeep; auto.
  - intros i [H|H]; [set_solver|]. apply O3. by apply Hnew.
  - intros s' first i r ph t. rewrite lookup_insert_Some. intros [[_ [= _ _ <-]]|[Hne Hs]]; [done|eauto].
  - intros _. split; [done|]. destruct (ex_stopped x) eqn:Hx.
    + destruct (O5 eq_refl) as (_ & s' & p' & Hs' & Hf'). exists s', p'.
      by rewrite lookup_insert_ne by congruence.
    + exists s, p. by rewrite lookup_insert_eq.
  - assert (Hold : forall s' p', <[s := p]> (ex_stops x) !! s' = Some p' -> is_first p' = true ->
      if ex_stopped x then ex_stops x !! s' = Some p' else s' = s).
    { intros s' p'. rewrite lookup_insert_Some. intros [[<- <-]|[Hne Hs]] Hf'.
      - cbn in Hf'. by destruct (ex_stopped x).
      - by rewrite (O6 _ _ Hs). }
    intros s1 s2 p1 p2 H1 H2 F1 F2. specialize (Hold _ _ H1 F1) as G1. specialize (Hold _ _ H2 F2) as G2.
    destruct (ex_stopped x); [eauto|congruence].
  - intros s' r ph. rewrite lookup_insert_Some. intros [[_ [= Hb <- _]]|[Hne Hs]]; [|eauto].
    destruct (ex_stopped x); [|done]. by apply O5.
Qed.

Lemma stop_step_ok s x x' : ex_ok x -> stop_step s x = Some x' -> ex_ok x'.
Proof.
  intros O. unfold stop_step. destruct (ex_stops x !! s) as [[first [|i r] ph|]|] eqn:Hst; [| |done..].
  { intros [= <-]. eapply set_stop_ok; try done. intros ? ? ? j t [= <- <- <-] Hj. set_solver. }
  assert (Hin : taken x i) by (exists s, first, (i :: r), ph; split; [done|set_solver]).
  destruct (xo_listed _ O i (or_intror Hin)) as (t & Hi & Hr). rewrite Hi. cbn [mbind option_bind].
  pose proof (xo_tasks _ O i t Hi) as T.
  assert (Hsame : forall y ph', ex_ok y -> ex_stops y = ex_stops x ->
    (forall u, ex_tasks y !! i = Some u -> is_revoked (k_future u) = true) ->
    ex_ok (set_stop s (Stopping first (i :: r) ph') y)).
  { intros y ph' Oy Hy Hrev. eapply set_stop_ok; [done|by rewrite Hy|done| |].
    - intros ? ? ? [= <- <- <-]. exists ph, (i :: r). split_and!; [done|done|].
      intros j r0 u [= <- _] _ Hu. eauto.
    - intros ? ? ? j u [= <- <- _] Hj Hu. left. exists s, first, (i :: r), ph'.
      cbn. by rewrite lookup_insert_eq. }
  destruct ph; unfold on_future.
  - destruct (rv_step false (k_future t) (Revoke 1)) as [f|] eqn:Hs; [|done]. cbn. intros [= <-].
    assert (M : task_moves t (with_future t f)) by (refine (revoke_moves t _ 1 f T Hr _ _ Hs); [auto|done]).
    apply Hsame; [by eapply ex_ok_task|done|].
    intros u. cbn. rewrite lookup_insert_eq. intros [= <-]. cbn.
    exact (revoke_sets_bit _ _ _ _ (tk_rv _ T) Hs).
  - pose proof (xo_revoked _ O s first i r StOwed t Hst ltac:(done) Hi) as Hrev.
    destruct (rv_agents (k_future t) !! 1%nat) as [[]|];
      try (intros [= <-]; apply Hsame; [done|done|]; intros u Hu; congruence).
    destruct (rv_step false (k_future t) (DropInPlace 1)) as [f|] eqn:Hs; [|done]. cbn. intros [= <-].
    assert (M : task_moves t (with_future t f)) by (refine (revoke_moves t _ 1 f T Hr _ _ Hs); [auto|done]).
    apply Hsame; [by eapply ex_ok_task|done|].
    intros u. cbn. rewrite lookup_insert_eq. intros [= <-]. by apply (mv_revoked _ _ M).
  - pose proof (xo_revoked _ O s first i r StFlush t Hst ltac:(done) Hi) as Hrev.
    destruct (flush t) as [t'|] eqn:Hf; [|done]. cbn. intros [= <-].
    pose proof (flush_moves _ _ T Hr Hf) as M.
    assert (Hc : cancelled t').
    { split; [by apply (mv_revoked _ _ M)|]. rewrite (task_guards _ (mv_ok _ _ M)).
      revert Hf. unfold flush. destruct (k_run t); try done. by intros [= <-]. }
    eapply set_stop_ok; [by eapply ex_ok_task|exact Hst|done| |].
    + intros ? ? ? [= <- <- <-]. exists StFlush, (i :: r). split_and!; [done|set_solver|done].
    + intros ? ? ? j u [= <- <- _] Hj. cbn. rewrite lookup_insert_Some.
      intros [[<- <-]|[Hne Hu]]; [by right|]. left. exists s, first, r, StRevoke. cbn.
      rewrite lookup_insert_eq. split; [done|]. set_solver.
Qed.

(** ** Spawning *)

(** What each position of [spawn_inner] says of its task. *)
Definition spawn_ok (p : spawn_pc) (o : option Task) : Prop :=
  match p with
  | SpAlloc => o = None
  | SpRegister | SpRevoke => exists t, o = Some t /\ k_registered t = false /\ gone (k_future t) = false
  | SpEnqueue => exists t, o = Some t /\ k_registered t = true
  | SpReturned (Ok _) => True
  | SpReturned _ => forall t, o = Some t -> k_registered t = false /\ gone (k_future t) = true
  end.

Lemma ex_ok_spawn x i p : ex_ok x -> spawn_ok p (ex_tasks x !! i) -> ex_ok (set_spawn i p x).
Proof.
  intros [O1 O2 O3 O4 O5 O6 O7 O8 O9] Hp. split; cbn; try done.
  intros j. destruct (decide (i = j)) as [<-|Hne].
  - by rewrite lookup_insert_eq.
  - rewrite lookup_insert_ne by done. apply O9.
Qed.

(** A task that is not registered yet changes together with its spawn. *)
Lemma ex_ok_unregistered x i p t' :
  ex_ok x -> (forall t, ex_tasks x !! i = Some t -> k_registered t = false) ->
  task_ok t' -> k_registered t' = false -> spawn_ok p (Some t') ->
  ex_ok (set_spawn i p (set_task i t' x)).
Proof.
  intros [O1 O2 O3 O4 O5 O6 O7 O8 O9] Hu T' Hr' Hp.
  assert (Hin : forall j, j ∈ ex_list x \/ taken x j -> i <> j).
  { intros j Hj <-. destruct (O3 i Hj) as (t & Ht & Hr). rewrite (Hu t Ht) in Hr. done. }
  split; cbn; try done.
  - intros j u. rewrite lookup_insert_Some. intros [[<- <-]|[Hne Hj]]; eauto.
  - intros j u. rewrite lookup_insert_Some. intros [[<- <-]|[Hne Hj]] Hreg; [congruence|eauto].
  - intros j Hj. destruct (O3 j Hj) as (u & Hju & Hur). exists u.
    by rewrite lookup_insert_ne by (by apply Hin).
  - intros s first j r ph u Hs Hph. rewrite lookup_insert_ne; [eauto|]. apply Hin. right.
    exists s, first, (j :: r), ph. split; [done|]. set_solver.
  - intros j. destruct (decide (i = j)) as [<-|Hne].
    + rewrite !lookup_insert_eq. exact Hp.
    + rewrite !lookup_insert_ne by done. apply O9.
Qed.

Lemma unregistered_future t e f :
  task_ok t -> k_registered t = false -> rv_step false (k_future t) e = Some f ->
  e = Revoke 2 \/ e = DropInPlace 2 \/ e = DropWrapper -> task_ok (with_future t f).
Proof.
  intros T Hr Hs He. split; cbn; try apply T.
  - by eapply on_future_reach.
  - rewrite (rv_step_others _ _ _ _ Hs); [apply T|]. by destruct He as [->|[->| ->]].
  - intros j a Hne Ha. destruct (decide (ev_agent e = Some j)) as [Hej|Hej].
    + pose proof (rv_step_self _ _ _ _ Hs Hej) as Hself.
      destruct He as [->|[->| ->]]; cbn in Hself; [|congruence|done].
      destruct Hself; congruence.
    + rewrite (rv_step_others _ _ _ _ Hs Hej) in Ha. by apply (tk_others _ T j).
  - congruence.
Qed.

Lemma drop_wrapper_gone s f : rv_step false s DropWrapper = Some f -> gone f = true.
Proof. unfold rv_step. destruct (gone s); [done|]. case_decide; [|done]. by intros [= <-]. Qed.

Lemma task_new_ok : task_ok task_new.
Proof. split; cbn; try done. constructor. Qed.

Lemma spawn_register_ok i ok x x' : ex_ok x -> spawn_register i ok x = Some x' -> ex_ok x'.
Proof.
  intros O. unfold spawn_register, on_future. pose proof (xo_spawn _ O i) as Hsp.
  destruct (ex_spawns x !! i) as [[]|] eqn:Hi; try done. destruct Hsp as (t & Ht & Hr & Hg).
  rewrite Ht. pose proof (xo_tasks _ O i t Ht) as T.
  assert (Hu : forall u, ex_tasks x !! i = Some u -> k_registered u = false) by (intros u Hu; congruence).
  destruct (ex_stopped x) eqn:Hst; [|destruct ok].
  - destruct (rv_step false (k_future t) (Revoke 2)) as [f|] eqn:Hs; [|done]. cbn. intros [= <-].
    apply ex_ok_unregistered; try done; [eapply unregistered_future; eauto|].
    exists (with_future t f). split_and!; [done|done|]. by apply (rv_step_gone _ _ _ Hs).
  - intros [= <-]. destruct (tk_unreg _ T Hr) as (Hp & Hrun & Hpo).
    destruct O as [O1 O2 O3 O4 O5 O6 O7 O8 O9]. split; cbn; try done.
    + intros j u. rewrite lookup_insert_Some. intros [[<- <-]|[Hne Hj]]; [|eauto].
      split; cbn; try apply T; done.
    + intros j u. rewrite lookup_insert_Some. intros [[<- <-]|[Hne Hj]] Hreg; [left; set_solver|].
      destruct (O2 j u Hj Hreg) as [H|[H|H]]; auto. left. set_solver.
    + intros j Hj. destruct (decide (i = j)) as [<-|Hne].
      * eexists. rewrite lookup_insert_eq. done.
      * rewrite lookup_insert_ne by done. apply O3. destruct Hj as [Hj|Hj]; [left; set_solver|by right].
    + intros s first j r ph u Hs Hph. rewrite lookup_insert_Some. intros [[<- <-]|[Hne Hj]]; [|eauto].
      cbn. eauto.
    + congruence.
    + intros j. destruct (decide (i = j)) as [<-|Hne].
      * rewrite !lookup_insert_eq. eauto.
      * rewrite !lookup_insert_ne by done. apply O9.
  - destruct (rv_step false (k_future t) DropWrapper) as [f|] eqn:Hs; [|done]. cbn. intros [= <-].
    apply ex_ok_unregistered; try done; [eapply unregistered_future; eauto|].
    intros u [= <-]. split; [done|]. by eapply drop_wrapper_gone.
Qed.

Lemma spawn_late_ok i e x x' :
  ex_ok x -> spawn_revoke i e x = Some x' \/ spawn_return i x = Some x' -> ex_ok x'.
Proof.
  intros O. unfold spawn_revoke, spawn_return, on_future. pose proof (xo_spawn _ O i) as Hsp.
  destruct (ex_spawns x !! i) as [[]|] eqn:Hi; try (by intros [|]).
  destruct Hsp as (t & Ht & Hr & Hg). rewrite Ht. pose proof (xo_tasks _ O i t Ht) as T.
  assert (Hu : forall u, ex_tasks x !! i = Some u -> k_registered u = false) by (intros u Hu; congruence).
  intros [H|H].
  - destruct e as [| | | | | |[|[|[|]]]|]; try done. revert H.
    destruct (rv_step false (k_future t) (DropInPlace 2)) as [f|] eqn:Hs; [|done]. cbn. intros [= <-].
    replace (set_task i (with_future t f) x)
      with (set_spawn i SpRevoke (set_task i (with_future t f) x)).
    + apply ex_ok_unregistered; try done; [eapply unregistered_future; eauto|].
      exists (with_future t f). split_and!; [done|done|]. by apply (rv_step_gone _ _ _ Hs).
    + unfold set_spawn, set_task. cbn. f_equal. by apply insert_id.
  - revert H. destruct (rv_step false (k_future t) DropWrapper) as [f|] eqn:Hs; [|done].
    cbn. intros [= <-]. apply ex_ok_unregistered; try done; [eapply unregistered_future; eauto|].
    intros u [= <-]. split; [done|]. by eapply drop_wrapper_gone.
Qed.

Lemma ex_step_ok x e x' : ex_ok x -> ex_step x e = Some x' -> ex_ok x'.
Proof.
  intros O. destruct e; cbn [ex_step].
  - unfold spawn_check. pose proof (xo_spawn _ O i) as Hsp.
    destruct (ex_spawns x !! i) as [|]; [done|]. intros [= <-].
    apply ex_ok_spawn; [done|]. destruct (ex_stopped x); cbn; [|done]. intros t Ht. congruence.
  - unfold spawn_alloc. pose proof (xo_spawn _ O i) as Hsp.
    destruct (ex_spawns x !! i) as [[]|]; try done. destruct ok; intros [= <-].
    + apply ex_ok_unregistered; try done; [intros t Ht; congruence|apply task_new_ok|].
      exists task_new. done.
    + apply ex_ok_spawn; [done|]. intros t Ht. congruence.
  - by apply spawn_register_ok.
  - intros H. eapply spawn_late_ok; [exact O|left; exact H].
  - intros H. eapply (spawn_late_ok _ DropWrapper); [exact O|right; exact H].
  - unfold spawn_enqueue. pose proof (xo_spawn _ O i) as Hsp.
    destruct (ex_spawns x !! i) as [[]|]; try done. destruct Hsp as (t & Ht & Hr). rewrite Ht.
    intros [= <-]. apply ex_ok_spawn; [|done]. eapply ex_ok_task; eauto.
    apply enqueue_moves; [by eapply xo_tasks|done].
  - apply on_task_ok; [|done]. intros t t' T Hr [= <-]. by apply enqueue_moves.
  - apply on_task_ok; [|done]. apply work_start_moves.
  - apply on_task_ok; [|done]. intros t t'. apply work_access_moves.
  - apply on_task_ok; [|done]. intros t t'. apply work_poll_moves.
  - apply on_task_ok; [|done]. apply work_step_moves.
  - apply on_task_ok; [|done]. intros t t' T Hr. by apply revoke_call_moves.
  - apply on_task_ok; [|done]. apply flush_moves.
  - by apply stop_take_ok.
  - by apply stop_step_ok.
Qed.

Lemma ex_reach_ok x : ex_reach x -> ex_ok x.
Proof. intros [es H]. exact (exec_invariant _ _ ex_step_ok es _ x ex_new_ok H). Qed.

(** ** After [stop] *)

Definition polls_of (x : Executor) (i : nat) : Z :=
  match ex_tasks x !! i with Some t => k_polls t | None => 0 end.

(** The call of [stop] that set the flag has returned. *)
Definition stop_over (x : Executor) : Prop := exists s, ex_stops x !! s = Some (Stopped true).

Lemma stop_over_stopped x : ex_ok x -> stop_over x -> ex_stopped x = true.
Proof. intros O [s Hs]. by eapply xo_stop. Qed.

Lemma stop_over_taken x i : ex_ok x -> stop_over x -> ~ taken x i.
Proof.
  intros O [s Hs] (s' & first & r & ph & Hs' & Hi). destruct first.
  - assert (s = s') as <- by (eapply (xo_calls _ O); eauto). congruence.
  - rewrite (xo_later _ O _ _ _ Hs') in Hi. set_solver.
Qed.

(** When every call has returned, so has the first. *)
Lemma all_returned_over x :
  ex_ok x -> ex_stopped x = true ->
  (forall s p, ex_stops x !! s = Some p -> exists first, p = Stopped first) -> stop_over x.
Proof.
  intros O Hs Hall. destruct (xo_stopped _ O Hs) as (_ & s & p & Hp & Hf).
  destruct (Hall _ _ Hp) as [first ->]. cbn in Hf. subst first. by exists s.
Qed.

Lemma finished_cancelled x i t :
  ex_ok x -> stop_over x -> ex_tasks x !! i = Some t -> k_registered t = true -> cancelled t.
Proof.
  intros O Hf Hi Hr. destruct (xo_cover _ O i t Hi Hr) as [H|[H|H]]; [| |done].
  - rewrite (proj1 (xo_stopped _ O (stop_over_stopped _ O Hf))) in H. set_solver.
  - by apply stop_over_taken in H.
Qed.

Lemma cancelled_not_polling t : task_ok t -> cancelled t -> polling (k_run t) = false.
Proof. intros T [_ H]. rewrite (task_guards t T) in H. by destruct (polling (k_run t)). Qed.

Lemma finished_not_polling x i t :
  ex_ok x -> stop_over x -> ex_tasks x !! i = Some t -> polling (k_run t) = false.
Proof.
  intros O Hf Hi. pose proof (xo_tasks _ O i t Hi) as T. destruct (k_registered t) eqn:Hr.
  - apply cancelled_not_polling; [done|]. by eapply finished_cancelled.
  - by destruct (tk_unreg _ T Hr) as (_ & -> & _).
Qed.

(** Changing one task without polling it. *)
Lemma polls_set_task x i t' :
  k_polls t' = polls_of x i -> forall j, polls_of (set_task i t' x) j = polls_of x j.
Proof.
  intros H j. unfold polls_of at 1. cbn. destruct (decide (i = j)) as [<-|Hne].
  - by rewrite lookup_insert_eq.
  - by rewrite lookup_insert_ne.
Qed.

Lemma moves_polls x i t t' :
  ex_ok x -> stop_over x -> ex_tasks x !! i = Some t -> task_moves t t' ->
  k_polls t' = polls_of x i.
Proof.
  intros O Hf Hi M. unfold polls_of. rewrite Hi. destruct (mv_polls _ _ M) as [H|H]; [done|].
  by rewrite (finished_not_polling x i t) in H.
Qed.

Lemma on_task_polls i f x x' :
  (forall t t', task_ok t -> k_registered t = true -> f t = Some t' -> task_moves t t') ->
  ex_ok x -> stop_over x -> on_task i f x = Some x' ->
  stop_over x' /\ forall j, polls_of x' j = polls_of x j.
Proof.
  intros Hf O Hfin. unfold on_task. destruct (ex_tasks x !! i) as [t|] eqn:Hi; [|done].
  destruct (k_registered t) eqn:Hr; [|done]. destruct (f t) as [t'|] eqn:Ht; [|done].
  cbn. intros [= <-]. split; [done|]. apply polls_set_task.
  eapply moves_polls; eauto. apply Hf; [|done|done]. by eapply xo_tasks.
Qed.

(** The steps on tasks that no worker has: the future changes, the count does not. *)
Lemma spawn_polls x e x' :
  ex_ok x -> stop_over x ->
  match e with
  | SpawnCheck i => spawn_check i x | SpawnAlloc i ok => spawn_alloc i ok x
  | SpawnRegister i ok => spawn_register i ok x | SpawnRevoke i e => spawn_revoke i e x
  | SpawnReturn i => spawn_return i x | SpawnEnqueue i => spawn_enqueue i x | _ => None
  end = Some x' ->
  stop_over x' /\ forall j, polls_of x' j = polls_of x j.
Proof.
  intros O Hf. destruct e; try done.
  - unfold spawn_check. destruct (ex_spawns x !! i); [done|]. by intros [= <-].
  - unfold spawn_alloc. pose proof (xo_spawn _ O i) as Hsp.
    destruct (ex_spawns x !! i) as [[]|]; try done. destruct ok; intros [= <-]; [|done].
    split; [done|]. apply polls_set_task. unfold polls_of. by rewrite Hsp.
  - unfold spawn_register, on_future. destruct (ex_spawns x !! i) as [[]|]; try done.
    destruct (ex_tasks x !! i) as [t|] eqn:Ht; [|done].
    rewrite (stop_over_stopped _ O Hf).
    destruct (rv_step false (k_future t) (Revoke 2)); [|done]. cbn. intros [= <-]. split; [done|].
    apply polls_set_task. unfold polls_of. by rewrite Ht.
  - unfold spawn_revoke, on_future. destruct (ex_spawns x !! i) as [[]|]; try done.
    destruct (ex_tasks x !! i) as [t|] eqn:Ht; [|done].
    destruct e as [| | | | | |[|[|[|]]]|]; try done.
    destruct (rv_step false (k_future t) _); [|done]. cbn. intros [= <-]. split; [done|].
    apply polls_set_task. unfold polls_of. by rewrite Ht.
  - unfold spawn_return, on_future. destruct (ex_spawns x !! i) as [[]|]; try done.
    destruct (ex_tasks x !! i) as [t|] eqn:Ht; [|done].
    destruct (rv_step false (k_future t) _); [|done]. cbn. intros [= <-]. split; [done|].
    apply polls_set_task. unfold polls_of. by rewrite Ht.
  - unfold spawn_enqueue. destruct (ex_spawns x !! i) as [[]|]; try done.
    destruct (ex_tasks x !! i) as [t|] eqn:Ht; [|done]. intros [= <-]. split; [done|].
    apply polls_set_task. unfold polls_of, enqueue, arc_enqueue, queue_work_on. rewrite Ht. by destruct (k_pending t).
Qed.

Lemma stop_polls x e s x' :
  ex_ok x -> stop_over x -> e = StopTake s \/ e = StopStep s -> ex_step x e = Some x' ->
  stop_over x' /\ forall j, polls_of x' j = polls_of x j.
Proof.
  intros O Hf. pose proof (fun i => stop_over_taken x i O Hf) as Hnt. destruct Hf as [s0 Hs0].
  intros [->| ->]; cbn [ex_step].
  - unfold stop_take. destruct (ex_stops x !! s) eqn:Hs; [done|]. intros [= <-]. split; [|done].
    exists s0. cbn. by rewrite lookup_insert_ne by congruence.
  - unfold stop_step. destruct (ex_stops x !! s) as [[first [|i r] ph|]|] eqn:Hs; [| |done..].
    + intros [= <-]. split; [|done]. exists s0. cbn. by rewrite lookup_insert_ne by congruence.
    + exfalso. apply (Hnt i). exists s, first, (i :: r), ph. split; [done|]. set_solver.
Qed.

Lemma step_polls x e x' :
  ex_ok x -> stop_over x -> ex_step x e = Some x' ->
  stop_over x' /\ forall j, polls_of x' j = polls_of x j.
Proof.
  intros O Hf Hs. destruct e; cbn [ex_step] in Hs.
  all: try match type of Hs with on_task _ _ _ = _ => eapply on_task_polls; [|exact O|exact Hf|exact Hs] end.
  - by apply (spawn_polls x (SpawnCheck i)).
  - by apply (spawn_polls x (SpawnAlloc i ok)).
  - by apply (spawn_polls x (SpawnRegister i ok)).
  - by apply (spawn_polls x (SpawnRevoke i e)).
  - by apply (spawn_polls x (SpawnReturn i)).
  - by apply (spawn_polls x (SpawnEnqueue i)).
  - intros t t' T Hr [= <-]. by apply enqueue_moves.
  - apply work_start_moves.
  - intros t t'. apply work_access_moves.
  - intros t t'. apply work_poll_moves.
  - apply work_step_moves.
  - intros t t' T Hr. by apply revoke_call_moves.
  - apply flush_moves.
  - by apply (stop_polls x (StopTake s) s); auto.
  - by apply (stop_polls x (StopStep s) s); auto.
Qed.

Lemma finished_run es x x' :
  ex_ok x -> stop_over x -> exec ex_step x es = Some x' ->
  stop_over x' /\ forall j, polls_of x' j = polls_of x j.
Proof.
  revert x. induction es as [|e r IH]; intros x O Hf; cbn [exec].
  - by intros [= <-].
  - destruct (ex_step x e) as [x1|] eqn:Hs; [|done]. intros Hx.
    destruct (step_polls _ _ _ O Hf Hs) as [Hf1 Hp].
    destruct (IH x1 (ex_step_ok _ _ _ O Hs) Hf1 Hx) as [Hf' Hp']. split; [done|].
    intros j. by rewrite Hp', Hp.
Qed.

(** ** Properties *)

(** C23. Polling is exclusive and safe: in every interleaving of workers, wakers,
    handles, spawns and [stop], a task's future is reached through at most one
    guard at a time, is never touched after it was dropped, is dropped at most
    once, and not while it is being polled. *)
Theorem executor_polls_exclusively x i t :
  ex_reach x -> ex_tasks x !! i = Some t ->
  misused (k_future t) = false /\ guards (k_future t) <= 1 /\ 0 <= dropped (k_future t) <= 1 /\
  (polling (k_run t) = true -> dropped (k_future t) = 0).
Proof.
  intros O%ex_reach_ok Hi. pose proof (xo_tasks _ O i t Hi) as T.
  pose proof (rv_reach_inv _ _ (tk_rv _ T)) as I. pose proof (tk_agent0 _ T) as H0.
  pose proof (task_guards _ T) as Hg. destruct (inv_drop_range _ _ I) as [Hd Hgd].
  split_and!; [apply I|destruct (polling (k_run t)); lia|apply Hd|apply Hd|].
  intros Hp. apply (Hgd 0%nat). destruct (k_run t); try done.
Qed.

(** C24. [stop] is final.  Any number of calls of [stop] may overlap.  Once the call that
    set the stopped flag has returned, or all calls that were made have returned, no future
    is polled ever again, whatever wakes, spawns, revocations and further calls of [stop]
    follow, and no poll is in progress. *)
Theorem stop_is_final x es x' i :
  ex_reach x ->
  stop_over x \/
    (ex_stopped x = true /\ forall s p, ex_stops x !! s = Some p -> exists first, p = Stopped first) ->
  exec ex_step x es = Some x' ->
  polls_of x' i = polls_of x i /\
  (forall t, ex_tasks x' !! i = Some t -> polling (k_run t) = false).
Proof.
  intros O%ex_reach_ok Hd Hx.
  assert (Hf : stop_over x) by (destruct Hd as [Hf|[Hs Hall]]; [done|by apply all_returned_over]).
  destruct (finished_run _ _ _ O Hf Hx) as [Hf' Hp].
  split; [apply Hp|]. intros t Hi.
  pose proof (exec_invariant _ _ ex_step_ok _ _ _ O Hx) as O'. by eapply finished_not_polling.
Qed.

(** C25. A [spawn] that fails leaves nothing behind: once [stop] has started every
    new call returns [EBUSY], and a task whose spawn returned an error was never
    registered or polled and its future has been dropped exactly once. *)
Theorem failed_spawn_drops_future x i :
  ex_reach x ->
  (ex_stopped x = true -> ex_spawns x !! i = None ->
   spawn_check i x = Some (set_spawn i (SpReturned (Err EBUSY)) x)) /\
  (forall e t, ex_spawns x !! i = Some (SpReturned (Err e)) -> ex_tasks x !! i = Some t ->
   k_registered t = false /\ k_polls t = 0 /\ dropped (k_future t) = 1).
Proof.
  intros O%ex_reach_ok. split.
  - intros Hs Hi. unfold spawn_check. by rewrite Hi, Hs.
  - intros e t Hi Ht. pose proof (xo_spawn _ O i) as Hsp. rewrite Hi in Hsp.
    destruct (Hsp t Ht) as [Hr Hg]. pose proof (xo_tasks _ O i t Ht) as T.
    destruct (tk_unreg _ T Hr) as (_ & _ & Hp). split_and!; [done|done|].
    by apply (inv_gone _ _ (rv_reach_inv _ _ (tk_rv _ T))).
Qed.
End Executor.

(** ** Runs *)

#[local] Existing Instance linux_errno.

Definition run_polled (i : nat) (ready : bool) : list ex_event :=
  [SpawnCheck i; SpawnAlloc i true; SpawnRegister i true; SpawnEnqueue i; WorkStart i;
   WorkAccess i (TryLoad 0); WorkAccess i (TryExchange 0 false); WorkPoll i ready;
   WorkStep i; WorkStep i; WorkStep i].

(** Task 0 is polled and woken again, a spawn of task 1 is under way, and [stop]
    comes in. *)
Definition run_stopped : list ex_event :=
  run_polled 0 false ++
  [Wake 0; SpawnCheck 1; SpawnAlloc 1 true; StopTake 0; StopStep 0; StopStep 0; StopStep 0; StopStep 0].

Definition run_late : list ex_event :=
  [SpawnRegister 1 true; SpawnRevoke 1 (DropInPlace 2); SpawnReturn 1; Wake 0; WorkStart 0;
   WorkAccess 0 (TryLoad 0)].

Definition ex_after (es : list ex_event) : Executor :=
  match exec ex_step ex_new es with Some x => x | None => ex_new end.

Lemma executor_polls_exclusively_witness :
  exists t, ex_tasks (ex_after (take 7 (run_polled 0 false))) !! 0%nat = Some t /\
    polling (k_run t) = true /\ dropped (k_future t) = 0.
Proof.
  eexists. split; [vm_compute; reflexivity|]. split; [reflexivity|].
  eapply (executor_polls_exclusively (ex_after (take 7 (run_polled 0 false))) 0).
  - exists (take 7 (run_polled 0 false)). vm_compute. reflexivity.
  - vm_compute. reflexivity.
  - reflexivity.
Defined.

Lemma stop_is_final_witness :
  polls_of (ex_after run_stopped) 0 = 1 /\
  polls_of (ex_after (run_stopped ++ run_late)) 0 = polls_of (ex_after run_stopped) 0.
Proof.
  split; [by vm_compute|].
  apply (stop_is_final (ex_after run_stopped) run_late (ex_after (run_stopped ++ run_late)) 0).
  - exists run_stopped. by vm_compute.
  - left. exists 0%nat. by vm_compute.
  - by vm_compute.
Defined.

Lemma failed_spawn_drops_future_witness :
  exists t, ex_tasks (ex_after (run_stopped ++ run_late)) !! 1%nat = Some t /\
    dropped (k_future t) = 1.
Proof.
  eexists. split; [vm_compute; reflexivity|].
  destruct (failed_spawn_drops_future (ex_after (run_stopped ++ run_late)) 1) as [_ H].
  - exists (run_stopped ++ run_late). by vm_compute.
  - eapply (H EBUSY); by vm_compute.
Defined.

(** [flush] takes a pending item off the queue without running it, and nobody
    takes back the [Arc] that the queue was given: the task is never freed. *)
Theorem flush_leaks_pending_task :
  exists t, ex_tasks (ex_after run_stopped) !! 0%nat = Some t /\
    ex_stops (ex_after run_stopped) !! 0%nat = Some (Stopped true) /\ k_pending t = false /\ k_run t = RunIdle /\ k_given t = 1.
Proof. eexists. split; [vm_compute; reflexivity|]. split_and!; by vm_compute. Qed.

(** A task that completed, and whose future was dropped, stays on the list. *)
Theorem completed_task_stays_listed :
  exists x t, exec ex_step ex_new (run_polled 0 true ++ [WorkStep 0]) = Some x /\
    ex_tasks x !! 0%nat = Some t /\ dropped (k_future t) = 1 /\ k_run t = RunIdle /\
    k_given t = 0 /\ ex_list x = [0%nat].
Proof. eexists _, _. split; [vm_compute; reflexivity|]. split_and!; try by vm_compute. Qed.

(** A second call of [stop] that overlaps the first finds the list empty and returns at
    once, although the first has not yet revoked the tasks it took: a future is polled
    after that call has returned. *)
Definition run_overlap : list ex_event :=
  take 4 (run_polled 0 false) ++ [StopTake 0; StopTake 1; StopStep 1].

Theorem overlapping_stop_returns_early :
  ex_stops (ex_after run_overlap) !! 1%nat = Some (Stopped false) /\
  exists x, exec ex_step (ex_after run_overlap)
      [WorkStart 0; WorkAccess 0 (TryLoad 0); WorkAccess 0 (TryExchange 0 false); WorkPoll 0 false] = Some x /\
    polls_of (ex_after run_overlap) 0 = 0 /\ polls_of x 0 = 1.
Proof. split; [by vm_compute|]. eexists. split; [vm_compute; reflexivity|]. split; by vm_compute. Qed.
